(* ===== verification/_CoqProject ===== *)
-Q . S2P
Prelude.v
Kb.v
Arglists.v
Inet.v
Hosts.v
HostsSpec.v
Scheduler.v
SchedulerSpec.v
PortRanges.v
PlugsReq.v
PluginLaunch.v
Preferences.v
Attack.v
AttackSpec.v
AttackNetwork.v
Nasl.v
NaslVar.v
NaslExec.v
NaslFuel.v
NaslProg.v
NaslProgSpec.v
NaslCopy.v
NaslTypes.v
NaslLimits.v
NaslLex.v
NaslGrammar.v
NaslParse.v
NaslAutomaton.v
NaslParseSpec.v
NaslTime.v
NaslText.v
NaslTextSpec.v
NaslTextTypes.v
NaslScript.v
NaslScriptSpec.v
ServerBuffer.v
Otp.v
OtpSend.v
OtpDb.v
OtpRuns.v
OtpSpec.v
OtpPlugins.v
OtpReader.v
OtpLink.v
