(* ===== verification/Prelude.v ===== *)
(** * The OpenVAS scanner, its libraries and its manager in Rocq

    The repository holds the OpenVAS 7 family: the libraries
    ([openvas-libraries-7.0.10]), the scanner ([openvas-scanner-4.0.6]), the
    manager ([openvas-manager-5.0.10]), a web front end and a command line client.
    This development follows a scan: the target hosts, the knowledge base of a
    host, the order in which the plugins run, the processes they run in and the
    loops that put these together; the scripts the plugins are written in (NASL),
    from their text to what they do; and the protocol (OTP) in which the scanner
    reports to the manager.

    ** Layout

    - [Prelude] (this file): 32-bit integers ([MInt]), C strings ([CStr]), GLib's
      string functions as a class ([Glib], laws [GlibSpec], a reference instance),
      the results of code that may not return ([outcome], [M]) and lemmas the
      components share.

    The scanner:
    - [Kb]: the knowledge base, [misc/kb.c]: hashed chains of items.  Property: it
      refines a map from names to lists of values.
    - [Arglists]: argument lists with their cache of strings, [misc/arglists.c].
    - [Inet]: IPv4 and IPv6 addresses as text ([inet_pton], [inet_ntop]).
    - [Hosts], [HostsSpec]: target specifications and collections of hosts,
      [base/openvas_hosts.c]: classification, expansion of ranges and blocks,
      duplicates, exclusion, reverse lookup.
    - [PortRanges]: texts of port ranges, [base/openvas_networking.c].
    - [Scheduler], [SchedulerSpec]: [pluginscheduler.c], the order of the plugins.
      The process manager is the class [ProcessManager] with the laws
      [ProcessManagerLaws] and the progress law [ProcessManagerLive]; the theorems
      on the scheduler are proved against these.
    - [PlugsReq]: [plugs_req.c], parts of [utils.c] and [misc/plugutils.c]: what a
      plugin requires.
    - [PluginLaunch]: [pluginlaunch.c], the table of processes.  Its instances
      discharge the laws the scheduler relies on.
    - [Preferences]: [preferences.c] with what its getters keep.
    - [Attack], [AttackSpec]: [launch_plugin] and [attack_host] of [attack.c], the
      composition of scheduler, process manager, requirements and knowledge base.
    - [AttackNetwork]: [attack_network] of [attack.c] and the access control.

    NASL ([openvas-libraries-7.0.10/nasl]):
    - [Nasl]: cells of parse trees, variables, arrays, functions, contexts
      ([nasl_tree.h], [nasl_var.h], [nasl_func.h], [nasl_lex_ctxt.h]).
    - [NaslVar]: [nasl_var.c], the operations on variables and arrays.
    - [NaslExec]: [exec.c], [nasl_func.c], [nasl_lex_ctxt.c], the interpreter.
      [NaslFuel]: its results do not depend on the fuel.
    - [NaslProg], [NaslProgSpec]: a reference semantics of programs over scalars and
      its refinement by the interpreter.  [NaslCopy]: copies of arrays.
      [NaslTypes]: types of cells and isolation of calls.  [NaslLimits]: where the
      machine shows through.
    - [NaslLex], [NaslGrammar], [NaslParse]: [mylex], the LALR tables and the parser
      with its actions ([nasl_grammar.tab.c]).  [NaslAutomaton], [NaslParseSpec]:
      the automaton is right for the grammar, the parser returns and is sound.
    - [NaslTime]: [nasl_isotime.c].  [NaslText], [NaslTextSpec], [NaslTextTypes]:
      [nasl_text_utils.c], [strutils.c], [exit] of [nasl_misc_funcs.c], and that these
      functions keep the types.
    - [NaslScript], [NaslScriptSpec]: [nasl_init.c] and [exec_nasl_script], the
      composition of parser, library and interpreter.

    The manager and OTP:
    - [ServerBuffer]: [ovas-mngr-comm.c], the manager's output buffer.
    - [Otp]: [otp.c] of the manager, the reader of the scanner's messages.
      [OtpSend]: the messages as the scanner prints them ([comm.c], [ntp.c],
      [misc/plugutils.c], [attack.c]).
    - [OtpDb]: what the reader relies on of the database functions, the class
      [Manager] with [ManagerLaws] and an instance that logs the calls.
    - [OtpRuns]: the reading of a whole stream, independent of how it is cut into
      pieces; [OtpSpec], [OtpPlugins]: what the manager makes of a scan and of the
      list of plugins; [OtpReader]: the reader on any input.
    - [OtpLink]: [read_from_server] and [write_to_scanner] of [ompd.c].

    ** Conventions

    A function that returns is a Rocq function.  Where the code may not return or
    leaves defined behaviour the result is an [outcome]: [Ret], [NoReturn]
    (no result within the fuel) or [Undef] (undefined behaviour, a false assertion,
    a division by zero, a NULL dereference).  Static and heap data become records
    that are passed along; plugins are numbered.  Integers are in [Z], with
    wrap-around ([MInt]) where it can happen.  Strings are [String.string]; C strings
    have no zero bytes, the data of NASL and the bytes of a connection may.

    Fuel: [next_loop] needs one unit per category and per wait, the recursion over
    dependencies as many as the longest chain; the loops that wait for processes
    one per round.  [next_terminates], [plugin_launch_returns] and
    [attack_host_completes] say how much is enough; [hosts_new_with_max_total] does
    so for the expansion of target lists.  The lexical analyser and the parser are
    given fuel that is always enough ([parser_returns]); the reader of OTP has as
    much as there are bytes to read, plus one ([reader_returns]); [nasl_exec] has one
    unit per level of the tree, of calls and of rounds of a loop, and may use it up,
    as a script may loop.  Theorems named [..._diverges] say where no fuel is enough.

    Code outside the repository is a parameter: GLib's [g_str_hash], [g_strsplit]
    and [g_strstrip] (class [Glib]), its random numbers and [g_convert], the
    resolver, [fork], [select], clocks, signals (the records [environment],
    [attack_env], [net_env]), regular expressions, files, GnuTLS.  So are parts of
    the repository that are not modelled when a modelled function calls them: the
    NVT cache, [comm_send_status], [hosts_new], the MAC addresses, the start of a
    script's process, the functions in C of NASL other than [exit] and those on
    texts and times, the manager's database (class [Manager]).

    What the code reads where nothing says what is there is a parameter too: the byte
    of a text that has just been freed ([FreedMemory] of [Hosts]), bytes never
    written ([stale] of [NaslText]), the memory behind a buffer ([beyond] of [Otp]).
    The theorems hold for all such bytes or say which they assume.

    A plugin whose process could not be forked is put back to be launched again
    ([tr_unrun] of [SchedulerSpec]); the theorems on the scheduler say what holds of
    it.  [exit] of NASL gives every context, up to the script's, the value to return
    ([nasl_do_exit]); the theorems on types and calls say so.

    ** What the theorems show

    Where a name is a lemma of its file rather than one of the main theorems this is
    said in parentheses.

    - A scan: [attack_host_completes] (it ends with every plugin done, nothing
      running, nothing launched twice), [attack_host_safe] (no undefined behaviour when there
      is a plugin, the limit of processes is 1 to 32, forks succeed and death is
      final), [launches_allowed] (what may be launched), [attack_network_verdicts] (which hosts are scanned),
      [iface_authorized_spec] (lemma).
    - The scheduler: [launch_order], [scan_complete], [next_terminates],
      [ports_table_exact]; lemmas [next_launch_ready], [enable_closure],
      [init_well_formed].
    - Processes: [plugin_launch_correct], [plugin_launch_returns].
    - Data: [kb_refines_multimap], [arg_list_is_map]; lemmas [kb_pattern_complete],
      [kb_add_no_duplicates], [arg_dup_free_balanced], [str2arglist_names],
      [slashes_roundtrip].
    - Targets and ports: [hosts_new_range], [hosts_new_with_max_total],
      [requirements_met_iff]; lemmas [hosts_new_cidr], [hosts_counters_invariant],
      [exclude_is_difference], [dedup_correct], [expand6_enumerates],
      [in_hosts_spec], [validated_ranges], [port_conflict_iff].
    - NASL programs: [program_correct] and [expression_value] (the interpreter does
      what the reference semantics says), [results_typed], [calls_isolated],
      [assignment_copies]; [nasl_exec_fuel] (lemma).
    - NASL texts to trees: [parser_returns], [parser_sound]; trees to runs:
      [script_phases], [script_ends_in_order]; [library_complete] (lemma).
    - NASL functions: [julian_roundtrip], [isotime_add_correct],
      [regreplace_correct], [escapes_roundtrip].
    - OTP: [messages_recorded], [plugin_result_recorded], [plugin_list_received] (what
      the scanner prints is what the manager enters, whatever pieces it arrives in),
      [reader_returns], [server_buffer_order].
    - What goes wrong: [int_comparison_limits], [array2str_room],
      [int_arguments_shared], [completion_lost]; lemmas [assignment_use_after_free],
      [scanner_stops_manager], [version_sent] (examples of runs), [limit_not_kept],
      [retried_plugin_unrun], [dependency_cycle_diverges], [hosts_new_diverges],
      [network_scan_diverges], [array_as_int_diverges].

    ** Not modelled

    Freeing of memory (but for the counts of the string cache and what NASL variables
    can lose while they are used), reference counts of cells, log messages and
    traces.  Sockets and TLS sessions, the commands the manager sends to the scanner
    as the scanner reads them, internal messages between the scanner's processes.
    Files: saved knowledge bases, configuration, the NVT cache.  The functions in C
    of NASL that talk to the network, to SSH, SMB or WMI, forge packets or compute
    digests; the error token of the NASL grammar (no state recovers).  OMP, the SQL
    layer of the manager, the web front end and the command line client. *)

From stdpp Require Import base gmap sets list strings.
From Stdlib Require Import Ascii ZArith Lia.
From Stdlib Require Export ZifyBool.

Declare Scope ov_scope.
Delimit Scope ov_scope with ov.
Local Open Scope Z_scope.

Create HintDb ov.

(** ** Machine integers *)

Module MInt.

(** [int] : 32-bit two's complement. *)
Definition wrap32 (z : Z) : Z := (z + 2 ^ 31) mod 2 ^ 32 - 2 ^ 31.
(** [unsigned int] / [uint32_t]. *)
Definition uwrap32 (z : Z) : Z := z mod 2 ^ 32.
(** [unsigned long] (LP64). *)
Definition uwrap64 (z : Z) : Z := z mod 2 ^ 64.

Definition INT_MIN : Z := - 2 ^ 31.
Definition INT_MAX : Z := 2 ^ 31 - 1.
Definition LONG_MIN : Z := - 2 ^ 63.
Definition LONG_MAX : Z := 2 ^ 63 - 1.

Definition int_range (z : Z) : Prop := INT_MIN <= z <= INT_MAX.

Lemma wrap32_range z : int_range (wrap32 z).
Proof.
  unfold int_range, wrap32, INT_MIN, INT_MAX.
  pose proof (Z.mod_pos_bound (z + 2 ^ 31) (2 ^ 32) ltac:(lia)). lia.
Qed.

Lemma wrap32_id z : int_range z -> wrap32 z = z.
Proof.
  unfold int_range, wrap32, INT_MIN, INT_MAX. intros.
  rewrite Z.mod_small; lia.
Qed.

Lemma wrap32_idem z : wrap32 (wrap32 z) = wrap32 z.
Proof. apply wrap32_id, wrap32_range. Qed.

Lemma wrap32_congr z : exists k, wrap32 z = z + k * 2 ^ 32.
Proof.
  exists (- ((z + 2 ^ 31) / 2 ^ 32)). unfold wrap32.
  rewrite Z.mod_eq by lia. lia.
Qed.

Lemma wrap32_mod z z' : z mod 2 ^ 32 = z' mod 2 ^ 32 -> wrap32 z = wrap32 z'.
Proof.
  intros H. unfold wrap32. f_equal.
  rewrite (Z.add_mod z), (Z.add_mod z') by lia. by rewrite H.
Qed.

Lemma wrap32_modeq z : wrap32 z mod 2 ^ 32 = z mod 2 ^ 32.
Proof.
  destruct (wrap32_congr z) as [k ->]. by rewrite Z.mod_add by lia.
Qed.

Lemma uwrap32_range z : 0 <= uwrap32 z < 2 ^ 32.
Proof. apply Z.mod_pos_bound. lia. Qed.

Lemma uwrap32_id z : 0 <= z < 2 ^ 32 -> uwrap32 z = z.
Proof. apply Z.mod_small. Qed.

End MInt.

#[export] Hint Resolve MInt.wrap32_range MInt.uwrap32_range : ov.

(** ** C strings

    A C string is a [string]; the terminating NUL is the end of the string.
    A pointer that may be NULL is an [option string]. *)

Module CStr.

Definition code (c : ascii) : Z := Z.of_N (N_of_ascii c).

Definition isdigit (c : ascii) : bool := (48 <=? code c) && (code c <=? 57).
Definition isupper (c : ascii) : bool := (65 <=? code c) && (code c <=? 90).
Definition islower (c : ascii) : bool := (97 <=? code c) && (code c <=? 122).
Definition isalpha (c : ascii) : bool := isupper c || islower c.
Definition isalnum (c : ascii) : bool := isdigit c || isalpha c.
Definition isspace (c : ascii) : bool :=
  (code c =? 32) || ((9 <=? code c) && (code c <=? 13)).
Definition isblank (c : ascii) : bool := (code c =? 32) || (code c =? 9).
Definition tolower (c : ascii) : ascii :=
  if isupper c then ascii_of_N (N_of_ascii c + 32) else c.

(** Value of a digit character in a base up to 16, [None] if it is none. *)
Definition digit_val (base : Z) (c : ascii) : option Z :=
  let v := if isdigit c then Some (code c - 48)
           else if (97 <=? code (tolower c)) && (code (tolower c) <=? 102)
                then Some (code (tolower c) - 87) else None in
  match v with
  | Some d => if d <? base then Some d else None
  | None => None
  end.

Definition isxdigit (c : ascii) : bool :=
  match digit_val 16 c with Some _ => true | None => false end.

Fixpoint slen (s : string) : Z :=
  match s with EmptyString => 0 | String _ s' => 1 + slen s' end.

(** [strchr]: the text before the first [c] and the text after it, the two
    strings the callers get by writing a NUL over the character found. *)
Fixpoint strchr_split (c : ascii) (s : string) : option (string * string) :=
  match s with
  | EmptyString => None
  | String d s' =>
      if decide (c = d) then Some (EmptyString, s')
      else match strchr_split c s' with
           | Some (a, b) => Some (String d a, b)
           | None => None
           end
  end.

Fixpoint mem_char (c : ascii) (s : string) : bool :=
  match s with
  | EmptyString => false
  | String d s' => if decide (c = d) then true else mem_char c s'
  end.

Fixpoint skip (f : ascii -> bool) (s : string) : string :=
  match s with
  | String c s' => if f c then skip f s' else s
  | EmptyString => EmptyString
  end.

Definition peek (s : string) : option ascii :=
  match s with String c _ => Some c | EmptyString => None end.

(** The digits of [strtol]: value so far, text left, whether one was read. *)
Fixpoint digits (base acc : Z) (s : string) : Z * string :=
  match s with
  | String c s' =>
      match digit_val base c with
      | Some d => digits base (acc * base + d) s'
      | None => (acc, s)
      end
  | EmptyString => (acc, EmptyString)
  end.

Definition clamp_long (z : Z) : Z := Z.max MInt.LONG_MIN (Z.min MInt.LONG_MAX z).

Definition sign (s : string) : bool * string :=
  match s with
  | String "-" s' => (true, s')
  | String "+" s' => (false, s')
  | _ => (false, s)
  end.

(** Base prefix of [strtol (_, _, base)]: "0x" for 16 and 0, "0" for 0. *)
Definition base_prefix (base : Z) (s : string) : Z * string :=
  match s with
  | String "0" (String x s') =>
      if ((base =? 16) || (base =? 0)) && (code (tolower x) =? 120)
         && (match peek s' with Some d => isxdigit d | None => false end)
      then (16, s')
      else if base =? 0 then (8, s) else (base, s)
  | String "0" EmptyString => if base =? 0 then (8, s) else (base, s)
  | _ => if base =? 0 then (10, s) else (base, s)
  end.

(** The number at the start of a text and the text after it. *)
Definition strtol_raw (base : Z) (s : string) : Z * string :=
  let '(neg, s1) := sign (skip isspace s) in
  let '(b, s2) := base_prefix base s1 in
  match s2 with
  | String c _ =>
      match digit_val b c with
      | Some _ => let '(v, rest) := digits b 0 s2 in (if neg : bool then - v else v, rest)
      | None => (0, s)
      end
  | EmptyString => (0, s)
  end.

(** [strtol (s, &end, base)]: the value, saturated to [long], and [end];
    [errno] is set when it was saturated. *)
Definition strtol (base : Z) (s : string) : Z * string :=
  let '(v, rest) := strtol_raw base s in (clamp_long v, rest).
Definition strtol_errno (base : Z) (s : string) : bool :=
  negb (clamp_long (fst (strtol_raw base s)) =? fst (strtol_raw base s)).

(** [atoi]: [(int) strtol (s, NULL, 10)]. *)
Definition atoi (s : string) : Z := MInt.wrap32 (fst (strtol 10 s)).

(** First occurrence of a substring ([strstr]/[memmem]): text before it and
    text after it. *)
Fixpoint drop_prefix (p s : string) : option string :=
  match p, s with
  | EmptyString, _ => Some s
  | String a p', String b s' => if decide (a = b) then drop_prefix p' s' else None
  | _, EmptyString => None
  end.

Fixpoint strstr_split (s p : string) : option (string * string) :=
  match drop_prefix p s with
  | Some rest => Some (EmptyString, rest)
  | None =>
      match s with
      | EmptyString => None
      | String c s' =>
          match strstr_split s' p with
          | Some (a, b) => Some (String c a, b)
          | None => None
          end
      end
  end.

(** The pieces of a text between the occurrences of a separator. *)
Fixpoint split_str (fuel : nat) (sep s : string) : list string :=
  match fuel with
  | O => [s]
  | S n => match strstr_split s sep with
           | Some (a, b) => a :: split_str n sep b
           | None => [s]
           end
  end.
Definition split_all (sep s : string) : list string :=
  match s with EmptyString => [] | _ => split_str (String.length s) sep s end.

Fixpoint rev_str (acc s : string) : string :=
  match s with EmptyString => acc | String c s' => rev_str (String c acc) s' end.

(** The text without its leading and trailing white space. *)
Definition strip (s : string) : string :=
  rev_str EmptyString (skip isspace (rev_str EmptyString (skip isspace s))).

Fixpoint map_str (f : ascii -> ascii) (s : string) : string :=
  match s with EmptyString => EmptyString | String c s' => String (f c) (map_str f s') end.

Fixpoint all_str (f : ascii -> bool) (s : string) : bool :=
  match s with EmptyString => true | String c s' => f c && all_str f s' end.

(** [strncpy (dst, s, n)] into a zeroed buffer of more than [n] bytes. *)
Fixpoint take_str (n : nat) (s : string) : string :=
  match n, s with
  | S n', String c s' => String c (take_str n' s')
  | _, _ => EmptyString
  end.

(** [s + n] *)
Fixpoint drop_str (n : nat) (s : string) : string :=
  match n, s with
  | S n', String _ s' => drop_str n' s'
  | _, _ => s
  end.
Definition sub_str (i n : nat) (s : string) : string := take_str n (drop_str i s).

(** [strcasecmp (a, b) == 0]. *)
Definition strcaseeq (a b : string) : bool :=
  if decide (map_str tolower a = map_str tolower b) then true else false.

(** *** Decimal printing ("%d", "%u") *)
Definition digit_char (d : Z) : ascii := ascii_of_N (Z.to_N (48 + d)).
Fixpoint dec_pos (fuel : nat) (z : Z) (acc : string) : string :=
  match fuel with
  | O => acc
  | S n => if z <? 10 then String (digit_char z) acc
           else dec_pos n (z / 10) (String (digit_char (z mod 10)) acc)
  end.
Definition dec (z : Z) : string :=
  if z <? 0 then String "-" (dec_pos 64 (- z) EmptyString)
  else dec_pos 64 z EmptyString.

(** *** Lemmas *)

Lemma strchr_split_app c s a b :
  strchr_split c s = Some (a, b) ->
  s = (a +:+ String c b) /\ mem_char c a = false.
Proof.
  revert a; induction s as [|d s IH]; intros a; simpl; [done|].
  case_decide as Hd.
  - intros [= <- <-]. by subst.
  - destruct (strchr_split c s) as [[a' b']|] eqn:E; [|done].
    intros [= <- <-]. destruct (IH a' eq_refl) as [-> ?].
    split; [done|]. simpl. by rewrite decide_False.
Qed.

Lemma strchr_split_intro c a b :
  mem_char c a = false -> strchr_split c (a +:+ String c b) = Some (a, b).
Proof.
  induction a as [|d a IH]; simpl.
  - intros _. by rewrite decide_True.
  - case_decide; [done|]. intros H'. change (String.append a (String c b)) with (a +:+ String c b).
    by rewrite (IH H').
Qed.

Lemma drop_prefix_app p s r : drop_prefix p s = Some r <-> s = (p +:+ r).
Proof.
  revert s; induction p as [|a p IH]; intros s; simpl.
  - split; [by intros [= ->]|by intros ->].
  - destruct s as [|b s]; [split; done|].
    case_decide as Hab; subst.
    + rewrite IH. split; [by intros ->|by intros [= ->]].
    + split; [done|intros [= ]; done].
Qed.

Lemma strstr_split_app s p a b :
  strstr_split s p = Some (a, b) -> s = (a +:+ (p +:+ b)).
Proof.
  revert a; induction s as [|c s IH]; intros a; simpl.
  - destruct (drop_prefix p EmptyString) eqn:E; [|done].
    apply drop_prefix_app in E. intros [= <- <-]. done.
  - destruct (drop_prefix p (String c s)) eqn:E.
    + apply drop_prefix_app in E. intros [= <- <-]. done.
    + destruct (strstr_split s p) as [[a' b']|] eqn:E'; [|done].
      intros [= <- <-]. simpl. by rewrite (IH a' eq_refl).
Qed.

Lemma split_str_join n sep s : String.concat sep (split_str n sep s) = s.
Proof.
  revert s; induction n as [|n IH]; intros s; [done|]. simpl.
  destruct (strstr_split s sep) as [[a b]|] eqn:E; [|done].
  apply strstr_split_app in E as ->. specialize (IH b).
  destruct n as [|n]; simpl in *; [done|].
  destruct (strstr_split b sep) as [[a' b']|]; [|done]. simpl in *.
  by rewrite IH.
Qed.

Lemma strstr_split_length s sep a b :
  strstr_split s sep = Some (a, b) ->
  String.length s = (String.length a + (String.length sep + String.length b))%nat.
Proof.
  intros H. apply strstr_split_app in H as ->.
  assert (forall x y, String.length (x +:+ y) = (String.length x + String.length y)%nat) as Hl.
  { intros x y. induction x as [|c x IH]; [done|].
    change (String c x +:+ y) with (String c (x +:+ y)). simpl. by rewrite IH. }
  by rewrite !Hl.
Qed.

Lemma append_assoc (a b c : string) : (a +:+ b) +:+ c = a +:+ (b +:+ c).
Proof.
  induction a as [|x a IH]; [done|].
  change (String x ((a +:+ b) +:+ c) = String x (a +:+ (b +:+ c))). by rewrite IH.
Qed.

(** The first occurrence: no occurrence ends before it. *)
Lemma strstr_split_first s sep a b :
  sep <> EmptyString -> strstr_split s sep = Some (a, b) -> strstr_split a sep = None.
Proof.
  intros Hsep. revert a; induction s as [|c s IH]; intros a; simpl.
  - destruct (drop_prefix sep EmptyString) as [r|] eqn:E; [|done].
    apply drop_prefix_app in E. destruct sep; [done|]. discriminate E.
  - destruct (drop_prefix sep (String c s)) as [r|] eqn:E.
    + intros [= <- <-]. simpl. destruct sep; [done|]. done.
    + destruct (strstr_split s sep) as [[a' b']|] eqn:E'; [|done].
      intros [= <- <-]. simpl. specialize (IH a' eq_refl). rewrite IH.
      destruct (drop_prefix sep (String c a')) as [r|] eqn:E2; [|done].
      exfalso. apply strstr_split_app in E' as ->. apply drop_prefix_app in E2.
      destruct (drop_prefix sep (String c (a' +:+ (sep +:+ b')))) eqn:E3; [done|].
      change (String c (a' +:+ (sep +:+ b'))) with (String c a' +:+ (sep +:+ b')) in E3.
      rewrite E2, append_assoc in E3.
      rewrite (proj2 (drop_prefix_app sep _ (r +:+ (sep +:+ b'))) eq_refl) in E3. done.
Qed.

(** [split_all] cuts a text into the pieces between the separators. *)
Lemma split_all_spec sep s :
  sep <> EmptyString -> s <> EmptyString ->
  String.concat sep (split_all sep s) = s
  /\ Forall (fun w => strstr_split w sep = None) (split_all sep s).
Proof.
  intros Hsep Hs. unfold split_all. destruct s as [|c s0]; [done|].
  set (s := String c s0). split; [apply split_str_join|].
  assert (forall n s, (String.length s <= n)%nat ->
            Forall (fun w => strstr_split w sep = None) (split_str n sep s)) as H.
  { clear s Hs. induction n as [|n IH]; intros s Hn.
    - destruct s; [|simpl in Hn; lia]. constructor; [|constructor]. by destruct sep.
    - simpl. destruct (strstr_split s sep) as [[a b]|] eqn:E; [|by constructor].
      constructor; [by eapply strstr_split_first|]. apply IH.
      apply strstr_split_length in E. destruct sep; [done|]. simpl in E. lia. }
  by apply H.
Qed.

Lemma append_nil_r (a : string) : (a +:+ EmptyString) = a.
Proof.
  induction a as [|x a IH]; [done|].
  change (String x (a +:+ EmptyString) = String x a). by rewrite IH.
Qed.

Lemma rev_str_spec acc s : rev_str acc s = (rev_str EmptyString s +:+ acc).
Proof.
  revert acc; induction s as [|c s IH]; intros acc; [done|]. simpl.
  rewrite IH, (IH (String c EmptyString)), append_assoc. done.
Qed.

Lemma rev_str_app a b : rev_str EmptyString (a +:+ b) = (rev_str EmptyString b +:+ rev_str EmptyString a).
Proof.
  induction a as [|c a IH].
  - simpl. by rewrite append_nil_r.
  - change (String c a +:+ b) with (String c (a +:+ b)). simpl.
    by rewrite !(rev_str_spec (String c EmptyString)), IH, append_assoc.
Qed.

Lemma rev_str_invol s : rev_str EmptyString (rev_str EmptyString s) = s.
Proof.
  induction s as [|c s IH]; [done|]. simpl.
  by rewrite (rev_str_spec (String c EmptyString)), rev_str_app, IH.
Qed.

Lemma all_str_app f a b : all_str f (a +:+ b) = all_str f a && all_str f b.
Proof.
  induction a as [|c a IH]; [done|].
  change (f c && all_str f (a +:+ b) = f c && all_str f a && all_str f b).
  by rewrite IH, andb_assoc.
Qed.

Lemma append_cons (c : ascii) (s t : string) : (String c s +:+ t) = String c (s +:+ t).
Proof. done. Qed.

Lemma all_str_rev f s : all_str f (rev_str EmptyString s) = all_str f s.
Proof.
  induction s as [|c s IH]; [done|]. simpl.
  rewrite rev_str_spec, all_str_app, IH. simpl. by rewrite andb_true_r, andb_comm.
Qed.

Lemma drop_drop i j s : drop_str i (drop_str j s) = drop_str (j + i) s.
Proof. revert s. induction j as [|j IH]; intros [|c s]; cbn; [done|done|by destruct i|apply IH]. Qed.

Lemma all_str_impl (f g : ascii -> bool) s :
  (forall c, f c = true -> g c = true) -> all_str f s = true -> all_str g s = true.
Proof.
  intros Hfg. induction s as [|c s IH]; simpl; [done|].
  rewrite !andb_true_iff. intros [??]. auto.
Qed.

Lemma all_str_mem f c s : all_str f s = true -> f c = false -> mem_char c s = false.
Proof.
  induction s as [|d s IH]; simpl; [done|]. rewrite andb_true_iff. intros [Hd Hs] Hc.
  case_decide; [congruence|auto].
Qed.

Lemma mem_char_app c a b : mem_char c (a +:+ b) = mem_char c a || mem_char c b.
Proof.
  induction a as [|d a IH]; [done|].
  change (String d a +:+ b) with (String d (a +:+ b)). simpl. by case_decide.
Qed.

Lemma strchr_split_none c s : mem_char c s = false -> strchr_split c s = None.
Proof.
  induction s as [|d s IH]; simpl; [done|]. case_decide; [done|]. intros H'. by rewrite (IH H').
Qed.

Lemma strchr_split_none_inv c s : strchr_split c s = None -> mem_char c s = false.
Proof.
  induction s as [|d s IH]; simpl; [done|]. case_decide; [done|].
  destruct (strchr_split c s) as [[??]|]; [done|auto].
Qed.

Lemma strstr_split_char c s : strstr_split s (String c EmptyString) = strchr_split c s.
Proof.
  induction s as [|d s IH]; [done|]. simpl. case_decide; [done|]. by rewrite IH.
Qed.

Lemma code_inj c d : code c = code d -> c = d.
Proof.
  unfold code. intros E%N2Z.inj.
  by rewrite <- (ascii_N_embedding c), <- (ascii_N_embedding d), E.
Qed.

Lemma slen_nonneg s : 0 <= slen s.
Proof. induction s; simpl; lia. Qed.

Lemma slen_length s : slen s = Z.of_nat (String.length s).
Proof. induction s as [|c s IH]; cbn [slen String.length]; lia. Qed.

Lemma slen_app s t : slen (s +:+ t) = slen s + slen t.
Proof. induction s as [|c s IH]; [done|]. change (String c s +:+ t) with (String c (s +:+ t)). simpl. lia. Qed.

Lemma slen_take n s : slen (take_str n s) = Z.min (Z.of_nat n) (slen s).
Proof.
  revert s. induction n as [|n IH]; intros [|c s]; simpl; try lia.
  - pose proof (slen_nonneg s). lia.
  - rewrite IH. lia.
Qed.

Lemma slen_drop n s : slen (drop_str n s) = Z.max 0 (slen s - Z.of_nat n).
Proof.
  revert s. induction n as [|n IH]; intros [|c s]; simpl; try lia.
  - pose proof (slen_nonneg s). lia.
  - rewrite IH. lia.
Qed.

Lemma take_drop n s : (take_str n s +:+ drop_str n s) = s.
Proof.
  revert s. induction n as [|n IH]; intros [|c s]; try done.
  change (String c (take_str n s +:+ drop_str n s) = String c s). by rewrite IH.
Qed.

Lemma take_str_all n s : (String.length s <= n)%nat -> take_str n s = s.
Proof.
  revert s. induction n as [|n IH]; intros [|c s]; simpl; try done; [lia|].
  intros. f_equal. apply IH. lia.
Qed.

Lemma take_app a b : take_str (String.length a) (a +:+ b) = a.
Proof.
  induction a as [|c a IH]; [by destruct b|].
  change (String c (take_str (String.length a) (a +:+ b)) = String c a). by rewrite IH.
Qed.

Lemma drop_app a b : drop_str (String.length a) (a +:+ b) = b.
Proof. induction a as [|c a IH]; [by destruct b|]. exact IH. Qed.

(** The cut of a text that has no separator character is the text. *)
Lemma concat_one_piece c (l : list string) s :
  s <> EmptyString -> mem_char c s = false ->
  String.concat (String c EmptyString) l = s -> l = [s].
Proof.
  intros Hs Hc. destruct l as [|w [|w' l]]; simpl; [by intros <-|by intros ->|].
  intros <-. exfalso. rewrite mem_char_app in Hc.
  apply orb_false_iff in Hc as [_ Hc]. simpl in Hc. by rewrite decide_True in Hc.
Qed.

Lemma skip_none f s :
  match peek s with Some c => f c = false | None => True end -> skip f s = s.
Proof. destruct s as [|c s]; [done|]. simpl. by intros ->. Qed.

Lemma strip_none s :
  match peek s with Some c => isspace c = false | None => True end ->
  match peek (rev_str EmptyString s) with Some c => isspace c = false | None => True end ->
  strip s = s.
Proof.
  intros H1 H2. unfold strip. rewrite (skip_none _ s), skip_none by done.
  apply rev_str_invol.
Qed.

End CStr.

(** ** GLib

    The sources call GLib; the functions of it whose result the code computes
    with are the operations of this class, and [GlibSpec] is what the code
    relies on of their documentation.  [glib_ref] is one implementation. *)

Class Glib := {
  g_str_hash : string -> Z;
  g_strsplit : string -> string -> list string;  (* separator, text *)
  g_strstrip : string -> string }.

Class GlibSpec `{G : Glib} : Prop := {
  g_strsplit_empty sep : sep <> EmptyString -> g_strsplit sep EmptyString = [];
  g_strsplit_pieces sep s : sep <> EmptyString -> s <> EmptyString ->
    String.concat sep (g_strsplit sep s) = s
    /\ Forall (fun w => CStr.strstr_split w sep = None) (g_strsplit sep s);
  g_strstrip_none s :
    match CStr.peek s with Some c => CStr.isspace c = false | None => True end ->
    match CStr.peek (CStr.rev_str EmptyString s) with
    | Some c => CStr.isspace c = false | None => True end ->
    g_strstrip s = s }.

(** djb's hash on [guint32]. *)
Fixpoint str_hash (h : Z) (s : string) : Z :=
  match s with
  | EmptyString => h
  | String c s' =>
      let b := if CStr.code c <? 128 then CStr.code c else CStr.code c - 256 in
      str_hash (MInt.uwrap32 (h * 33 + b)) s'
  end.

#[export] Instance glib_ref : Glib :=
  {| g_str_hash := str_hash 5381;
     g_strsplit := CStr.split_all;
     g_strstrip := CStr.strip |}.

#[export] Instance glib_ref_spec : GlibSpec.
Proof.
  split.
  - done.
  - intros. by apply CStr.split_all_spec.
  - intros s H1 H2. simpl. by apply CStr.strip_none.
Qed.

(** ** Outcomes

Outcome of code that may loop for ever ([NoReturn]: not within the given
    number of iterations) or whose C behaviour is undefined. *)
Inductive outcome (A : Type) :=
| Ret (a : A)
| NoReturn
| Undef.
Arguments Ret {A} a.
Arguments NoReturn {A}.
Arguments Undef {A}.

(** Code with a state [S]: a step to a result and the next state. *)
Definition M (S A : Type) : Type := S -> outcome (A * S).

#[export] Instance M_ret {S} : MRet (M S) := fun A a s => Ret (a, s).
#[export] Instance M_bind {S} : MBind (M S) := fun A B k m s =>
  match m s with
  | Ret (a, s') => k a s'
  | NoReturn => NoReturn
  | Undef => Undef
  end.

Definition undef {S A} : M S A := fun _ => Undef.
Definition no_return {S A} : M S A := fun _ => NoReturn.

Fixpoint iterM {S A} (f : A -> M S unit) (l : list A) : M S unit :=
  match l with
  | [] => mret tt
  | x :: l' => f x ;; iterM f l'
  end.

Section MonadLemmas.
Context {S : Type}.

Lemma bind_Ret {A B} (m : M S A) (k : A -> M S B) s r :
  (m ≫= k) s = Ret r <-> exists a s1, m s = Ret (a, s1) /\ k a s1 = Ret r.
Proof.
  unfold mbind, M_bind. destruct (m s) as [[a s1]| |] eqn:E.
  - split; [by eauto|]. by intros (? & ? & [= <- <-] & ?).
  - split; [done|by intros (? & ? & ? & ?)].
  - split; [done|by intros (? & ? & ? & ?)].
Qed.

Lemma bind_step {A B} (m : M S A) (k : A -> M S B) s a s1 :
  m s = Ret (a, s1) -> (m ≫= k) s = k a s1.
Proof. unfold mbind, M_bind. by intros ->. Qed.

Lemma bind_ret {A B} (a : A) (k : A -> M S B) (s : S) : ((mret a : M S A) ≫= k) s = k a s.
Proof. done. Qed.

Lemma ret_Ret {A} (a b : A) (s s1 : S) :
  (mret a : M S A) s = Ret (b, s1) <-> a = b /\ s = s1.
Proof. unfold mret, M_ret. split; [by intros [= -> ->]|by intros [-> ->]]. Qed.

(** [m] returns, with a result and a state that satisfy [Q]. *)
Definition wp {A} (m : M S A) (Q : A -> S -> Prop) (s : S) : Prop :=
  match m s with Ret (a, s') => Q a s' | _ => False end.

Lemma wp_bind {A B} (m : M S A) (k : A -> M S B) Q s :
  wp m (fun a => wp (k a) Q) s -> wp (m ≫= k) Q s.
Proof. unfold wp, mbind, M_bind. by destruct (m s) as [[a s1]| |]. Qed.

Lemma wp_ret {A} (a : A) (Q : A -> S -> Prop) s : Q a s -> wp (mret a) Q s.
Proof. done. Qed.

Lemma wp_mono {A} (m : M S A) (Q Q' : A -> S -> Prop) s :
  wp m Q s -> (forall a s', Q a s' -> Q' a s') -> wp m Q' s.
Proof. unfold wp. destruct (m s) as [[a s1]| |]; auto. Qed.

Lemma wp_Ret {A} (m : M S A) Q s : wp m Q s -> exists a s', m s = Ret (a, s') /\ Q a s'.
Proof. unfold wp. destruct (m s) as [[a s1]| |]; [eauto|done|done]. Qed.

End MonadLemmas.

(** ** Lists *)

Section ListLemmas.
Context {A : Type}.

(** Split a list at the first element that satisfies [f]. *)
Fixpoint break_at (f : A -> bool) (l : list A) : option (list A * A * list A) :=
  match l with
  | [] => None
  | x :: l' =>
      if f x then Some ([], x, l')
      else match break_at f l' with
           | Some (a, y, b) => Some (x :: a, y, b)
           | None => None
           end
  end.

Lemma break_at_Some f l a x b :
  break_at f l = Some (a, x, b) ->
  l = a ++ x :: b /\ f x = true /\ Forall (fun y => f y = false) a.
Proof.
  revert a; induction l as [|y l IH]; intros a; simpl; [done|].
  destruct (f y) eqn:Hy.
  - intros [= <- <- <-]. auto.
  - destruct (break_at f l) as [[[a' x'] b']|]; [|done].
    intros [= <- <- <-]. destruct (IH a' eq_refl) as (-> & ? & ?). auto.
Qed.

Lemma break_at_None f l : break_at f l = None <-> Forall (fun y => f y = false) l.
Proof.
  induction l as [|y l IH]; simpl; [split; auto|].
  rewrite Forall_cons, <- IH. destruct (f y); [split; [done|by intros [? _]]|].
  destruct (break_at f l) as [[[??]?]|]; split; try done; by intros [_ ?].
Qed.

Lemma filter_all (P : A -> Prop) `{!forall x, Decision (P x)} (l : list A) :
  (forall x, x ∈ l -> P x) -> filter P l = l.
Proof.
  induction l as [|x l IH]; intros Hall; [done|].
  rewrite filter_cons_True by (apply Hall; set_solver). f_equal. apply IH. set_solver.
Qed.

Definition opt_list (o : option A) : list A :=
  match o with Some x => [x] | None => [] end.

End ListLemmas.

(** ** Tactics *)

(** Case analysis on a proposition, with its [bool_decide] reduced. *)
Tactic Notation "bdec" constr(P) "as" ident(H) :=
  destruct (decide P) as [H|H];
  [rewrite ?(bool_decide_true P H) | rewrite ?(bool_decide_false P H)].

Ltac case_match_hyp H :=
  match type of H with
  | context [match ?x with _ => _ end] => destruct x eqn:?
  end; simplify_eq/=.
