(* ===== verification/Kb.v ===== *)
(** * The knowledge base of a scanned host ([misc/kb.c])

    A knowledge base is an array of 65537 chains of items, indexed by a hash of
    the item's name.  [struct kb_item] is [kb_item]; the tagged union [type]/[v]
    is [kb_val]; a [kb_t] that may be NULL is an [option].  The properties
    refine the hashed chains to an abstract map from names to the list of the
    values stored under the name, newest first. *)

From S2P Require Import Prelude.
From stdpp Require Import base gmap sets list strings.
From Stdlib Require Import Ascii ZArith Lia.
Local Open Scope Z_scope.

Module Kb.

(** [ARG_STRING] and [ARG_INT] of arglists.h, as kb.h renames them. *)
Definition KB_TYPE_STR : Z := 1.
Definition KB_TYPE_INT : Z := 3.

Inductive kb_val :=
| v_str (s : string)
| v_int (i : Z).

#[export] Instance kb_val_eq_dec : EqDecision kb_val.
Proof. solve_decision. Defined.

Record kb_item := mk_item { kb_name : string; kb_v : kb_val }.

Definition kb_type (k : kb_item) : Z :=
  match kb_v k with v_str _ => KB_TYPE_STR | v_int _ => KB_TYPE_INT end.

Definition HASH_MAX : Z := 65537.

Fixpoint mkkey_loop (h : Z) (p : string) : Z :=
  match p with
  | EmptyString => h
  | String c p' => mkkey_loop (MInt.uwrap32 (MInt.uwrap32 (Z.shiftl h 3) + CStr.code c)) p'
  end.

Definition mkkey (name : option string) : Z :=
  match name with
  | None => 0
  | Some n => mkkey_loop 0 n mod HASH_MAX
  end.

Abbreviation kb_arr := (gmap Z (list kb_item)).
Abbreviation kb_t := (option (gmap Z (list kb_item))).

(** The chain [kb[h]]. *)
Definition chain (kb : kb_arr) (h : Z) : list kb_item := default [] (kb !! h).

Definition kb_new : kb_t := Some ∅.

(** The loop of [kb_item_get_single]. *)
Fixpoint find_single (name : string) (type : Z) (ret : list kb_item) : option kb_item :=
  match ret with
  | [] => None
  | k :: next =>
      if bool_decide (kb_name k = name) && ((type =? 0) || (kb_type k =? type))
      then Some k else find_single name type next
  end.

Definition kb_item_get_single (kb : kb_t) (name : option string) (type : Z)
  : option kb_item :=
  match kb, name with
  | Some m, Some n => find_single n type (chain m (mkkey name))
  | _, _ => None
  end.

Definition kb_item_get_str (kb : kb_t) (name : option string) : option string :=
  match kb_item_get_single kb name KB_TYPE_STR with
  | None => None
  | Some item => match kb_v item with v_str s => Some s | v_int _ => None end
  end.

Definition kb_item_get_int (kb : kb_t) (name : option string) : Z :=
  match kb_item_get_single kb name KB_TYPE_INT with
  | None => -1
  | Some item => match kb_v item with v_int i => i | v_str _ => -1 end
  end.

(** The copying loop of [kb_item_get_all] and [kb_item_get_pattern]: the
    copies are pushed in front of [ret]. *)
Fixpoint copy_matching (f : string -> bool) (k ret : list kb_item) : list kb_item :=
  match k with
  | [] => ret
  | p :: next => copy_matching f next (if f (kb_name p) then p :: ret else ret)
  end.

Definition kb_item_get_all (kb : kb_t) (name : option string) : list kb_item :=
  match kb, name with
  | Some m, Some n =>
      copy_matching (fun s => bool_decide (s = n)) (chain m (mkkey name)) []
  | _, _ => []
  end.

(** [kb_item_get_pattern]; [fnmatch expr s] is [fnmatch (expr, s, 0) == 0]. *)
Fixpoint pattern_loop (f : string -> bool) (m : kb_arr) (n : nat) (i : Z)
    (ret : list kb_item) : list kb_item :=
  match n with
  | O => ret
  | S n' => pattern_loop f m n' (i + 1) (copy_matching f (chain m i) ret)
  end.

Definition kb_item_get_pattern (fnmatch : string -> string -> bool)
    (kb : kb_t) (expr : string) : list kb_item :=
  match kb with
  | None => []
  | Some m => pattern_loop (fnmatch expr) m (Z.to_nat HASH_MAX) 0 []
  end.

(** The loop of [kb_item_addset_str]: [Some (code, chain)] when it returns
    from inside the loop, [None] when it runs to the end of the chain. *)
Fixpoint addset_str_loop (name value : string) (replace : Z) (items : list kb_item)
  : option (Z * list kb_item) :=
  match items with
  | [] => None
  | item :: next =>
      let continue :=
        match addset_str_loop name value replace next with
        | Some (r, next') => Some (r, item :: next')
        | None => None
        end in
      if bool_decide (kb_name item = name) then
        if bool_decide (kb_v item = v_str value) then Some (-1, items)
        else if negb (replace =? 0)
             then Some (0, mk_item (kb_name item) (v_str value) :: next)
             else continue
      else continue
  end.

Definition kb_item_addset_str (kb : kb_t) (name value : string) (replace : Z)
  : Z * kb_t :=
  let h := mkkey (Some name) in
  match kb with
  | None => (-1, None)
  | Some m =>
      match addset_str_loop name value replace (chain m h) with
      | Some (r, c) => (r, Some (<[h := c]> m))
      | None => (0, Some (<[h := mk_item name (v_str value) :: chain m h]> m))
      end
  end.

Definition kb_item_add_str kb name value := kb_item_addset_str kb name value 0.
Definition kb_item_set_str kb name value := kb_item_addset_str kb name value 1.

Fixpoint addset_int_loop (name : string) (value replace : Z) (items : list kb_item)
  : option (Z * list kb_item) :=
  match items with
  | [] => None
  | item :: next =>
      let continue :=
        match addset_int_loop name value replace next with
        | Some (r, next') => Some (r, item :: next')
        | None => None
        end in
      if bool_decide (kb_name item = name) then
        if bool_decide (kb_v item = v_int value) then Some (-1, items)
        else if negb (replace =? 0)
             then Some (0, mk_item (kb_name item) (v_int value) :: next)
             else continue
      else continue
  end.

Definition kb_item_addset_int (kb : kb_t) (name : string) (value replace : Z)
  : Z * kb_t :=
  let h := mkkey (Some name) in
  match kb with
  | None => (-1, None)
  | Some m =>
      match addset_int_loop name value replace (chain m h) with
      | Some (r, c) => (r, Some (<[h := c]> m))
      | None => (0, Some (<[h := mk_item name (v_int value) :: chain m h]> m))
      end
  end.

Definition kb_item_set_int kb name value := kb_item_addset_int kb name value 1.
Definition kb_item_add_int kb name value := kb_item_addset_int kb name value 0.

(** The unlinking loop of [kb_item_rm_all]. *)
Fixpoint rm_loop (name : string) (k : list kb_item) : list kb_item :=
  match k with
  | [] => []
  | x :: next => if bool_decide (kb_name x = name) then rm_loop name next
                 else x :: rm_loop name next
  end.

Definition kb_item_rm_all (kb : kb_t) (name : string) : kb_t :=
  match kb with
  | None => None
  | Some m => let h := mkkey (Some name) in Some (<[h := rm_loop name (chain m h)]> m)
  end.

(** ** Abstract specification *)

(** A knowledge base as its users see it: the values stored under each name,
    newest first. *)
Definition amap := string -> list kb_val.

Definition values (name : string) (l : list kb_item) : list kb_val :=
  kb_v <$> filter (fun k => kb_name k = name) l.

Definition abs (m : kb_arr) : amap :=
  fun name => values name (chain m (mkkey (Some name))).

(** Every item sits in the chain of its own key. *)
Definition wf (m : kb_arr) : Prop :=
  forall h k, k ∈ chain m h -> mkkey (Some (kb_name k)) = h.

Inductive op :=
| Add (name : string) (v : kb_val)
| SetV (name : string) (v : kb_val)
| Rm (name : string).

Definition op_name (o : op) : string :=
  match o with Add n _ | SetV n _ | Rm n => n end.

Definition run_op (kb : kb_t) (o : op) : Z * kb_t :=
  match o with
  | Add n (v_str s) => kb_item_add_str kb n s
  | Add n (v_int i) => kb_item_add_int kb n i
  | SetV n (v_str s) => kb_item_set_str kb n s
  | SetV n (v_int i) => kb_item_set_int kb n i
  | Rm n => (0, kb_item_rm_all kb n)
  end.

(** What an operation does to the values of the name it is given. *)
Definition spec_op (l : list kb_val) (o : op) : Z * list kb_val :=
  match o with
  | Add _ v => if bool_decide (v ∈ l) then (-1, l) else (0, v :: l)
  | SetV _ v => match l with
                | [] => (0, [v])
                | x :: l' => if bool_decide (x = v) then (-1, l) else (0, v :: l')
                end
  | Rm _ => (0, [])
  end.

(** A sequence of operations: the return codes and the final state. *)
Fixpoint run_ops (kb : kb_t) (os : list op) : list Z * kb_t :=
  match os with
  | [] => ([], kb)
  | o :: os' => let '(r, kb1) := run_op kb o in
                let '(rs, kb2) := run_ops kb1 os' in (r :: rs, kb2)
  end.

Definition spec_step (a : amap) (o : op) : Z * amap :=
  let '(r, l) := spec_op (a (op_name o)) o in
  (r, fun n => if bool_decide (n = op_name o) then l else a n).

Fixpoint spec_ops (a : amap) (os : list op) : list Z * amap :=
  match os with
  | [] => ([], a)
  | o :: os' => let '(r, a1) := spec_step a o in
                let '(rs, a2) := spec_ops a1 os' in (r :: rs, a2)
  end.

Fixpoint first_str (l : list kb_val) : option string :=
  match l with [] => None | v_str s :: _ => Some s | v_int _ :: l' => first_str l' end.

Fixpoint first_int (l : list kb_val) : Z :=
  match l with [] => -1 | v_int i :: _ => i | v_str _ :: l' => first_int l' end.

(** ** Lemmas *)

Arguments mkkey : simpl never.

(** Both [addset] loops are instances of one loop over the tagged value. *)
Fixpoint addset_loop (name : string) (v : kb_val) (replace : Z) (items : list kb_item)
  : option (Z * list kb_item) :=
  match items with
  | [] => None
  | item :: next =>
      let continue :=
        match addset_loop name v replace next with
        | Some (r, next') => Some (r, item :: next')
        | None => None
        end in
      if bool_decide (kb_name item = name) then
        if bool_decide (kb_v item = v) then Some (-1, items)
        else if negb (replace =? 0) then Some (0, mk_item (kb_name item) v :: next)
             else continue
      else continue
  end.

Lemma addset_str_loop_eq n s r l : addset_str_loop n s r l = addset_loop n (v_str s) r l.
Proof. induction l as [|k l IH]; simpl; [done|]. by rewrite IH. Qed.

Lemma addset_int_loop_eq n i r l : addset_int_loop n i r l = addset_loop n (v_int i) r l.
Proof. induction l as [|k l IH]; simpl; [done|]. by rewrite IH. Qed.

Definition addset (m : kb_arr) (name : string) (v : kb_val) (replace : Z) : Z * kb_arr :=
  let h := mkkey (Some name) in
  match addset_loop name v replace (chain m h) with
  | Some (r, c) => (r, <[h := c]> m)
  | None => (0, <[h := mk_item name v :: chain m h]> m)
  end.

Lemma run_op_addset m n v (set : bool) :
  run_op (Some m) (if set then SetV n v else Add n v)
  = let '(r, m') := addset m n v (if set then 1 else 0) in (r, Some m').
Proof.
  unfold addset. destruct set, v; simpl;
    unfold kb_item_set_str, kb_item_add_str, kb_item_set_int, kb_item_add_int,
      kb_item_addset_str, kb_item_addset_int;
    rewrite ?addset_str_loop_eq, ?addset_int_loop_eq; by repeat case_match.
Qed.

Lemma values_cons_eq n v l : values n (mk_item n v :: l) = v :: values n l.
Proof. unfold values. rewrite filter_cons_True by done. done. Qed.

Lemma values_cons n k l :
  values n (k :: l) = if bool_decide (kb_name k = n) then kb_v k :: values n l else values n l.
Proof.
  unfold values. case_bool_decide; [by rewrite filter_cons_True|by rewrite filter_cons_False].
Qed.

Lemma addset_loop_add n v l :
  addset_loop n v 0 l = if bool_decide (v ∈ values n l) then Some (-1, l) else None.
Proof.
  induction l as [|k l IH]; simpl; [done|].
  rewrite values_cons, IH. bdec (kb_name k = n) as Hn.
  - bdec (kb_v k = v) as Hv.
    + by rewrite bool_decide_true by (rewrite Hv; apply list_elem_of_here).
    + rewrite (bool_decide_ext (v ∈ kb_v k :: values n l) (v ∈ values n l))
        by (rewrite elem_of_cons; split; [intros [?|?]; [congruence|done]|by right]).
      by destruct (bool_decide (v ∈ values n l)).
  - by destruct (bool_decide (v ∈ values n l)).
Qed.

Lemma addset_loop_set n v l :
  match values n l with
  | [] => addset_loop n v 1 l = None
  | x :: t =>
      if bool_decide (x = v) then addset_loop n v 1 l = Some (-1, l)
      else exists l', addset_loop n v 1 l = Some (0, l') /\ values n l' = v :: t
             /\ (forall n', n' <> n -> values n' l' = values n' l)
             /\ kb_name <$> l' = kb_name <$> l
  end.
Proof.
  induction l as [|k l IH]; simpl; [done|].
  rewrite values_cons. case_bool_decide as Hn; simpl.
  - case_bool_decide as Hv; [done|].
    eexists; split; [done|]. subst. rewrite values_cons_eq. split; [done|].
    split; [|done]. intros n' Hn'. rewrite !values_cons; simpl.
    by rewrite bool_decide_false.
  - destruct (values n l) as [|x t]; [by rewrite IH|].
    case_bool_decide; [by rewrite IH|].
    destruct IH as (l' & -> & Hv & Ho & Hk). eexists; split; [done|].
    rewrite values_cons, bool_decide_false by done. split; [done|]. split.
    + intros n' Hn'. rewrite !values_cons, Ho by done. done.
    + csimpl. by rewrite Hk.
Qed.

Lemma rm_loop_filter n l : rm_loop n l = filter (fun k => kb_name k <> n) l.
Proof.
  induction l as [|k l IH]; simpl; [done|]. rewrite IH.
  case_bool_decide; [by rewrite filter_cons_False; naive_solver|by rewrite filter_cons_True].
Qed.

Lemma values_rm n n' l :
  values n' (rm_loop n l) = if bool_decide (n' = n) then [] else values n' l.
Proof.
  induction l as [|k l IH]; simpl; [by case_bool_decide|].
  bdec (kb_name k = n) as Hk; rewrite ?values_cons, IH; bdec (n' = n) as Hn;
    bdec (kb_name k = n') as Hk'; try done; congruence.
Qed.

Lemma chain_insert m h c h' :
  chain (<[h := c]> m) h' = if bool_decide (h = h') then c else chain m h'.
Proof.
  unfold chain. case_bool_decide; subst; [by rewrite lookup_insert_eq|by rewrite lookup_insert_ne].
Qed.

Lemma find_single_cons_other n n' v type l : n' <> n ->
  find_single n' type (mk_item n v :: l) = find_single n' type l.
Proof. intros Hn. simpl. by rewrite bool_decide_false by (simpl; congruence). Qed.

(** Adding under one name leaves the integers of the others. *)
Lemma add_int_other m n i n' : n' <> n -> exists m', snd (kb_item_add_int (Some m) n i) = Some m'
  /\ kb_item_get_int (Some m') (Some n') = kb_item_get_int (Some m) (Some n').
Proof.
  intros Hn. unfold kb_item_add_int, kb_item_addset_int. rewrite addset_int_loop_eq, addset_loop_add.
  destruct (bool_decide _); simpl; (eexists; split; [done|]);
    unfold kb_item_get_int, kb_item_get_single; rewrite chain_insert; case_bool_decide as Hk; try done;
    rewrite ?find_single_cons_other by done; by rewrite Hk.
Qed.

(** Replacing one chain by a chain that agrees on the other names. *)
Lemma chain_replace m n c (vs : list kb_val) :
  wf m ->
  values n c = vs ->
  (forall n', n' <> n -> values n' c = values n' (chain m (mkkey (Some n)))) ->
  (forall k, k ∈ c -> mkkey (Some (kb_name k)) = mkkey (Some n)) ->
  let m' := <[mkkey (Some n) := c]> m in
  wf m' /\ abs m' n = vs /\ forall n', n' <> n -> abs m' n' = abs m n'.
Proof.
  intros Hwf Hvs Ho Hk m'. unfold m', wf, abs. split; [|split].
  - intros h k. rewrite chain_insert. case_bool_decide; subst; [apply Hk|apply Hwf].
  - by rewrite chain_insert, bool_decide_true.
  - intros n' Hn'. rewrite chain_insert. case_bool_decide as Hh; [|done].
    rewrite <- Hh. by apply Ho.
Qed.

Lemma wf_names m n c :
  wf m -> kb_name <$> c = kb_name <$> chain m (mkkey (Some n)) ->
  forall k, k ∈ c -> mkkey (Some (kb_name k)) = mkkey (Some n).
Proof.
  intros Hwf Heq k Hk.
  assert (kb_name k ∈ kb_name <$> chain m (mkkey (Some n))) as Hin.
  { rewrite <- Heq. by apply list_elem_of_fmap_2. }
  apply list_elem_of_fmap in Hin as (k' & Hkn & Hk'). rewrite Hkn. by apply Hwf.
Qed.

Lemma wf_new : wf ∅.
Proof. intros h k. unfold chain. rewrite lookup_empty. set_solver. Qed.

Lemma run_op_sound m o :
  wf m ->
  exists m', run_op (Some m) o = (fst (spec_op (abs m (op_name o)) o), Some m')
    /\ wf m'
    /\ abs m' (op_name o) = snd (spec_op (abs m (op_name o)) o)
    /\ forall n, n <> op_name o -> abs m' n = abs m n.
Proof.
  intros Hwf. destruct o as [n v|n v|n].
  - rewrite (run_op_addset m n v false). unfold addset. rewrite addset_loop_add.
    cbn [op_name spec_op].
    change (values n (chain m (mkkey (Some n)))) with (abs m n).
    bdec (v ∈ abs m n) as Hin; eexists; (split; [done|]); cbn [fst snd].
    + apply chain_replace; try done. intros k. apply Hwf.
    + apply chain_replace; [done|by rewrite values_cons_eq|..].
      * intros n' ?. by rewrite values_cons, bool_decide_false.
      * intros k [->|Hk]%elem_of_cons; [done|by apply Hwf].
  - rewrite (run_op_addset m n v true). unfold addset. cbn [op_name spec_op].
    pose proof (addset_loop_set n v (chain m (mkkey (Some n)))) as H.
    change (values n (chain m (mkkey (Some n)))) with (abs m n) in *.
    destruct (abs m n) as [|x t] eqn:Hvs; cbn [fst snd].
    + rewrite H. eexists; split; [done|].
      unfold abs in Hvs. apply chain_replace; [done|by rewrite values_cons_eq, Hvs|..].
      * intros n' ?. by rewrite values_cons, bool_decide_false.
      * intros k [->|Hk]%elem_of_cons; [done|by apply Hwf].
    + bdec (x = v) as Hx; cbn [fst snd].
      * rewrite bool_decide_true in H by done. rewrite H.
        eexists; split; [done|]. apply chain_replace; try done. intros k. apply Hwf.
      * rewrite bool_decide_false in H by done.
        destruct H as (l' & -> & Hv & Ho & Hk). eexists; split; [done|].
        apply chain_replace; try done. by apply (wf_names m).
  - simpl. eexists; split; [done|].
    apply chain_replace; [done|by rewrite values_rm, bool_decide_true|..].
    + intros n' ?. by rewrite values_rm, bool_decide_false.
    + intros k. rewrite rm_loop_filter, list_elem_of_filter. intros [_ ?]. by apply Hwf.
Qed.

Lemma run_ops_sound os m a :
  wf m -> (forall n, abs m n = a n) ->
  exists m', run_ops (Some m) os = (fst (spec_ops a os), Some m') /\ wf m'
    /\ forall n, abs m' n = snd (spec_ops a os) n.
Proof.
  revert m a; induction os as [|o os IH]; intros m a Hwf Ha; simpl; [by exists m|].
  destruct (run_op_sound m o Hwf) as (m1 & -> & Hwf1 & Hv & Ho).
  unfold spec_step. rewrite Ha in *.
  destruct (spec_op (a (op_name o)) o) as [r l]; simpl in *.
  destruct (IH m1 (fun n => if bool_decide (n = op_name o) then l else a n) Hwf1)
    as (m' & -> & Hwf' & Habs).
  { intros n. bdec (n = op_name o) as Hn; [by subst|by rewrite Ho]. }
  destruct (spec_ops _ os) as [rs a2]; simpl in *. by exists m'.
Qed.

Lemma find_single_str n l :
  match find_single n KB_TYPE_STR l with
  | None => None
  | Some item => match kb_v item with v_str s => Some s | v_int _ => None end
  end = first_str (values n l).
Proof.
  induction l as [|[k v] l IH]; simpl; [done|]. rewrite values_cons; simpl.
  bdec (k = n) as Hk; simpl; [|done]. destruct v; simpl; [done|apply IH].
Qed.

Lemma find_single_int n l :
  match find_single n KB_TYPE_INT l with
  | None => -1
  | Some item => match kb_v item with v_int i => i | v_str _ => -1 end
  end = first_int (values n l).
Proof.
  induction l as [|[k v] l IH]; simpl; [done|]. rewrite values_cons; simpl.
  bdec (k = n) as Hk; simpl; [|done]. destruct v; simpl; [apply IH|done].
Qed.

Lemma find_single_any n l : find_single n 0 l = None <-> values n l = [].
Proof.
  induction l as [|[k v] l IH]; simpl; [done|]. rewrite values_cons; simpl.
  bdec (k = n) as Hk; simpl; done.
Qed.

Lemma values_app n l l' : values n (l ++ l') = values n l ++ values n l'.
Proof. unfold values. by rewrite filter_app, fmap_app. Qed.

Lemma values_rev n l : values n (rev l) = rev (values n l).
Proof.
  induction l as [|k l IH]; simpl; [done|]. rewrite values_app, IH, !values_cons.
  bdec (kb_name k = n) as Hk; simpl; [done|by rewrite app_nil_r].
Qed.

Lemma copy_matching_rev f k ret :
  copy_matching f k ret = rev (filter (fun p => f (kb_name p) = true) k) ++ ret.
Proof.
  revert ret; induction k as [|p k IH]; intros ret; simpl; [done|]. rewrite IH.
  destruct (f (kb_name p)) eqn:E.
  - rewrite filter_cons_True by done. simpl. by rewrite <- (assoc_L (++)).
  - rewrite filter_cons_False by (by rewrite E). done.
Qed.

Lemma kb_item_get_all_values m n :
  kb_v <$> kb_item_get_all (Some m) (Some n) = rev (abs m n).
Proof.
  unfold kb_item_get_all, abs, values.
  rewrite copy_matching_rev, app_nil_r. etransitivity; [apply map_rev|].
  do 2 f_equal. apply list_filter_iff. intros k. by rewrite bool_decide_eq_true.
Qed.

Lemma values_copy n f k ret :
  values n (copy_matching f k ret)
  = (if f n then rev (values n k) else []) ++ values n ret.
Proof.
  revert ret; induction k as [|p k IH]; intros ret; simpl; [by destruct (f n)|].
  rewrite IH. rewrite (values_cons n p k).
  bdec (kb_name p = n) as Hp.
  - subst. destruct (f (kb_name p)); [|done].
    rewrite values_cons, bool_decide_true by done. simpl. by rewrite <- (assoc_L (++)).
  - f_equal. destruct (f (kb_name p)); [|done]. by rewrite values_cons, bool_decide_false.
Qed.

Lemma values_other_chain m n i :
  wf m -> i <> mkkey (Some n) -> values n (chain m i) = [].
Proof.
  intros Hwf Hi. unfold values.
  destruct (filter _ (chain m i)) as [|k l] eqn:E; [done|].
  assert (k ∈ filter (fun k => kb_name k = n) (chain m i)) as Hk
    by (rewrite E; apply list_elem_of_here).
  apply list_elem_of_filter in Hk as [<- Hk]. by apply Hwf in Hk.
Qed.

Lemma values_pattern_loop n f m k i ret :
  wf m ->
  values n (pattern_loop f m k i ret)
  = (if f n && (i <=? mkkey (Some n)) && (mkkey (Some n) <? i + Z.of_nat k)
     then rev (abs m n) else []) ++ values n ret.
Proof.
  intros Hwf. revert i ret; induction k as [|k IH]; intros i ret; simpl.
  - replace (f n && (i <=? mkkey (Some n)) && (mkkey (Some n) <? i + Z.of_nat 0)) with false
      by (destruct (f n); lia).
    done.
  - rewrite IH, values_copy. destruct (f n); simpl; [|done].
    destruct (decide (i = mkkey (Some n))) as [->|Hi].
    + replace (mkkey (Some n) + 1 <=? mkkey (Some n)) with false by lia.
      replace (mkkey (Some n) <=? mkkey (Some n)) with true by lia.
      replace (mkkey (Some n) <? mkkey (Some n) + Z.of_nat (S k)) with true by lia. done.
    + rewrite (values_other_chain m n i Hwf Hi). simpl.
      replace (i + 1 <=? mkkey (Some n)) with (i <=? mkkey (Some n)) by lia.
      replace (i + 1 + Z.of_nat k) with (i + Z.of_nat (S k)) by lia. done.
Qed.

Lemma mkkey_range n : 0 <= mkkey n < HASH_MAX.
Proof.
  destruct n; unfold mkkey, HASH_MAX; [apply Z.mod_pos_bound|]; lia.
Qed.

Lemma spec_ops_nodup os a n :
  Forall (fun o => match o with SetV _ _ => False | _ => True end) os ->
  NoDup (a n) -> NoDup (snd (spec_ops a os) n).
Proof.
  revert a; induction os as [|o os IH]; intros a Hos Ha; simpl; [done|].
  apply Forall_cons in Hos as [Ho Hos].
  destruct (spec_step a o) as [r a1] eqn:E.
  specialize (IH a1 Hos). destruct (spec_ops a1 os); simpl in *. apply IH.
  unfold spec_step in E. destruct o as [n' v|n' v|n']; simpl in E; [|done|].
  - destruct (bool_decide (v ∈ a n')) eqn:Hv; simplify_eq/=;
      bdec (n = n') as Hn; subst; try done.
    apply bool_decide_eq_false in Hv. by constructor.
  - simplify_eq. bdec (n = n') as Hn; [constructor|done].
Qed.

(** ** Properties *)

(** C24: the hashed chains implement a map from names to the values stored
    under them, newest first: for every sequence of add, set and remove
    operations on a new knowledge base, the return codes are those of the
    abstract map, and after it [kb_item_get_all] lists exactly the values of
    the name (oldest first), [kb_item_get_str] and [kb_item_get_int] give the
    newest value of their type, and [kb_item_get_single] finds nothing
    exactly when the name has no value. *)
Theorem kb_refines_multimap (os : list op) :
  exists m, run_ops kb_new os = (fst (spec_ops (fun _ => []) os), Some m)
    /\ forall n, let l := snd (spec_ops (fun _ => []) os) n in
       kb_v <$> kb_item_get_all (Some m) (Some n) = rev l
       /\ kb_item_get_str (Some m) (Some n) = first_str l
       /\ kb_item_get_int (Some m) (Some n) = first_int l
       /\ (kb_item_get_single (Some m) (Some n) 0 = None <-> l = []).
Proof.
  destruct (run_ops_sound os ∅ (fun _ => []) wf_new) as (m & Hrun & _ & Habs).
  { intros n. done. }
  exists m. split; [done|]. intros n l. subst l. rewrite <- Habs.
  unfold kb_item_get_str, kb_item_get_int, kb_item_get_single, abs.
  rewrite find_single_str, find_single_int, find_single_any.
  split; [apply kb_item_get_all_values|done].
Qed.

(** [kb_item_get_pattern] returns, for every name, all the values stored
    under it when the name matches the pattern and none otherwise, whatever
    [fnmatch] decides: no chain is missed or visited twice. *)
Theorem kb_pattern_complete (fnmatch : string -> string -> bool) m expr n (Hwf : wf m) :
  values n (kb_item_get_pattern fnmatch (Some m) expr)
  = if fnmatch expr n then rev (abs m n) else [].
Proof.
  unfold kb_item_get_pattern. rewrite values_pattern_loop by done.
  pose proof (mkkey_range (Some n)).
  rewrite (proj2 (Z.leb_le 0 _)), (proj2 (Z.ltb_lt _ _)) by (unfold HASH_MAX in *; lia).
  rewrite !andb_true_r, app_nil_r. done.
Qed.

Lemma kb_pattern_complete_witness :
  wf ∅ /\ forall n, values n (kb_item_get_pattern (fun _ _ => true) (Some ∅) "www/*") = [].
Proof.
  split; [exact wf_new|]. intros n.
  exact (kb_pattern_complete (fun _ _ => true) ∅ "www/*" n wf_new).
Defined.

(** A knowledge base filled with the [add] operations (and removals) never
    holds the same value twice under one name. *)
Theorem kb_add_no_duplicates os m n
    (Hadd : Forall (fun o => match o with SetV _ _ => False | _ => True end) os)
    (Hrun : snd (run_ops kb_new os) = Some m) :
  NoDup (kb_v <$> kb_item_get_all (Some m) (Some n)).
Proof.
  destruct (run_ops_sound os ∅ (fun _ => []) wf_new) as (m' & Hrun' & _ & Habs); [done|].
  unfold kb_new in Hrun. rewrite Hrun' in Hrun. cbn in Hrun. simplify_eq.
  pose proof (spec_ops_nodup os (fun _ => []) n Hadd) as Hnd.
  rewrite <- Habs in Hnd. rewrite kb_item_get_all_values.
  apply NoDup_ListNoDup, NoDup_rev, NoDup_ListNoDup, Hnd. constructor.
Qed.

Lemma kb_add_no_duplicates_witness :
  exists m, snd (run_ops kb_new [Add "a" (v_int 1); Add "a" (v_int 1)]) = Some m
    /\ NoDup (kb_v <$> kb_item_get_all (Some m) (Some "a"%string)).
Proof.
  eexists. split; [reflexivity|].
  apply (kb_add_no_duplicates [Add "a" (v_int 1); Add "a" (v_int 1)]).
  - repeat constructor.
  - reflexivity.
Defined.

(** The comment in [kb_item_addset_str] ("we need to make sure that the same
    (name,value) pair is not present already") does not hold for [set]: it
    overwrites the newest value without looking at the older ones. *)
Example kb_set_duplicates :
  snd (run_ops kb_new [Add "a" (v_int 2); Add "a" (v_int 1); SetV "a" (v_int 2)])
  = Some {[ mkkey (Some "a"%string) := [mk_item "a" (v_int 2); mk_item "a" (v_int 2)] ]}.
Proof. reflexivity. Qed.

End Kb.
