(* ===== verification/Arglists.v ===== *)
(** * Argument lists and their name cache ([misc/arglists.c])

    A [struct arglist *] is a chain of cells closed by an empty cell; the model
    keeps the cells before the closing one, [None] being the NULL pointer.  The
    static table [cache] of shared, reference-counted names is explicit state.
    The functions of GLib are those of the class [Glib]. *)

From S2P Require Import Prelude.
From stdpp Require Import base gmap sets list strings.
From Stdlib Require Import Ascii ZArith Lia.
Local Open Scope Z_scope.

Module Arglists.

Definition ARG_STRING : Z := 1.
Definition ARG_PTR : Z := 2.
Definition ARG_INT : Z := 3.
Definition ARG_ARGLIST : Z := 4.
Definition ARG_STRUCT : Z := 5.

(** [struct arglist]; [value] is a [void *] whose use the type tag decides. *)
Inductive arg :=
| Arg (name : string) (type : Z) (value : aval) (length : Z) (hash : Z)
with aval :=
| VNull
| VPtr (p : Z)                  (* ARG_PTR, ARG_INT: the pointer bits *)
| VStr (s : string)             (* ARG_STRING *)
| VStruct (bytes : list Z)      (* ARG_STRUCT *)
| VList (l : list arg).         (* ARG_ARGLIST *)

Definition a_name (a : arg) : string := let 'Arg n _ _ _ _ := a in n.
Definition a_type (a : arg) : Z := let 'Arg _ t _ _ _ := a in t.
Definition a_value (a : arg) : aval := let 'Arg _ _ v _ _ := a in v.
Definition a_length (a : arg) : Z := let 'Arg _ _ _ l _ := a in l.
Definition a_hash (a : arg) : Z := let 'Arg _ _ _ _ h := a in h.

Abbreviation arglist := (option (list arg)).

Definition HASH_MAX : Z := 2713.

Section WithHash.
Context `{G : Glib}.

Definition mkhash (name : string) : Z := g_str_hash name mod HASH_MAX.

(** ** The name cache *)

Record name_cache := mk_nc { nc_name : string; occurences : Z }.
Record cache_st := mk_cache { cache_inited : bool; cache : gmap Z (list name_cache) }.

Definition cache0 : cache_st := mk_cache false ∅.

Definition cache_chain (c : cache_st) (h : Z) : list name_cache :=
  default [] (cache c !! h).

Definition cache_init (c : cache_st) : cache_st := mk_cache true ∅.

Definition set_chain (c : cache_st) (h : Z) (l : list name_cache) : cache_st :=
  mk_cache (cache_inited c) (<[h := l]> (cache c)).

(** [cache_get_name]: the cell found, as the cells before it, itself and
    the cells after it. *)
Definition cache_get_name (c : cache_st) (name : string) (h : Z)
  : cache_st * option (list name_cache * name_cache * list name_cache) :=
  let c := if cache_inited c then c else cache_init c in
  (c, break_at (fun nc => bool_decide (nc_name nc = name)) (cache_chain c h)).

Definition cache_add_name (c : cache_st) (name : string) (h : Z) : cache_st :=
  set_chain c h (mk_nc name 1 :: cache_chain c h).

Definition cache_inc (c : cache_st) (name : string) : cache_st * string :=
  let h := mkhash name in
  let '(c, nc) := cache_get_name c name h in
  match nc with
  | Some (before, x, after) =>
      (set_chain c h (before ++ mk_nc (nc_name x) (occurences x + 1) :: after), nc_name x)
  | None => (cache_add_name c name h, name)
  end.

Definition cache_dec (c : cache_st) (name : option string) : cache_st :=
  match name with
  | None => c
  | Some name =>
      let h := mkhash name in
      let '(c, nc) := cache_get_name c name h in
      match nc with
      | None => c
      | Some (before, x, after) =>
          if occurences x - 1 =? 0 then set_chain c h (before ++ after)
          else set_chain c h (before ++ mk_nc (nc_name x) (occurences x - 1) :: after)
      end
  end.

(** ** The lists *)

Definition arg_add_value (c : cache_st) (arglst : arglist) (name : string)
    (type length : Z) (value : aval) : cache_st * arglist :=
  match arglst with
  | None => (c, None)
  | Some l =>
      let '(c, n) := cache_inc c name in
      (c, Some (l ++ [Arg n type value length (mkhash n)]))
  end.

Definition arg_get (al : arglist) (name : string) : option (list arg * arg * list arg) :=
  match al with
  | None => None
  | Some l => break_at (fun a => (a_hash a =? mkhash name) && bool_decide (a_name a = name)) l
  end.

Definition arg_set_value (arglst : arglist) (name : option string) (length : Z)
    (value : aval) : Z * arglist :=
  match name with
  | None => (-1, arglst)
  | Some n =>
      match arg_get arglst n with
      | Some (before, a, after) =>
          (0, Some (before ++ Arg (a_name a) (a_type a) value length (a_hash a) :: after))
      | None => (-1, arglst)
      end
  end.

Definition arg_get_value (args : arglist) (name : string) : aval :=
  match arg_get args name with None => VNull | Some (_, a, _) => a_value a end.

Definition arg_get_type (args : arglist) (name : string) : Z :=
  match arg_get args name with Some (_, a, _) => a_type a | None => -1 end.

(** [arg_dup]: the cells written to the empty list [dst].  The length of an
    ARG_STRUCT is assigned twice in the code, to the same value. *)
Fixpoint arg_dup1 (c : cache_st) (a : arg) {struct a} : cache_st * arg :=
  match a with
  | Arg name type value length hash =>
      let '(c, n) := cache_inc c name in
      let '(c, v) :=
        (if (type =? ARG_INT) || (type =? ARG_PTR) then (c, value)
         else if (type =? ARG_STRING) || (type =? ARG_STRUCT) then (c, value)
         else if type =? ARG_ARGLIST then
           match value with
           | VList l =>
               let '(c, l') :=
                 (fix go (c : cache_st) (l : list arg) : cache_st * list arg :=
                    match l with
                    | [] => (c, [])
                    | x :: t => let '(c, x') := arg_dup1 c x in
                                let '(c, t') := go c t in (c, x' :: t')
                    end) c l in (c, VList l')
           | _ => (c, VList [])
           end
         else (c, VNull)) in
      (c, Arg n type v length hash)
  end.

Fixpoint arg_dup (c : cache_st) (src : list arg) : cache_st * list arg :=
  match src with
  | [] => (c, [])
  | x :: t => let '(c, x') := arg_dup1 c x in
              let '(c, t') := arg_dup c t in (c, x' :: t')
  end.

(** [arg_free]: only the cells and their names. *)
Fixpoint arg_free (c : cache_st) (l : list arg) : cache_st :=
  match l with
  | [] => cache_dec c None
  | a :: t => arg_free (cache_dec c (Some (a_name a))) t
  end.

(** [arg_free_all]: nested lists are freed first. *)
Fixpoint arg_free_all1 (c : cache_st) (a : arg) {struct a} : cache_st :=
  match a with
  | Arg name type value _ _ =>
      let c :=
        if type =? ARG_ARGLIST then
          match value with
          | VList l =>
              (fix go (c : cache_st) (l : list arg) : cache_st :=
                 match l with [] => c | x :: t => go (arg_free_all1 c x) t end) c l
          | _ => c
          end
        else c in
      cache_dec c (Some name)
  end.

Fixpoint arg_free_all (c : cache_st) (l : list arg) : cache_st :=
  match l with [] => cache_dec c None | x :: t => arg_free_all (arg_free_all1 c x) t end.

(** [arg_del_value].  The cell of the first element cannot be freed (the
    caller points at it), so the code moves its successor into it. *)
Definition arg_del_value (c : cache_st) (args : arglist) (name : string)
  : cache_st * arglist :=
  match args with
  | None => (c, None)
  | Some _ =>
      match arg_get args name with
      | None => (c, args)
      | Some (before, element, after) =>
          (arg_free c [element], Some (before ++ after))
      end
  end.

(** [str2arglist]: the list of the names separated by ", ". *)
Fixpoint add_names (c : cache_st) (ret : list arg) (names : list string)
  : cache_st * list arg :=
  match names with
  | [] => (c, ret)
  | n :: ns =>
      match arg_add_value c (Some ret) n ARG_INT 0 (VPtr 1) with
      | (c, Some ret) => add_names c ret ns
      | (c, None) => (c, ret)
      end
  end.

Definition str2arglist (c : cache_st) (str : option string) : cache_st * arglist :=
  match str with
  | None | Some EmptyString => (c, None)
  | Some s => let '(c, l) := add_names c [] (g_strsplit ", " s) in (c, Some l)
  end.

(** ** The cache as a multiset of names *)

Definition countl (n : string) (l : list name_cache) : Z :=
  match break_at (fun nc => bool_decide (nc_name nc = n)) l with
  | Some (_, x, _) => occurences x
  | None => 0
  end.

Definition count (c : cache_st) (n : string) : Z := countl n (cache_chain c (mkhash n)).

Definition chain_wf (h : Z) (l : list name_cache) : Prop :=
  NoDup (nc_name <$> l) /\ Forall (fun x => mkhash (nc_name x) = h /\ 0 < occurences x) l.

(** Cells sit in the chain of their name, once, with a positive count; the
    static table is empty before the first use. *)
Definition cache_wf (c : cache_st) : Prop :=
  (cache_inited c = false -> cache c = ∅) /\
  forall h, chain_wf h (cache_chain c h).

(** Number of cells of [l], nested lists included, that hold the name [n]. *)
Fixpoint uses1 (n : string) (a : arg) {struct a} : Z :=
  match a with
  | Arg name type value _ _ =>
      (if bool_decide (name = n) then 1 else 0) +
      (if type =? ARG_ARGLIST then
         match value with
         | VList l => (fix go (l : list arg) : Z :=
                         match l with [] => 0 | x :: t => uses1 n x + go t end) l
         | _ => 0
         end
       else 0)
  end.
Fixpoint uses (n : string) (l : list arg) : Z :=
  match l with [] => 0 | x :: t => uses1 n x + uses n t end.

Lemma uses1_unfold n name type value len h :
  uses1 n (Arg name type value len h)
  = (if bool_decide (name = n) then 1 else 0) +
    (if type =? ARG_ARGLIST then match value with VList l => uses n l | _ => 0 end else 0).
Proof.
  simpl. destruct value as [| | | |l]; [done..|].
  destruct (type =? ARG_ARGLIST); [|done]. f_equal.
  induction l as [|x t IH]; simpl; [done|]. by rewrite IH.
Qed.

Lemma arg_dup1_unfold c name type value len h :
  arg_dup1 c (Arg name type value len h) =
  let '(c, n) := cache_inc c name in
  let '(c, v) :=
    (if (type =? ARG_INT) || (type =? ARG_PTR) then (c, value)
     else if (type =? ARG_STRING) || (type =? ARG_STRUCT) then (c, value)
     else if type =? ARG_ARGLIST then
       match value with
       | VList l => let '(c, l') := arg_dup c l in (c, VList l')
       | _ => (c, VList [])
       end
     else (c, VNull)) in
  (c, Arg n type v len h).
Proof. simpl. destruct value; reflexivity. Qed.

Lemma arg_free_all1_unfold c name type value len h :
  arg_free_all1 c (Arg name type value len h) =
  cache_dec (if type =? ARG_ARGLIST
             then match value with VList l => arg_free_all c l | _ => c end else c)
    (Some name).
Proof. simpl. destruct value; reflexivity. Qed.

(** Induction on argument lists, nested lists included. *)
Fixpoint arg_nested_ind (P : arg -> Prop)
    (H : forall n t v len h, (forall l, v = VList l -> Forall P l) -> P (Arg n t v len h))
    (a : arg) {struct a} : P a :=
  match a with
  | Arg n t v len h =>
      H n t v len h
        (match v as v return forall l, v = VList l -> Forall P l with
         | VList l0 => fun l E =>
             match E in _ = w return match w with VList l => Forall P l | _ => True end with
             | eq_refl =>
                 (fix go (l : list arg) : Forall P l :=
                    match l with
                    | [] => Forall_nil_2 P
                    | x :: t => Forall_cons_2 P x t (arg_nested_ind P H x) (go t)
                    end) l0
             end
         | _ => fun l E => match E with end
         end)
  end.

Lemma break_name (n : string) (l : list name_cache) :
  match break_at (fun nc => bool_decide (nc_name nc = n)) l with
  | Some (a, x, b) => l = a ++ x :: b /\ nc_name x = n /\ n ∉ nc_name <$> a
  | None => n ∉ nc_name <$> l
  end.
Proof.
  destruct (break_at _ l) as [[[a x] b]|] eqn:E.
  - apply break_at_Some in E as (-> & Hx & Ha). apply bool_decide_eq_true in Hx.
    split; [done|]. split; [done|]. intros (y & -> & Hy)%list_elem_of_fmap.
    rewrite Forall_forall in Ha. apply Ha in Hy. by apply bool_decide_eq_false in Hy.
  - apply break_at_None in E. intros (y & -> & Hy)%list_elem_of_fmap.
    rewrite Forall_forall in E. apply E in Hy. by apply bool_decide_eq_false in Hy.
Qed.

Lemma break_name_mid n x (a b : list name_cache) :
  nc_name x = n -> n ∉ nc_name <$> a ->
  break_at (fun nc => bool_decide (nc_name nc = n)) (a ++ x :: b) = Some (a, x, b).
Proof.
  intros Hx Ha. induction a as [|y a IH]; simpl.
  - by rewrite bool_decide_true.
  - rewrite fmap_cons in Ha. apply not_elem_of_cons in Ha as [Hy Ha].
    rewrite bool_decide_false by done. by rewrite IH.
Qed.
Lemma countl_skip n x a b : nc_name x <> n -> countl n (a ++ x :: b) = countl n (a ++ b).
Proof.
  intros Hx. unfold countl. induction a as [|y a IH]; simpl.
  - rewrite bool_decide_false by done. by destruct (break_at _ b) as [[[??]?]|].
  - bdec (nc_name y = n) as Hy; [done|].
    destruct (break_at _ (a ++ x :: b)) as [[[??]?]|], (break_at _ (a ++ b)) as [[[??]?]|];
      exact IH.
Qed.

Lemma countl_hit n x a b :
  nc_name x = n -> n ∉ nc_name <$> a -> countl n (a ++ x :: b) = occurences x.
Proof. intros Hx Ha. unfold countl. by rewrite break_name_mid. Qed.

Lemma chain_set c h l h' :
  cache_chain (set_chain c h l) h' = if bool_decide (h = h') then l else cache_chain c h'.
Proof.
  unfold cache_chain, set_chain; simpl.
  bdec (h = h') as Hh; [by subst; rewrite lookup_insert_eq|by rewrite lookup_insert_ne].
Qed.

Definition touch (c : cache_st) : cache_st := if cache_inited c then c else cache_init c.

Lemma touch_wf c : cache_wf c -> cache_wf (touch c) /\ cache_inited (touch c) = true
    /\ forall h, cache_chain (touch c) h = cache_chain c h.
Proof.
  intros [H0 Hwf]. unfold touch. destruct (cache_inited c) eqn:E; [split; [split; [congruence|done]|done]|].
  assert (forall h, cache_chain (cache_init c) h = cache_chain c h) as Hc.
  { intros h. unfold cache_chain. by rewrite H0. }
  split; [|done]. split; [done|]. intros h. by rewrite Hc.
Qed.

(** Replacing the chain of [n] by one that changes the count of [n] only. *)
Lemma replace_chain c n l k :
  cache_wf c -> cache_inited c = true ->
  chain_wf (mkhash n) l ->
  countl n l = k ->
  (forall m, m <> n -> countl m l = countl m (cache_chain c (mkhash n))) ->
  cache_wf (set_chain c (mkhash n) l)
  /\ forall m, count (set_chain c (mkhash n) l) m = if bool_decide (m = n) then k else count c m.
Proof.
  intros [_ Hwf] Hi Hl Hk Hm. split; [split|].
  - unfold set_chain; simpl. by rewrite Hi.
  - intros h. rewrite chain_set. bdec (mkhash n = h) as Hh; [by subst|apply Hwf].
  - intros m. unfold count. rewrite chain_set.
    bdec (m = n) as Hmn; [by subst; rewrite bool_decide_true|].
    bdec (mkhash n = mkhash m) as Hh; [|done]. rewrite Hm, Hh; done.
Qed.

Lemma countl_absent n l : n ∉ nc_name <$> l -> countl n l = 0.
Proof.
  intros Hn. unfold countl. pose proof (break_name n l) as H.
  destruct (break_at _ l) as [[[a x] b]|]; [|done]. destruct H as (-> & <- & _).
  exfalso. apply Hn. rewrite fmap_app, elem_of_app, fmap_cons. right. apply list_elem_of_here.
Qed.

Lemma chain_wf_mid h a x b k :
  chain_wf h (a ++ x :: b) -> 0 < k -> chain_wf h (a ++ mk_nc (nc_name x) k :: b).
Proof.
  unfold chain_wf. rewrite !fmap_app, !fmap_cons, !Forall_app, !Forall_cons. naive_solver.
Qed.

Lemma chain_wf_remove h a x b :
  chain_wf h (a ++ x :: b) -> chain_wf h (a ++ b) /\ nc_name x ∉ nc_name <$> (a ++ b).
Proof.
  unfold chain_wf. rewrite !fmap_app, fmap_cons, !Forall_app, Forall_cons.
  intros [Hnd Hf]. apply NoDup_app in Hnd as (Ha & Hab & Hb).
  apply NoDup_cons in Hb as [Hx Hb]. split; [|rewrite elem_of_app; set_solver].
  split; [|naive_solver]. apply NoDup_app. set_solver.
Qed.

Lemma cache_inc_spec c n :
  cache_wf c ->
  cache_wf (fst (cache_inc c n)) /\ snd (cache_inc c n) = n
  /\ forall m, count (fst (cache_inc c n)) m = count c m + (if bool_decide (n = m) then 1 else 0).
Proof.
  intros Hwf. destruct (touch_wf c Hwf) as (Hwf' & Hi & Hc).
  unfold cache_inc, cache_get_name. fold (touch c).
  pose proof (break_name n (cache_chain (touch c) (mkhash n))) as Hb.
  pose proof (proj2 Hwf' (mkhash n)) as Hch.
  assert (forall m, count (touch c) m = count c m) as Hcount
    by (intros; unfold count; by rewrite Hc).
  destruct (break_at _ _) as [[[a x] b]|] eqn:E; simpl.
  - destruct Hb as (Hl & Hx & Ha). rewrite Hl in Hch.
    assert (0 < occurences x) as Hpos by (destruct Hch as [_ Hf]; apply Forall_app in Hf as [_ Hf]; apply Forall_cons in Hf; naive_solver).
    assert (count (touch c) n = occurences x) as Hcx by (unfold count, countl; by rewrite E).
    destruct (replace_chain (touch c) n (a ++ mk_nc (nc_name x) (occurences x + 1) :: b)
                (occurences x + 1) Hwf' Hi) as [Hw Hq].
    + apply chain_wf_mid; [done|lia].
    + by apply countl_hit.
    + intros m Hm. rewrite Hl, !countl_skip by (simpl; congruence). done.
    + split; [done|]. split; [done|]. intros m. rewrite Hq. bdec (m = n) as Hm.
      * subst m. rewrite bool_decide_true, <- Hcount; [lia|done].
      * rewrite bool_decide_false, Hcount; [lia|done].
  - unfold cache_add_name.
    destruct (replace_chain (touch c) n (mk_nc n 1 :: cache_chain (touch c) (mkhash n)) 1 Hwf' Hi)
      as [Hw Hq].
    + destruct Hch. split; [by constructor|]. constructor; [done|done].
    + apply (countl_hit n (mk_nc n 1) []); [done|apply not_elem_of_nil].
    + intros m Hm. by apply (countl_skip m (mk_nc n 1) []).
    + split; [done|]. split; [done|]. intros m. rewrite Hq. bdec (m = n) as Hm.
      * subst m. rewrite bool_decide_true by done. rewrite <- Hcount. unfold count.
        rewrite countl_absent by done. lia.
      * rewrite bool_decide_false, Hcount; [lia|done].
Qed.

Lemma cache_dec_spec c n :
  cache_wf c -> 0 < count c n ->
  cache_wf (cache_dec c (Some n))
  /\ forall m, count (cache_dec c (Some n)) m = count c m - (if bool_decide (n = m) then 1 else 0).
Proof.
  intros Hwf Hpos. destruct (touch_wf c Hwf) as (Hwf' & Hi & Hc).
  unfold cache_dec, cache_get_name. fold (touch c).
  pose proof (break_name n (cache_chain (touch c) (mkhash n))) as Hb.
  pose proof (proj2 Hwf' (mkhash n)) as Hch.
  assert (forall m, count (touch c) m = count c m) as Hcount
    by (intros; unfold count; by rewrite Hc).
  destruct (break_at _ _) as [[[a x] b]|] eqn:E.
  2:{ rewrite <- Hcount in Hpos. unfold count in Hpos. rewrite countl_absent in Hpos by done. lia. }
  destruct Hb as (Hl & Hx & Ha). rewrite Hl in Hch.
  assert (count (touch c) n = occurences x) as Hcx by (unfold count, countl; by rewrite E).
  destruct (chain_wf_remove _ _ _ _ Hch) as [Hrm Hnx].
  enough (exists l, (if occurences x - 1 =? 0 then set_chain (touch c) (mkhash n) (a ++ b)
     else set_chain (touch c) (mkhash n) (a ++ mk_nc (nc_name x) (occurences x - 1) :: b))
     = set_chain (touch c) (mkhash n) l /\ chain_wf (mkhash n) l /\ countl n l = occurences x - 1
     /\ forall m, m <> n -> countl m l = countl m (a ++ b)) as (l & -> & Hwl & Hcl & Hml).
  { destruct (replace_chain (touch c) n l (occurences x - 1) Hwf' Hi Hwl Hcl) as [Hw Hq].
    - intros m Hm. rewrite Hl, countl_skip by congruence. by apply Hml.
    - split; [done|]. intros m. rewrite Hq. bdec (m = n) as Hm.
      + subst m. rewrite bool_decide_true, <- Hcount; [lia|done].
      + rewrite bool_decide_false, Hcount; [lia|done]. }
  rewrite <- Hcount, Hcx in Hpos.
  destruct (Z.eqb_spec (occurences x - 1) 0) as [H0|H0].
  - exists (a ++ b). split; [done|]. split; [done|]. rewrite <- Hx at 1.
    rewrite countl_absent by done. split; [lia|done].
  - exists (a ++ mk_nc (nc_name x) (occurences x - 1) :: b). split; [done|].
    split; [apply chain_wf_mid; [done|lia]|]. split.
    + by apply countl_hit.
    + intros m Hm. apply countl_skip. simpl. congruence.
Qed.

Lemma uses_nonneg n l : 0 <= uses n l.
Proof.
  assert (forall a, 0 <= uses1 n a) as H1.
  { intros a. induction a as [nm ty v len h IH] using arg_nested_ind.
    rewrite uses1_unfold. destruct (bool_decide _), (ty =? ARG_ARGLIST); try lia;
      destruct v as [| | | |l']; try lia;
      (enough (0 <= uses n l') by lia; specialize (IH l' eq_refl);
       induction IH; simpl; lia). }
  induction l as [|a l IH]; simpl; [lia|]. specialize (H1 a). lia.
Qed.

Lemma uses1_nonneg n a : 0 <= uses1 n a.
Proof. pose proof (uses_nonneg n [a]). simpl in *. lia. Qed.

Definition free_ok1 (a : arg) : Prop := forall c,
  cache_wf c -> (forall n, uses1 n a <= count c n) ->
  cache_wf (arg_free_all1 c a)
  /\ forall n, count (arg_free_all1 c a) n = count c n - uses1 n a.

Lemma free_list_ok l : Forall free_ok1 l -> forall c,
  cache_wf c -> (forall n, uses n l <= count c n) ->
  cache_wf (arg_free_all c l)
  /\ forall n, count (arg_free_all c l) n = count c n - uses n l.
Proof.
  induction 1 as [|a l Ha _ IH]; intros c Hwf Hle; simpl in *.
  - split; [done|]. intros n. lia.
  - destruct (Ha c Hwf) as [Hwf1 Hc1].
    { intros n. specialize (Hle n). pose proof (uses_nonneg n l). lia. }
    destruct (IH _ Hwf1) as [Hwf2 Hc2].
    { intros n. rewrite Hc1. specialize (Hle n). lia. }
    split; [done|]. intros n. rewrite Hc2, Hc1. lia.
Qed.

Lemma free_ok a : free_ok1 a.
Proof.
  induction a as [nm ty v len h IH] using arg_nested_ind. intros c Hwf Hle.
  rewrite arg_free_all1_unfold.
  set (inner := fun n => if ty =? ARG_ARGLIST
                         then match v with VList l => uses n l | _ => 0 end else 0).
  assert (forall n, uses1 n (Arg nm ty v len h) = (if bool_decide (nm = n) then 1 else 0) + inner n)
    as Hu by (intros; apply uses1_unfold).
  set (c1 := if ty =? ARG_ARGLIST then match v with VList l => arg_free_all c l | _ => c end else c).
  assert (cache_wf c1 /\ forall n, count c1 n = count c n - inner n) as [Hwf1 Hc1].
  { unfold c1, inner. destruct (ty =? ARG_ARGLIST) eqn:E; [|split; [done|intros; lia]].
    destruct v as [| | | |l]; try (split; [done|intros; lia]).
    apply free_list_ok; [by apply IH|done|]. intros n. specialize (Hle n).
    rewrite uses1_unfold, E in Hle. destruct (bool_decide _); lia. }
  destruct (cache_dec_spec c1 nm Hwf1) as [Hwf2 Hc2].
  { rewrite Hc1. specialize (Hle nm). rewrite Hu, bool_decide_true in Hle by done. lia. }
  split; [done|]. intros n. rewrite Hc2, Hc1, Hu. lia.
Qed.

Definition dup_ok1 (a : arg) : Prop := forall c,
  cache_wf c ->
  cache_wf (fst (arg_dup1 c a))
  /\ (forall n, count (fst (arg_dup1 c a)) n = count c n + uses1 n a)
  /\ forall n, uses1 n (snd (arg_dup1 c a)) = uses1 n a.

Lemma dup_list_ok l : Forall dup_ok1 l -> forall c,
  cache_wf c ->
  cache_wf (fst (arg_dup c l))
  /\ (forall n, count (fst (arg_dup c l)) n = count c n + uses n l)
  /\ forall n, uses n (snd (arg_dup c l)) = uses n l.
Proof.
  induction 1 as [|a l Ha _ IH]; intros c Hwf; simpl.
  - split; [done|]. split; [intros n; lia|done].
  - destruct (Ha c Hwf) as (Hwf1 & Hc1 & Hu1).
    destruct (arg_dup1 c a) as [c1 a']; simpl in *.
    destruct (IH c1 Hwf1) as (Hwf2 & Hc2 & Hu2).
    destruct (arg_dup c1 l) as [c2 l']; simpl in *.
    split; [done|]. split; intros n; [rewrite Hc2, Hc1; lia|by rewrite Hu1, Hu2].
Qed.

Lemma dup_ok a : dup_ok1 a.
Proof.
  induction a as [nm ty v len h IH] using arg_nested_ind. intros c Hwf.
  rewrite arg_dup1_unfold.
  destruct (cache_inc_spec c nm Hwf) as (Hwf1 & Hn & Hc1).
  destruct (cache_inc c nm) as [c1 n1]; simpl in Hwf1, Hn, Hc1; subst n1.
  assert (forall (b : bool) w, (b = true -> (ty =? ARG_ARGLIST) = false) -> b = true ->
    cache_wf c1 /\ (forall n, count c1 n = count c n + uses1 n (Arg nm ty v len h))
    /\ forall n, uses1 n (Arg nm ty w len h) = uses1 n (Arg nm ty v len h)) as Hflat.
  { intros b w Hb ->. split; [done|]. setoid_rewrite uses1_unfold. rewrite Hb by done.
    split; [intros n; rewrite Hc1; lia|done]. }
  destruct ((ty =? ARG_INT) || (ty =? ARG_PTR)) eqn:E1;
    [apply (Hflat _ v) in E1; [done|unfold ARG_INT, ARG_PTR, ARG_ARGLIST; lia]|].
  destruct ((ty =? ARG_STRING) || (ty =? ARG_STRUCT)) eqn:E2;
    [apply (Hflat _ v) in E2; [done|unfold ARG_STRING, ARG_STRUCT, ARG_ARGLIST; lia]|].
  destruct (ty =? ARG_ARGLIST) eqn:E3.
  - destruct v as [| | | |l].
    1-4: split; [done|]; setoid_rewrite uses1_unfold; rewrite E3; simpl;
      split; [intros n; rewrite Hc1; lia|done].
    destruct (dup_list_ok l (IH l eq_refl) c1 Hwf1) as (Hwf2 & Hc2 & Hu2).
    destruct (arg_dup c1 l) as [c2 l']; cbn [fst snd] in *.
    split; [done|]. split; intros n; rewrite !uses1_unfold, ?E3, ?Hu2, ?Hc2, ?Hc1; lia.
  - by apply (Hflat (negb false) VNull).
Qed.

(** Cells carry the tag that fits their value. *)
Fixpoint typed1 (a : arg) {struct a} : bool :=
  match a with
  | Arg _ type value _ _ =>
      if type =? ARG_ARGLIST then
        match value with
        | VList l => (fix go (l : list arg) : bool :=
                        match l with [] => true | x :: t => typed1 x && go t end) l
        | _ => false
        end
      else (1 <=? type) && (type <=? 5)
  end.

Lemma dup_copies1 a c : typed1 a = true -> snd (arg_dup1 c a) = a.
Proof.
  revert c. induction a as [nm ty v len h IH] using arg_nested_ind. intros c Ht.
  rewrite arg_dup1_unfold.
  assert (snd (cache_inc c nm) = nm) as Hn.
  { unfold cache_inc. destruct (cache_get_name c nm (mkhash nm)) as [c' [[[a x] b]|]] eqn:E;
      [|done]. unfold cache_get_name in E. injection E as _ E.
    apply break_at_Some in E as (_ & E & _). by apply bool_decide_eq_true in E. }
  destruct (cache_inc c nm) as [c1 n]; simpl in Hn; subst n.
  destruct ((ty =? ARG_INT) || (ty =? ARG_PTR)) eqn:E1; [done|].
  destruct ((ty =? ARG_STRING) || (ty =? ARG_STRUCT)) eqn:E2; [done|].
  simpl in Ht. destruct (ty =? ARG_ARGLIST) eqn:E3.
  - destruct v as [| | | |l]; try done. specialize (IH l eq_refl).
    assert (forall c, snd (arg_dup c l) = l) as Hl.
    { clear -IH Ht. induction IH as [|x t Hx _ IH]; intros c; simpl; [done|].
      apply andb_prop in Ht as [H1 H2]. specialize (Hx c H1).
      destruct (arg_dup1 c x) as [c1 x']. specialize (IH H2 c1).
      destruct (arg_dup c1 t). by simplify_eq/=. }
    specialize (Hl c1). destruct (arg_dup c1 l). by simplify_eq/=.
  - unfold ARG_INT, ARG_PTR, ARG_STRING, ARG_STRUCT, ARG_ARGLIST in *. lia.
Qed.

Lemma dup_copies l c : forallb typed1 l = true -> snd (arg_dup c l) = l.
Proof.
  revert c; induction l as [|x t IH]; intros c Ht; simpl; [done|].
  apply andb_prop in Ht as [H1 H2]. pose proof (dup_copies1 x c H1).
  destruct (arg_dup1 c x) as [c1 x']. specialize (IH c1 H2).
  destruct (arg_dup c1 t). by simplify_eq/=.
Qed.

(** ** Lists as maps *)

Definition keyed (l : list arg) : Prop := Forall (fun a => a_hash a = mkhash (a_name a)) l.

Lemma arg_get_name l n :
  keyed l ->
  match arg_get (Some l) n with
  | Some (a, x, b) => l = a ++ x :: b /\ a_name x = n /\ n ∉ a_name <$> a
  | None => n ∉ a_name <$> l
  end.
Proof.
  intros Hk. unfold arg_get.
  assert (forall l', keyed l' ->
    Forall (fun a => (a_hash a =? mkhash n) && bool_decide (a_name a = n) = false) l' ->
    n ∉ a_name <$> l') as Hno.
  { intros l' Hk' Hf (y & -> & Hy)%list_elem_of_fmap.
    unfold keyed in Hk'. rewrite Forall_forall in Hf, Hk'.
    specialize (Hf _ Hy). rewrite (Hk' _ Hy), Z.eqb_refl, bool_decide_true in Hf; done. }
  destruct (break_at _ l) as [[[a x] b]|] eqn:E.
  - apply break_at_Some in E as (-> & Hx & Ha). apply andb_prop in Hx as [_ Hx].
    apply bool_decide_eq_true in Hx. split; [done|]. split; [done|].
    apply Forall_app in Hk as [Hk _]. by apply Hno.
  - apply break_at_None in E. by apply Hno.
Qed.

Lemma keyed_mid a x b : keyed (a ++ x :: b) <-> keyed (a ++ b) /\ a_hash x = mkhash (a_name x).
Proof. unfold keyed. rewrite !Forall_app, Forall_cons. naive_solver. Qed.

(** The reference: the type, length and value of the first cell of a name, by its
    name alone; and what follows this cell. *)
Fixpoint first_of (n : string) (l : list arg) : option (Z * Z * aval) :=
  match l with
  | [] => None
  | Arg m ty v len _ :: l' => if bool_decide (m = n) then Some (ty, len, v) else first_of n l'
  end.

Fixpoint after_first (n : string) (l : list arg) : list arg :=
  match l with
  | [] => []
  | a :: l' => if bool_decide (a_name a = n) then l' else after_first n l'
  end.

Lemma first_of_none n l : first_of n l = None <-> n ∉ a_name <$> l.
Proof.
  induction l as [|[m ty v len h] l IH]; cbn [first_of fmap list_fmap a_name]; [by split; [intros _; apply not_elem_of_nil|]|].
  rewrite not_elem_of_cons, <- IH. bdec (m = n) as Hm; naive_solver.
Qed.

Lemma first_of_app n a b : first_of n (a ++ b) = match first_of n a with Some x => Some x | None => first_of n b end.
Proof. induction a as [|[m ty v len h] a IH]; [done|]. cbn. by bdec (m = n) as Hm. Qed.

Lemma after_first_mid n x a b : a_name x = n -> n ∉ a_name <$> a -> after_first n (a ++ x :: b) = b.
Proof.
  intros Hx. induction a as [|y a IH]; cbn.
  - intros _. by rewrite bool_decide_true.
  - rewrite not_elem_of_cons. intros [Hy Ha]. rewrite bool_decide_false by done. by apply IH.
Qed.

(** A cell in the middle counts for its own name only. *)
Lemma first_of_mid m a x b : m <> a_name x -> first_of m (a ++ x :: b) = first_of m (a ++ b).
Proof.
  intros Hm. destruct x as [n ty v len h]. rewrite !first_of_app. cbn in *. by rewrite bool_decide_false.
Qed.

Lemma arg_get_first l n : keyed l ->
  first_of n l = match arg_get (Some l) n with Some (_, x, _) => Some (a_type x, a_length x, a_value x) | None => None end.
Proof.
  intros Hk. pose proof (arg_get_name l n Hk) as H. destruct (arg_get (Some l) n) as [[[a [m ty v len h]] b]|].
  - destruct H as (-> & <- & Ha%first_of_none). rewrite first_of_app, Ha. cbn. by rewrite bool_decide_true.
  - by apply first_of_none.
Qed.

Lemma cache_inc_name c n : cache_wf c -> snd (cache_inc c n) = n.
Proof. intros H. by destruct (cache_inc_spec c n H) as (_ & ? & _). Qed.

Lemma arg_add_value_eq c l n ty len v :
  cache_wf c ->
  snd (arg_add_value c (Some l) n ty len v) = Some (l ++ [Arg n ty v len (mkhash n)]).
Proof.
  intros Hwf. unfold arg_add_value. pose proof (cache_inc_name c n Hwf).
  destruct (cache_inc c n). by simplify_eq/=.
Qed.


Lemma add_names_eq c ret ns :
  cache_wf c ->
  cache_wf (fst (add_names c ret ns))
  /\ snd (add_names c ret ns) = ret ++ ((fun n => Arg n ARG_INT (VPtr 1) 0 (mkhash n)) <$> ns).
Proof.
  revert c ret; induction ns as [|n ns IH]; intros c ret Hwf; simpl; [by rewrite app_nil_r|].
  destruct (cache_inc_spec c n Hwf) as (Hwf1 & Hn & _).
  destruct (cache_inc c n) as [c1 n1]; simpl in Hwf1, Hn; subst.
  destruct (IH c1 (ret ++ [Arg n ARG_INT (VPtr 1) 0 (mkhash n)]) Hwf1) as [Hw ->].
  split; [done|]. by rewrite <- (assoc_L (++)).
Qed.

(** ** Properties *)

(** [arg_dup] followed by [arg_free_all] of the copy gives every name in
    the shared cache the reference count it had, for lists nested to any
    depth: no name leaks and none is freed too early.  The copy itself is
    equal to the source when every cell's tag fits its value. *)
Theorem arg_dup_free_balanced c src (Hwf : cache_wf c) :
  let '(c1, dst) := arg_dup c src in
  (forall n, count (arg_free_all c1 dst) n = count c n)
  /\ cache_wf (arg_free_all c1 dst)
  /\ (forallb typed1 src = true -> dst = src).
Proof.
  destruct (dup_list_ok src (Forall_true _ _ dup_ok) c Hwf) as (Hwf1 & Hc1 & Hu1).
  pose proof (dup_copies src c) as Hcopy.
  destruct (arg_dup c src) as [c1 dst]; cbn [fst snd] in *.
  destruct (free_list_ok dst (Forall_true _ _ free_ok) c1 Hwf1) as [Hwf2 Hc2].
  { intros n. rewrite Hc1, Hu1.
    destruct Hwf as [_ Hwf]. unfold count, countl.
    destruct (break_at _ _) as [[[a x] b]|] eqn:E; [|lia].
    apply break_at_Some in E as (E & _). specialize (Hwf (mkhash n)) as [_ Hf].
    rewrite E in Hf. apply Forall_app in Hf as [_ Hf]. apply Forall_cons in Hf. lia. }
  split; [|done]. intros n. rewrite Hc2, Hc1, Hu1. lia.
Qed.

(** C34: an argument list is an association list in which the first cell of a name
    counts, whether or not other cells have that name.  [arg_get_value] and
    [arg_get_type] give its value and type, or NULL and -1.  [arg_add_value] is seen
    only when the name was absent.  [arg_set_value] answers 0 and changes the value
    and length, not the type, of that cell, or -1 and nothing.  [arg_del_value]
    removes that cell, so that the next one of the name, if any, is seen.  What is
    stored under the other names stays, and all four keep the stored hashes
    right. *)
Theorem arg_list_is_map c l n ty len v (Hwf : cache_wf c) (Hk : keyed l) :
  arg_get_value (Some l) n = match first_of n l with Some (_, _, v) => v | None => VNull end
  /\ arg_get_type (Some l) n = match first_of n l with Some (ty, _, _) => ty | None => -1 end
  /\ (exists l', snd (arg_add_value c (Some l) n ty len v) = Some l' /\ keyed l'
      /\ forall m, first_of m l'
           = match first_of m l with
             | Some x => Some x
             | None => if bool_decide (m = n) then Some (ty, len, v) else None
             end)
  /\ match first_of n l with
     | Some (ty0, _, _) =>
         exists l', arg_set_value (Some l) (Some n) len v = (0, Some l') /\ keyed l'
           /\ forall m, first_of m l' = if bool_decide (m = n) then Some (ty0, len, v) else first_of m l
     | None => arg_set_value (Some l) (Some n) len v = (-1, Some l)
     end
  /\ (exists l', snd (arg_del_value c (Some l) n) = Some l' /\ keyed l'
      /\ forall m, first_of m l' = first_of m (if bool_decide (m = n) then after_first n l else l)).
Proof.
  pose proof (arg_get_name l n Hk) as Hget. rewrite (arg_get_first l n Hk).
  unfold arg_get_value, arg_get_type, arg_set_value, arg_del_value.
  split_and!; [by destruct (arg_get _ _) as [[[? ?] ?]|]..| | |].
  - eexists. split; [by apply arg_add_value_eq|].
    split; [apply Forall_app; by repeat constructor|]. intros m. rewrite first_of_app. cbn.
    destruct (first_of m l); [done|]. bdec (n = m) as Hm; [by rewrite bool_decide_true|by rewrite bool_decide_false].
  - destruct (arg_get (Some l) n) as [[[a x] b]|]; [|done]. destruct Hget as (-> & Hx & Ha).
    apply keyed_mid in Hk as [Hk Hh]. eexists. split; [done|]. split; [by apply keyed_mid|].
    intros m. bdec (m = n) as Hm.
    + subst m. rewrite first_of_app, (proj2 (first_of_none n a) Ha). cbn. by rewrite bool_decide_true.
    + by rewrite !first_of_mid by (cbn; congruence).
  - destruct (arg_get (Some l) n) as [[[a x] b]|]; cbn [snd].
    + destruct Hget as (-> & Hx & Ha). apply keyed_mid in Hk as [Hk _]. eexists. split; [done|]. split; [done|].
      intros m. bdec (m = n) as Hm; [|by rewrite first_of_mid by congruence].
      subst m. by rewrite first_of_app, (proj2 (first_of_none n a) Ha), after_first_mid.
    + eexists. split; [done|]. split; [done|]. intros m. bdec (m = n) as Hm; [subst m|done].
      rewrite (proj2 (first_of_none n l) Hget). symmetry. apply first_of_none. intros Hin. apply Hget. clear -Hin.
      induction l as [|y l IH]; cbn in *; [done|]. case_bool_decide; set_solver.
Qed.

(** [str2arglist] reads back a list of names: joining the names of the
    cells with ", " gives the text, and no name holds the separator. *)
Theorem str2arglist_names {S : GlibSpec} c s (Hwf : cache_wf c) (Hs : s <> EmptyString) :
  exists l, snd (str2arglist c (Some s)) = Some l
    /\ String.concat ", " (a_name <$> l) = s
    /\ Forall (fun w => CStr.strstr_split w ", " = None) (a_name <$> l).
Proof.
  unfold str2arglist. destruct s as [|ch s]; [done|].
  destruct (add_names_eq c [] (g_strsplit ", " (String ch s)) Hwf) as [_ H].
  destruct (add_names c [] _) as [c1 l]; cbn [fst snd] in *. exists l. split; [done|].
  rewrite H, app_nil_l, <- list_fmap_compose.
  rewrite (list_fmap_ext _ id) by done. rewrite list_fmap_id.
  by apply g_strsplit_pieces.
Qed.

End WithHash.

(** *** Witnesses *)

Lemma cache0_wf `{G : Glib} : cache_wf cache0.
Proof. split; [done|]. intros k. split; constructor. Qed.

Lemma arg_dup_free_balanced_witness :
  cache_wf cache0 /\
  forall n, count
    (let '(c1, dst) := arg_dup cache0
       [Arg "a" ARG_ARGLIST (VList [Arg "a" ARG_INT (VPtr 3) 0 (mkhash "a")]) 0 (mkhash "a")] in
     arg_free_all c1 dst) n = count cache0 n.
Proof.
  split; [apply cache0_wf|].
  exact (proj1 (arg_dup_free_balanced cache0
           [Arg "a" ARG_ARGLIST (VList [Arg "a" ARG_INT (VPtr 3) 0 (mkhash "a")]) 0 (mkhash "a")]
           (cache0_wf))).
Defined.

(** Two cells of one name: the second is seen when the first is gone. *)
Definition two_cells : list arg :=
  [Arg "a" ARG_INT (VPtr 3) 0 (mkhash "a"); Arg "a" ARG_STRING (VStr "x") 2 (mkhash "a")].

Lemma arg_list_is_map_witness :
  exists l', snd (arg_del_value cache0 (Some two_cells) "a") = Some l' /\ keyed l'
    /\ first_of "a" l' = Some (ARG_STRING, 2, VStr "x").
Proof.
  assert (keyed two_cells) as Hk by repeat constructor.
  destruct (arg_list_is_map cache0 two_cells "a" ARG_INT 0 (VPtr 4) (cache0_wf) Hk)
    as (_ & _ & _ & _ & l' & H1 & H2 & H3).
  exists l'. split; [exact H1|]. split; [exact H2|]. exact (H3 "a"%string).
Defined.

Lemma str2arglist_names_witness :
  exists l, snd (str2arglist cache0 (Some "a.nasl, b.nasl"%string)) = Some l
    /\ a_name <$> l = ["a.nasl"; "b.nasl"]%string
    /\ String.concat ", " (a_name <$> l) = "a.nasl, b.nasl"%string.
Proof.
  destruct (str2arglist_names cache0 "a.nasl, b.nasl" (cache0_wf)
              ltac:(discriminate)) as (l & H1 & H2 & _).
  exists l. split; [exact H1|]. split; [|exact H2].
  vm_compute in H1. injection H1 as <-. reflexivity.
Defined.

End Arglists.
