(* ===== verification/Inet.v ===== *)
(** * Address conversions of the C library

    [inet_pton] and [inet_ntop] for AF_INET and AF_INET6 and the [sscanf]
    conversions the sources use, as the C library defines them.  An IPv4 address
    is its value in host byte order (what the sources read through [ntohl]); an
    IPv6 address is its 16 bytes. *)

From S2P Require Import Prelude.
From stdpp Require Import base gmap sets list strings.
From Stdlib Require Import Ascii ZArith Lia.
Local Open Scope Z_scope.

Module Inet.

Definition addr4 := Z.
Definition addr6 := list Z.

(** *** AF_INET *)

(** [acc]: the octets read; [cur]: the octet being read, if it has a digit. *)
Fixpoint pton4_loop (s : string) (acc : list Z) (cur : option Z) : option (list Z) :=
  match s with
  | EmptyString =>
      match cur with
      | Some v => if (length acc =? 3)%nat then Some (acc ++ [v]) else None
      | None => None
      end
  | String c s' =>
      if CStr.isdigit c then
        let d := CStr.code c - 48 in
        match cur with
        | None => pton4_loop s' acc (Some d)
        | Some v => if (v =? 0) || (255 <? v * 10 + d) then None
                    else pton4_loop s' acc (Some (v * 10 + d))
        end
      else if decide (c = "."%char) then
        match cur with
        | Some v => if (length acc =? 3)%nat then None else pton4_loop s' (acc ++ [v]) None
        | None => None
        end
      else None
  end.

Definition inet_pton4_bytes (s : string) : option (list Z) := pton4_loop s [] None.

Fixpoint be_value (acc : Z) (l : list Z) : Z :=
  match l with [] => acc | b :: l' => be_value (acc * 256 + b) l' end.

Definition inet_pton4 (s : string) : option addr4 :=
  match inet_pton4_bytes s with Some l => Some (be_value 0 l) | None => None end.

Definition octet (a i : Z) : Z := (a / 2 ^ (8 * i)) mod 256.

Definition inet_ntop4_bytes (a b c d : Z) : string :=
  CStr.dec a +:+ String "." (CStr.dec b +:+ String "." (CStr.dec c +:+ String "." (CStr.dec d))).

Definition inet_ntop4 (a : addr4) : string :=
  inet_ntop4_bytes (octet a 3) (octet a 2) (octet a 1) (octet a 0).

(** *** AF_INET6 *)

(** [tp]: the bytes written; [colonp]: how many there were at "::";
    [seen]/[val]: the group being read; [curtok]: where it starts. *)
Fixpoint pton6_loop (src curtok : string) (tp : list Z) (colonp : option nat)
    (seen : nat) (val : Z) : option (list Z * option nat) :=
  match src with
  | EmptyString =>
      if (0 <? seen)%nat then
        if (14 <? length tp)%nat then None else Some (tp ++ [val / 256; val mod 256], colonp)
      else Some (tp, colonp)
  | String ch src' =>
      match CStr.digit_val 16 ch with
      | Some d => if (seen =? 4)%nat then None
                  else pton6_loop src' curtok tp colonp (S seen) (val * 16 + d)
      | None =>
          if decide (ch = ":"%char) then
            if (seen =? 0)%nat then
              match colonp with
              | Some _ => None
              | None => pton6_loop src' src' tp (Some (length tp)) 0 val
              end
            else if decide (src' = EmptyString) then None
            else if (14 <? length tp)%nat then None
            else pton6_loop src' src' (tp ++ [val / 256; val mod 256]) colonp 0 0
          else if decide (ch = "."%char) then
            if (12 <? length tp)%nat then None
            else match inet_pton4_bytes curtok with
                 | Some b => Some (tp ++ b, colonp)
                 | None => None
                 end
          else None
      end
  end.

Definition inet_pton6 (s : string) : option addr6 :=
  let start := match s with
               | String ":" s' => match s' with String ":" _ => Some s' | _ => None end
               | EmptyString => None
               | _ => Some s
               end in
  match start with
  | None => None
  | Some s =>
      match pton6_loop s s [] None 0 0 with
      | None => None
      | Some (tp, colonp) =>
          match colonp with
          | Some n => if (length tp =? 16)%nat then None
                      else Some (take n tp ++ replicate (16 - length tp) 0 ++ drop n tp)
          | None => if (length tp =? 16)%nat then Some tp else None
          end
      end
  end.

Definition hex_char (d : Z) : ascii :=
  ascii_of_N (Z.to_N (if d <? 10 then 48 + d else 87 + d)).
Fixpoint hex_pos (fuel : nat) (z : Z) (acc : string) : string :=
  match fuel with
  | O => acc
  | S n => if z <? 16 then String (hex_char z) acc
           else hex_pos n (z / 16) (String (hex_char (z mod 16)) acc)
  end.

Fixpoint words (l : list Z) : list Z :=
  match l with a :: b :: l' => a * 256 + b :: words l' | _ => [] end.

(** Longest run of zero words (the first of the longest), as start and length. *)
Fixpoint zero_runs (i : nat) (cur best : nat * nat) (ws : list Z) : nat * nat :=
  let better := fun cur best : nat * nat => if (best.2 <? cur.2)%nat then cur else best in
  match ws with
  | [] => better cur best
  | w :: ws' =>
      if w =? 0 then
        zero_runs (S i) (if (cur.2 =? 0)%nat then (i, 1%nat) else (cur.1, S cur.2)) best ws'
      else zero_runs (S i) (0%nat, 0%nat) (better cur best) ws'
  end.

Fixpoint ntop6_words (i : nat) (base len : nat) (bytes ws all : list Z) : string :=
  match ws with
  | [] => if (2 <=? len)%nat && (base + len =? 8)%nat then ":" else EmptyString
  | w :: ws' =>
      if (2 <=? len)%nat && (base <=? i)%nat && (i <? base + len)%nat then
        if (i =? base)%nat then String ":" (ntop6_words (S i) base len bytes ws' all)
        else ntop6_words (S i) base len bytes ws' all
      else
        (if (i =? 0)%nat then EmptyString else ":"%string) +:+
        (if (i =? 6)%nat && (2 <=? len)%nat && (base =? 0)%nat
            && ((len =? 6)%nat || ((len =? 5)%nat && (nth 5 all 0 =? 65535)))
         then inet_ntop4_bytes (nth 12 bytes 0) (nth 13 bytes 0) (nth 14 bytes 0) (nth 15 bytes 0)
         else hex_pos 4 w EmptyString +:+ ntop6_words (S i) base len bytes ws' all)
  end.

Definition inet_ntop6 (a : addr6) : string :=
  let ws := words a in
  let '(base, len) := zero_runs 0 (0%nat, 0%nat) (0%nat, 0%nat) ws in
  ntop6_words 0 base len a ws ws.

(** *** [sscanf] *)

(** "%*[set]": skips a non-empty run of characters of the set. *)
Definition scan_set (f : ascii -> bool) (s : string) : option string :=
  match s with String c _ => if f c then Some (CStr.skip f s) else None | _ => None end.

Definition scan_char (c : ascii) (s : string) : option string :=
  match s with String d s' => if decide (c = d) then Some s' else None | _ => None end.

(** "%<w>u": white space, then at most [w] characters of an optionally signed
    number. *)
Definition scan_u (w : nat) (s : string) : option Z :=
  let s := CStr.take_str w (CStr.skip CStr.isspace s) in
  let '(neg, s) := CStr.sign s in
  match s with
  | String c _ =>
      if CStr.isdigit c
      then Some (MInt.uwrap32 (let v := fst (CStr.digits 10 0 s) in if neg : bool then - v else v))
      else None
  | EmptyString => None
  end.

(** [memcmp (a, b, n)] on two arrays of the same length, as its sign. *)
Fixpoint memcmp (a b : list Z) : Z :=
  match a, b with
  | x :: a', y :: b' => if x <? y then -1 else if y <? x then 1 else memcmp a' b'
  | _, _ => 0
  end.

Example pton4_1 : inet_pton4 "192.168.13.1" = Some 3232238849. Proof. reflexivity. Qed.
Example pton4_2 : inet_pton4 "192.168.1.300" = None. Proof. reflexivity. Qed.
Example pton4_3 : inet_pton4 "192.168.1.1e" = None. Proof. reflexivity. Qed.
Example pton6_1 : inet_pton6 "::FFFF:192.168.13.55"
  = Some [0;0;0;0;0;0;0;0;0;0;255;255;192;168;13;55]. Proof. reflexivity. Qed.
Example pton6_2 : inet_pton6 "::1g" = None. Proof. reflexivity. Qed.
Example ntop6_1 : inet_ntop6 [32;1;13;184;0;0;0;0;0;1;0;0;0;0;0;1] = "2001:db8::1:0:0:1"%string.
Proof. reflexivity. Qed.
Example ntop6_2 : inet_ntop6 [0;0;0;0;0;0;0;0;0;0;255;255;192;168;13;55]
  = "::ffff:192.168.13.55"%string. Proof. reflexivity. Qed.
Example ntop6_3 : inet_ntop6 (replicate 16 0) = "::"%string. Proof. reflexivity. Qed.

(** *** Lemmas on AF_INET *)

Lemma pton4_octet b rest acc :
  0 <= b < 256 ->
  pton4_loop (CStr.dec b +:+ rest) acc None = pton4_loop rest acc (Some b).
Proof.
  intros H. rewrite <- (Z2Nat.id b) by lia. assert (Z.to_nat b < 256)%nat as Hn by lia.
  revert Hn. generalize (Z.to_nat b) as n. clear. intros n Hn.
  do 256 (destruct n as [|n]; [reflexivity|]). lia.
Qed.

Lemma octet_range a i : 0 <= octet a i < 256.
Proof. apply Z.mod_pos_bound. lia. Qed.
#[export] Hint Resolve octet_range : ov.

Lemma octets_value a : 0 <= a < 2 ^ 32 ->
  be_value 0 [octet a 3; octet a 2; octet a 1; octet a 0] = a.
Proof.
  intros Ha. cbn [be_value]. unfold octet.
  change (2 ^ (8 * 0)) with 1. change (2 ^ (8 * 1)) with 256.
  change (2 ^ (8 * 2)) with 65536. change (2 ^ (8 * 3)) with 16777216. Z.to_euclidean_division_equations. lia.
Qed.

Lemma pton4_ntop4_bytes a :
  inet_pton4_bytes (inet_ntop4 a) = Some [octet a 3; octet a 2; octet a 1; octet a 0].
Proof.
  unfold inet_pton4_bytes, inet_ntop4, inet_ntop4_bytes.
  rewrite pton4_octet by auto with ov. simpl.
  rewrite pton4_octet by auto with ov. simpl.
  rewrite pton4_octet by auto with ov. simpl.
  rewrite <- (CStr.append_nil_r (CStr.dec (octet a 0))).
  by rewrite pton4_octet by auto with ov.
Qed.

Lemma pton4_ntop4 a : 0 <= a < 2 ^ 32 -> inet_pton4 (inet_ntop4 a) = Some a.
Proof.
  intros Ha. unfold inet_pton4. rewrite pton4_ntop4_bytes. by rewrite octets_value.
Qed.

Lemma ntop4_inj a b : 0 <= a < 2 ^ 32 -> 0 <= b < 2 ^ 32 -> inet_ntop4 a = inet_ntop4 b -> a = b.
Proof.
  intros Ha Hb H. apply (f_equal inet_pton4) in H.
  rewrite !pton4_ntop4 in H by done. by injection H.
Qed.

(** The characters an address may have. *)
Definition char4 (c : ascii) : bool := CStr.isdigit c || bool_decide (c = "."%char).
Definition char6 (c : ascii) : bool :=
  CStr.isxdigit c || bool_decide (c = "."%char) || bool_decide (c = ":"%char).

Lemma pton4_loop_chars s acc cur l : pton4_loop s acc cur = Some l -> CStr.all_str char4 s = true.
Proof.
  revert acc cur. induction s as [|c s IH]; intros acc cur; simpl; [done|].
  unfold char4 at 1. destruct (CStr.isdigit c).
  - destruct cur as [v|]; simpl; [|apply IH]. destruct (_ || _); [done|]. apply IH.
  - case_decide as Hc; [|done]. rewrite bool_decide_true by done. simpl.
    destruct cur as [v|]; [|done]. destruct (_ =? _)%nat; [done|]. apply IH.
Qed.

Lemma pton4_chars s a : inet_pton4 s = Some a -> CStr.all_str char4 s = true.
Proof.
  unfold inet_pton4, inet_pton4_bytes. intros H. case_match_hyp H. by eapply pton4_loop_chars.
Qed.

Lemma pton6_loop_chars src curtok pre tp colonp seen val r :
  curtok = (pre +:+ src) ->
  pton6_loop src curtok tp colonp seen val = Some r -> CStr.all_str char6 src = true.
Proof.
  revert curtok pre tp colonp seen val.
  induction src as [|c src IH]; intros curtok pre tp colonp seen val Hc; simpl; [done|].
  unfold char6 at 1. unfold CStr.isxdigit.
  destruct (CStr.digit_val 16 c) as [d|] eqn:Ed; simpl.
  - destruct (_ =? _)%nat; [done|]. apply (IH _ (pre +:+ String c EmptyString)).
    by rewrite Hc, CStr.append_assoc.
  - case_decide as H1.
    + rewrite (bool_decide_true (c = ":"%char)) by done. rewrite orb_true_r. simpl.
      destruct (_ =? _)%nat; [destruct colonp; [done|]; by apply (IH src EmptyString)|].
      case_decide; [done|]. destruct (_ <? _)%nat; [done|]. by apply (IH src EmptyString).
    + case_decide as H2; [|done]. rewrite (bool_decide_true (c = "."%char)) by done. simpl.
      destruct (_ <? _)%nat; [done|].
      destruct (inet_pton4_bytes curtok) as [b|] eqn:E; [|done]. intros _.
      apply pton4_loop_chars in E. rewrite Hc, CStr.all_str_app in E.
      apply andb_true_iff in E as [_ E]. simpl in E. apply andb_true_iff in E as [_ E].
      revert E. apply CStr.all_str_impl. intros x. unfold char4, char6, CStr.isxdigit, CStr.digit_val.
      destruct (CStr.isdigit x) eqn:Ex; simpl; [|by intros ->; rewrite orb_true_r].
      unfold CStr.isdigit in Ex. by destruct (CStr.code x - 48 <? 16) eqn:?; [|lia].
Qed.

Lemma pton6_chars s a : inet_pton6 s = Some a -> CStr.all_str char6 s = true.
Proof.
  unfold inet_pton6. intros H.
  assert (exists s' r, pton6_loop s' s' [] None 0 0 = Some r
            /\ (s = s' \/ s = String ":" s')) as (s' & r & Hr & Hs).
  { destruct s as [|c s]; [done|]. destruct (decide (c = ":"%char)) as [->|Hc].
    - destruct s as [|d s]; [done|]. destruct (decide (d = ":"%char)) as [->|Hd].
      + destruct (pton6_loop _ _ _ _ _ _) as [r|] eqn:E; [|done]. eauto.
      + destruct d as [[] [] [] [] [] [] [] []]; done.
    - destruct (pton6_loop (String c s) (String c s) [] None 0 0) as [r|] eqn:E; [eauto|].
      exfalso. destruct c as [[] [] [] [] [] [] [] []]; first [done | rewrite E in H; done]. }
  apply (pton6_loop_chars _ _ EmptyString) in Hr; [|done].
  destruct Hs as [->| ->]; [done|]. simpl. by rewrite Hr.
Qed.

Lemma ntop4_chars a : CStr.all_str char4 (inet_ntop4 a) = true.
Proof. eapply pton4_loop_chars. apply pton4_ntop4_bytes. Qed.

End Inet.
