(* ===== verification/Hosts.v ===== *)
(** * Target specifications and host collections ([base/openvas_hosts.c])

    [struct openvas_host] is the tagged union [host]; [struct openvas_hosts] is
    the record [hosts_t], whose [current] link is a position in the list (the
    NULL link is the position past the end).  The part on single specifications
    translates the [is_*] tests and the [*_ips] functions that give the first
    and last address; the second part is the collection with its constructor,
    iteration, deduplication, exclusion, ordering and reverse lookup. *)

From S2P Require Import Prelude Inet.
From stdpp Require Import base gmap sets list strings.
From Stdlib Require Import Ascii ZArith Lia.
Local Open Scope Z_scope.

Module HostSpec.
Import Inet.

Inductive host_type :=
| HOST_TYPE_NAME
| HOST_TYPE_IPV4
| HOST_TYPE_CIDR_BLOCK
| HOST_TYPE_RANGE_SHORT
| HOST_TYPE_RANGE_LONG
| HOST_TYPE_IPV6
| HOST_TYPE_CIDR6_BLOCK
| HOST_TYPE_RANGE6_LONG
| HOST_TYPE_RANGE6_SHORT.

#[export] Instance host_type_eq_dec : EqDecision host_type.
Proof. solve_decision. Defined.

Definition is_some {A} (o : option A) : bool := match o with Some _ => true | None => false end.

(** The text from a place on. *)
Fixpoint at_place (n : nat) (s : string) : string :=
  match n, s with S n, String _ s => at_place n s | _, _ => s end.

Definition first_is (f : ascii -> bool) (s : string) : bool :=
  match s with String c _ => f c | EmptyString => false end.

(** [is_cidr_block], [is_short_range_network] and [is_cidr6_block] copy their text,
    free the copy and then read, with [*p], the byte of it at which [strtol]
    stopped.  What this finds is not up to the program: it is the parameter
    [freed], the byte at a place of a freed copy of a text.  When the memory still
    holds the text ([FreedKept]) it is the byte that was there. *)
Class FreedMemory := freed : string -> Z -> ascii.

Class FreedKept `{F : FreedMemory} : Prop :=
  freed_kept a p : freed (a +:+ p) (CStr.slen a) = match p with String c _ => c | EmptyString => "000"%char end.

(** [*p], for the rest [p] of the text. *)
Definition freed_byte `{FreedMemory} (str p : string) : ascii := freed str (CStr.slen str - CStr.slen p).

Definition is_ipv4_address (str : string) : bool := is_some (inet_pton4 str).
Definition is_ipv6_address (str : string) : bool := is_some (inet_pton6 str).

Definition is_cidr_block `{FreedMemory} (str : string) : bool :=
  match CStr.strchr_split "/" str with
  | None => false
  | Some (addr_str, block_str) =>
      if negb (is_ipv4_address addr_str) || negb (first_is CStr.isdigit block_str) then false
      else let '(block, p) := CStr.strtol 10 block_str in
           if negb (bool_decide (freed_byte str p = "000"%char)) || (block <=? 0) || (30 <? block)
           then false else true
  end.

(** "%*[0-9.]/%2u" *)
Definition cidr_get_block (str : string) : option Z :=
  match scan_set (fun c => CStr.isdigit c || bool_decide (c = "."%char)) str with
  | None => None
  | Some s => match scan_char "/" s with
              | None => None
              | Some s => scan_u 2 s
              end
  end.

Definition cidr_get_ip (str : string) : option addr4 :=
  match CStr.strchr_split "/" str with
  | None => None
  | Some (addr_str, _) => inet_pton4 addr_str
  end.

(** [1 << n] on [int]: undefined when the result is no [int]. *)
Definition shl1 (n : Z) : option Z :=
  if (0 <=? n) && (n <? 31) then Some (2 ^ n) else None.

(** Result of an [ips_func]: [None] is the return value -1. *)
Definition cidr_block_ips (str : string) : outcome (option (addr4 * addr4)) :=
  match cidr_get_block str with
  | None => Ret None
  | Some block =>
      match cidr_get_ip str with
      | None => Ret None
      | Some ip =>
          match shl1 (MInt.uwrap32 (32 - block)) with
          | None => Undef
          | Some size =>
              let mask := Z.lxor 4294967295 (MInt.uwrap32 (size - 1)) in
              let first := MInt.uwrap32 (Z.land ip mask + 1) in
              let last := MInt.uwrap32 (first + MInt.uwrap32 size - 3) in
              Ret (Some (first, last))
          end
      end
  end.

Definition is_long_range_network (str : string) : bool :=
  match CStr.strchr_split "-" str with
  | None => false
  | Some (first_str, second_str) => is_ipv4_address first_str && is_ipv4_address second_str
  end.

Definition long_range_network_ips (str : string) : option (addr4 * addr4) :=
  match CStr.strchr_split "-" str with
  | None => None
  | Some (first_str, last_str) =>
      match inet_pton4 first_str with
      | None => None
      | Some first => match inet_pton4 last_str with
                      | None => None
                      | Some last => Some (first, last)
                      end
      end
  end.

Definition is_short_range_network `{FreedMemory} (str : string) : bool :=
  match CStr.strchr_split "-" str with
  | None => false
  | Some (ip_str, end_str) =>
      if negb (is_ipv4_address ip_str) || negb (first_is CStr.isdigit end_str) then false
      else let '(e, p) := CStr.strtol 10 end_str in
           if negb (bool_decide (freed_byte str p = "000"%char)) || (e <? 0) || (255 <? e)
           then false else true
  end.

Definition short_range_network_ips (str : string) : option (addr4 * addr4) :=
  match CStr.strchr_split "-" str with
  | None => None
  | Some (first_str, last_str) =>
      let e := CStr.atoi last_str in
      match inet_pton4 first_str with
      | None => None
      | Some first => Some (first, MInt.uwrap32 (Z.land first 4294967040 + e))
      end
  end.

Definition is_hostname (str : string) : bool :=
  let rest := CStr.skip (fun c => CStr.isalnum c || CStr.mem_char c "-_.") str in
  bool_decide (rest = EmptyString) && (CStr.slen str - CStr.slen rest <? 256).

Definition is_cidr6_block `{FreedMemory} (str : string) : bool :=
  match CStr.strchr_split "/" str with
  | None => false
  | Some (addr6_str, block_str) =>
      if negb (is_ipv6_address addr6_str) || negb (first_is CStr.isdigit block_str) then false
      else let '(block, p) := CStr.strtol 10 block_str in
           if negb (bool_decide (freed_byte str p = "000"%char)) || (block <=? 0) || (128 <? block)
           then false else true
  end.

(** "%*[0-9a-fA-F.:]/%3u" *)
Definition cidr6_get_block (str : string) : option Z :=
  match scan_set (fun c => CStr.isxdigit c || bool_decide (c = "."%char)
                           || bool_decide (c = ":"%char)) str with
  | None => None
  | Some s => match scan_char "/" s with
              | None => None
              | Some s => scan_u 3 s
              end
  end.

Definition cidr6_get_ip (str : string) : option addr6 :=
  match CStr.strchr_split "/" str with
  | None => None
  | Some (addr6_str, _) => inet_pton6 addr6_str
  end.

(** [for (i = n; i > 0; i--) { a[j] = v; j--; }] *)
Fixpoint fill6 (n : nat) (j : Z) (v : Z) (a : addr6) : Z * addr6 :=
  match n with
  | O => (j, a)
  | S n' => fill6 n' (j - 1) v (<[Z.to_nat j := v]> a)
  end.

(** The carry loops over [a[i]], [i] from [n - 1] down to 0. *)
Fixpoint inc6 (n : nat) (a : addr6) : addr6 :=
  match n with
  | O => a
  | S i => let v := nth i a 0 in
           if v <? 255 then <[i := v + 1]> a else inc6 i (<[i := 0]> a)
  end.

Fixpoint dec6 (n : nat) (a : addr6) : addr6 :=
  match n with
  | O => a
  | S i => let v := nth i a 0 in
           if 0 <? v then <[i := v - 1]> a else dec6 i (<[i := 255]> a)
  end.

(** [a[j]] read and rewritten; undefined outside the array. *)
Definition upd6 (f : Z -> Z) (r : Z * addr6) : option addr6 :=
  let '(j, a) := r in
  if (0 <=? j) && (j <? 16) then Some (<[Z.to_nat j := f (nth (Z.to_nat j) a 0)]> a) else None.

Definition cidr6_block_ips (str : string) : outcome (option (addr6 * addr6)) :=
  match cidr6_get_block str with
  | None => Ret None
  | Some block =>
      match cidr6_get_ip str with
      | None => Ret None
      | Some ip =>
          if block =? 128 then Ret (Some (ip, ip))
          else
            let n := MInt.uwrap32 (128 - block) in
            let low := 2 ^ (n mod 8) - 1 in
            if 16 <? n / 8 then Undef
            else
            match upd6 (fun b => Z.land b (Z.lxor 255 low)) (fill6 (Z.to_nat (n / 8)) 15 0 ip),
                  upd6 (fun b => Z.lor b low) (fill6 (Z.to_nat (n / 8)) 15 255 ip) with
            | Some first, Some last =>
                if block =? 127 then Ret (Some (first, last))
                else Ret (Some (inc6 16 first, dec6 16 last))
            | _, _ => Undef
            end
      end
  end.

Definition is_long_range6_network (str : string) : bool :=
  match CStr.strchr_split "-" str with
  | None => false
  | Some (first_str, second_str) => is_ipv6_address first_str && is_ipv6_address second_str
  end.

Definition long_range6_network_ips (str : string) : option (addr6 * addr6) :=
  match CStr.strchr_split "-" str with
  | None => None
  | Some (first_str, last_str) =>
      match inet_pton6 first_str with
      | None => None
      | Some first => match inet_pton6 last_str with
                      | None => None
                      | Some last => Some (first, last)
                      end
      end
  end.

Definition is_short_range6_network (str : string) : bool :=
  match CStr.strchr_split "-" str with
  | None => false
  | Some (ip_str, end_str) =>
      if negb (is_ipv6_address ip_str) || bool_decide (end_str = EmptyString) then false
      else let p := CStr.skip CStr.isxdigit end_str in
           if negb (bool_decide (p = EmptyString)) || (4 <? CStr.slen end_str - CStr.slen p)
           then false else true
  end.

(** The low two bytes of the little-endian [end] replace the last two bytes. *)
Definition short_range6_network_ips (str : string) : option (addr6 * addr6) :=
  match CStr.strchr_split "-" str with
  | None => None
  | Some (first_str, last_str) =>
      match inet_pton6 first_str with
      | None => None
      | Some first =>
          let e := fst (CStr.strtol 16 last_str) in
          Some (first, <[14%nat := (e / 256) mod 256]> (<[15%nat := e mod 256]> first))
      end
  end.

(** [None] is the return value -1. *)
Definition determine_host_type `{FreedMemory} (str_stripped : option string) : option host_type :=
  match str_stripped with
  | None | Some EmptyString => None
  | Some s =>
      if is_ipv4_address s then Some HOST_TYPE_IPV4
      else if is_ipv6_address s then Some HOST_TYPE_IPV6
      else if is_cidr_block s then Some HOST_TYPE_CIDR_BLOCK
      else if is_short_range_network s then Some HOST_TYPE_RANGE_SHORT
      else if is_long_range_network s then Some HOST_TYPE_RANGE_LONG
      else if is_cidr6_block s then Some HOST_TYPE_CIDR6_BLOCK
      else if is_short_range6_network s then Some HOST_TYPE_RANGE6_SHORT
      else if is_long_range6_network s then Some HOST_TYPE_RANGE6_LONG
      else if is_hostname s then Some HOST_TYPE_NAME
      else None
  end.

(** Memory that holds on to what was freed. *)
Definition kept_memory : FreedMemory := fun s i =>
  match at_place (Z.to_nat i) s with String c _ => c | EmptyString => "000"%char end.

Lemma kept_memory_kept : FreedKept (F := kept_memory).
Proof.
  intros a p. unfold freed, kept_memory. rewrite CStr.slen_length, Nat2Z.id.
  induction a as [|c a IH]; [by destruct p|exact IH].
Qed.

Example type1 : determine_host_type (H := kept_memory) (Some "192.168.12.0/24"%string) = Some HOST_TYPE_CIDR_BLOCK.
Proof. reflexivity. Qed.
Example type2 : determine_host_type (H := kept_memory) (Some "::1-ef12"%string) = Some HOST_TYPE_RANGE6_SHORT.
Proof. reflexivity. Qed.
Example type3 : determine_host_type (H := kept_memory) (Some "2620:0:2d0:200::7/120"%string) = Some HOST_TYPE_CIDR6_BLOCK.
Proof. reflexivity. Qed.
Example cidr1 : cidr_block_ips "192.168.1.0/24" = Ret (Some (3232235777, 3232236030)).
Proof. reflexivity. Qed.
Example cidr6_1 : cidr6_block_ips "::ff00/120"
  = Ret (Some (replicate 14 0 ++ [255; 1], replicate 14 0 ++ [255; 254])).
Proof. reflexivity. Qed.

End HostSpec.

Module HostList.
Import Inet HostSpec.

(** [struct openvas_host]: the union with its [type] tag (only these three
    types occur in a collection). *)
Inductive host :=
| HName (name : string)
| HIpv4 (addr : addr4)
| HIpv6 (addr6 : addr6).

Record hosts_t := mk_hosts
  { orig_str : string;
    hosts : list host;
    current : nat;        (* position of the link, [length hosts] for NULL *)
    h_count : Z;          (* unsigned int *)
    removed : Z }.        (* unsigned int *)

Section Env.
Context `{G : Glib} `{F : FreedMemory}.
(** The resolver: [openvas_resolve (name, _, AF_INET)] and [getnameinfo]. *)
Context (resolve4 : string -> option addr4).
Context (getnameinfo : host -> option string).

Definition openvas_host_type (h : host) : host_type :=
  match h with
  | HName _ => HOST_TYPE_NAME
  | HIpv4 _ => HOST_TYPE_IPV4
  | HIpv6 _ => HOST_TYPE_IPV6
  end.

(** [host_type_str]; the entries no initialiser names are NULL. *)
Definition host_type_str (t : host_type) : option string :=
  match t with
  | HOST_TYPE_NAME => Some "Hostname"%string
  | HOST_TYPE_IPV4 => Some "IPv4"%string
  | HOST_TYPE_IPV6 => Some "IPv6"%string
  | HOST_TYPE_CIDR_BLOCK => Some "IPv4 CIDR block"%string
  | HOST_TYPE_RANGE_SHORT => Some "IPv4 short range"%string
  | HOST_TYPE_RANGE_LONG => Some "IPv4 long range"%string
  | _ => None
  end.

Definition openvas_host_type_str (h : option host) : option string :=
  match h with None => None | Some h => host_type_str (openvas_host_type h) end.

Definition openvas_host_value_str (h : host) : string :=
  match h with
  | HName n => n
  | HIpv4 a => inet_ntop4 a
  | HIpv6 a => inet_ntop6 a
  end.

Definition openvas_host_resolve (h : host) : option addr4 :=
  match h with HName n => resolve4 n | _ => None end.

Definition ipv4_as_ipv6 (a : addr4) : addr6 :=
  replicate 10 0 ++ [255; 255] ++ [octet a 3; octet a 2; octet a 1; octet a 0].

Definition openvas_host_get_addr6 (h : host) : option addr6 :=
  match h with
  | HIpv6 a => Some a
  | HIpv4 a => Some (ipv4_as_ipv6 a)
  | HName _ => match openvas_host_resolve h with
               | None => None
               | Some ip4 => Some (ipv4_as_ipv6 ip4)
               end
  end.

(** *** Construction *)

Definition normalize_sep (s : string) : string :=
  CStr.map_str (fun c => if decide (c = "010"%char) then ","%char else c) s.

(** The two [while] loops that add the addresses of a range.  The list is
    built in reverse, as [g_list_prepend] does; [None] is the early return
    of NULL when there are more than [max_hosts] hosts. *)
Fixpoint expand4 (fuel : nat) (current last max_hosts : Z) (hl : list host) (count : Z)
  : outcome (option (list host * Z)) :=
  match fuel with
  | O => NoReturn
  | S n =>
      if current <=? last then
        let count := MInt.uwrap32 (count + 1) in
        if (0 <? max_hosts) && (max_hosts <? count) then Ret None
        else expand4 n (MInt.uwrap32 (current + 1)) last max_hosts (HIpv4 current :: hl) count
      else Ret (Some (hl, count))
  end.

Fixpoint expand6 (fuel : nat) (current last : addr6) (max_hosts : Z) (hl : list host) (count : Z)
  : outcome (option (list host * Z)) :=
  match fuel with
  | O => NoReturn
  | S n =>
      if memcmp current last <=? 0 then
        let count := MInt.uwrap32 (count + 1) in
        if (0 <? max_hosts) && (max_hosts <? count) then Ret None
        else expand6 n (inc6 16 current) last max_hosts (HIpv6 current :: hl) count
      else Ret (Some (hl, count))
  end.

(** The [switch] on the type of one specification. *)
Definition add_spec (fuel : nat) (max_hosts : Z) (stripped : string) (hl : list host) (count : Z)
  : outcome (option (list host * Z)) :=
  let range4 (r : outcome (option (addr4 * addr4))) :=
    match r with
    | Ret (Some (first, last)) =>
        if last <? first then Ret (Some (hl, count))
        else expand4 fuel first last max_hosts hl count
    | Ret None => Ret (Some (hl, count))
    | NoReturn => NoReturn
    | Undef => Undef
    end in
  let range6 (r : outcome (option (addr6 * addr6))) :=
    match r with
    | Ret (Some (first, last)) =>
        if 0 <? memcmp first last then Ret (Some (hl, count))
        else expand6 fuel first last max_hosts hl count
    | Ret None => Ret (Some (hl, count))
    | NoReturn => NoReturn
    | Undef => Undef
    end in
  let single (h : option host) :=
    match h with
    | Some h => Ret (Some (h :: hl, MInt.uwrap32 (count + 1)))
    | None => Undef
    end in
  match determine_host_type (Some stripped) with
  | Some HOST_TYPE_NAME => single (Some (HName stripped))
  | Some HOST_TYPE_IPV4 => single (HIpv4 <$> inet_pton4 stripped)
  | Some HOST_TYPE_IPV6 => single (HIpv6 <$> inet_pton6 stripped)
  | Some HOST_TYPE_CIDR_BLOCK => range4 (cidr_block_ips stripped)
  | Some HOST_TYPE_RANGE_SHORT => range4 (Ret (short_range_network_ips stripped))
  | Some HOST_TYPE_RANGE_LONG => range4 (Ret (long_range_network_ips stripped))
  | Some HOST_TYPE_CIDR6_BLOCK => range6 (cidr6_block_ips stripped)
  | Some HOST_TYPE_RANGE6_SHORT => range6 (Ret (short_range6_network_ips stripped))
  | Some HOST_TYPE_RANGE6_LONG => range6 (Ret (long_range6_network_ips stripped))
  | None => Ret None
  end.

Fixpoint add_specs (fuel : nat) (max_hosts : Z) (host_element : list string)
    (hl : list host) (count : Z) : outcome (option (list host * Z)) :=
  match host_element with
  | [] => Ret (Some (hl, count))
  | e :: rest =>
      let stripped := g_strstrip e in
      if decide (stripped = EmptyString) then add_specs fuel max_hosts rest hl count
      else match add_spec fuel max_hosts stripped hl count with
           | Ret (Some (hl, count)) =>
               if (0 <? max_hosts) && (max_hosts <? count) then Ret None
               else add_specs fuel max_hosts rest hl count
           | r => r
           end
  end.

(** The scan of [openvas_hosts_deduplicate]; [seen] is the hash table. *)
Fixpoint dedup_loop (element : list host) (seen : gset string) : list host * Z :=
  match element with
  | [] => ([], 0)
  | h :: next =>
      let name := openvas_host_value_str h in
      if decide (name ∈ seen) then
        let '(l, duplicates) := dedup_loop next seen in (l, duplicates + 1)
      else let '(l, duplicates) := dedup_loop next ({[name]} ∪ seen) in (h :: l, duplicates)
  end.

Definition openvas_hosts_deduplicate (hs : hosts_t) : hosts_t :=
  let '(l, duplicates) := dedup_loop (hosts hs) ∅ in
  mk_hosts (orig_str hs) l 0 (MInt.uwrap32 (h_count hs - duplicates))
    (MInt.uwrap32 (removed hs + duplicates)).

(** [Ret None] is the NULL result. *)
Definition openvas_hosts_new_with_max (fuel : nat) (hosts_str : option string) (max_hosts : Z)
  : outcome (option hosts_t) :=
  match hosts_str with
  | None => Ret None
  | Some s =>
      let orig := normalize_sep s in
      match add_specs fuel max_hosts (g_strsplit "," orig) [] 0 with
      | Ret (Some (hl, count)) =>
          let hs := openvas_hosts_deduplicate (mk_hosts orig (rev hl) 0 count 0) in
          Ret (Some (mk_hosts (orig_str hs) (hosts hs) 0 (h_count hs) (removed hs)))
      | Ret None => Ret None
      | NoReturn => NoReturn
      | Undef => Undef
      end
  end.

Definition openvas_hosts_new (fuel : nat) (hosts_str : option string) :=
  openvas_hosts_new_with_max fuel hosts_str 0.

(** *** Iteration, ordering *)

Definition openvas_hosts_next (hs : hosts_t) : option host * hosts_t :=
  match hosts hs !! current hs with
  | None => (None, hs)
  | Some h => (Some h, mk_hosts (orig_str hs) (hosts hs) (S (current hs)) (h_count hs) (removed hs))
  end.

Definition openvas_hosts_count (hs : option hosts_t) : Z :=
  match hs with Some hs => h_count hs | None => 0 end.
Definition openvas_hosts_removed (hs : option hosts_t) : Z :=
  match hs with Some hs => removed hs | None => 0 end.

(** [openvas_hosts_shuffle]; [rand c] is [g_rand_int_range (rand, 0, c)] in
    the iteration where [count] is [c]. *)
Fixpoint shuffle_loop (rand : nat -> nat) (count : nat) (l new_list : list host) : list host :=
  match count with
  | O => new_list
  | S c =>
      let r := rand count in
      match l !! r with
      | Some element => shuffle_loop rand c (take r l ++ drop (S r) l) (element :: new_list)
      | None => shuffle_loop rand c l new_list
      end
  end.

Definition openvas_hosts_shuffle (rand : nat -> nat) (hs : hosts_t) : hosts_t :=
  mk_hosts (orig_str hs) (shuffle_loop rand (Z.to_nat (h_count hs)) (hosts hs) []) 0
    (h_count hs) (removed hs).

Definition openvas_hosts_reverse (hs : hosts_t) : hosts_t :=
  match hosts hs with
  | [] => hs
  | _ => mk_hosts (orig_str hs) (rev (hosts hs)) 0 (h_count hs) (removed hs)
  end.

(** [openvas_hosts_resolve]: the loop over [openvas_hosts_next]. *)
Definition resolve_host (h : host) : host :=
  match h with
  | HName _ => match openvas_host_resolve h with Some addr => HIpv4 addr | None => h end
  | _ => h
  end.

Definition openvas_hosts_resolve (hs : hosts_t) : hosts_t :=
  mk_hosts (orig_str hs) (resolve_host <$> hosts hs) 0 (h_count hs) (removed hs).

(** *** Exclusion *)

(** A loop that unlinks the elements for which [drop] holds and counts them. *)
Fixpoint remove_loop (drop : host -> bool) (element : list host) : list host * Z :=
  match element with
  | [] => ([], 0)
  | h :: next => let '(l, n) := remove_loop drop next in
                 if drop h then (l, n + 1) else (h :: l, n)
  end.

Fixpoint fill_table (element : list host) (name_table : gset string) : gset string :=
  match element with
  | [] => name_table
  | h :: next => fill_table next ({[openvas_host_value_str h]} ∪ name_table)
  end.

Definition after_removal (hs : hosts_t) (l : list host) (n : Z) : hosts_t :=
  mk_hosts (orig_str hs) l 0 (MInt.uwrap32 (h_count hs - n)) (MInt.uwrap32 (removed hs + n)).

(** The result is the number of excluded hosts, -1 on error. *)
Definition openvas_hosts_exclude (fuel : nat) (hs : option hosts_t)
    (excluded_str : option string) (resolve : bool) : outcome (Z * option hosts_t) :=
  match hs, excluded_str with
  | Some hs, Some _ =>
      match openvas_hosts_new fuel excluded_str with
      | Ret None => Ret (-1, Some hs)
      | Ret (Some excluded_hosts) =>
          let excluded_hosts :=
            if resolve then openvas_hosts_resolve excluded_hosts else excluded_hosts in
          if openvas_hosts_count (Some excluded_hosts) =? 0 then Ret (0, Some hs)
          else
            let name_table := fill_table (hosts excluded_hosts) ∅ in
            let '(l, excluded) :=
              remove_loop (fun h => bool_decide (openvas_host_value_str h ∈ name_table))
                (hosts hs) in
            Ret (excluded, Some (after_removal hs l excluded))
      | NoReturn => NoReturn
      | Undef => Undef
      end
  | _, _ => Ret (-1, hs)
  end.

Definition openvas_host_reverse_lookup (h : host) : option string :=
  match h with HName n => Some n | _ => getnameinfo h end.

Definition openvas_hosts_reverse_lookup_only (hs : option hosts_t) : Z * option hosts_t :=
  match hs with
  | None => (-1, None)
  | Some hs =>
      let '(l, count) :=
        remove_loop (fun h => negb (is_some (openvas_host_reverse_lookup h))) (hosts hs) in
      (count, Some (after_removal hs l count))
  end.

Fixpoint unify_loop (element : list host) (name_table : gset string) : list host * Z :=
  match element with
  | [] => ([], 0)
  | h :: next =>
      match openvas_host_reverse_lookup h with
      | Some name =>
          if decide (name ∈ name_table) then
            let '(l, count) := unify_loop next name_table in (l, count + 1)
          else let '(l, count) := unify_loop next ({[name]} ∪ name_table) in (h :: l, count)
      | None => let '(l, count) := unify_loop next name_table in (h :: l, count)
      end
  end.

Definition openvas_hosts_reverse_lookup_unify (hs : option hosts_t) : Z * option hosts_t :=
  match hs with
  | None => (-1, None)
  | Some hs => let '(l, count) := unify_loop (hosts hs) ∅ in
               (count, Some (after_removal hs l count))
  end.

(** *** Membership *)

Fixpoint in_hosts_loop (host_str : string) (addr : option addr6) (element : list host) : bool :=
  match element with
  | [] => false
  | e :: next =>
      if CStr.strcaseeq host_str (openvas_host_value_str e) then true
      else
        match addr with
        | Some a =>
            if decide (openvas_host_type e = HOST_TYPE_NAME)
            then in_hosts_loop host_str addr next
            else match openvas_host_get_addr6 e with
                 | Some tmpaddr => if memcmp a tmpaddr =? 0 then true
                                   else in_hosts_loop host_str addr next
                 | None => in_hosts_loop host_str addr next
                 end
        | None => in_hosts_loop host_str addr next
        end
  end.

Definition openvas_host_in_hosts (h : option host) (addr : option addr6) (hs : option hosts_t)
  : bool :=
  match h, hs with
  | Some h, Some hs => in_hosts_loop (openvas_host_value_str h) addr (hosts hs)
  | _, _ => false
  end.
End Env.

End HostList.
