(* ===== verification/HostsSpec.v ===== *)
(** * Properties of target specifications and host collections

    What [Hosts.v] promises its callers: an address range is expanded to its
    addresses in order, the collection never holds a value twice, the counters
    follow the list through every operation, exclusion is a set difference, and
    the cases in which the expansion does not come to an end. *)

From S2P Require Import Prelude Inet Hosts.
From stdpp Require Import base gmap sets list strings.
From Stdlib Require Import Ascii ZArith Lia.
Local Open Scope Z_scope.

Module HostsSpec.
Import Inet HostSpec HostList.

(** ** Texts of addresses *)

Lemma char4_false_mem c s a :
  inet_pton4 s = Some a -> char4 c = false -> CStr.mem_char c s = false.
Proof. intros H. apply CStr.all_str_mem. by eapply pton4_chars. Qed.

Lemma not_ipv4 c s : CStr.mem_char c s = true -> char4 c = false -> is_ipv4_address s = false.
Proof.
  intros Hm Hc. unfold is_ipv4_address. destruct (inet_pton4 s) eqn:E; [|done].
  by rewrite (char4_false_mem c s _ E Hc) in Hm.
Qed.

Lemma not_ipv6 c s : CStr.mem_char c s = true -> char6 c = false -> is_ipv6_address s = false.
Proof.
  intros Hm Hc. unfold is_ipv6_address. destruct (inet_pton6 s) eqn:E; [|done].
  apply pton6_chars in E. by rewrite (CStr.all_str_mem _ c s E Hc) in Hm.
Qed.

Lemma ntop4_mem a c : char4 c = false -> CStr.mem_char c (inet_ntop4 a) = false.
Proof. apply CStr.all_str_mem, ntop4_chars. Qed.

Lemma is_ipv4_ntop4 a : is_ipv4_address (inet_ntop4 a) = true.
Proof. unfold is_ipv4_address, inet_pton4. by rewrite pton4_ntop4_bytes. Qed.

Lemma ntop4_head a : exists c s, inet_ntop4 a = String c s /\ CStr.isdigit c = true.
Proof.
  pose proof (pton4_ntop4_bytes a) as H. unfold inet_pton4_bytes in H.
  destruct (inet_ntop4 a) as [|c s]; [done|]. exists c, s. split; [done|]. simpl in H.
  destruct (CStr.isdigit c); [done|]. by case_decide.
Qed.

(** Texts without separators or white space come back as the one piece. *)
Definition plain (c : ascii) : bool :=
  negb (CStr.isspace c) && negb (bool_decide (c = ","%char)).

Lemma plain_split `{GlibSpec} s :
  s <> EmptyString -> CStr.all_str plain s = true -> g_strsplit "," s = [s].
Proof.
  intros Hs Hp. destruct (g_strsplit_pieces "," s) as [Hj _]; [done|done|].
  by apply (CStr.concat_one_piece ","%char) in Hj; [|done|apply (CStr.all_str_mem plain)].
Qed.

Lemma peek_all f s : CStr.all_str f s = true ->
  match CStr.peek s with Some c => f c = true | None => True end.
Proof. destruct s as [|c s]; simpl; [done|]. by rewrite andb_true_iff; intros [??]. Qed.

Lemma plain_strip `{GlibSpec} s : CStr.all_str plain s = true -> g_strstrip s = s.
Proof.
  intros Hp. apply g_strstrip_none.
  - pose proof (peek_all plain s Hp) as H'. destruct (CStr.peek s) as [c|]; [|done].
    unfold plain in H'. by destruct (CStr.isspace c).
  - rewrite <- CStr.all_str_rev in Hp. pose proof (peek_all plain _ Hp) as H'.
    destruct (CStr.peek _) as [c|]; [|done]. unfold plain in H'. by destruct (CStr.isspace c).
Qed.

Lemma plain_normalize s : CStr.all_str plain s = true -> normalize_sep s = s.
Proof.
  induction s as [|c s IH]; [done|]. unfold normalize_sep in *. simpl.
  rewrite andb_true_iff. intros [Hc Hs]. rewrite (IH Hs). case_decide as E; [|done].
  by rewrite E in Hc.
Qed.

Lemma char4_plain c : char4 c = true -> plain c = true.
Proof.
  unfold char4, plain. rewrite orb_true_iff, bool_decide_eq_true. intros [Hd| ->]; [|done].
  unfold CStr.isspace, CStr.isdigit in *. bdec (c = ","%char) as Hc; [by subst|]. simpl.
  rewrite andb_true_r. lia.
Qed.

(** ** Classification of canonical specifications *)

(** A property of the numbers below a bound that computes on each of them. *)
Lemma below_by_computation (P : Z -> bool) (n : nat) b :
  forallb (fun i => P (Z.of_nat i)) (seq 0 n) = true -> 0 <= b < Z.of_nat n -> P b = true.
Proof.
  rewrite forallb_forall. intros H Hb. rewrite <- (Z2Nat.id b) by lia. apply H, in_seq. lia.
Qed.

Lemma dec_char4 b : 0 <= b < 256 -> CStr.all_str char4 (CStr.dec b) = true.
Proof.
  apply (below_by_computation (fun b => CStr.all_str char4 (CStr.dec b)) 256). by vm_compute.
Qed.

Definition range_str (a b : addr4) : string := inet_ntop4 a +:+ String "-" (inet_ntop4 b).
Definition cidr_str (a : addr4) (n : Z) : string := inet_ntop4 a +:+ String "/" (CStr.dec n).

Lemma app_not_empty a s : (inet_ntop4 a +:+ s) <> EmptyString.
Proof. destruct (ntop4_head a) as (c & s' & -> & _). done. Qed.

Lemma all_plain_app a c s :
  plain c = true -> CStr.all_str char4 s = true ->
  CStr.all_str plain (inet_ntop4 a +:+ String c s) = true.
Proof.
  intros Hc Hs. rewrite CStr.all_str_app. simpl.
  rewrite !(CStr.all_str_impl char4 plain) by auto using char4_plain, ntop4_chars. by rewrite Hc.
Qed.

Lemma mem_app_sep a c s : CStr.mem_char c (inet_ntop4 a +:+ String c s) = true.
Proof. rewrite CStr.mem_char_app. simpl. rewrite decide_True by done. apply orb_true_r. Qed.

Lemma split_app_sep a c s : char4 c = false ->
  CStr.strchr_split c (inet_ntop4 a +:+ String c s) = Some (inet_ntop4 a, s).
Proof. intros. by apply CStr.strchr_split_intro, ntop4_mem. Qed.

(** [strtol] stops at the first dot of an address. *)
Lemma strtol_octet b r : 0 <= b < 256 ->
  CStr.strtol 10 (CStr.dec b +:+ String "." r) = (b, String "." r).
Proof.
  intros H. rewrite <- (Z2Nat.id b) by lia. assert (Z.to_nat b < 256)%nat as Hn by lia.
  revert Hn. generalize (Z.to_nat b) as n. clear. intros n Hn.
  do 256 (destruct n as [|n]; [reflexivity|]). lia.
Qed.

(** Where the first dot of the second address of a range is. *)
Definition dot_place (a b : addr4) : Z := CStr.slen (inet_ntop4 a) + 1 + CStr.slen (CStr.dec (octet b 3)).

Section Freed.
Context `{F : FreedMemory}.

(** A long range is taken for a short one exactly when the byte of the freed copy
    at the first dot of its second address reads as zero. *)
Lemma is_short_range_long a b :
  is_short_range_network (range_str a b) = bool_decide (freed (range_str a b) (dot_place a b) = "000"%char).
Proof.
  unfold is_short_range_network. unfold range_str at 1. rewrite split_app_sep by done.
  rewrite is_ipv4_ntop4. destruct (ntop4_head b) as (c & s & Hc & Hd). rewrite Hc. cbn [first_is negb orb].
  rewrite Hd, <- Hc. cbn [negb].
  unfold inet_ntop4 at 1, inet_ntop4_bytes. rewrite strtol_octet by auto with ov.
  set (r := CStr.dec (octet b 2) +:+ _).
  assert (E : freed_byte (range_str a b) (String "." r) = freed (range_str a b) (dot_place a b)).
  { unfold freed_byte. f_equal. unfold range_str, dot_place, inet_ntop4 at 2, inet_ntop4_bytes. fold r.
    rewrite !CStr.slen_app. cbn [CStr.slen]. rewrite CStr.slen_app. cbn [CStr.slen]. lia. }
  rewrite E. pose proof (octet_range b 3). destruct (bool_decide _); cbn [negb orb]; [|done].
  by rewrite (proj2 (Z.ltb_ge _ _)), (proj2 (Z.ltb_ge _ _)) by lia.
Qed.

Lemma dot_kept `{!FreedKept} a b : freed (range_str a b) (dot_place a b) = "."%char.
Proof.
  pose proof (freed_kept (inet_ntop4 a +:+ String "-" (CStr.dec (octet b 3)))
    (String "." (CStr.dec (octet b 2) +:+ String "." (CStr.dec (octet b 1) +:+ String "." (CStr.dec (octet b 0)))))) as Hk.
  rewrite CStr.append_assoc in Hk. cbn [String.append] in Hk. unfold range_str, inet_ntop4 at 2, inet_ntop4_bytes, dot_place.
  rewrite CStr.slen_app in Hk. cbn [CStr.slen] in Hk. etrans; [|exact Hk]. f_equal; lia.
Qed.

Lemma determine_not_empty s : s <> EmptyString ->
  determine_host_type (Some s) =
    if is_ipv4_address s then Some HOST_TYPE_IPV4
    else if is_ipv6_address s then Some HOST_TYPE_IPV6
    else if is_cidr_block s then Some HOST_TYPE_CIDR_BLOCK
    else if is_short_range_network s then Some HOST_TYPE_RANGE_SHORT
    else if is_long_range_network s then Some HOST_TYPE_RANGE_LONG
    else if is_cidr6_block s then Some HOST_TYPE_CIDR6_BLOCK
    else if is_short_range6_network s then Some HOST_TYPE_RANGE6_SHORT
    else if is_long_range6_network s then Some HOST_TYPE_RANGE6_LONG
    else if is_hostname s then Some HOST_TYPE_NAME
    else None.
Proof. by destruct s. Qed.

Lemma determine_range a b :
  determine_host_type (Some (range_str a b))
  = Some (if bool_decide (freed (range_str a b) (dot_place a b) = "000"%char)
          then HOST_TYPE_RANGE_SHORT else HOST_TYPE_RANGE_LONG).
Proof.
  rewrite determine_not_empty by apply app_not_empty. rewrite is_short_range_long.
  set (z := bool_decide _). unfold range_str.
  rewrite (not_ipv4 "-"), (not_ipv6 "-") by auto using mem_app_sep.
  unfold is_cidr_block, is_long_range_network.
  rewrite split_app_sep, !is_ipv4_ntop4 by done.
  rewrite CStr.strchr_split_none; [by destruct z|].
  rewrite CStr.mem_char_app. simpl. by rewrite !ntop4_mem by done.
Qed.
End Freed.

Lemma range_ips a b : 0 <= a < 2 ^ 32 -> 0 <= b < 2 ^ 32 ->
  long_range_network_ips (range_str a b) = Some (a, b).
Proof.
  intros. unfold long_range_network_ips, range_str. rewrite split_app_sep by done.
  by rewrite !pton4_ntop4 by done.
Qed.

(** The CIDR prefix lengths the code accepts and computes with on [int]. *)
Lemma prefix_strtol n : 2 <= n <= 30 ->
  CStr.strtol 10 (CStr.dec n) = (n, EmptyString) /\ scan_u 2 (CStr.dec n) = Some n
  /\ first_is CStr.isdigit (CStr.dec n) = true.
Proof.
  intros H.
  pose proof (below_by_computation (fun n => (n <? 2) ||
    bool_decide (CStr.strtol 10 (CStr.dec n) = (n, EmptyString)) &&
    bool_decide (scan_u 2 (CStr.dec n) = Some n) && first_is CStr.isdigit (CStr.dec n)) 31 n
    ltac:(by vm_compute) ltac:(lia)) as Hc.
  apply orb_true_iff in Hc as [Hc|Hc]; [lia|].
  rewrite !andb_true_iff, !bool_decide_eq_true in Hc. tauto.
Qed.

Lemma determine_cidr `{FreedKept} a n : 2 <= n <= 30 ->
  determine_host_type (Some (cidr_str a n)) = Some HOST_TYPE_CIDR_BLOCK.
Proof.
  intros Hn. destruct (prefix_strtol n Hn) as (H1 & _ & H3).
  rewrite determine_not_empty by apply app_not_empty. unfold cidr_str.
  rewrite (not_ipv4 "/"), (not_ipv6 "/") by auto using mem_app_sep.
  unfold is_cidr_block. rewrite split_app_sep, is_ipv4_ntop4, H3, H1 by done.
  assert (E : freed_byte (inet_ntop4 a +:+ String "/" (CStr.dec n)) EmptyString = "000"%char).
  { unfold freed_byte. cbn [CStr.slen]. rewrite Z.sub_0_r.
    pose proof (freed_kept (inet_ntop4 a +:+ String "/" (CStr.dec n)) EmptyString) as Hk.
    by rewrite CStr.append_nil_r in Hk. }
  rewrite E. cbn [negb orb]. rewrite bool_decide_eq_true_2 by done. cbn [negb orb].
  destruct (n <=? 0) eqn:?; [lia|]. by destruct (30 <? n) eqn:?; [lia|].
Qed.

Lemma skip_app f s c r : CStr.all_str f s = true -> f c = false ->
  CStr.skip f (s +:+ String c r) = String c r.
Proof.
  induction s as [|d s IH].
  - intros _ Hc. change (CStr.skip f (String c r) = String c r). simpl. by rewrite Hc.
  - simpl. rewrite andb_true_iff. intros [-> Hs] Hc. by apply IH.
Qed.

Lemma cidr_get_block_str a n : 2 <= n <= 30 -> cidr_get_block (cidr_str a n) = Some n.
Proof.
  intros Hn. destruct (prefix_strtol n Hn) as (_ & H2 & _). unfold cidr_get_block, cidr_str.
  assert (scan_set char4 (inet_ntop4 a +:+ String "/" (CStr.dec n))
          = Some (String "/" (CStr.dec n))) as Hs.
  { pose proof (skip_app char4 _ "/" (CStr.dec n) (ntop4_chars a) eq_refl) as Hk.
    destruct (ntop4_head a) as (c & s & Hc & Hd). rewrite Hc in *. simpl in *.
    unfold char4 at 1 in Hk. unfold char4 at 1. rewrite Hd in *. simpl in *.
    unfold char4 at 1. rewrite Hd. simpl. by rewrite Hk. }
  unfold char4 in Hs. rewrite Hs. simpl. exact H2.
Qed.

(** The mask clears the low bits. *)
Lemma mask_land a k : 0 <= a < 2 ^ 32 -> 0 <= k <= 30 ->
  Z.land a (Z.lxor 4294967295 (MInt.uwrap32 (2 ^ k - 1))) = a / 2 ^ k * 2 ^ k.
Proof.
  intros Ha Hk. pose proof (Z.pow_pos_nonneg 2 k).
  assert (2 ^ k <= 2 ^ 30) by (apply Z.pow_le_mono_r; lia).
  rewrite MInt.uwrap32_id by lia. rewrite <- Z.shiftr_div_pow2, <- Z.shiftl_mul_pow2 by lia.
  change 4294967295 with (Z.ones 32). replace (2 ^ k - 1) with (Z.ones k) by (rewrite Z.ones_equiv; lia).
  apply Z.bits_inj'. intros i Hi.
  rewrite Z.land_spec, Z.lxor_spec, !Z.testbit_ones_nonneg, Z.shiftl_spec by lia.
  destruct (i <? 32) eqn:E32.
  - destruct (i <? k) eqn:Ek; simpl.
    + rewrite andb_false_r, Z.testbit_neg_r by lia. done.
    + rewrite andb_true_r, Z.shiftr_spec by lia. f_equal. lia.
  - rewrite Z.shiftr_spec by lia. replace (i - k + k) with i by lia.
    assert (Z.testbit a i = false) as ->; [|done].
    apply Z.testbit_false; [lia|]. rewrite Z.div_small; [done|].
    assert (2 ^ 32 <= 2 ^ i) by (apply Z.pow_le_mono_r; lia). lia.
Qed.

Lemma cidr_ips a n : 0 <= a < 2 ^ 32 -> 2 <= n <= 30 ->
  let net := a / 2 ^ (32 - n) * 2 ^ (32 - n) in
  cidr_block_ips (cidr_str a n) = Ret (Some (net + 1, net + 2 ^ (32 - n) - 2))
  /\ 0 <= net /\ net + 2 ^ (32 - n) <= 2 ^ 32 /\ 4 <= 2 ^ (32 - n).
Proof.
  intros Ha Hn net. unfold cidr_block_ips. rewrite cidr_get_block_str by done.
  unfold cidr_get_ip, cidr_str. rewrite split_app_sep, pton4_ntop4 by done.
  unfold shl1. rewrite (MInt.uwrap32_id (32 - n)) by lia.
  destruct (0 <=? 32 - n) eqn:?; [|lia]. destruct (32 - n <? 31) eqn:?; [|lia]. simpl.
  rewrite mask_land by lia. fold net.
  assert (4 <= 2 ^ (32 - n)) by (change 4 with (2 ^ 2); apply Z.pow_le_mono_r; lia).
  assert (2 ^ (32 - n) <= 2 ^ 30) by (apply Z.pow_le_mono_r; lia).
  assert (0 <= net /\ net + 2 ^ (32 - n) <= 2 ^ 32) as [H1 H2].
  { unfold net. assert (2 ^ 32 = 2 ^ n * 2 ^ (32 - n)) as Hp.
    { rewrite <- Z.pow_add_r by lia. f_equal. lia. }
    assert (a / 2 ^ (32 - n) < 2 ^ n) by (apply Z.div_lt_upper_bound; lia).
    assert (0 <= a / 2 ^ (32 - n)) by (apply Z.div_pos; lia). nia. }
  rewrite (MInt.uwrap32_id (2 ^ (32 - n))), (MInt.uwrap32_id (net + 1)) by lia.
  rewrite MInt.uwrap32_id by lia. split; [|lia]. do 3 f_equal. lia.
Qed.

(** ** Expansion of a range *)

Lemma expand4_eq n fuel cur last max hl count :
  0 <= cur -> last < 2 ^ 32 - 1 -> last + 1 - cur = Z.of_nat n -> (n < fuel)%nat ->
  0 <= count -> count + Z.of_nat n < 2 ^ 32 -> max = 0 \/ 0 < max /\ count <= max ->
  expand4 fuel cur last max hl count =
    Ret (if (0 <? max) && (max <? count + Z.of_nat n) then None
         else Some (rev (HIpv4 <$> seqZ cur (Z.of_nat n)) ++ hl, count + Z.of_nat n)).
Proof.
  revert fuel cur hl count.
  induction n as [|n IH]; intros fuel cur hl count Hc Hl Hn Hf H0 Hw Hm; (destruct fuel; [lia|]).
  - simpl. destruct (cur <=? last) eqn:?; [lia|]. rewrite Z.add_0_r.
    destruct (_ && _) eqn:E; [lia|]. done.
  - simpl expand4. destruct (cur <=? last) eqn:?; [|lia].
    rewrite (MInt.uwrap32_id (count + 1)), (MInt.uwrap32_id (cur + 1)) by lia.
    destruct ((0 <? max) && (max <? count + 1)) eqn:E1.
    + destruct ((0 <? max) && (max <? count + Z.of_nat (S n))) eqn:E2; [done|lia].
    + rewrite IH by lia. replace (count + 1 + Z.of_nat n) with (count + Z.of_nat (S n)) by lia.
      destruct (_ && _); [done|]. rewrite (seqZ_cons cur) by lia.
      replace (Z.pred (Z.of_nat (S n))) with (Z.of_nat n) by lia. simpl.
      by rewrite <- app_assoc.
Qed.

(** Past the last IPv4 address the counter starts again at 0. *)
Lemma expand4_diverges fuel cur hl count :
  0 <= cur < 2 ^ 32 -> expand4 fuel cur (2 ^ 32 - 1) 0 hl count = NoReturn.
Proof.
  revert cur hl count. induction fuel as [|fuel IH]; intros cur hl count Hc; [done|].
  simpl expand4. destruct (cur <=? 2 ^ 32 - 1) eqn:?; [|lia]. simpl.
  apply IH, MInt.uwrap32_range.
Qed.

(** ** Deduplication *)

Section Names.

Abbreviation vstr := openvas_host_value_str.

Lemma dedup_loop_spec l seen l' d :
  dedup_loop l seen = (l', d) ->
  l' `sublist_of` l /\ d = Z.of_nat (length l - length l')
  /\ NoDup (vstr <$> l') /\ Forall (fun h => vstr h ∉ seen) l'
  /\ (forall n, n ∈ seen \/ n ∈ vstr <$> l' <-> n ∈ seen \/ n ∈ vstr <$> l).
Proof.
  revert seen l' d. induction l as [|h l IH]; intros seen l' d; simpl.
  { intros [= <- <-]. simpl. repeat split; try constructor; set_solver. }
  case_decide as Hin.
  - destruct (dedup_loop l seen) as [l1 d1] eqn:E. intros [= <- <-].
    destruct (IH _ _ _ E) as (Hs & Hd & Hn & Hf & Hx). pose proof (sublist_length _ _ Hs).
    split; [by apply sublist_cons|]. split; [simpl; lia|]. split; [done|]. split; [done|].
    intros n. rewrite Hx. simpl. rewrite elem_of_cons. set_solver.
  - destruct (dedup_loop l _) as [l1 d1] eqn:E. intros [= <- <-].
    destruct (IH _ _ _ E) as (Hs & Hd & Hn & Hf & Hx). pose proof (sublist_length _ _ Hs).
    split; [by apply sublist_skip|]. split; [simpl; lia|]. split.
    { simpl. constructor; [|done]. intros (h' & Hh & Hi)%list_elem_of_fmap.
      rewrite Forall_forall in Hf. specialize (Hf _ Hi). set_solver. }
    split.
    { constructor; [done|]. eapply Forall_impl; [exact Hf|]. simpl. set_solver. }
    intros n. simpl. rewrite !elem_of_cons. specialize (Hx n). set_solver.
Qed.

Lemma dedup_loop_nodup l seen :
  NoDup (vstr <$> l) -> Forall (fun h => vstr h ∉ seen) l -> dedup_loop l seen = (l, 0).
Proof.
  revert seen. induction l as [|h l IH]; intros seen Hn Hf; [done|]. simpl in *.
  inv Hn. inv Hf. rewrite decide_False by done.
  rewrite IH; [done|done|]. rewrite Forall_forall in *. intros h' Hh'.
  assert (vstr h' <> vstr h) by (intros E; apply H1; rewrite <- E; by apply list_elem_of_fmap_2).
  set_solver.
Qed.

Lemma dedup_nodup s l c r :
  NoDup (vstr <$> l) -> 0 <= c < 2 ^ 32 -> 0 <= r < 2 ^ 32 ->
  openvas_hosts_deduplicate (mk_hosts s l 0 c r) = mk_hosts s l 0 c r.
Proof.
  intros Hn Hc Hr. unfold openvas_hosts_deduplicate. simpl.
  rewrite dedup_loop_nodup; [|done|apply Forall_forall; set_solver].
  by rewrite !MInt.uwrap32_id by lia; rewrite Z.sub_0_r, Z.add_0_r.
Qed.

Lemma range_names_nodup a n :
  0 <= a -> a + n <= 2 ^ 32 -> NoDup (vstr <$> (HIpv4 <$> seqZ a n)).
Proof.
  intros Ha Hn. rewrite <- list_fmap_compose. apply NoDup_fmap_2_strong; [|apply NoDup_seqZ].
  intros x y Hx%elem_of_seqZ Hy%elem_of_seqZ. simpl. apply ntop4_inj; lia.
Qed.

End Names.

(** One plain specification as the whole text. *)
Lemma new_plain `{GlibSpec} `{F : FreedMemory} fuel max s hl count :
  s <> EmptyString -> CStr.all_str plain s = true ->
  add_spec fuel max s [] 0 = Ret (Some (hl, count)) ->
  (0 <? max) && (max <? count) = false -> 0 <= count < 2 ^ 32 -> NoDup (openvas_host_value_str <$> rev hl) ->
  openvas_hosts_new_with_max fuel (Some s) max = Ret (Some (mk_hosts s (rev hl) 0 count 0)).
Proof.
  intros Hs Hp Ha Hm Hc Hn. unfold openvas_hosts_new_with_max.
  rewrite plain_normalize, plain_split by done. simpl. rewrite plain_strip by done.
  rewrite decide_False, Ha, Hm by done. by rewrite dedup_nodup by (done || lia).
Qed.

(** ** Bound on the number of hosts *)

(** What one specification gives when there is a maximum: it always returns,
    and the counter is the length of the list. *)
Definition bounded (max : Z) (r : outcome (option (list host * Z))) : Prop :=
  match r with
  | Ret (Some (hl, count)) => count = Z.of_nat (length hl) /\ count <= max
  | Ret None | Undef => True
  | NoReturn => False
  end.

Lemma expand4_bounded fuel cur last max hl count :
  0 < max < 2 ^ 32 - 1 -> count = Z.of_nat (length hl) -> count <= max ->
  max - count < Z.of_nat fuel -> bounded max (expand4 fuel cur last max hl count).
Proof.
  intros Hm. revert cur hl count. induction fuel as [|fuel IH]; intros cur hl count Hc Hle Hf; [lia|].
  simpl expand4. destruct (cur <=? last); [|by simpl].
  rewrite (MInt.uwrap32_id (count + 1)) by lia.
  destruct (0 <? max) eqn:?; [|lia]. destruct (max <? count + 1) eqn:?; [done|].
  simpl. apply IH; simpl; lia.
Qed.

Lemma expand6_bounded fuel cur last max hl count :
  0 < max < 2 ^ 32 - 1 -> count = Z.of_nat (length hl) -> count <= max ->
  max - count < Z.of_nat fuel -> bounded max (expand6 fuel cur last max hl count).
Proof.
  intros Hm. revert cur hl count. induction fuel as [|fuel IH]; intros cur hl count Hc Hle Hf; [lia|].
  simpl expand6. destruct (memcmp cur last <=? 0); [|by simpl].
  rewrite (MInt.uwrap32_id (count + 1)) by lia.
  destruct (0 <? max) eqn:?; [|lia]. destruct (max <? count + 1) eqn:?; [done|].
  simpl. apply IH; simpl; lia.
Qed.

Lemma cidr_ips_return s : cidr_block_ips s <> NoReturn.
Proof. unfold cidr_block_ips. by repeat case_match. Qed.

Lemma cidr6_ips_return s : cidr6_block_ips s <> NoReturn.
Proof. unfold cidr6_block_ips. by repeat case_match. Qed.

Lemma add_spec_bounded `{F : FreedMemory} fuel max s hl count :
  0 < max < 2 ^ 32 - 1 -> count = Z.of_nat (length hl) -> count <= max -> max < Z.of_nat fuel ->
  bounded (max + 1) (add_spec fuel max s hl count).
Proof.
  intros Hm Hc Hle Hf.
  assert (forall r, bounded max r -> bounded (max + 1) r) as Hw.
  { intros [[[hl' c']|]| |]; simpl; lia. }
  assert (forall h, bounded (max + 1) (Ret (Some (h :: hl, MInt.uwrap32 (count + 1))))) as H1.
  { intros h. simpl. rewrite MInt.uwrap32_id by lia. lia. }
  assert (bounded (max + 1) (Ret (Some (hl, count)))) as H0 by (simpl; lia).
  assert (forall first last, bounded (max + 1) (expand4 fuel first last max hl count)) as H4.
  { intros. apply Hw, expand4_bounded; lia. }
  assert (forall first last, bounded (max + 1) (expand6 fuel first last max hl count)) as H6.
  { intros. apply Hw, expand6_bounded; lia. }
  unfold add_spec. destruct (determine_host_type (Some s)) as [[]|]; cbv zeta beta; auto;
    repeat match goal with
    | |- bounded _ (match ?x with _ => _ end) => destruct x eqn:?; cbn [fmap option_fmap option_map]
    end; auto; try done; exfalso; (by eapply cidr_ips_return) || (by eapply cidr6_ips_return).
Qed.

Lemma add_specs_bounded `{Glib} `{F : FreedMemory} fuel max l hl count :
  0 < max < 2 ^ 32 - 1 -> count = Z.of_nat (length hl) -> count <= max -> max < Z.of_nat fuel ->
  bounded max (add_specs fuel max l hl count).
Proof.
  intros Hm. revert hl count. induction l as [|e l IH]; intros hl count Hc Hle Hf; [done|].
  simpl. case_decide; [by apply IH|].
  pose proof (add_spec_bounded fuel max (g_strstrip e) hl count Hm Hc Hle Hf) as Hb.
  destruct (add_spec _ _ _ _ _) as [[[hl' c']|]| |]; try done. simpl in Hb.
  destruct (_ && _) eqn:E; [done|]. apply IH; lia.
Qed.

(** The prefix lengths for which the ends of a block are not defined. *)
Definition odd_block `{F : FreedMemory} (s : string) : Prop :=
  (determine_host_type (Some s) = Some HOST_TYPE_CIDR_BLOCK
   /\ exists n, cidr_get_block s = Some n /\ ~ 2 <= n <= 32) \/
  (determine_host_type (Some s) = Some HOST_TYPE_CIDR6_BLOCK
   /\ exists n, cidr6_get_block s = Some n /\ ~ 1 <= n <= 128).

Lemma cidr_ips_undef s : cidr_block_ips s = Undef -> exists n, cidr_get_block s = Some n /\ ~ 2 <= n <= 32.
Proof.
  unfold cidr_block_ips. destruct (cidr_get_block s) as [n|]; [|done]. destruct (cidr_get_ip s); [|done].
  intros H. exists n. split; [done|]. intros Hn. rewrite MInt.uwrap32_id in H by lia. unfold shl1 in H.
  rewrite (proj2 (Z.leb_le _ _)), (proj2 (Z.ltb_lt _ _)) in H by lia. done.
Qed.

Lemma fill6_place n j v a : fst (fill6 n j v a) = j - Z.of_nat n.
Proof. revert j a. induction n as [|n IH]; intros j a; cbn [fill6]; [cbn; lia|]. rewrite IH. lia. Qed.

Lemma upd6_some f r : 0 <= fst r < 16 -> exists a, upd6 f r = Some a.
Proof.
  destruct r as [j a]. cbn. intros H. rewrite (proj2 (Z.leb_le _ _)), (proj2 (Z.ltb_lt _ _)) by lia. by eexists.
Qed.

Lemma cidr6_ips_undef s : cidr6_block_ips s = Undef -> exists n, cidr6_get_block s = Some n /\ ~ 1 <= n <= 128.
Proof.
  unfold cidr6_block_ips. destruct (cidr6_get_block s) as [n|]; [|done]. destruct (cidr6_get_ip s) as [ip|]; [|done].
  intros H. exists n. split; [done|]. intros Hn. destruct (Z.eqb_spec n 128); [done|].
  rewrite MInt.uwrap32_id in H by lia.
  assert (Hq : 0 <= (128 - n) / 8 < 16) by (split; [apply Z.div_pos; lia|apply Z.div_lt_upper_bound; lia]).
  rewrite (proj2 (Z.ltb_ge _ _)) in H by lia.
  assert (Hj : forall v, 0 <= fst (fill6 (Z.to_nat ((128 - n) / 8)) 15 v ip) < 16) by (intros v; rewrite fill6_place; lia).
  destruct (upd6_some (fun b => Z.land b (Z.lxor 255 (2 ^ ((128 - n) mod 8) - 1))) _ (Hj 0)) as [x Hx].
  destruct (upd6_some (fun b => Z.lor b (2 ^ ((128 - n) mod 8) - 1)) _ (Hj 255)) as [y Hy].
  rewrite Hx, Hy in H. by case_match.
Qed.

Lemma expand4_defined fuel cur last max hl count : expand4 fuel cur last max hl count <> Undef.
Proof. revert cur hl count. induction fuel; intros; simpl; [done|]. by repeat case_match. Qed.
Lemma expand6_defined fuel cur last max hl count : expand6 fuel cur last max hl count <> Undef.
Proof. revert cur hl count. induction fuel; intros; simpl; [done|]. by repeat case_match. Qed.

Lemma determine_address `{F : FreedMemory} s :
  (determine_host_type (Some s) = Some HOST_TYPE_IPV4 -> is_Some (inet_pton4 s)) /\
  (determine_host_type (Some s) = Some HOST_TYPE_IPV6 -> is_Some (inet_pton6 s)).
Proof.
  assert (Hs : forall A (o : option A), is_some o = true -> is_Some o) by (intros A []; [by eexists|done]).
  split; destruct s as [|c s]; try done; rewrite determine_not_empty by done; intros E; apply Hs;
    repeat (case_match; try done).
Qed.

Lemma add_spec_undef `{F : FreedMemory} fuel max s hl count : add_spec fuel max s hl count = Undef -> odd_block s.
Proof.
  unfold add_spec, odd_block. destruct (determine_address s) as [H4 H6].
  destruct (determine_host_type (Some s)) as [[]|]; cbv zeta beta; try done.
  - by destruct H4 as [a ->].
  - intros H. left. split; [done|]. apply cidr_ips_undef.
    destruct (cidr_block_ips s) as [[[f l]|]| |]; try done. case_match; [done|]. by apply expand4_defined in H.
  - destruct (short_range_network_ips s) as [[f l]|]; [|done]. case_match; [done|]. by intros ?%expand4_defined.
  - destruct (long_range_network_ips s) as [[f l]|]; [|done]. case_match; [done|]. by intros ?%expand4_defined.
  - by destruct H6 as [a ->].
  - intros H. right. split; [done|]. apply cidr6_ips_undef.
    destruct (cidr6_block_ips s) as [[[f l]|]| |]; try done. case_match; [done|]. by apply expand6_defined in H.
  - destruct (long_range6_network_ips s) as [[f l]|]; [|done]. case_match; [done|]. by intros ?%expand6_defined.
  - destruct (short_range6_network_ips s) as [[f l]|]; [|done]. case_match; [done|]. by intros ?%expand6_defined.
Qed.

Lemma add_specs_undef `{Glib} `{F : FreedMemory} fuel max l hl count :
  add_specs fuel max l hl count = Undef -> exists e, e ∈ l /\ odd_block (g_strstrip e).
Proof.
  revert hl count. induction l as [|e l IH]; intros hl count; cbn [add_specs]; [done|].
  case_decide.
  { intros (x & Hx & Ho)%IH. exists x. split; [by right|done]. }
  destruct (add_spec _ _ _ _ _) as [[[hl' c']|]| |] eqn:E; try done.
  - case_match; [done|]. intros (x & Hx & Ho)%IH. exists x. split; [by right|done].
  - intros _. exists e. split; [left|]. by eapply add_spec_undef.
Qed.

(** ** The collection through its operations *)

(** The counter is the length of the list, what was removed is counted, and
    the position is in the list or past its end. *)
Definition hosts_wf (total : Z) (hs : hosts_t) : Prop :=
  h_count hs = Z.of_nat (length (hosts hs)) /\ 0 <= removed hs
  /\ h_count hs + removed hs = total /\ (current hs <= length (hosts hs))%nat.

Lemma after_removal_wf total hs l n :
  total < 2 ^ 32 -> hosts_wf total hs -> n = Z.of_nat (length (hosts hs)) - Z.of_nat (length l) ->
  (length l <= length (hosts hs))%nat -> hosts_wf total (after_removal hs l n).
Proof.
  intros Ht (Hc & Hr & Hs & _) Hn Hl. unfold hosts_wf, after_removal. simpl.
  rewrite !MInt.uwrap32_id by lia. lia.
Qed.

Lemma remove_loop_filter drop l :
  remove_loop drop l = (filter (fun h => drop h = false) l,
                        Z.of_nat (length l) - Z.of_nat (length (filter (fun h => drop h = false) l))).
Proof.
  induction l as [|h l IH]; [done|]. simpl. rewrite IH, filter_cons.
  destruct (drop h); (case_decide; [|]); try done; simpl; f_equal; lia.
Qed.

Lemma filter_length_le {A} (P : A -> Prop) `{!forall x, Decision (P x)} (l : list A) :
  (length (filter P l) <= length l)%nat.
Proof. apply length_filter. Qed.

Lemma dedup_wf s l n : n = Z.of_nat (length l) -> n < 2 ^ 32 ->
  hosts_wf n (openvas_hosts_deduplicate (mk_hosts s l 0 n 0)).
Proof.
  intros Hn Hlt. unfold openvas_hosts_deduplicate. simpl.
  destruct (dedup_loop l ∅) as [l' d] eqn:E.
  destruct (dedup_loop_spec _ _ _ _ E) as (Hs & Hd & _). apply sublist_length in Hs.
  unfold hosts_wf. simpl. rewrite !MInt.uwrap32_id by lia. lia.
Qed.

Lemma shuffle_loop_perm rand n l acc :
  (forall c, (0 < c)%nat -> (rand c < c)%nat) -> length l = n ->
  shuffle_loop rand n l acc ≡ₚ l ++ acc.
Proof.
  intros Hr. revert l acc. induction n as [|n IH]; intros l acc Hl; simpl.
  { by apply nil_length_inv in Hl as ->. }
  destruct (lookup_lt_is_Some_2 l (rand (S n))) as [h Hh]; [specialize (Hr (S n)); lia|].
  rewrite Hh, IH.
  - rewrite <- (take_drop_middle l _ _ Hh) at 3. rewrite <- !app_assoc. simpl.
    apply Permutation_app_head. symmetry. apply Permutation_middle.
  - rewrite length_app, length_take, length_drop. specialize (Hr (S n)). lia.
Qed.

Lemma unify_loop_length f l t l' n :
  unify_loop f l t = (l', n) ->
  l' `sublist_of` l /\ n = Z.of_nat (length l) - Z.of_nat (length l').
Proof.
  revert t l' n. induction l as [|h l IH]; intros t l' n; simpl; [by intros [= <- <-]|].
  destruct (openvas_host_reverse_lookup _ h) as [s|]; [case_decide|];
    destruct (unify_loop _ _ _) as [l1 n1] eqn:E; intros [= <- <-];
    destruct (IH _ _ _ E) as [Hs ->]; simpl; (split; [by constructor|lia]).
Qed.

(** ** IPv6 addresses as numbers *)

Definition is_byte (b : Z) : Prop := 0 <= b < 256.
Definition bytes (n : nat) (l : list Z) : Prop := length l = n /\ Forall is_byte l.

Lemma be_value_acc acc l : be_value acc l = acc * 256 ^ Z.of_nat (length l) + be_value 0 l.
Proof.
  revert acc. induction l as [|b l IH]; intros acc; cbn [be_value length]; [lia|].
  rewrite (IH (acc * 256 + b)), (IH (0 * 256 + b)), Nat2Z.inj_succ, Z.pow_succ_r by lia. ring.
Qed.

Lemma be_value_snoc l v : be_value 0 (l ++ [v]) = be_value 0 l * 256 + v.
Proof.
  generalize 0 at 1 2. induction l as [|b l IH]; intros acc; simpl; [done|]. apply IH.
Qed.

Lemma be_value_range l : Forall is_byte l -> 0 <= be_value 0 l < 256 ^ Z.of_nat (length l).
Proof.
  induction l as [|b l IH] using rev_ind; [done|].
  rewrite Forall_app, Forall_singleton, be_value_snoc, length_app. unfold is_byte at 2.
  intros [Hl Hb]. specialize (IH Hl). simpl.
  replace (Z.of_nat (length l + 1)) with (Z.succ (Z.of_nat (length l))) by lia.
  rewrite Z.pow_succ_r by lia. lia.
Qed.

Lemma nth_middle_Z (p q : list Z) v d : nth (length p) (p ++ v :: q) d = v.
Proof. by rewrite app_nth2, Nat.sub_diag by lia. Qed.

Lemma insert_middle_Z (p q : addr6) v w : <[length p := w]> (p ++ v :: q : addr6) = p ++ w :: q.
Proof. unfold addr6 in *. by rewrite insert_app_r_alt, Nat.sub_diag by lia. Qed.

Lemma inc6_value n p q :
  bytes n p -> exists p', inc6 n (p ++ q) = p' ++ q /\ bytes n p'
    /\ be_value 0 p' = (be_value 0 p + 1) mod 256 ^ Z.of_nat n.
Proof.
  revert p q. induction n as [|n IH]; intros p q [Hl Hb].
  { destruct p; [|done]. exists []. by rewrite Zmod_1_r. }
  destruct p as [|v p _] using rev_ind; [done|].
  rewrite length_app in Hl. simpl in Hl. apply Forall_app in Hb as [Hb Hv].
  apply (Forall_singleton is_byte) in Hv. unfold is_byte in Hv.
  assert (n = length p) as -> by lia. pose proof (be_value_range p Hb) as Hr.
  assert (256 ^ Z.of_nat (S (length p)) = 256 * 256 ^ Z.of_nat (length p)) as Hp
    by (by rewrite Nat2Z.inj_succ, Z.pow_succ_r by lia).
  rewrite <- app_assoc. simpl inc6. rewrite nth_middle_Z.
  destruct (v <? 255) eqn:E.
  - exists (p ++ [v + 1]). rewrite insert_middle_Z, <- app_assoc.
    split; [done|]. split.
    { split; [rewrite length_app; simpl; lia|]. apply Forall_app; split; [done|].
      apply (Forall_singleton is_byte). unfold is_byte. lia. }
    rewrite !be_value_snoc, Hp, Z.mod_small by lia. lia.
  - rewrite insert_middle_Z.
    destruct (IH p (0 :: q)) as (p' & He & [Hl' Hb'] & Hv'); [done|].
    exists (p' ++ [0]). rewrite He, <- app_assoc. split; [done|]. split.
    { split; [rewrite length_app; simpl; lia|]. apply Forall_app; split; [done|].
      apply (Forall_singleton is_byte). unfold is_byte. lia. }
    rewrite !be_value_snoc, Hv', Hp, Z.add_0_r. replace v with 255 by lia.
    rewrite <- Zmult_mod_distr_r. rewrite (Z.mul_comm 256 (256 ^ _)). f_equal. lia.
Qed.

Lemma memcmp_value a b : length a = length b -> Forall is_byte a -> Forall is_byte b ->
  (memcmp a b <= 0 <-> be_value 0 a <= be_value 0 b)
  /\ (memcmp a b = 0 <-> be_value 0 a = be_value 0 b).
Proof.
  revert b. induction a as [|x a IH]; intros [|y b]; simpl; try done.
  intros [= Hl] Ha Hb. inv Ha. inv Hb. rewrite !(be_value_acc x), !(be_value_acc y), Hl.
  pose proof (be_value_range a ltac:(done)) as Ra. pose proof (be_value_range b ltac:(done)) as Rb.
  rewrite Hl in Ra. specialize (IH b Hl ltac:(done) ltac:(done)).
  destruct (x <? y) eqn:?; [nia|]. destruct (y <? x) eqn:?; [nia|].
  assert (x = y) as -> by lia. lia.
Qed.

Lemma inc6_16 a : bytes 16 a ->
  bytes 16 (inc6 16 a) /\ be_value 0 (inc6 16 a) = (be_value 0 a + 1) mod 2 ^ 128.
Proof.
  intros H. destruct (inc6_value 16 a [] H) as (p' & He & Hb & Hv).
  rewrite !app_nil_r in He. subst. done.
Qed.

Lemma expand6_eq n fuel cur last hl count :
  bytes 16 cur -> bytes 16 last -> be_value 0 last < 2 ^ 128 - 1 ->
  be_value 0 last + 1 - be_value 0 cur = Z.of_nat n -> (n < fuel)%nat ->
  0 <= count -> count + Z.of_nat n < 2 ^ 32 ->
  exists l, expand6 fuel cur last 0 hl count = Ret (Some (rev (HIpv6 <$> l) ++ hl, count + Z.of_nat n))
    /\ be_value 0 <$> l = seqZ (be_value 0 cur) (Z.of_nat n) /\ Forall (bytes 16) l.
Proof.
  revert fuel cur hl count.
  induction n as [|n IH]; intros fuel cur hl count Hc Hl Hlt Hn Hf H0 Hw; (destruct fuel; [lia|]);
    destruct (memcmp_value cur last) as [Hcmp _]; try apply Hc; try apply Hl;
    try (by rewrite (proj1 Hc), (proj1 Hl)); simpl expand6.
  - destruct (memcmp cur last <=? 0) eqn:?; [lia|]. exists []. rewrite Z.add_0_r. by simpl.
  - destruct (memcmp cur last <=? 0) eqn:?; [|lia].
    rewrite (MInt.uwrap32_id (count + 1)) by lia. simpl.
    destruct (inc6_16 cur Hc) as [Hb Hv]. pose proof (be_value_range cur (proj2 Hc)) as Hr.
    rewrite (proj1 Hc) in Hr. rewrite Z.mod_small in Hv by (change (256 ^ Z.of_nat 16) with (2 ^ 128) in Hr; lia).
    destruct (IH fuel (inc6 16 cur) (HIpv6 cur :: hl) (count + 1)) as (l & He & Hvl & Hbl); try done; try lia.
    exists (cur :: l). simpl in He. rewrite He. simpl. rewrite <- app_assoc. simpl. split; [|split].
    + do 3 f_equal. lia.
    + rewrite (seqZ_cons (be_value 0 cur)) by lia. cbn. f_equal. etransitivity; [exact Hvl|].
      rewrite Hv. f_equal; lia.
    + by constructor.
Qed.

(** ** Membership *)

Lemma fill_table_spec l t n : n ∈ fill_table l t <-> n ∈ t \/ n ∈ openvas_host_value_str <$> l.
Proof.
  revert t. induction l as [|h l IH]; intros t; simpl; [set_solver|].
  rewrite IH, elem_of_cons. set_solver.
Qed.

(** The addresses a [struct in_addr] or [struct in6_addr] holds. *)
Definition host_ok (h : host) : Prop :=
  match h with HName _ => True | HIpv4 a => 0 <= a < 2 ^ 32 | HIpv6 a => bytes 16 a end.

Lemma ipv4_as_ipv6_bytes a : bytes 16 (ipv4_as_ipv6 a).
Proof.
  split; [done|]. unfold ipv4_as_ipv6, is_byte. repeat constructor; try lia; apply octet_range.
Qed.

Lemma bytes_inj n a b : bytes n a -> bytes n b -> be_value 0 a = be_value 0 b -> a = b.
Proof.
  revert n b. induction a as [|x a IH] using rev_ind; intros n b [Ha1 Ha2] [Hb1 Hb2].
  { simpl in *. subst. by destruct b. }
  rewrite length_app in Ha1. simpl in Ha1.
  destruct b as [|y b _] using rev_ind; [simpl in *; lia|]. rewrite length_app in Hb1. simpl in Hb1.
  rewrite !be_value_snoc. apply Forall_app in Ha2 as [Ha2 Hx]. apply Forall_app in Hb2 as [Hb2 Hy].
  apply (Forall_singleton is_byte) in Hx, Hy. unfold is_byte in Hx, Hy. intros Hv.
  rewrite (IH (length a) b); [|done|split; [lia|done]|lia]. f_equal. f_equal. lia.
Qed.

Lemma host_addr6_cmp resolve4 e a : host_ok e -> bytes 16 a ->
  openvas_host_type e = HOST_TYPE_NAME \/
  exists a', openvas_host_get_addr6 resolve4 e = Some a' /\ (memcmp a a' = 0 <-> a = a').
Proof.
  intros He Ha.
  assert (forall a', bytes 16 a' -> memcmp a a' = 0 <-> a = a') as Hc.
  { intros a' Ha'. destruct (memcmp_value a a') as [_ ->]; [by rewrite (proj1 Ha), (proj1 Ha')|apply Ha|apply Ha'|].
    split; [by apply (bytes_inj 16)|by intros ->]. }
  destruct e as [n|b|b]; simpl; [by left|right; eexists; split; [done|]..];
    apply Hc; [apply ipv4_as_ipv6_bytes|done].
Qed.

(** Collections a client can hold: built with a maximum, then changed by the
    operations of the interface in any order. *)
Section Reach.
Context `{GlibSpec} `{F : FreedMemory} (resolve4 : string -> option addr4) (getnameinfo : host -> option string).

Inductive hosts_step : hosts_t -> hosts_t -> Prop :=
| step_next hs : hosts_step hs (openvas_hosts_next hs).2
| step_shuffle rand hs : (forall c, (0 < c)%nat -> (rand c < c)%nat) ->
    hosts_step hs (openvas_hosts_shuffle rand hs)
| step_reverse hs : hosts_step hs (openvas_hosts_reverse hs)
| step_resolve hs : hosts_step hs (openvas_hosts_resolve resolve4 hs)
| step_exclude fuel s r n hs hs' :
    openvas_hosts_exclude resolve4 fuel (Some hs) s r = Ret (n, Some hs') -> hosts_step hs hs'
| step_lookup_only hs hs' n :
    openvas_hosts_reverse_lookup_only getnameinfo (Some hs) = (n, Some hs') -> hosts_step hs hs'
| step_lookup_unify hs hs' n :
    openvas_hosts_reverse_lookup_unify getnameinfo (Some hs) = (n, Some hs') -> hosts_step hs hs'.

Lemma exclude_result fuel hs s r n hs' :
  openvas_hosts_exclude resolve4 fuel (Some hs) s r = Ret (n, Some hs') ->
  hs' = hs \/ exists P : host -> bool,
    hs' = after_removal hs (filter (fun h => P h = false) (hosts hs)) n
    /\ n = Z.of_nat (length (hosts hs)) - Z.of_nat (length (filter (fun h => P h = false) (hosts hs))).
Proof.
  unfold openvas_hosts_exclude. destruct s as [s|]; [|intros [= _ <-]; by left].
  destruct (openvas_hosts_new _ _) as [[ex|]| |]; try done; [|intros [= _ <-]; by left].
  destruct (_ =? 0); [intros [= _ <-]; by left|]. rewrite remove_loop_filter.
  intros [= <- <-]. right. eauto.
Qed.

Lemma step_wf total hs hs' : 0 <= total < 2 ^ 32 ->
  hosts_wf total hs -> hosts_step hs hs' -> hosts_wf total hs'.
Proof.
  intros Ht Hw Hst. pose proof Hw as (Hc & Hr & Hs & Hcur).
  destruct Hst as [hs|rand hs Hrand|hs|hs|fuel s r n hs hs' E|hs hs' n E|hs hs' n E].
  - unfold openvas_hosts_next. destruct (hosts hs !! current hs) as [h|] eqn:E; [|done].
    apply lookup_lt_Some in E. unfold hosts_wf. simpl. lia.
  - unfold hosts_wf, openvas_hosts_shuffle. simpl. rewrite Hc, Nat2Z.id.
    rewrite (Permutation_length (shuffle_loop_perm rand _ (hosts hs) [] Hrand eq_refl)).
    rewrite app_nil_r. lia.
  - unfold openvas_hosts_reverse. destruct (hosts hs) eqn:E; [done|]. unfold hosts_wf.
    cbn [hosts h_count removed current]. rewrite length_rev. rewrite <- E in *. lia.
  - unfold hosts_wf, openvas_hosts_resolve. simpl. rewrite length_fmap. lia.
  - destruct (exclude_result _ _ _ _ _ _ E) as [->|(P & -> & Hn)]; [done|].
    apply after_removal_wf; auto; [lia|apply length_filter].
  - unfold openvas_hosts_reverse_lookup_only in E. rewrite remove_loop_filter in E. simplify_eq.
    apply after_removal_wf; auto; [lia|apply length_filter].
  - unfold openvas_hosts_reverse_lookup_unify in E.
    destruct (unify_loop _ _ _) as [l c] eqn:El. simplify_eq.
    destruct (unify_loop_length _ _ _ _ _ El) as [Hsub Hn]. apply sublist_length in Hsub.
    apply after_removal_wf; auto. lia.
Qed.

End Reach.

(** ** Properties *)

(** C25: A long range of IPv4 addresses that does not end at 255.255.255.255
    is expanded to exactly its addresses in ascending order, counted and with
    nothing removed; with a maximum, NULL is returned exactly when the range
    has more addresses than it.  Before, [is_short_range_network] reads a byte of
    a copy of the text that it has freed; what is found there is assumed not to
    be zero, as when the memory still holds the text, where it is the first dot
    of the last address ([dot_kept]).  A zero makes the range one of the short
    kind ([determine_range]). *)
Theorem hosts_new_range `{GlibSpec} `{F : FreedMemory} (fuel : nat) (a b max : Z)
  (Hdot : freed (range_str a b) (dot_place a b) <> "000"%char) (Hab : 0 <= a <= b) (Hb : b < 2 ^ 32 - 1) (Hmax : 0 <= max) (Hf : b - a + 1 < Z.of_nat fuel) :
  openvas_hosts_new_with_max fuel (Some (range_str a b)) max =
    Ret (if (0 <? max) && (max <? b - a + 1) then None
         else Some (mk_hosts (range_str a b) (HIpv4 <$> seqZ a (b - a + 1)) 0 (b - a + 1) 0)).
Proof.
  assert (add_spec fuel max (range_str a b) [] 0 =
    Ret (if (0 <? max) && (max <? b - a + 1) then None
         else Some (rev (HIpv4 <$> seqZ a (b - a + 1)) ++ [], b - a + 1))) as Ha.
  { unfold add_spec. rewrite determine_range, bool_decide_eq_false_2, range_ips by (done || lia).
    destruct (b <? a) eqn:?; [lia|].
    rewrite (expand4_eq (Z.to_nat (b - a + 1))) by lia. by rewrite Z2Nat.id, Z.add_0_l by lia. }
  assert (CStr.all_str plain (range_str a b) = true) as Hp.
  { apply all_plain_app; [done|apply ntop4_chars]. }
  destruct ((0 <? max) && (max <? b - a + 1)) eqn:Em.
  - unfold openvas_hosts_new_with_max.
    rewrite plain_normalize, plain_split by (done || apply app_not_empty). simpl.
    rewrite plain_strip, Ha by done. by rewrite decide_False by apply app_not_empty.
  - erewrite new_plain; [|apply app_not_empty|done|exact Ha|done|lia|];
      rewrite ?app_nil_r, ?rev_involutive; [done|]. apply range_names_nodup; lia.
Qed.

Lemma hosts_new_range_witness :
  openvas_hosts_new_with_max (F := kept_memory) 10 (Some "10.0.0.254-10.0.1.1"%string) 0
  = Ret (Some (mk_hosts "10.0.0.254-10.0.1.1"
                 [HIpv4 167772414; HIpv4 167772415; HIpv4 167772416; HIpv4 167772417] 0 4 0)).
Proof.
  exact (hosts_new_range (F := kept_memory) 10 167772414 167772417 0 ltac:(vm_compute; discriminate)
    ltac:(lia) ltac:(lia) ltac:(lia) ltac:(lia)).
Defined.

(** A CIDR block with a prefix length of 2 to 30 is classified as one and
    expanded to its usable addresses: those strictly between the network
    address and the broadcast address of the block, in order, when the memory of
    freed texts still holds them. *)
Theorem hosts_new_cidr `{GlibSpec} `{FreedKept} (fuel : nat) (a n : Z)
  (Ha : 0 <= a < 2 ^ 32) (Hn : 2 <= n <= 30) (Hf : 2 ^ (32 - n) < Z.of_nat fuel) :
  let net := a / 2 ^ (32 - n) * 2 ^ (32 - n) in
  openvas_hosts_new fuel (Some (cidr_str a n)) =
    Ret (Some (mk_hosts (cidr_str a n) (HIpv4 <$> seqZ (net + 1) (2 ^ (32 - n) - 2)) 0
                 (2 ^ (32 - n) - 2) 0)).
Proof.
  intros net. destruct (cidr_ips a n Ha Hn) as (Hips & H1 & H2 & H3). fold net in Hips, H1, H2.
  set (size := 2 ^ (32 - n)) in *.
  assert (add_spec fuel 0 (cidr_str a n) [] 0 =
    Ret (Some (rev (HIpv4 <$> seqZ (net + 1) (size - 2)) ++ [], size - 2))) as Hadd.
  { unfold add_spec. rewrite determine_cidr, Hips by lia.
    destruct (net + size - 2 <? net + 1) eqn:?; [lia|].
    rewrite (expand4_eq (Z.to_nat (size - 2))) by lia. by rewrite Z2Nat.id, Z.add_0_l by lia. }
  unfold openvas_hosts_new. erewrite new_plain; [|apply app_not_empty| |exact Hadd|done|lia|];
    rewrite ?app_nil_r, ?rev_involutive; [done| |apply range_names_nodup; lia].
  apply all_plain_app; [done|]. apply dec_char4. lia.
Qed.

Lemma hosts_new_cidr_witness :
  openvas_hosts_new (F := kept_memory) 10 (Some "192.168.1.77/29"%string)
  = Ret (Some (mk_hosts "192.168.1.77/29" (HIpv4 <$> seqZ 3232235849 6) 0 6 0)).
Proof.
  exact (hosts_new_cidr (F := kept_memory) (H0 := kept_memory_kept) 10 3232235853 29 ltac:(lia) ltac:(lia) ltac:(vm_compute; reflexivity)).
Defined.

(** Without a maximum, a range whose last address is 255.255.255.255 is
    never fully expanded: the loop counter wraps to 0.0.0.0 and the loop does
    not end, whatever the number of iterations. *)
Theorem hosts_new_diverges `{GlibSpec} `{FreedKept} (fuel : nat) (a : Z) (Ha : 0 <= a < 2 ^ 32) :
  openvas_hosts_new fuel (Some (range_str a (2 ^ 32 - 1))) = NoReturn.
Proof.
  unfold openvas_hosts_new, openvas_hosts_new_with_max.
  assert (CStr.all_str plain (range_str a (2 ^ 32 - 1)) = true) as Hp
    by (apply all_plain_app; [done|apply ntop4_chars]).
  rewrite plain_normalize, plain_split by (done || apply app_not_empty). simpl.
  rewrite plain_strip, decide_False by (done || apply app_not_empty).
  unfold add_spec. rewrite determine_range, dot_kept, bool_decide_eq_false_2, range_ips by (done || lia).
  destruct (2 ^ 32 - 1 <? a) eqn:?; [lia|]. by rewrite expand4_diverges.
Qed.

Lemma hosts_new_diverges_witness :
  openvas_hosts_new (F := kept_memory) 1000 (Some "255.255.255.254-255.255.255.255"%string) = NoReturn.
Proof. exact (hosts_new_diverges (F := kept_memory) (H0 := kept_memory_kept) 1000 4294967294 ltac:(lia)). Defined.

(** C26: With a maximum below 2^32 - 1 the construction comes to an end for every text,
    whatever freed memory holds.  It gives NULL or a collection of never more
    hosts than the maximum, counted by the counters, no value twice; or its
    behaviour is not defined, and then a specification of the text is taken for a
    block whose prefix length is read as one the arithmetic has no [int] or no
    byte for: below 2 or above 32 for IPv4 ([1 << n]), 0 or above 128 for IPv6. *)
Theorem hosts_new_with_max_total `{GlibSpec} `{F : FreedMemory} (fuel : nat) (s : option string) (max : Z)
  (Hm : 0 < max < 2 ^ 32 - 1) (Hf : max < Z.of_nat fuel) :
  match openvas_hosts_new_with_max fuel s max with
  | NoReturn => False
  | Ret (Some hs) => exists total, total <= max /\ hosts_wf total hs /\ current hs = 0%nat
                     /\ NoDup (openvas_host_value_str <$> hosts hs)
  | Ret None => True
  | Undef => exists text e, s = Some text /\ e ∈ g_strsplit "," (normalize_sep text)
                            /\ odd_block (g_strstrip e)
  end.
Proof.
  destruct s as [s|]; simpl; [|done].
  pose proof (add_specs_bounded fuel max (g_strsplit "," (normalize_sep s)) [] 0 Hm eq_refl
                ltac:(lia) Hf) as Hb.
  destruct (add_specs _ _ _ _ _) as [[[hl c]|]| |] eqn:Ea; try done; simpl in Hb.
  - exists c. split; [lia|].
    pose proof (dedup_wf (normalize_sep s) (rev hl) c ltac:(rewrite length_rev; lia) ltac:(lia)) as Hw.
    unfold openvas_hosts_deduplicate in *. simpl in *.
    destruct (dedup_loop (rev hl) ∅) as [l' d] eqn:E. simpl in *. split; [done|]. split; [done|].
    by destruct (dedup_loop_spec _ _ _ _ E) as (_ & _ & ? & _).
  - destruct (add_specs_undef _ _ _ _ _ Ea) as (e & He & Ho). by exists s, e.
Qed.

(** A block of a half of all addresses: [1 << 31]. *)
Example odd_block_undef :
  openvas_hosts_new_with_max (F := kept_memory) 6 (Some "10.0.0.1/1"%string) 5 = Undef.
Proof. vm_compute. reflexivity. Qed.

Lemma hosts_new_with_max_total_witness :
  match openvas_hosts_new_with_max (F := kept_memory) 6 (Some "10.0.0.1-3,10.0.0.2, ::1"%string) 5 with
  | Ret (Some hs) => hosts_wf 5 hs /\ hosts hs = [HIpv4 167772161; HIpv4 167772162;
      HIpv4 167772163; HIpv6 (replicate 15 0 ++ [1])] /\ removed hs = 1
  | _ => False
  end.
Proof.
  pose proof (hosts_new_with_max_total (F := kept_memory) 6 (Some "10.0.0.1-3,10.0.0.2, ::1"%string) 5
                ltac:(lia) ltac:(lia)) as H.
  destruct (openvas_hosts_new_with_max _ _ _) as [[hs|]| |] eqn:E; vm_compute in E; simplify_eq.
  destruct H as (total & H1 & H2 & _). destruct H2 as (Hc & Hr & Ht & Hcur).
  simpl in *. split; [|done]. unfold hosts_wf. simpl. lia.
Defined.

(** Deduplication keeps the first host of every value, in order: the
    values left are those there were, none twice, and the counters follow. *)
Theorem dedup_correct (hs : hosts_t) :
  let hs' := openvas_hosts_deduplicate hs in
  hosts hs' `sublist_of` hosts hs
  /\ NoDup (openvas_host_value_str <$> hosts hs')
  /\ (forall v, v ∈ openvas_host_value_str <$> hosts hs' <-> v ∈ openvas_host_value_str <$> hosts hs)
  /\ h_count hs' = MInt.uwrap32 (h_count hs - Z.of_nat (length (hosts hs) - length (hosts hs')))
  /\ removed hs' = MInt.uwrap32 (removed hs + Z.of_nat (length (hosts hs) - length (hosts hs')))
  /\ current hs' = 0%nat.
Proof.
  unfold openvas_hosts_deduplicate. destruct (dedup_loop (hosts hs) ∅) as [l d] eqn:E. simpl.
  destruct (dedup_loop_spec _ _ _ _ E) as (Hs & -> & Hn & _ & Hx).
  split; [done|]. split; [done|]. split; [|done]. intros v. specialize (Hx v). set_solver.
Qed.

(** Whatever the sequence of iteration, shuffling, reversal, resolution,
    exclusion and reverse lookups a client applies, the host counter is the
    length of the list, the hosts left and the hosts removed add up to the
    hosts there were at first, and the position is inside the list. *)
Theorem hosts_counters_invariant `{GlibSpec} `{F : FreedMemory} (resolve4 : string -> option addr4)
  (getnameinfo : host -> option string) (total : Z) (hs hs' : hosts_t)
  (Ht : 0 <= total < 2 ^ 32) (Hw : hosts_wf total hs)
  (Hr : rtc (hosts_step resolve4 getnameinfo) hs hs') :
  hosts_wf total hs'.
Proof. induction Hr as [|hs hs1 hs2 Hst _ IH]; [done|]. apply IH. by eapply step_wf. Qed.

Lemma hosts_counters_invariant_witness :
  let hs := mk_hosts "a,b" [HName "a"; HName "b"] 0 2 0 in
  let hs' := after_removal hs [HName "b"] 1 in
  rtc (hosts_step (F := kept_memory) (fun _ => None) (fun _ => None)) hs hs' /\ hosts_wf 2 hs'.
Proof.
  intros hs hs'.
  assert (rtc (hosts_step (F := kept_memory) (fun _ => None) (fun _ => None)) hs hs') as Hr.
  { eapply rtc_l; [|apply rtc_refl]. apply (step_exclude _ _ 5 (Some "a"%string) false 1).
    vm_compute. reflexivity. }
  split; [exact Hr|].
  refine (hosts_counters_invariant (F := kept_memory) (fun _ => None) (fun _ => None) 2 hs hs' _ _ Hr); [lia|].
  unfold hosts_wf, hs. simpl. lia.
Defined.

(** Excluding a specification removes exactly the hosts whose value the
    excluded collection (resolved when asked for) contains, keeps the order of
    the others and returns how many went; nothing changes when it is wrong. *)
Theorem exclude_is_difference `{GlibSpec} `{F : FreedMemory} (resolve4 : string -> option addr4) (fuel : nat)
  (hs : hosts_t) (s : option string) (r : bool) :
  match openvas_hosts_new fuel s with
  | Ret (Some ex) =>
      let ex' := if r then openvas_hosts_resolve resolve4 ex else ex in
      let keep := filter (fun h => openvas_host_value_str h ∉ openvas_host_value_str <$> hosts ex')
                    (hosts hs) in
      h_count ex' = Z.of_nat (length (hosts ex')) ->
      exists n hs', openvas_hosts_exclude resolve4 fuel (Some hs) s r = Ret (n, Some hs')
        /\ hosts hs' = keep
        /\ n = Z.of_nat (length (hosts hs)) - Z.of_nat (length keep)
  | Ret None => openvas_hosts_exclude resolve4 fuel (Some hs) s r = Ret (-1, Some hs)
  | NoReturn => openvas_hosts_exclude resolve4 fuel (Some hs) s r = NoReturn
  | Undef => openvas_hosts_exclude resolve4 fuel (Some hs) s r = Undef
  end.
Proof.
  unfold openvas_hosts_exclude. destruct s as [s|]; [|done].
  destruct (openvas_hosts_new fuel (Some s)) as [[ex|]| |] eqn:En; [|done..].
  set (ex' := if r then openvas_hosts_resolve resolve4 ex else ex). simpl.
  set (keep := filter _ (hosts hs)). intros Hc. unfold openvas_hosts_count. rewrite Hc.
  destruct (Z.of_nat (length (hosts ex')) =? 0) eqn:E0.
  - assert (hosts ex' = []) as Hnil by (apply nil_length_inv; lia).
    assert (keep = hosts hs) as Hk.
    { unfold keep. rewrite Hnil. apply filter_all. intros h _. set_solver. }
    exists 0, hs. rewrite Hk. split; [done|]. split; [done|lia].
  - rewrite remove_loop_filter. eexists _, _. split; [done|]. simpl.
    assert (filter (fun h => bool_decide (openvas_host_value_str h ∈ fill_table (hosts ex') ∅) = false)
              (hosts hs) = keep) as ->; [|done].
    unfold keep. apply list_filter_iff. intros h.
    rewrite bool_decide_eq_false, fill_table_spec. set_solver.
Qed.

Lemma exclude_is_difference_witness :
  exists hs', openvas_hosts_exclude (F := kept_memory) (fun _ => None) 10
    (Some (mk_hosts "" [HIpv4 167772161; HIpv4 167772163; HName "x"] 0 3 0))
    (Some "10.0.0.1-2,x"%string) false = Ret (2, Some hs') /\ hosts hs' = [HIpv4 167772163].
Proof.
  pose proof (exclude_is_difference (F := kept_memory) (fun _ => None) 10
    (mk_hosts "" [HIpv4 167772161; HIpv4 167772163; HName "x"] 0 3 0)
    (Some "10.0.0.1-2,x"%string) false) as H.
  destruct (openvas_hosts_new _ _) as [[ex|]| |] eqn:En; vm_compute in En; simplify_eq.
  destruct (H eq_refl) as (n & hs' & H1 & H2 & H3). exists hs'.
  vm_compute in H2, H3. subst n. split; [exact H1|exact H2].
Defined.

(** Incrementing an IPv6 address is adding one to it modulo 2^128, so a
    range that does not end at the last address is expanded to exactly its
    addresses in ascending order. *)
Theorem expand6_enumerates (first last : addr6) (fuel : nat)
  (H1 : bytes 16 first) (H2 : bytes 16 last) (Hl : be_value 0 last < 2 ^ 128 - 1)
  (Hn : be_value 0 first <= be_value 0 last) (Hw : be_value 0 last - be_value 0 first < 2 ^ 32 - 1)
  (Hf : be_value 0 last - be_value 0 first + 1 < Z.of_nat fuel) :
  let n := be_value 0 last - be_value 0 first + 1 in
  exists l, expand6 fuel first last 0 [] 0 = Ret (Some (rev (HIpv6 <$> l), n))
    /\ be_value 0 <$> l = seqZ (be_value 0 first) n /\ Forall (bytes 16) l.
Proof.
  destruct (expand6_eq (Z.to_nat (be_value 0 last - be_value 0 first + 1)) fuel first last [] 0)
    as (l & He & Hv & Hb); [done|done|lia..|].
  rewrite app_nil_r, Z2Nat.id, Z.add_0_l in * by lia. eauto.
Qed.

Lemma expand6_enumerates_witness :
  exists l, expand6 10 (replicate 14 0 ++ [0; 255]) (replicate 14 0 ++ [1; 1]) 0 [] 0
            = Ret (Some (rev (HIpv6 <$> l), 3))
    /\ be_value 0 <$> l = [255; 256; 257].
Proof.
  assert (bytes 16 (replicate 14 0 ++ [0; 255]) /\ bytes 16 (replicate 14 0 ++ [1; 1])) as [Hb1 Hb2].
  { split; (split; [done|]); repeat constructor; discriminate. }
  destruct (expand6_enumerates (replicate 14 0 ++ [0; 255]) (replicate 14 0 ++ [1; 1]) 10 Hb1 Hb2
              eq_refl ltac:(discriminate) eq_refl eq_refl) as (l & H1 & H2 & _).
  exists l. split; [exact H1|]. rewrite H2. reflexivity.
Defined.

(** A host is found in a collection exactly when a host of the collection
    has the same value, letter case aside, or is no name and has the address
    looked for as its IPv6 form. *)
Theorem in_hosts_spec (resolve4 : string -> option addr4) (h : host) (addr : option addr6)
  (hs : hosts_t) (Ha : match addr with Some a => bytes 16 a | None => True end)
  (Hh : Forall host_ok (hosts hs)) :
  openvas_host_in_hosts resolve4 (Some h) addr (Some hs) = true <->
  exists e, e ∈ hosts hs /\
    (CStr.strcaseeq (openvas_host_value_str h) (openvas_host_value_str e) = true
     \/ exists a, addr = Some a /\ openvas_host_type e <> HOST_TYPE_NAME
                 /\ openvas_host_get_addr6 resolve4 e = Some a).
Proof.
  unfold openvas_host_in_hosts. induction Hh as [|e l He Hl IH]; simpl.
  { split; [done|]. intros (e & He & _). by apply not_elem_of_nil in He. }
  setoid_rewrite elem_of_cons. destruct (CStr.strcaseeq _ _) eqn:Ec.
  { split; [|done]. intros _. exists e. auto. }
  assert (forall P : host -> Prop, ~ P e ->
     ((exists x, (x = e \/ x ∈ l) /\ P x) <-> exists x, x ∈ l /\ P x)) as Hskip.
  { intros P Hne. split; [intros (x & [->|Hx] & HP); [done|eauto]|intros (x & Hx & HP); eauto]. }
  destruct addr as [a|].
  - destruct (host_addr6_cmp resolve4 e a He Ha) as [Hname|(a' & Hg & Hcmp)].
    + rewrite decide_True by done. rewrite IH. symmetry. apply Hskip.
      intros [?|(a' & ? & ? & ?)]; congruence.
    + case_decide as Hty.
      { rewrite IH. symmetry. apply Hskip. intros [?|(a'' & ? & ? & ?)]; congruence. }
      rewrite Hg. destruct (memcmp a a' =? 0) eqn:Em.
      * split; [|done]. intros _. exists e. split; [by left|]. right. exists a.
        rewrite Hg. split; [done|]. split; [done|]. f_equal. symmetry. apply Hcmp. lia.
      * rewrite IH. symmetry. apply Hskip. intros [?|(a'' & ? & ? & ?)]; [congruence|].
        simplify_eq. rewrite (proj2 Hcmp eq_refl) in Em. done.
  - rewrite IH. symmetry. apply Hskip. intros [?|(a'' & ? & ? & ?)]; congruence.
Qed.

Lemma in_hosts_spec_witness :
  Forall host_ok [HName "Foo"; HIpv4 167772161] /\
  openvas_host_in_hosts (fun _ => None) (Some (HName "bar"))
    (Some (ipv4_as_ipv6 167772161)) (Some (mk_hosts "" [HName "Foo"; HIpv4 167772161] 0 2 0)) = true.
Proof.
  assert (Forall host_ok [HName "Foo"; HIpv4 167772161]) as Hok by (repeat constructor; simpl; lia).
  split; [exact Hok|].
  apply (in_hosts_spec (fun _ => None) (HName "bar") (Some (ipv4_as_ipv6 167772161))
           (mk_hosts "" [HName "Foo"; HIpv4 167772161] 0 2 0)).
  - split; [done|]. repeat constructor; vm_compute; congruence.
  - exact Hok.
  - exists (HIpv4 167772161). split; [set_solver|]. right. by eexists.
Defined.

End HostsSpec.
