(* ===== verification/Scheduler.v ===== *)
(** * The plugin scheduler of a host scan ([pluginscheduler.c])

    Plugins are numbered in the order of the list they are loaded from; a number
    stands for the three objects the code allocates for a plugin and links one to
    one: its [struct arglist] ([nvt_arg]), its [struct scheduler_plugin] and its
    [struct hash] node.  A pointer to one of them is the number.  The field
    [running_state], which the process manager writes too, is the map [states].

    The process manager ([pluginlaunch.c]) is used through the interface
    [ProcessManager]; [PluginLaunch.v] implements it. *)

From S2P Require Import Prelude Arglists Hosts.
From stdpp Require Import base gmap sets list strings.
From Stdlib Require Import Ascii ZArith Lia.
Local Open Scope Z_scope.

Module Scheduler.

(** *** Constants *)

Definition ACT_FIRST : Z := 0.
Definition ACT_INIT : Z := 0.
Definition ACT_SCANNER : Z := 1.
Definition ACT_SETTINGS : Z := 2.
Definition ACT_GATHER_INFO : Z := 3.
Definition ACT_DENIAL : Z := 7.
Definition ACT_KILL_HOST : Z := 8.
Definition ACT_FLOOD : Z := 9.
Definition ACT_LAST : Z := 10.

Definition LAUNCH_DISABLED : Z := 0.
Definition LAUNCH_RUN : Z := 1.

Definition PLUGIN_STATUS_UNRUN : Z := 1.
Definition PLUGIN_STATUS_RUNNING : Z := 2.
Definition PLUGIN_STATUS_DONE : Z := 3.
Definition PLUGIN_STATUS_DONE_AND_CLEANED : Z := 4.

Definition HASH_MAX : Z := 2713.

(** ** Data *)

(** The fields of [struct nvti] the scheduler reads. *)
Record nvti := mk_nvti
  { nvti_category : Z;
    nvti_timeout : Z;
    nvti_dependencies : option string;
    nvti_required_ports : option string;
    nvti_required_udp_ports : option string;
    nvti_required_keys : option string;
    nvti_mandatory_keys : option string;
    nvti_excluded_keys : option string }.

(** An element of the list of loaded plugins: its name and, of the arguments of
    the plugin, "OID" and "ENABLED" ([plug_get_launch]). *)
Record nvt_arg := mk_nvt_arg { arg_name : string; arg_oid : option string; arg_launch : Z }.

Abbreviation names := (option (list string)).

Record scheduler_plugin := mk_plugin
  { category : Z;
    timeout : Z;
    required_ports : names;
    required_udp_ports : names;
    required_keys : names;
    mandatory_keys : names;
    excluded_keys : names }.

(** [struct hash]; [dependencies_ptr] may be NULL. *)
Record hash := mk_hash
  { h_name : string;
    dependencies : names;
    num_deps : Z;
    dependencies_ptr : option (list nat);
    ports : names }.

(** [struct plist]: a port in use and how often. *)
Record plist_el := mk_pl { pl_name : string; pl_occurences : Z }.

(** Running state of every plugin. *)
Abbreviation states := (gmap nat Z).

Record sched := mk_sched
  { s_args : list nvt_arg;
    s_plugins : list scheduler_plugin;
    s_nodes : list hash;
    s_hash : gmap Z (list nat);       (* chains of the hash table *)
    s_lists : gmap Z (list nat);      (* [list[category]] *)
    s_plist : list plist_el;
    s_states : states }.

Definition set_plugins p (s : sched) :=
  mk_sched (s_args s) p (s_nodes s) (s_hash s) (s_lists s) (s_plist s) (s_states s).
Definition set_args a (s : sched) :=
  mk_sched a (s_plugins s) (s_nodes s) (s_hash s) (s_lists s) (s_plist s) (s_states s).
Definition set_nodes n (s : sched) :=
  mk_sched (s_args s) (s_plugins s) n (s_hash s) (s_lists s) (s_plist s) (s_states s).
Definition set_hash h (s : sched) :=
  mk_sched (s_args s) (s_plugins s) (s_nodes s) h (s_lists s) (s_plist s) (s_states s).
Definition set_lists l (s : sched) :=
  mk_sched (s_args s) (s_plugins s) (s_nodes s) (s_hash s) l (s_plist s) (s_states s).
Definition set_plist p (s : sched) :=
  mk_sched (s_args s) (s_plugins s) (s_nodes s) (s_hash s) (s_lists s) p (s_states s).
Definition set_states st (s : sched) :=
  mk_sched (s_args s) (s_plugins s) (s_nodes s) (s_hash s) (s_lists s) (s_plist s) st.

Definition state_of (st : states) (p : nat) : Z := default 0 (st !! p).
Definition plugin_get_running_state (s : sched) (p : nat) : Z := state_of (s_states s) p.
Definition plugin_set_running_state (s : sched) (p : nat) (state : Z) : sched :=
  set_states (<[p := state]> (s_states s)) s.

Definition deps_ptr (s : sched) (p : nat) : option (list nat) := s_nodes s !! p ≫= dependencies_ptr.
Definition plugin_ports (s : sched) (p : nat) : list string := default [] (s_nodes s !! p ≫= ports).
Definition plugin_category (s : sched) (p : nat) : Z := default 0 (category <$> s_plugins s !! p).
Definition get_list (s : sched) (c : Z) : list nat := default [] (s_lists s !! c).
Definition set_list (c : Z) (l : list nat) (s : sched) : sched := set_lists (<[c := l]> (s_lists s)) s.

(** *** Ports in use *)

(** [pl_get]: the element of the name, with what is before and after it. *)
Definition pl_get (l : list plist_el) (name : string) :=
  break_at (fun e => bool_decide (pl_name e = name)) l.

(** [name] has 64 bytes, the last of them 0. *)
Definition mark_port (l : list plist_el) (port : string) : list plist_el :=
  match pl_get l port with
  | Some (a, e, b) => a ++ mk_pl (pl_name e) (pl_occurences e + 1) :: b
  | None => mk_pl (CStr.take_str 63 port) 1 :: l
  end.

Definition scheduler_mark_running_ports (s : sched) (plugin : nat) : sched :=
  set_plist (foldl mark_port (s_plist s) (plugin_ports s plugin)) s.

Definition rm_port (l : list plist_el) (port : string) : list plist_el :=
  match pl_get l port with
  | Some (a, e, b) =>
      if pl_occurences e - 1 =? 0 then a ++ b
      else a ++ mk_pl (pl_name e) (pl_occurences e - 1) :: b
  | None => l
  end.

Definition scheduler_rm_running_ports (s : sched) (plugin : nat) : sched :=
  set_plist (foldl rm_port (s_plist s) (plugin_ports s plugin)) s.

(** *** Dependencies *)

(** A [struct scheduler_plugin *] result: NULL, the constant [PLUG_RUNNING] or a
    plugin. *)
Inductive sched_result := PNull | PRunning | PPlugin (p : nat).

(** The loop over the dependencies; [rec] is the recursive call. *)
Fixpoint dep_loop (rec : sched -> list nat -> outcome (sched_result * sched))
    (l : list nat) (flag : bool) (s : sched) : outcome (sched_result * sched) :=
  match l with
  | [] => Ret (if flag then PRunning else PNull, s)
  | plugin :: rest =>
      let state := plugin_get_running_state s plugin in
      if state =? PLUGIN_STATUS_UNRUN then
        match deps_ptr s plugin with
        | None => Ret (PPlugin plugin, s)
        | Some d =>
            match rec s d with
            | Ret (PNull, s) => Ret (PPlugin plugin, s)
            | Ret (PRunning, s) => dep_loop rec rest true s
            | r => r
            end
        end
      else if state =? PLUGIN_STATUS_RUNNING then dep_loop rec rest true s
      else if state =? PLUGIN_STATUS_DONE then
        let s := scheduler_rm_running_ports s plugin in
        dep_loop rec rest flag (plugin_set_running_state s plugin PLUGIN_STATUS_DONE_AND_CLEANED)
      else dep_loop rec rest flag s
  end.

(** [fuel] bounds the depth of the recursion. *)
Fixpoint plugin_next_unrun_dependencie (fuel : nat) (s : sched) (dependencies : option (list nat))
  : outcome (sched_result * sched) :=
  match fuel with
  | O => NoReturn
  | S n =>
      match dependencies with
      | None => Ret (PNull, s)
      | Some l => dep_loop (fun s d => plugin_next_unrun_dependencie n s (Some d)) l false s
      end
  end.

(** ** The process manager as the scheduler sees it *)

Class ProcessManager (PM : Type) := {
  pluginlaunch_disable_parrallel_checks : PM -> PM;
  pluginlaunch_enable_parrallel_checks : PM -> PM;
  pluginlaunch_wait_for_free_process : PM -> states -> outcome (PM * states) }.

(** Between two launches the state of a plugin changes in this direction only. *)
Definition advances (x y : Z) : Prop :=
  y = x \/ (x = PLUGIN_STATUS_RUNNING /\ (y = PLUGIN_STATUS_DONE \/ y = PLUGIN_STATUS_DONE_AND_CLEANED))
  \/ (x = PLUGIN_STATUS_DONE /\ y = PLUGIN_STATUS_DONE_AND_CLEANED).

(** What waiting for a free process does to the plugins: some that run are done
    afterwards, at least one, and nothing else changes. *)
Definition some_finished (st st' : states) : Prop :=
  (forall p, state_of st' p = state_of st p
             \/ state_of st p = PLUGIN_STATUS_RUNNING /\ state_of st' p = PLUGIN_STATUS_DONE)
  /\ exists p, state_of st p = PLUGIN_STATUS_RUNNING /\ state_of st' p = PLUGIN_STATUS_DONE.

(** What the process manager promises, [pm_ok] being its own invariant. *)
Class ProcessManagerLaws (PM : Type) `{ProcessManager PM} (pm_ok : PM -> states -> Prop) : Prop := {
  pm_parallel_ok pm st : pm_ok pm st ->
    pm_ok (pluginlaunch_disable_parrallel_checks pm) st
    /\ pm_ok (pluginlaunch_enable_parrallel_checks pm) st;
  pm_clean_ok pm st p : pm_ok pm st -> state_of st p = PLUGIN_STATUS_DONE ->
    pm_ok pm (<[p := PLUGIN_STATUS_DONE_AND_CLEANED]> st);
  pm_wait_ok pm st : pm_ok pm st ->
    match pluginlaunch_wait_for_free_process pm st with
    | Ret (pm', st') => pm_ok pm' st' /\ some_finished st st'
    | NoReturn => True
    | Undef => False
    end }.

(** While a plugin runs, waiting for a process to finish comes to an end. *)
Class ProcessManagerLive (PM : Type) `{ProcessManager PM} (pm_ok : PM -> states -> Prop) : Prop :=
  pm_wait_returns pm st p : pm_ok pm st -> state_of st p = PLUGIN_STATUS_RUNNING ->
    pluginlaunch_wait_for_free_process pm st <> NoReturn.

(** ** Choosing the next plugin *)

(** What the scan of one category's list gives: a plugin to launch, or the
    [running_category] and [flag] at its end. *)
Inductive scan_result := Found (p : nat) | Passed (running_category : Z) (flag : bool).

Definition launch_now (s : sched) (p : nat) : sched :=
  plugin_set_running_state (scheduler_mark_running_ports s p) p PLUGIN_STATUS_RUNNING.

(** The [while (l != NULL)] loop; the list result is what stays in the list. *)
Fixpoint scan (fuel : nat) (l : list nat) (running_category : Z) (flag : bool) (s : sched)
  : outcome (scan_result * list nat * sched) :=
  match l with
  | [] => Ret (Passed running_category flag, [], s)
  | p :: next =>
      let keep (r : outcome (scan_result * list nat * sched)) :=
        match r with
        | Ret (res, kept, s) => Ret (res, p :: kept, s)
        | NoReturn => NoReturn
        | Undef => Undef
        end in
      let still_running s :=
        keep (scan fuel next
                (if plugin_category s p <? running_category then plugin_category s p
                 else running_category) true s) in
      let state := plugin_get_running_state s p in
      if state =? PLUGIN_STATUS_UNRUN then
        match deps_ptr s p with
        | Some d =>
            match plugin_next_unrun_dependencie fuel s (Some d) with
            | Ret (PNull, s) => Ret (Found p, l, launch_now s p)
            | Ret (PRunning, s) => still_running s
            | Ret (PPlugin q, s) => Ret (Found q, l, launch_now s q)
            | NoReturn => NoReturn
            | Undef => Undef
            end
        | None => Ret (Found p, l, launch_now s p)
        end
      else if state =? PLUGIN_STATUS_RUNNING then still_running s
      else if state =? PLUGIN_STATUS_DONE then
        let s := scheduler_rm_running_ports s p in
        scan fuel next running_category flag
          (plugin_set_running_state s p PLUGIN_STATUS_DONE_AND_CLEANED)
      else if state =? PLUGIN_STATUS_DONE_AND_CLEANED then
        scan fuel next running_category flag s
      else keep (scan fuel next running_category flag s)
  end.

Section WithManager.
Context {PM : Type} `{!ProcessManager PM}.

(** Scanners and denial of service checks must not run in parallel. *)
Definition set_parallel (category : Z) (pm : PM) : PM :=
  if (category =? ACT_SCANNER) || (category =? ACT_KILL_HOST) || (category =? ACT_FLOOD)
     || (category =? ACT_DENIAL)
  then pluginlaunch_disable_parrallel_checks pm
  else pluginlaunch_enable_parrallel_checks pm.

Definition phase_barrier (category : Z) : bool :=
  (category =? ACT_SCANNER) || (category =? ACT_INIT) || (category =? ACT_SETTINGS).

(** The [for] loop over the categories.  [fuel] bounds the number of
    iterations, those repeated after a wait included, and the recursion over
    the dependencies. *)
Fixpoint next_loop (fuel : nat) (category running_category : Z) (flag : bool) (s : sched) (pm : PM)
  : outcome (sched_result * sched * PM) :=
  match fuel with
  | O => NoReturn
  | S n =>
      if category <=? ACT_LAST then
        let pm := set_parallel category pm in
        match scan n (get_list s category) running_category flag s with
        | Ret (Found p, l, s) => Ret (PPlugin p, set_list category l s, pm)
        | Ret (Passed running_category flag, l, s) =>
            let s := set_list category l s in
            if phase_barrier category && flag then
              match pluginlaunch_wait_for_free_process pm (s_states s) with
              | Ret (pm, st) => next_loop n category running_category false (set_states st s) pm
              | NoReturn => NoReturn
              | Undef => Undef
              end
            else if (ACT_DENIAL <=? category + 1) && flag && (running_category <? ACT_DENIAL)
                 then Ret (PRunning, s, pm)
                 else next_loop n (category + 1) running_category flag s pm
        | NoReturn => NoReturn
        | Undef => Undef
        end
      else Ret (if flag then PRunning else PNull, s, pm)
  end.

Definition plugins_scheduler_next (fuel : nat) (h : option sched) (pm : PM)
  : outcome (sched_result * option sched * PM) :=
  match h with
  | None => Ret (PNull, None, pm)
  | Some s =>
      match next_loop fuel ACT_FIRST ACT_LAST false s pm with
      | Ret (r, s, pm) => Ret (r, Some s, pm)
      | NoReturn => NoReturn
      | Undef => Undef
      end
  end.

End WithManager.

(** ** Construction *)

Section Init.
Context `{G : Glib}.
(** The NVT cache ([nvticache_get_by_oid]) and GLib's path functions. *)
Context (nvticache_get_by_oid : string -> option nvti).
Context (g_path_get_dirname : string -> string) (g_build_filename : string -> string -> string).

Definition mkhash (name : string) : Z := g_str_hash name mod HASH_MAX.

(** The names of a [str2arglist] list.  The cache the strings are shared through
    does not change them. *)
Definition names_of (s : option string) : names :=
  option_map (map Arglists.a_name) (snd (Arglists.str2arglist Arglists.cache0 s)).

(** [hash_add]: the node and its place in the table. *)
Definition hash_add (s : sched) (name : string) (i : nat) (nvt : nvti) : sched :=
  let deps := names_of (nvti_dependencies nvt) in
  let idx := mkhash name in
  let node := mk_hash name deps (Z.of_nat (length (default [] deps))) None
                (names_of (nvti_required_ports nvt)) in
  set_hash (<[idx := i :: default [] (s_hash s !! idx)]> (s_hash s))
    (set_nodes (s_nodes s ++ [node]) s).

(** [_hash_get]: the first node of the chain with the name. *)
Definition hash_get (s : sched) (name : string) : option nat :=
  match break_at (fun i => bool_decide (h_name <$> s_nodes s !! i = Some name))
          (default [] (s_hash s !! mkhash name)) with
  | Some (_, i, _) => Some i
  | None => None
  end.

Definition hash_get_deps_ptr (s : sched) (name : string) : option (list nat) :=
  match hash_get s name with None => None | Some l => deps_ptr s l end.

(** The node a dependency name of a plugin called [arglist_name] stands for:
    as it is, or in the directory of the plugin. *)
Definition find_dep (s : sched) (arglist_name dep : string) : option nat :=
  match hash_get s dep with
  | Some d => Some d
  | None =>
      let path := g_path_get_dirname arglist_name in
      if CStr.strcaseeq path "." then None else hash_get s (g_build_filename path dep)
  end.

Definition hash_fill_deps (s : sched) (i : nat) : sched :=
  match s_nodes s !! i with
  | None => s
  | Some l =>
      if num_deps l =? 0 then s
      else
        let name := default "" (arg_name <$> s_args s !! i) in
        let ptr := omap (find_dep s name) (default [] (dependencies l)) in
        set_nodes (<[i := mk_hash (h_name l) (dependencies l) (num_deps l) (Some ptr) (ports l)]>
                     (s_nodes s)) s
  end.

(** [n] buckets from bucket [b] on. *)
Fixpoint fill_buckets (n : nat) (b : Z) (s : sched) : sched :=
  match n with
  | O => s
  | S n' => fill_buckets n' (b + 1) (foldl hash_fill_deps s (default [] (s_hash s !! b)))
  end.

Definition plug_get_launch (s : sched) (i : nat) : Z := default 0 (arg_launch <$> s_args s !! i).
Definition plug_set_launch (s : sched) (i : nat) (launch : Z) : sched :=
  set_args (alter (fun a => mk_nvt_arg (arg_name a) (arg_oid a) launch) i (s_args s)) s.

(** The loop over the dependencies of a plugin; [rec] is the recursive call. *)
Fixpoint enable_loop (rec : sched -> nat -> string -> gset string -> outcome (sched * gset string))
    (l : list nat) (s : sched) (deps_table : gset string) : outcome (sched * gset string) :=
  match l with
  | [] => Ret (s, deps_table)
  | p :: rest =>
      match rec s p (default "" (arg_name <$> s_args s !! p)) deps_table with
      | Ret (s, t) => enable_loop rec rest s t
      | r => r
      end
  end.

(** [deps_table] prevents visiting a name twice; the fuel bounds the depth. *)
Fixpoint enable_plugin_and_dependencies (fuel : nat) (s : sched) (plugin : nat) (name : string)
    (deps_table : gset string) : outcome (sched * gset string) :=
  match fuel with
  | O => NoReturn
  | S n =>
      if decide (name ∈ deps_table) then Ret (s, deps_table)
      else
        let deps_table := {[name]} ∪ deps_table in
        let s := if plug_get_launch s plugin =? LAUNCH_DISABLED
                 then plug_set_launch s plugin LAUNCH_RUN else s in
        match hash_get_deps_ptr s name with
        | None => Ret (s, deps_table)
        | Some l => enable_loop (enable_plugin_and_dependencies n) l s deps_table
        end
  end.

(** First loop of [plugins_scheduler_init]: element number [i] of the list. *)
Definition add_plugin (s : sched) (i : nat) (arg : nvt_arg) : outcome sched :=
  match arg_oid arg with
  | None => NoReturn                     (* [continue] without [arg = arg->next] *)
  | Some oid =>
      match nvticache_get_by_oid oid with
      | None => Undef                    (* the category is -1: [ret->list[-1]] *)
      | Some nvt =>
          let plugin := mk_plugin (nvti_category nvt) (nvti_timeout nvt)
            (names_of (nvti_required_ports nvt)) (names_of (nvti_required_udp_ports nvt))
            (names_of (nvti_required_keys nvt)) (names_of (nvti_mandatory_keys nvt))
            (names_of (nvti_excluded_keys nvt)) in
          let cat := if ACT_LAST <? nvti_category nvt then ACT_LAST else nvti_category nvt in
          if cat <? 0 then Undef
          else
            let s := set_plugins (s_plugins s ++ [plugin]) s in
            let s := plugin_set_running_state s i PLUGIN_STATUS_UNRUN in
            let s := set_list cat (i :: get_list s cat) s in
            Ret (hash_add s (arg_name arg) i nvt)
      end
  end.

Fixpoint add_plugins (s : sched) (i : nat) (args : list nvt_arg) : outcome sched :=
  match args with
  | [] => Ret s
  | a :: rest =>
      match add_plugin s i a with
      | Ret s => add_plugins s (S i) rest
      | r => r
      end
  end.

(** Autoload: every plugin that is not disabled enables its dependencies. *)
Fixpoint enable_all (fuel : nat) (s : sched) (i : nat) (n : nat) : outcome sched :=
  match n with
  | O => Ret s
  | S n' =>
      if plug_get_launch s i =? LAUNCH_DISABLED then enable_all fuel s (S i) n'
      else
        match enable_plugin_and_dependencies fuel s i (default "" (arg_name <$> s_args s !! i)) ∅ with
        | Ret (s, _) => enable_all fuel s (S i) n'
        | NoReturn => NoReturn
        | Undef => Undef
        end
  end.

Definition remove_disabled (s : sched) (c : Z) : sched :=
  set_list c (filter (fun p => plug_get_launch s p <> LAUNCH_DISABLED) (get_list s c)) s.

Definition categories : list Z := seqZ ACT_FIRST (ACT_LAST + 1).

Definition plugins_scheduler_init (fuel : nat) (plugins : option (list nvt_arg))
    (autoload only_network : bool) : outcome (option sched) :=
  match plugins with
  | None => Ret None
  | Some args =>
      match add_plugins (mk_sched args [] [] ∅ ∅ [] ∅) 0 args with
      | Ret s =>
          let s := fill_buckets (Z.to_nat HASH_MAX) 0 s in
          match (if autoload then enable_all fuel s 0 (length args) else Ret s) with
          | Ret s =>
              let s := foldl remove_disabled s categories in
              Ret (Some (if only_network
                         then foldl (fun s c => set_list c [] s) s
                                (seqZ ACT_GATHER_INFO (ACT_LAST + 1 - ACT_GATHER_INFO))
                         else s))
          | NoReturn => NoReturn
          | Undef => Undef
          end
      | NoReturn => NoReturn
      | Undef => Undef
      end
  end.

End Init.

Lemma state_of_insert st p x q :
  state_of (<[p := x]> st) q = if decide (p = q) then x else state_of st q.
Proof.
  unfold state_of. case_decide as E; [by subst; rewrite lookup_insert_eq|].
  by rewrite lookup_insert_ne.
Qed.

End Scheduler.
