(* ===== verification/SchedulerSpec.v ===== *)
(** * Properties of the plugin scheduler

    Proved against the interface of the process manager only.  A plugin is
    launched once its dependencies are done and cleaned, the phases of a scan
    are separated, NULL means that nothing is left, the table of ports in use is
    exact, and choosing the next plugin ends when the dependencies are acyclic. *)

From S2P Require Import Prelude Arglists Hosts Scheduler.
From stdpp Require Import base gmap sets list strings.
From Stdlib Require Import Ascii ZArith Lia.
Local Open Scope Z_scope.

Module SchedulerSpec.
Import Scheduler.

Abbreviation UNRUN := PLUGIN_STATUS_UNRUN.
Abbreviation RUNNING := PLUGIN_STATUS_RUNNING.
Abbreviation DONE := PLUGIN_STATUS_DONE.
Abbreviation CLEANED := PLUGIN_STATUS_DONE_AND_CLEANED.

Ltac unfold_status :=
  unfold PLUGIN_STATUS_UNRUN, PLUGIN_STATUS_RUNNING, PLUGIN_STATUS_DONE,
    PLUGIN_STATUS_DONE_AND_CLEANED in *.

(** ** Cleaning *)

(** A done plugin is cleaned: its ports are released. *)
Definition clean (s : sched) (p : nat) : sched :=
  plugin_set_running_state (scheduler_rm_running_ports s p) p CLEANED.

Inductive clean_step (s : sched) : sched -> Prop :=
| Clean p : plugin_get_running_state s p = DONE -> clean_step s (clean s p).

(** What stays: the graph of plugins and, from a clean step, the lists. *)
Definition same_graph (s s' : sched) : Prop :=
  s_args s' = s_args s /\ s_plugins s' = s_plugins s /\ s_nodes s' = s_nodes s.

Lemma same_graph_refl s : same_graph s s.
Proof. done. Qed.

Lemma same_graph_trans s s' s'' : same_graph s s' -> same_graph s' s'' -> same_graph s s''.
Proof. unfold same_graph. intuition congruence. Qed.
#[local] Hint Resolve same_graph_refl same_graph_trans : core.

Lemma same_graph_deps s s' p : same_graph s s' -> deps_ptr s' p = deps_ptr s p.
Proof. unfold deps_ptr. by intros (_ & _ & ->). Qed.

Lemma same_graph_ports s s' p : same_graph s s' -> plugin_ports s' p = plugin_ports s p.
Proof. unfold plugin_ports. by intros (_ & _ & ->). Qed.

Lemma state_clean s p q :
  plugin_get_running_state (clean s p) q
  = if decide (p = q) then CLEANED else plugin_get_running_state s q.
Proof. apply state_of_insert. Qed.

Definition state_cleans (x y : Z) : Prop := y = x \/ x = DONE /\ y = CLEANED.

Lemma cleans_frame s s' : rtc clean_step s s' ->
  same_graph s s' /\ s_lists s' = s_lists s
  /\ forall p, state_cleans (plugin_get_running_state s p) (plugin_get_running_state s' p).
Proof.
  induction 1 as [s|s s1 s2 Hst _ (IH1 & IH2 & IH3)].
  { split; [done|]. split; [done|]. intros. by left. }
  destruct Hst as [p Hp]. split; [done|]. split; [done|]. intros q.
  specialize (IH3 q). rewrite state_clean in IH3. unfold state_cleans in *.
  case_decide; [subst|done]. unfold_status. intuition congruence.
Qed.

Lemma cleans_unrun s s' p : rtc clean_step s s' ->
  plugin_get_running_state s' p = UNRUN <-> plugin_get_running_state s p = UNRUN.
Proof.
  intros H. destruct (cleans_frame _ _ H) as (_ & _ & Hs). specialize (Hs p).
  unfold state_cleans in Hs. unfold_status. intuition congruence.
Qed.

Lemma cleans_running s s' p : rtc clean_step s s' ->
  plugin_get_running_state s' p = RUNNING <-> plugin_get_running_state s p = RUNNING.
Proof.
  intros H. destruct (cleans_frame _ _ H) as (_ & _ & Hs). specialize (Hs p).
  unfold state_cleans in Hs. unfold_status. intuition congruence.
Qed.

(** ** The next unrun dependency *)

(** Neither waiting, running nor waiting to be cleaned. *)
Definition settled (s : sched) (p : nat) : Prop :=
  plugin_get_running_state s p <> UNRUN /\ plugin_get_running_state s p <> RUNNING
  /\ plugin_get_running_state s p <> DONE.

Definition deps_settled (s : sched) (p : nat) : Prop :=
  Forall (settled s) (default [] (deps_ptr s p)).

Lemma settled_cleans s s' p : rtc clean_step s s' -> settled s p -> settled s' p.
Proof.
  intros H. destruct (cleans_frame _ _ H) as (_ & _ & Hs). specialize (Hs p).
  unfold state_cleans, settled in *. unfold_status. intuition congruence.
Qed.

(** [q] is a direct dependency of [p]. *)
Definition dep (s : sched) (p q : nat) : Prop := exists d, deps_ptr s p = Some d /\ q ∈ d.

Lemma same_graph_dep s s' p q : same_graph s s' -> rtc (dep s') p q <-> rtc (dep s) p q.
Proof.
  intros Hg. assert (forall p q, dep s' p q <-> dep s p q) as He.
  { intros x y. unfold dep. by rewrite (same_graph_deps _ _ _ Hg). }
  split; intros H; (eapply rtc_subrel in H; [exact H|]); intros x y Hxy; by apply He.
Qed.

(** The plugin chosen can run and is one of [l] or a dependency of one. *)
Definition chosen_ok (l : list nat) (s' : sched) (q : nat) : Prop :=
  plugin_get_running_state s' q = UNRUN /\ deps_settled s' q
  /\ exists x, x ∈ l /\ rtc (dep s') x q.

(** What a choice of a plugin out of [l] in [s] promises. *)
Definition choice_ok (l : list nat) (s : sched) (r : sched_result) (s' : sched) : Prop :=
  rtc clean_step s s' /\
  match r with
  | PNull => Forall (settled s') l
  | PRunning => exists q, plugin_get_running_state s' q = RUNNING
  | PPlugin q => chosen_ok l s' q
  end.

Lemma chosen_ok_incl l l' s q : (forall x, x ∈ l -> x ∈ l') -> chosen_ok l s q -> chosen_ok l' s q.
Proof. intros H (H1 & H2 & x & Hx & Hr). split; [done|]. split; [done|]. eauto. Qed.

Lemma chosen_ok_deps l s p d q :
  p ∈ l -> deps_ptr s p = Some d -> chosen_ok d s q -> chosen_ok l s q.
Proof.
  intros Hp Hd (H1 & H2 & x & Hx & Hr). split; [done|]. split; [done|]. exists p. split; [done|].
  eapply rtc_l; [|exact Hr]. by exists d.
Qed.

Lemma dep_loop_ok rec l flag s r s' :
  (forall s d r s', rec s d = Ret (r, s') -> choice_ok d s r s') ->
  (flag = true -> exists q, plugin_get_running_state s q = RUNNING) ->
  dep_loop rec l flag s = Ret (r, s') ->
  rtc clean_step s s' /\
  match r with
  | PNull => flag = false /\ Forall (settled s') l
  | PRunning => exists q, plugin_get_running_state s' q = RUNNING
  | PPlugin q => chosen_ok l s' q
  end.
Proof.
  intros Hrec. revert flag s. induction l as [|p l IH]; intros flag s Hflag; simpl.
  { intros [= <- <-]. split; [apply rtc_refl|]. destruct flag; auto. }
  assert (forall flag' s1, rtc clean_step s s1 -> (flag = true -> flag' = true) ->
    (flag' = true -> exists q, plugin_get_running_state s1 q = RUNNING) ->
    (flag' = false -> settled s1 p) -> dep_loop rec l flag' s1 = Ret (r, s') ->
    rtc clean_step s s' /\
    match r with
    | PNull => flag = false /\ Forall (settled s') (p :: l)
    | PRunning => exists q, plugin_get_running_state s' q = RUNNING
    | PPlugin q => chosen_ok (p :: l) s' q
    end) as Hnext.
  { intros flag' s1 H1 Hff Hf Hset E. destruct (IH flag' s1 Hf E) as [H2 H3].
    split; [by etrans|]. destruct r as [| |q]; [|done|].
    2:{ eapply chosen_ok_incl; [|exact H3]. set_solver. }
    destruct H3 as [-> H3].
    split; [by destruct flag; [specialize (Hff eq_refl)|]|]. constructor; [|done].
    eapply settled_cleans; [exact H2|auto]. }
  destruct (plugin_get_running_state s p =? UNRUN) eqn:E1.
  { destruct (deps_ptr s p) as [d|] eqn:Ed.
    - destruct (rec s d) as [[r1 s1]| |] eqn:Er; [|done..].
      destruct (Hrec _ _ _ _ Er) as [H1 H2]. destruct r1 as [| |q]; simpl in *.
      + intros [= <- <-]. split; [done|]. split; [apply (cleans_unrun _ _ _ H1); lia|].
        destruct (cleans_frame _ _ H1) as (Hg & _). split.
        { unfold deps_settled. by rewrite (same_graph_deps _ _ _ Hg), Ed. }
        exists p. split; [set_solver|apply rtc_refl].
      + apply Hnext; auto. done.
      + intros [= <- <-]. split; [done|]. destruct (cleans_frame _ _ H1) as (Hg & _).
        eapply chosen_ok_deps; [|by rewrite (same_graph_deps _ _ _ Hg)|exact H2]. set_solver.
    - intros [= <- <-]. split; [apply rtc_refl|]. split; [lia|]. split.
      { unfold deps_settled. by rewrite Ed. }
      exists p. split; [set_solver|apply rtc_refl]. }
  destruct (plugin_get_running_state s p =? RUNNING) eqn:E2.
  { apply Hnext; [apply rtc_refl|done| |done]. exists p. lia. }
  destruct (plugin_get_running_state s p =? DONE) eqn:E3.
  - fold (clean s p). apply Hnext; [apply rtc_once; constructor; lia|done| |].
    + intros Hf. destruct (Hflag Hf) as [q Hq]. exists q. rewrite state_clean.
      case_decide; [subst; unfold_status; lia|done].
    + intros _. unfold settled. rewrite state_clean, decide_True by done. unfold_status. lia.
  - apply Hnext; [apply rtc_refl|done|done|]. intros _. unfold settled. lia.
Qed.

Lemma unrun_dependencie_ok fuel s d r s' :
  plugin_next_unrun_dependencie fuel s (Some d) = Ret (r, s') -> choice_ok d s r s'.
Proof.
  revert s d r s'. induction fuel as [|n IH]; intros s d r s'; [done|]. simpl. intros E.
  destruct (dep_loop_ok _ d false s r s' IH) as [H1 H2]; [done|exact E|].
  split; [done|]. by destruct r; [destruct H2|..].
Qed.

(** ** The scan of one list *)

Definition scan_ok (l : list nat) (flag : bool) (s : sched)
    (out : scan_result * list nat * sched) : Prop :=
  let '(res, kept, s') := out in
  exists s1, rtc clean_step s s1 /\ kept `sublist_of` l
    /\ (forall q, q ∈ l -> q ∈ kept \/ plugin_get_running_state s1 q = CLEANED)
    /\ match res with
       | Found p => s' = launch_now s1 p /\ chosen_ok l s1 p
       | Passed _ flag' =>
           s' = s1
           /\ (flag' = true -> exists q, plugin_get_running_state s1 q = RUNNING)
           /\ (flag' = false -> flag = false /\ forall q, q ∈ kept ->
                settled s1 q /\ plugin_get_running_state s1 q <> CLEANED)
       end.

(** The first element stays and the rest is scanned. *)
Lemma scan_ok_keep p l flag flag1 s s0 res kept s' :
  rtc clean_step s s0 -> (flag1 = false -> flag = false) ->
  (flag1 = false -> settled s0 p /\ plugin_get_running_state s0 p <> CLEANED) ->
  scan_ok l flag1 s0 (res, kept, s') -> scan_ok (p :: l) flag s (res, p :: kept, s').
Proof.
  intros H0 Hf Hp (s1 & H1 & Hk & Hd & Hr). exists s1. split; [by etrans|].
  split; [by apply sublist_skip|]. split.
  { intros q [->|Hq]%elem_of_cons; [set_solver|]. destruct (Hd q Hq); [set_solver|auto]. }
  destruct res as [q|rc flag'].
  - destruct Hr as [-> Hr]. split; [done|]. eapply chosen_ok_incl; [|exact Hr]. set_solver.
  - destruct Hr as (-> & Ht & Hfalse). split; [done|]. split; [done|]. intros Hfl.
    destruct (Hfalse Hfl) as [Hf1 Hall]. split; [auto|].
    intros q [->|Hq]%elem_of_cons; [|auto]. destruct (Hp Hf1) as [Hs Hc].
    split; [by eapply settled_cleans|]. destruct (cleans_frame _ _ H1) as (_ & _ & Hst).
    specialize (Hst p). unfold state_cleans, settled in *. unfold_status. intuition congruence.
Qed.

(** The first element leaves the list. *)
Lemma scan_ok_drop p l flag s s0 out :
  rtc clean_step s s0 -> plugin_get_running_state s0 p = CLEANED ->
  scan_ok l flag s0 out -> scan_ok (p :: l) flag s out.
Proof.
  intros H0 Hp. destruct out as [[res kept] s']. intros (s1 & H1 & Hk & Hd & Hr).
  exists s1. split; [by etrans|]. split; [by apply sublist_cons|]. split.
  { intros q [->|Hq]%elem_of_cons; [|auto]. right. destruct (cleans_frame _ _ H1) as (_ & _ & Hst).
    specialize (Hst p). unfold state_cleans in *. unfold_status. intuition congruence. }
  destruct res as [q|rc flag']; [|done].
  destruct Hr as [-> Hr]. split; [done|]. eapply chosen_ok_incl; [|exact Hr]. set_solver.
Qed.

Lemma scan_spec fuel l rc flag s out :
  (flag = true -> exists q, plugin_get_running_state s q = RUNNING) ->
  scan fuel l rc flag s = Ret out -> scan_ok l flag s out.
Proof.
  revert rc flag s out. induction l as [|p l IH]; intros rc flag s out Hflag; simpl.
  { intros [= <-]. exists s. split; [apply rtc_refl|]. split; [done|]. split; [set_solver|].
    split; [done|]. split; [done|]. intros ->. split; [done|]. set_solver. }
  assert (forall rc1 flag1 s0 out1, rtc clean_step s s0 -> (flag1 = false -> flag = false) ->
    (flag1 = true -> exists q, plugin_get_running_state s0 q = RUNNING) ->
    (flag1 = false -> settled s0 p /\ plugin_get_running_state s0 p <> CLEANED) ->
    match scan fuel l rc1 flag1 s0 with
    | Ret (res, kept, s) => Ret (res, p :: kept, s)
    | NoReturn => NoReturn | Undef => Undef end = Ret out1 ->
    scan_ok (p :: l) flag s out1) as Hkeep.
  { intros rc1 flag1 s0 out1 H0 Hf Hr Hp E.
    destruct (scan fuel l rc1 flag1 s0) as [[[res kept] s1]| |] eqn:Es; simplify_eq.
    eapply scan_ok_keep; [exact H0|exact Hf|exact Hp|]. by eapply IH. }
  assert (forall s0 q, rtc clean_step s s0 -> chosen_ok (p :: l) s0 q ->
    Ret (Found q, p :: l, launch_now s0 q) = Ret out -> scan_ok (p :: l) flag s out) as Hfound.
  { intros s0 q H0 Hc [= <-]. exists s0. split; [done|]. split; [done|]. split; [auto|done]. }
  destruct (plugin_get_running_state s p =? UNRUN) eqn:E1.
  { destruct (deps_ptr s p) as [d|] eqn:Ed.
    - destruct (plugin_next_unrun_dependencie fuel s (Some d)) as [[r1 s1]| |] eqn:Er; [|done..].
      destruct (unrun_dependencie_ok _ _ _ _ _ Er) as [H1 H2].
      destruct (cleans_frame _ _ H1) as (Hg & _).
      pose proof (same_graph_deps _ _ p Hg) as Hdp. rewrite Ed in Hdp. destruct r1 as [| |q].
      + apply (Hfound s1 p H1). split; [apply (cleans_unrun _ _ _ H1); lia|].
        split; [unfold deps_settled; by rewrite Hdp|]. exists p. split; [set_solver|apply rtc_refl].
      + by apply Hkeep.
      + apply (Hfound s1 q H1). eapply chosen_ok_deps; [|exact Hdp|exact H2]. set_solver.
    - apply (Hfound s p); [apply rtc_refl|]. split; [lia|].
      split; [unfold deps_settled; by rewrite Ed|]. exists p. split; [set_solver|apply rtc_refl]. }
  destruct (plugin_get_running_state s p =? RUNNING) eqn:E2.
  { apply Hkeep; [apply rtc_refl|done| |done]. intros _. exists p. lia. }
  destruct (plugin_get_running_state s p =? DONE) eqn:E3.
  { fold (clean s p). intros E.
    apply (scan_ok_drop _ _ _ _ (clean s p)); [apply rtc_once; constructor; lia| |].
    - by rewrite state_clean, decide_True.
    - eapply IH; [|exact E]. intros Hf. destruct (Hflag Hf) as [q Hq]. exists q.
      rewrite state_clean. case_decide; [subst; unfold_status; lia|done]. }
  destruct (plugin_get_running_state s p =? CLEANED) eqn:E4.
  { intros E. apply (scan_ok_drop _ _ _ _ s); [apply rtc_refl|lia|]. by eapply IH. }
  apply Hkeep; [apply rtc_refl|done|done|]. intros _. unfold settled. lia.
Qed.

(** ** Everything before a launch *)

Lemma get_list_set c l s c' :
  get_list (set_list c l s) c' = if decide (c = c') then l else get_list s c'.
Proof.
  unfold get_list. simpl. case_decide as E; [by subst; rewrite lookup_insert_eq|].
  by rewrite lookup_insert_ne.
Qed.

(** The changes the scheduler makes on its way to a plugin: cleaning, dropping
    cleaned plugins from a list, waiting for a process to finish. *)
Inductive pre_step (s : sched) : sched -> Prop :=
| pre_clean s' : clean_step s s' -> pre_step s s'
| pre_shrink c l :
    l `sublist_of` get_list s c ->
    (forall q, q ∈ get_list s c -> q ∈ l \/ plugin_get_running_state s q = CLEANED) ->
    pre_step s (set_list c l s)
| pre_wait st : some_finished (s_states s) st -> pre_step s (set_states st s).

Definition pre_ok (s s' : sched) : Prop :=
  same_graph s s'
  /\ (forall p, advances (plugin_get_running_state s p) (plugin_get_running_state s' p))
  /\ (forall c, get_list s' c `sublist_of` get_list s c)
  /\ (forall c q, q ∈ get_list s c -> q ∈ get_list s' c \/ plugin_get_running_state s' q = CLEANED).

Lemma advances_cleaned x : advances CLEANED x -> x = CLEANED.
Proof. unfold advances. unfold_status. lia. Qed.

Lemma advances_trans x y z : advances x y -> advances y z -> advances x z.
Proof. unfold advances. unfold_status. lia. Qed.

Lemma pre_step_ok s s' : pre_step s s' -> pre_ok s s'.
Proof.
  intros [s'' Hst|c l Hl Hq|st [Hf _]].
  - destruct (cleans_frame _ _ (rtc_once _ _ Hst)) as (Hg & Hl & Hst').
    split; [done|]. split; [intros p; specialize (Hst' p); unfold advances, state_cleans in *; tauto|].
    unfold get_list. rewrite Hl. auto.
  - split; [done|]. split; [by left|]. split; intros c'; rewrite get_list_set;
      case_decide; subst; auto.
  - split; [done|]. split; [|auto]. intros p. specialize (Hf p). unfold advances.
    unfold plugin_get_running_state. simpl. tauto.
Qed.

Lemma pre_steps_ok s s' : rtc pre_step s s' -> pre_ok s s'.
Proof.
  induction 1 as [s|s s1 s2 Hst _ (G2 & A2 & L2 & D2)].
  { split; [done|]. split; [by left|]. auto. }
  destruct (pre_step_ok _ _ Hst) as (G1 & A1 & L1 & D1). split; [by eauto|].
  split; [intros p; by eapply advances_trans|]. split; [intros c; etrans; [apply L2|apply L1]|].
  intros c q Hq. destruct (D1 c q Hq) as [H|H]; [by apply D2|]. right.
  specialize (A2 q). rewrite H in A2. by apply advances_cleaned.
Qed.

Lemma cleans_pre s s' : rtc clean_step s s' -> rtc pre_step s s'.
Proof. apply rtc_subrel. apply pre_clean. Qed.

(** Every plugin in a list has one of the four states. *)
Definition listed_valid (s : sched) : Prop :=
  forall c q, q ∈ get_list s c -> UNRUN <= plugin_get_running_state s q <= CLEANED.

Lemma listed_valid_pre s s' : rtc pre_step s s' -> listed_valid s -> listed_valid s'.
Proof.
  intros H Hv c q Hq. destruct (pre_steps_ok _ _ H) as (_ & A & L & _).
  specialize (A q). specialize (Hv c q (elem_of_sublist _ _ _ Hq (L c))).
  unfold advances in A. unfold_status. lia.
Qed.

(** *** What holds whatever the process manager does *)

Lemma dep_loop_plugins rec l flag s r s' :
  (forall s d r s', rec s d = Ret (r, s') -> same_graph s s') ->
  dep_loop rec l flag s = Ret (r, s') -> same_graph s s'.
Proof.
  intros Hrec. revert flag s. induction l as [|p l IH]; intros flag s; simpl; [by intros [= <- <-]|].
  repeat case_match; simplify_eq; try (by intros [= <- <-]); try (by intros E; apply IH in E);
    try (intros E; simplify_eq); eauto using same_graph_trans.
Qed.

Lemma unrun_plugins fuel s d r s' :
  plugin_next_unrun_dependencie fuel s d = Ret (r, s') -> same_graph s s'.
Proof.
  revert s d r s'. induction fuel as [|n IH]; intros s d r s'; simpl; [done|].
  destruct d as [d|]; [|by intros [= <- <-]]. apply dep_loop_plugins. intros; by eapply IH.
Qed.

Lemma scan_plugins fuel l rc flag s res kept s' :
  scan fuel l rc flag s = Ret (res, kept, s') -> same_graph s s'.
Proof.
  revert rc flag s res kept s'. induction l as [|p l IH]; intros rc flag s res kept s'; simpl.
  { by intros [= <- <- <-]. }
  repeat case_match; simplify_eq; try (by intros [= <- <- <-]);
    try (intros E; simplify_eq; repeat case_match; simplify_eq);
    repeat match goal with
    | H : plugin_next_unrun_dependencie _ _ _ = Ret _ |- _ => apply unrun_plugins in H
    | H : scan _ _ _ _ _ = Ret _ |- _ => apply IH in H
    end; try done; eauto using same_graph_trans.
Qed.

Lemma next_loop_plugins {PM : Type} `{!ProcessManager PM} fuel c rc flag s (pm : PM) r s' pm' :
  next_loop fuel c rc flag s pm = Ret (r, s', pm') -> same_graph s s'.
Proof.
  revert c rc flag s pm. induction fuel as [|n IH]; intros c rc flag s pm; simpl; [done|].
  destruct (c <=? ACT_LAST); [|by intros [= <- <- <-]].
  destruct (scan n _ _ _ _) as [[[res l] s1]| |] eqn:E; [|done..].
  apply scan_plugins in E. assert (same_graph s (set_list c l s1)) as E1 by exact E.
  destruct res as [p|rc' flag']; [by intros [= <- <- <-]|].
  repeat case_match; simplify_eq; try (by intros [= <- <- <-]); intros E2; apply IH in E2; try done;
    by eapply same_graph_trans.
Qed.

Lemma scheduler_next_plugins {PM : Type} `{!ProcessManager PM} fuel s (pm : PM) r s' pm' :
  plugins_scheduler_next fuel (Some s) pm = Ret (r, Some s', pm') -> same_graph s s'.
Proof.
  unfold plugins_scheduler_next. destruct (next_loop _ _ _ _ _ _) as [[[r1 s1] pm1]| |] eqn:E; [|done..].
  intros [= <- <- <-]. by apply next_loop_plugins in E.
Qed.

Lemma scheduler_next_some {PM : Type} `{!ProcessManager PM} fuel s (pm : PM) r pm' :
  plugins_scheduler_next fuel (Some s) pm <> Ret (r, None, pm').
Proof. unfold plugins_scheduler_next. by destruct (next_loop _ _ _ _ _ _) as [[[??]?]| |]. Qed.

Lemma dep_loop_defined rec l flag s : (forall s d, rec s d <> Undef) -> dep_loop rec l flag s <> Undef.
Proof.
  intros Hrec. revert flag s. induction l as [|p l IH]; intros flag s; simpl; [done|].
  repeat case_match; try done; try apply IH; congruence.
Qed.

Lemma unrun_defined fuel s d : plugin_next_unrun_dependencie fuel s d <> Undef.
Proof.
  revert s d. induction fuel as [|n IH]; intros s d; simpl; [done|].
  destruct d as [d|]; [|done]. by apply dep_loop_defined.
Qed.

Lemma scan_defined fuel l rc flag s : scan fuel l rc flag s <> Undef.
Proof.
  revert rc flag s. induction l as [|p l IH]; intros rc flag s; simpl; [done|].
  repeat case_match; try done; try apply IH;
    match goal with
    | H : plugin_next_unrun_dependencie _ _ _ = Undef |- _ => by apply unrun_defined in H
    | H : scan _ _ _ _ _ = Undef |- _ => by apply IH in H
    end.
Qed.

Lemma scheduler_next_defined {PM : Type} `{!ProcessManager PM} fuel s (pm : PM) :
  (forall (pm : PM) st, pluginlaunch_wait_for_free_process pm st <> Undef) ->
  plugins_scheduler_next fuel (Some s) pm <> Undef.
Proof.
  intros Hw. unfold plugins_scheduler_next.
  assert (forall n c rc flag s pm, next_loop n c rc flag s pm <> Undef) as H.
  { clear -Hw. intros n. induction n as [|n IH]; intros c rc flag s pm; simpl; [done|].
    destruct (c <=? ACT_LAST); [|done].
    destruct (scan n _ _ _ _) as [[[res l] s1]| |] eqn:E; [|done|by apply scan_defined in E].
    destruct res as [p|rc' flag']; [done|]. repeat case_match; try done; try apply IH.
    by match goal with H : pluginlaunch_wait_for_free_process _ _ = Undef |- _ => apply Hw in H end. }
  specialize (H fuel ACT_FIRST ACT_LAST false s pm). by destruct (next_loop _ _ _ _ _ _) as [[[??]?]| |].
Qed.

Section Manager.
Context {PM : Type} `{!ProcessManager PM} {pm_ok : PM -> states -> Prop}
  `{Laws : !ProcessManagerLaws PM pm_ok}.

Lemma set_parallel_ok c pm st : pm_ok pm st -> pm_ok (set_parallel c pm) st.
Proof.
  intros H. destruct (pm_parallel_ok _ _ H). unfold set_parallel. by destruct (_ || _).
Qed.

Lemma pm_cleans s s' pm : rtc clean_step s s' -> pm_ok pm (s_states s) -> pm_ok pm (s_states s').
Proof.
  induction 1 as [|s s1 s2 [p Hp] _ IH]; [done|]. intros H. apply IH. simpl.
  by apply pm_clean_ok.
Qed.

(** What one call of the scheduler gives. *)
Definition next_ok (s : sched) (r : sched_result) (s' : sched) (pm' : PM) : Prop :=
  exists s1, rtc pre_step s s1 /\ pm_ok pm' (s_states s1) /\
  match r with
  | PPlugin p =>
      s' = launch_now s1 p /\ exists c, chosen_ok (get_list s c) s1 p
        /\ forall c', 0 <= c' < c -> c' <= ACT_SETTINGS -> get_list s1 c' = []
  | PRunning => s' = s1 /\ exists q, plugin_get_running_state s1 q = RUNNING
  | PNull => s' = s1 /\ forall c, 0 <= c <= ACT_LAST -> get_list s1 c = []
  end.

Lemma next_ok_pre s s0 r s' pm' : rtc pre_step s s0 -> next_ok s0 r s' pm' -> next_ok s r s' pm'.
Proof.
  intros H0 (s1 & H1 & Hp & Hr). exists s1. split; [by etrans|]. split; [done|].
  destruct r; [done|done|]. destruct Hr as (-> & c & Hc & Hb). split; [done|]. exists c.
  split; [|done]. eapply chosen_ok_incl; [|exact Hc]. intros x Hx.
  destruct (pre_steps_ok _ _ H0) as (_ & _ & L & _). by eapply elem_of_sublist.
Qed.

(** The state at the start of an iteration for category [c]. *)
Definition loop_inv (c : Z) (flag : bool) (s : sched) (pm : PM) : Prop :=
  0 <= c /\ pm_ok pm (s_states s) /\ listed_valid s
  /\ (flag = true -> exists q, plugin_get_running_state s q = RUNNING)
  /\ (c <= ACT_GATHER_INFO -> flag = false)
  /\ (forall c', 0 <= c' < c -> c' <= ACT_SETTINGS -> get_list s c' = [])
  /\ (flag = false -> forall c', 0 <= c' < c -> get_list s c' = []).

Lemma next_loop_ok fuel c rc flag s pm r s' pm' :
  loop_inv c flag s pm -> next_loop fuel c rc flag s pm = Ret (r, s', pm') -> next_ok s r s' pm'.
Proof.
  revert c rc flag s pm.
  induction fuel as [|n IH]; intros c rc flag s pm (Hc & Hpm & Hv & Hrun & Hlow & Hbar & Hemp); [done|].
  simpl. destruct (c <=? ACT_LAST) eqn:Ec.
  2:{ intros [= <- <- <-]. exists s. split; [apply rtc_refl|]. split; [done|].
      destruct flag; [by auto|]. split; [done|]. intros c' Hc'. apply Hemp; [done|]. lia. }
  destruct (scan n (get_list s c) rc flag s) as [[[res kept] s2]| |] eqn:Es; [|done..].
  destruct (scan_spec _ _ _ _ _ _ Hrun Es) as (s1 & H1 & Hk & Hd & Hres).
  destruct (cleans_frame _ _ H1) as (Hg & Hl & Hst).
  assert (forall x, get_list s1 x = get_list s x) as Hl1 by (intros; unfold get_list; by rewrite Hl).
  assert (rtc pre_step s (set_list c kept s1)) as Hpre.
  { etrans; [by apply cleans_pre|]. apply rtc_once. apply pre_shrink; rewrite Hl1; [done|].
    intros q Hq. by destruct (Hd q Hq); auto. }
  pose proof (set_parallel_ok c _ _ Hpm) as Hpm1.
  pose proof (pm_cleans _ _ _ H1 Hpm1) as Hpm2.
  assert (forall c', 0 <= c' < c -> get_list s c' = [] -> get_list (set_list c kept s1) c' = []) as He.
  { intros c' Hc' E. rewrite get_list_set, decide_False, Hl1 by lia. done. }
  pose proof (listed_valid_pre _ _ Hpre Hv) as Hv'.
  destruct res as [p|rc' flag'].
  { intros [= <- <- <-]. destruct Hres as [-> Hch]. exists (set_list c kept s1).
    split; [done|]. split; [done|]. split; [done|]. exists c. split; [exact Hch|]. auto. }
  destruct Hres as (-> & Hrun' & Hfalse).
  assert (flag' = false -> kept = []) as Hnil.
  { intros Hf. destruct (Hfalse Hf) as [_ Hall]. destruct kept as [|q kept]; [done|]. exfalso.
    destruct (Hall q) as [Hset Hnc]; [set_solver|]. specialize (Hv' c q).
    rewrite get_list_set, decide_True in Hv' by done. specialize (Hv' ltac:(set_solver)).
    change (plugin_get_running_state (set_list c (q :: kept) s1) q)
      with (plugin_get_running_state s1 q) in Hv'.
    unfold settled in Hset. unfold_status. lia. }
  destruct (phase_barrier c && flag') eqn:Eb.
  - pose proof (pm_wait_ok _ (s_states s1) Hpm2) as Hw. simpl.
    destruct (pluginlaunch_wait_for_free_process _ (s_states s1)) as [[pm3 st]| |] eqn:Ew; [|done..].
    destruct Hw as [Hpm3 Hfin]. intros E.
    assert (rtc pre_step s (set_states st (set_list c kept s1))) as Hpre'.
    { eapply rtc_r; [exact Hpre|]. by apply pre_wait. }
    eapply next_ok_pre; [exact Hpre'|]. eapply IH; [|exact E].
    assert (flag = false) as ->.
    { apply Hlow. unfold phase_barrier, ACT_SCANNER, ACT_INIT, ACT_SETTINGS, ACT_GATHER_INFO in *. lia. }
    split; [done|]. split; [done|]. split; [by eapply listed_valid_pre|]. split; [done|].
    split; [done|]. split; [intros c' ??; by apply He; auto|]. intros _ c' Hc'. apply He; auto.
  - destruct ((ACT_DENIAL <=? c + 1) && flag' && (rc' <? ACT_DENIAL)) eqn:Ed.
    + intros [= <- <- <-]. exists (set_list c kept s1). split; [done|]. split; [done|].
      split; [done|]. apply Hrun'. destruct flag'; [done|]. by rewrite andb_false_r in Ed.
    + intros E. eapply next_ok_pre; [exact Hpre|]. eapply IH; [|exact E].
      split; [lia|]. split; [done|]. split; [done|]. split; [done|].
      assert (flag' = false -> forall c', 0 <= c' < c + 1 -> get_list (set_list c kept s1) c' = []) as Hall.
      { intros Hf c' Hc'. destruct (decide (c = c')) as [<-|].
        - rewrite get_list_set, decide_True by done. auto.
        - apply He; [lia|]. apply Hemp; [by apply Hfalse|lia]. }
      assert (c <= ACT_SETTINGS -> flag' = false) as Hb2.
      { intros ?. destruct flag'; [|done]. exfalso.
        unfold phase_barrier, ACT_SCANNER, ACT_INIT, ACT_SETTINGS in *. lia. }
      split; [intros; apply Hb2; unfold ACT_SETTINGS, ACT_GATHER_INFO in *; lia|]. split; [|done].
      intros c' Hc' Hs. destruct (decide (c = c')) as [<-|]; [by apply Hall; [auto|lia]|].
      apply He; [lia|]. apply Hbar; [lia|done].
Qed.

(** A call of [plugins_scheduler_next]. *)
Lemma scheduler_next_ok fuel s pm r s' pm' :
  pm_ok pm (s_states s) -> listed_valid s ->
  plugins_scheduler_next fuel (Some s) pm = Ret (r, Some s', pm') -> next_ok s r s' pm'.
Proof.
  intros Hpm Hv. unfold plugins_scheduler_next.
  destruct (next_loop _ _ _ _ _ _) as [[[r1 s1] pm1]| |] eqn:E; [|done..].
  intros [= <- <- <-]. eapply next_loop_ok; [|exact E].
  unfold loop_inv, ACT_FIRST. split; [lia|]. split; [done|]. split; [done|]. split; [done|].
  split; [done|]. split; intros; lia.
Qed.

End Manager.

(** ** Ports in use *)

Definition port_count (l : list plist_el) (port : string) : Z :=
  match pl_get l port with Some (_, e, _) => pl_occurences e | None => 0 end.

Definition plist_wf (l : list plist_el) : Prop :=
  NoDup (pl_name <$> l) /\ Forall (fun e => 0 < pl_occurences e) l.

Lemma port_count_cons e l q :
  port_count (e :: l) q = if decide (pl_name e = q) then pl_occurences e else port_count l q.
Proof.
  unfold port_count, pl_get. simpl. bdec (pl_name e = q) as He; [done|].
  by destruct (break_at _ l) as [[[??]?]|].
Qed.

Lemma port_count_absent l q : q ∉ pl_name <$> l -> port_count l q = 0.
Proof.
  induction l as [|e l IH]; [done|]. rewrite port_count_cons. intros H.
  rewrite fmap_cons, not_elem_of_cons in H. destruct H as [H1 H2].
  rewrite decide_False by congruence. auto.
Qed.

Lemma port_count_mid a e b q : NoDup (pl_name <$> a ++ e :: b) ->
  port_count (a ++ e :: b) q
  = if decide (pl_name e = q) then pl_occurences e else port_count (a ++ b) q.
Proof.
  induction a as [|x a IH]; simpl; intros Hn; [by rewrite port_count_cons|].
  inv Hn. rewrite !port_count_cons, IH by done. repeat case_decide; try done.
  exfalso. apply H1. rewrite fmap_app, elem_of_app, fmap_cons, elem_of_cons. right. left. congruence.
Qed.

Lemma pl_get_Some l q a e b : pl_get l q = Some (a, e, b) -> l = a ++ e :: b /\ pl_name e = q.
Proof.
  intros H. apply break_at_Some in H as (-> & H & _). by apply bool_decide_eq_true in H.
Qed.

Lemma pl_get_None l q : pl_get l q = None -> q ∉ pl_name <$> l.
Proof.
  intros H. apply break_at_None in H. rewrite Forall_forall in H.
  intros (e & -> & He)%list_elem_of_fmap. specialize (H e He). by rewrite bool_decide_eq_false in H.
Qed.

Lemma mark_port_spec l port : (String.length port <= 63)%nat -> plist_wf l ->
  plist_wf (mark_port l port)
  /\ forall q, port_count (mark_port l port) q = port_count l q + if decide (port = q) then 1 else 0.
Proof.
  intros Hlen [Hn Hp]. unfold mark_port. destruct (pl_get l port) as [[[a e] b]|] eqn:E.
  - apply pl_get_Some in E as [-> <-].
    assert (NoDup (pl_name <$> a ++ mk_pl (pl_name e) (pl_occurences e + 1) :: b)) as Hn'.
    { rewrite fmap_app in *. done. }
    apply Forall_app in Hp as [Ha Hb]. inv Hb. split.
    { split; [done|]. apply Forall_app; split; [done|]. constructor; [simpl; lia|done]. }
    intros q. rewrite !port_count_mid by done. simpl. case_decide; lia.
  - rewrite CStr.take_str_all by done. apply pl_get_None in E. split.
    { split; [by constructor|]. constructor; [simpl; lia|done]. }
    intros q. rewrite port_count_cons. simpl. case_decide; [subst|lia].
    by rewrite port_count_absent.
Qed.

Lemma rm_port_spec l port : plist_wf l ->
  plist_wf (rm_port l port)
  /\ forall q, port_count (rm_port l port) q
       = if decide (port = q) then Z.max 0 (port_count l q - 1) else port_count l q.
Proof.
  intros [Hn Hp]. unfold rm_port. destruct (pl_get l port) as [[[a e] b]|] eqn:E.
  - apply pl_get_Some in E as [-> <-]. pose proof Hn as Hn0.
    rewrite fmap_app, fmap_cons in Hn0. apply NoDup_app in Hn0 as (Hna & Hdis & Hnb). inv Hnb.
    apply Forall_app in Hp as [Ha Hb]. inv Hb.
    destruct (pl_occurences e - 1 =? 0) eqn:E1.
    + split.
      { split; [|by apply Forall_app]. rewrite fmap_app. apply NoDup_app. split; [done|].
        split; [|done]. intros x Hx Hx'. apply (Hdis x Hx). by right. }
      intros q. rewrite port_count_mid by done. case_decide as Hq; [|done]. subst q.
      rewrite port_count_absent; [lia|]. rewrite fmap_app, elem_of_app.
      intros [Hx|Hx]; [apply (Hdis _ Hx); by left|done].
    + split.
      { split; [rewrite fmap_app in *; done|]. apply Forall_app; split; [done|].
        constructor; [simpl; lia|done]. }
      intros q. rewrite !port_count_mid by (rewrite ?fmap_app in *; done). simpl.
      case_decide; lia.
  - split; [done|]. intros q. case_decide; [subst|done].
    rewrite port_count_absent; [done|]. by apply pl_get_None.
Qed.

(** How often a name occurs. *)
Fixpoint occ (port : string) (l : list string) : Z :=
  match l with [] => 0 | x :: l => (if decide (x = port) then 1 else 0) + occ port l end.

Lemma occ_nonneg port l : 0 <= occ port l.
Proof. induction l as [|x l IH]; simpl; [lia|]. case_decide; lia. Qed.

Lemma mark_ports_spec ps l : Forall (fun p => (String.length p <= 63)%nat) ps -> plist_wf l ->
  plist_wf (foldl mark_port l ps)
  /\ forall q, port_count (foldl mark_port l ps) q = port_count l q + occ q ps.
Proof.
  revert l. induction ps as [|p ps IH]; intros l Hps Hl; simpl; [split; [done|intros; lia]|].
  apply Forall_cons in Hps as [Hp Hps]. destruct (mark_port_spec l p Hp Hl) as [H1 H2].
  destruct (IH _ Hps H1) as [H3 H4]. split; [done|].
  intros q. rewrite H4, H2. lia.
Qed.

Lemma rm_ports_spec ps l : plist_wf l -> (forall q, occ q ps <= port_count l q) ->
  plist_wf (foldl rm_port l ps)
  /\ forall q, port_count (foldl rm_port l ps) q = port_count l q - occ q ps.
Proof.
  revert l. induction ps as [|p ps IH]; intros l Hl Hle; simpl; [split; [done|intros; lia]|].
  destruct (rm_port_spec l p Hl) as [H1 H2].
  destruct (IH _ H1) as [H3 H4].
  { intros q. rewrite H2. specialize (Hle q). simpl in Hle. case_decide; lia. }
  split; [done|]. intros q. rewrite H4, H2. specialize (Hle q). simpl in Hle.
  pose proof (occ_nonneg q ps). case_decide; lia.
Qed.

(** A plugin uses its ports from its launch until it is cleaned. *)
Definition active (x : Z) : bool := (x =? RUNNING) || (x =? DONE).

Definition used_by (s : sched) (port : string) (p : nat) : Z :=
  if active (plugin_get_running_state s p) then occ port (plugin_ports s p) else 0.

Fixpoint sum_upto (f : nat -> Z) (n : nat) : Z :=
  match n with O => 0 | S n' => sum_upto f n' + f n' end.

Lemma sum_upto_ext f g n : (forall p, (p < n)%nat -> f p = g p) -> sum_upto f n = sum_upto g n.
Proof. induction n as [|n IH]; intros H; simpl; [done|]. rewrite IH, H by auto. done. Qed.

Lemma sum_upto_change f g n p : (p < n)%nat -> (forall q, q <> p -> f q = g q) ->
  sum_upto g n = sum_upto f n - f p + g p.
Proof.
  intros Hp H. induction n as [|n IH]; [lia|]. simpl. destruct (decide (p = n)) as [->|].
  - rewrite (sum_upto_ext g f n); [lia|]. intros q Hq. symmetry. apply H. lia.
  - rewrite IH by lia. rewrite (H n) by done. lia.
Qed.

Lemma sum_upto_le f n p : (p < n)%nat -> (forall q, 0 <= f q) -> f p <= sum_upto f n.
Proof.
  intros Hp H. induction n as [|n IH]; [lia|]. simpl. assert (0 <= sum_upto f n) as H0.
  { clear IH Hp. induction n; simpl; [lia|]. specialize (H n). lia. }
  destruct (decide (p = n)) as [->|]; [lia|]. specialize (IH ltac:(lia)). specialize (H n). lia.
Qed.

Lemma sum_upto_mono f g n : (forall q, f q <= g q) -> sum_upto f n <= sum_upto g n.
Proof. intros H. induction n as [|n IH]; simpl; [lia|]. specialize (H n). lia. Qed.

Lemma sum_upto_less f g n p : (p < n)%nat -> (forall q, f q <= g q) -> f p < g p ->
  sum_upto f n < sum_upto g n.
Proof.
  intros Hp H Hlt. induction n as [|n IH]; [lia|]. simpl. destruct (decide (p = n)) as [->|].
  - pose proof (sum_upto_mono f g n H). lia.
  - specialize (IH ltac:(lia)). specialize (H n). lia.
Qed.

(** The table of ports in use counts exactly the ports of the active plugins. *)
Definition ports_exact (s : sched) : Prop :=
  plist_wf (s_plist s) /\
  forall port, port_count (s_plist s) port = sum_upto (used_by s port) (length (s_nodes s)).

(** The names of ports fit the table, and only known plugins have a state. *)
Definition ports_fit (s : sched) : Prop :=
  (forall p, Forall (fun x => (String.length x <= 63)%nat) (plugin_ports s p))
  /\ forall p, active (plugin_get_running_state s p) = true -> (p < length (s_nodes s))%nat.

Lemma used_by_nonneg s port p : 0 <= used_by s port p.
Proof. unfold used_by. destruct (active _); [apply occ_nonneg|lia]. Qed.

Lemma ports_exact_clean s p : plugin_get_running_state s p = DONE -> ports_fit s ->
  ports_exact s -> ports_exact (clean s p).
Proof.
  intros Hp [Hfit Hact] [Hwf Hc].
  assert (p < length (s_nodes s))%nat as Hlt by (apply Hact; by rewrite Hp).
  assert (forall q, used_by s q p = occ q (plugin_ports s p)) as Hu.
  { intros q. unfold used_by. by rewrite Hp. }
  destruct (rm_ports_spec (plugin_ports s p) (s_plist s) Hwf) as [H1 H2].
  { intros q. rewrite Hc, <- Hu. apply sum_upto_le; [done|]. intros. apply used_by_nonneg. }
  split; [done|]. intros port. etrans; [apply H2|]. rewrite Hc.
  change (s_nodes (clean s p)) with (s_nodes s).
  rewrite (sum_upto_change (used_by s port) (used_by (clean s p) port) _ p Hlt).
  - rewrite Hu. unfold used_by. rewrite state_clean, decide_True by done. simpl. lia.
  - intros q Hq. unfold used_by. rewrite state_clean, decide_False by done. done.
Qed.

Lemma ports_exact_launch s p : plugin_get_running_state s p = UNRUN -> ports_fit s ->
  (p < length (s_nodes s))%nat -> ports_exact s -> ports_exact (launch_now s p).
Proof.
  intros Hp [Hfit _] Hlt [Hwf Hc].
  destruct (mark_ports_spec (plugin_ports s p) (s_plist s) (Hfit p) Hwf) as [H1 H2].
  split; [done|]. intros port. etrans; [apply H2|]. rewrite Hc.
  change (s_nodes (launch_now s p)) with (s_nodes s).
  rewrite (sum_upto_change (used_by s port) (used_by (launch_now s p) port) _ p Hlt).
  - unfold used_by. rewrite Hp. simpl.
    unfold plugin_get_running_state, launch_now, plugin_set_running_state. simpl.
    rewrite state_of_insert, decide_True by done. simpl. unfold plugin_ports. simpl. lia.
  - intros q Hq. unfold used_by, plugin_get_running_state, launch_now, plugin_set_running_state.
    simpl. rewrite state_of_insert, decide_False by done. done.
Qed.

Lemma ports_exact_active s s' : same_graph s s' -> s_plist s' = s_plist s ->
  (forall p, active (plugin_get_running_state s' p) = active (plugin_get_running_state s p)) ->
  ports_exact s -> ports_exact s'.
Proof.
  intros Hg Hp Ha [Hwf Hc]. split; [by rewrite Hp|]. intros port. rewrite Hp, Hc.
  pose proof Hg as (_ & _ & ->). apply sum_upto_ext. intros p _. unfold used_by.
  by rewrite Ha, (same_graph_ports _ _ p Hg).
Qed.

Lemma ports_fit_step s s' : pre_step s s' -> ports_fit s -> ports_fit s'.
Proof.
  intros Hst [H1 H2]. pose proof (pre_step_ok _ _ Hst) as (Hg & Ha & _). split.
  - intros p. by rewrite (same_graph_ports _ _ p Hg).
  - intros p Hp. pose proof Hg as (_ & _ & ->). apply H2. specialize (Ha p).
    unfold active, advances in *. unfold_status. lia.
Qed.

Lemma ports_fit_pre s s' : rtc pre_step s s' -> ports_fit s -> ports_fit s'.
Proof. induction 1; eauto using ports_fit_step. Qed.

Lemma ports_pre s s' : rtc pre_step s s' -> ports_fit s -> ports_exact s ->
  ports_fit s' /\ ports_exact s'.
Proof.
  intros H. induction H as [|s s1 s2 Hst _ IH]; [done|]. intros Hfit Hex.
  apply IH; [by eapply ports_fit_step|]. destruct Hst as [s'' [p Hp]|c l ??|st [Hfin _]].
  - by apply ports_exact_clean.
  - apply (ports_exact_active s); done.
  - apply (ports_exact_active s); [done|done| |exact Hex]. intros p. specialize (Hfin p).
    unfold active, plugin_get_running_state. simpl. unfold_status. lia.
Qed.

(** ** Well-formed schedulers and traces *)

(** Lists and dependencies name known plugins, which have one of the states. *)
Record sched_wf (s : sched) : Prop := {
  wf_states p : (p < length (s_nodes s))%nat ->
    UNRUN <= plugin_get_running_state s p <= CLEANED;
  wf_lists c q : q ∈ get_list s c -> (q < length (s_nodes s))%nat;
  wf_deps p q : dep s p q -> (q < length (s_nodes s))%nat }.

Lemma sched_wf_listed s : sched_wf s -> listed_valid s.
Proof. intros [H1 H2 _] c q Hq. by eapply H1, H2. Qed.

Lemma sched_wf_change s s' : same_graph s s' ->
  (forall c q, q ∈ get_list s' c -> q ∈ get_list s c) ->
  (forall p, UNRUN <= plugin_get_running_state s p <= CLEANED ->
     UNRUN <= plugin_get_running_state s' p <= CLEANED) ->
  sched_wf s -> sched_wf s'.
Proof.
  intros Hg Hl Hs [H1 H2 H3]. pose proof Hg as (_ & _ & Hn).
  split; rewrite Hn; eauto. intros p q (d & Hd & Hq).
  rewrite (same_graph_deps _ _ _ Hg) in Hd. apply (H3 p). by exists d.
Qed.

Lemma sched_wf_pre s s' : rtc pre_step s s' -> sched_wf s -> sched_wf s'.
Proof.
  intros H. destruct (pre_steps_ok _ _ H) as (Hg & Ha & Hl & _). apply sched_wf_change; [done| |].
  - intros c q Hq. by eapply elem_of_sublist.
  - intros p Hp. specialize (Ha p). unfold advances in Ha. unfold_status. lia.
Qed.

Lemma state_launch s p q :
  plugin_get_running_state (launch_now s p) q
  = if decide (p = q) then RUNNING else plugin_get_running_state s q.
Proof. apply state_of_insert. Qed.

Lemma sched_wf_launch s p : sched_wf s -> sched_wf (launch_now s p).
Proof.
  apply sched_wf_change; [done|done|]. intros q Hq. rewrite state_launch.
  case_decide; [unfold_status; lia|done].
Qed.

Lemma chosen_known l s p : sched_wf s -> (forall q, q ∈ l -> (q < length (s_nodes s))%nat) ->
  chosen_ok l s p -> (p < length (s_nodes s))%nat.
Proof.
  intros [_ _ Hd] Hl (_ & _ & x & Hx & Hr). specialize (Hl x Hx). clear Hx.
  induction Hr as [|x y z Hxy _ IH]; [done|]. apply IH. by eapply Hd.
Qed.

(** All dependencies of a plugin that can run are done and cleaned. *)
Lemma deps_cleaned s p q : sched_wf s -> deps_settled s p -> dep s p q ->
  plugin_get_running_state s q = CLEANED.
Proof.
  intros Hwf Hs Hd. pose proof (wf_states _ Hwf q (wf_deps _ Hwf p q Hd)) as Hr.
  destruct Hd as (d & Hd & Hq). unfold deps_settled in Hs. rewrite Hd in Hs. simpl in Hs.
  rewrite Forall_forall in Hs. specialize (Hs q Hq). unfold settled in Hs. unfold_status. lia.
Qed.

Section Traces.
Context {PM : Type} `{!ProcessManager PM} {pm_ok : PM -> states -> Prop}
  `{Laws : !ProcessManagerLaws PM pm_ok}.

Definition launched (r : sched_result) : list nat := match r with PPlugin p => [p] | _ => [] end.

(** A scan: calls of the scheduler, and between them plugins that finish or are put
    back because their fork failed.  [ps] holds the plugins the scheduler gave out,
    in order, [us] those put back: such a plugin may run all the same, when the
    fork is tried again, so it may finish whatever its state. *)
Inductive sys_trace (s0 : sched) : list nat -> list nat -> sched -> Prop :=
| tr_start : sys_trace s0 [] [] s0
| tr_next ps us fuel s pm r s' pm' :
    sys_trace s0 ps us s -> pm_ok pm (s_states s) ->
    plugins_scheduler_next fuel (Some s) pm = Ret (r, Some s', pm') ->
    sys_trace s0 (ps ++ launched r) us s'
| tr_finish ps us s st :
    sys_trace s0 ps us s ->
    (forall p, state_of st p = plugin_get_running_state s p
       \/ (plugin_get_running_state s p = RUNNING \/ p ∈ us) /\ state_of st p = DONE) ->
    sys_trace s0 ps us (set_states st s)
| tr_unrun ps us s p :
    sys_trace s0 ps us s -> p ∈ ps -> plugin_get_running_state s p = RUNNING \/ p ∈ us ->
    sys_trace s0 ps (p :: us) (plugin_set_running_state s p UNRUN).

Record trace_inv (s0 : sched) (ps us : list nat) (s : sched) : Prop := {
  ti_wf : sched_wf s;
  ti_graph : same_graph s0 s;
  ti_fit : ports_fit s;
  ti_exact : us = [] -> ports_exact s;
  ti_put_back p : p ∈ us -> p ∈ ps /\ (p < length (s_nodes s))%nat;
  ti_nodup : NoDup (filter (fun p => p ∉ us) ps);
  ti_unrun p : p ∈ ps -> plugin_get_running_state s0 p = UNRUN
                         /\ (p ∉ us -> plugin_get_running_state s p <> UNRUN);
  ti_old p : p ∉ ps -> plugin_get_running_state s p = plugin_get_running_state s0 p
                       \/ plugin_get_running_state s p <> UNRUN /\ plugin_get_running_state s0 p <> UNRUN;
  ti_order ps1 p ps2 d : ps = ps1 ++ p :: ps2 -> dep s0 p d ->
    plugin_get_running_state s0 d = UNRUN -> d ∈ ps1;
  ti_lists c q : q ∈ get_list s0 c -> q ∉ us -> q ∈ get_list s c \/ plugin_get_running_state s q = CLEANED }.

(** The states advance, but for plugins that were put back. *)
Lemma trace_inv_advance s0 ps us s s' :
  trace_inv s0 ps us s -> same_graph s s' -> sched_wf s' -> ports_fit s' -> (us = [] -> ports_exact s') ->
  (forall p, p ∈ us \/ advances (plugin_get_running_state s p) (plugin_get_running_state s' p)) ->
  (forall c q, q ∈ get_list s c -> q ∈ get_list s' c \/ plugin_get_running_state s' q = CLEANED) ->
  trace_inv s0 ps us s'.
Proof.
  intros [Hwf Hg Hfit Hex Hu Hnd Hst Hold Hord Hli] Hg' Hwf' Hfit' Hex' Ha Hl'. split; auto.
  - by eapply same_graph_trans.
  - intros p Hp. destruct (Hu p Hp) as [? ?]. split; [done|]. by destruct Hg' as (_ & _ & ->).
  - intros p Hp. destruct (Hst p Hp) as [H0 H1]. split; [done|]. intros Hn. specialize (H1 Hn).
    destruct (Ha p) as [?|Hp']; [done|]. unfold advances in Hp'. unfold_status. lia.
  - intros p Hp. destruct (Ha p) as [?|Ha']; [by destruct (Hu p)|]. specialize (Hold p Hp).
    unfold advances in Ha'. unfold_status. intuition lia.
  - intros c q Hq Hn. destruct (Hli c q Hq Hn) as [H|H]; [auto|]. right.
    destruct (Ha q) as [?|Ha']; [done|]. rewrite H in Ha'. by apply advances_cleaned.
Qed.

Lemma nodup_snoc_split {A} (l : list A) x l1 y l2 :
  l ++ [x] = l1 ++ y :: l2 -> l1 = l /\ y = x /\ l2 = [] \/ exists l2', l = l1 ++ y :: l2'.
Proof.
  intros H. destruct l2 as [|z l2 _] using rev_ind.
  - apply app_inj_tail in H as [-> ->]. auto.
  - right. exists l2. rewrite app_comm_cons, app_assoc in H. by apply app_inj_tail in H as [-> _].
Qed.

Lemma trace_inv_launch s0 ps us s l p :
  trace_inv s0 ps us s -> chosen_ok l s p -> (forall q, q ∈ l -> (q < length (s_nodes s))%nat) ->
  trace_inv s0 (ps ++ [p]) us (launch_now s p).
Proof.
  intros [Hwf Hg Hfit Hex Hu Hnd Hst Hold Hord Hli] Hch Hl.
  pose proof (chosen_known _ _ _ Hwf Hl Hch) as Hlt. destruct Hch as (Hun & Hset & _).
  assert (plugin_get_running_state s0 p = UNRUN /\ (p ∈ ps -> p ∈ us)) as [H0 Hnew].
  { destruct (decide (p ∈ ps)) as [Hp|Hp].
    - destruct (Hst p Hp) as [? H1]. split; [done|]. intros _. destruct (decide (p ∈ us)); [done|].
      by destruct H1.
    - split; [|done]. destruct (Hold p Hp) as [<-|[H _]]; [done|by destruct H]. }
  split.
  - by apply sched_wf_launch.
  - eapply same_graph_trans; [exact Hg|done].
  - destruct Hfit as [H1 H2]. split; [done|]. intros q. rewrite state_launch.
    case_decide; [by subst|apply H2].
  - intros E. apply ports_exact_launch; auto.
  - intros q Hq. destruct (Hu q Hq). split; [set_solver|done].
  - rewrite filter_app. apply NoDup_app. split; [done|]. split.
    + intros q [Hq1 Hq2]%list_elem_of_filter [_ ->%list_elem_of_singleton]%list_elem_of_filter.
      by apply Hq1, Hnew.
    + destruct (decide (p ∉ us)); [rewrite filter_cons_True, filter_nil by done|
        rewrite filter_cons_False, filter_nil by done]; constructor; [set_solver|constructor].
  - intros q. rewrite state_launch, elem_of_app, list_elem_of_singleton. case_decide as Hpq.
    + subst q. intros _. split; [done|]. intros _. by unfold_status.
    + intros [Hq|Hq]; [by apply Hst|congruence].
  - intros q. rewrite elem_of_app, list_elem_of_singleton, state_launch. intros Hq.
    case_decide; [subst; tauto|]. apply Hold. tauto.
  - intros ps1 x ps2 d He Hd Hd0.
    apply nodup_snoc_split in He as [(-> & -> & _)|(ps2' & ->)]; [|by eapply Hord].
    assert (plugin_get_running_state s d = CLEANED) as Hc.
    { apply (deps_cleaned s p); [done|done|]. destruct Hd as (y & Hy & Hdy). exists y.
      by rewrite (same_graph_deps _ _ _ Hg). }
    destruct (decide (d ∈ ps)) as [?|Hn]; [done|]. destruct (Hold d Hn) as [He|[_ ?]]; [|done].
    unfold_status. congruence.
  - intros c q Hq Hn. rewrite state_launch. case_decide; [subst|by apply Hli].
    destruct (Hli c q Hq Hn) as [H|H]; [by left|]. unfold_status. congruence.
Qed.

Lemma nodup_filter_mono (P Q : nat -> Prop) `{!forall x, Decision (P x), !forall x, Decision (Q x)} l :
  (forall x, Q x -> P x) -> NoDup (filter P l) -> NoDup (filter Q l).
Proof.
  intros HQP. induction l as [|x l IH]; [done|]. rewrite !filter_cons.
  repeat case_decide; rewrite ?NoDup_cons, ?list_elem_of_filter; naive_solver.
Qed.

Lemma state_unrun s p q :
  plugin_get_running_state (plugin_set_running_state s p UNRUN) q
  = if decide (p = q) then UNRUN else plugin_get_running_state s q.
Proof. apply state_of_insert. Qed.

Lemma trace_inv_unrun s0 ps us s p :
  trace_inv s0 ps us s -> p ∈ ps -> plugin_get_running_state s p = RUNNING \/ p ∈ us ->
  trace_inv s0 ps (p :: us) (plugin_set_running_state s p UNRUN).
Proof.
  intros [Hwf Hg Hfit Hex Hu Hnd Hst Hold Hord Hli] Hp Hr.
  assert ((p < length (s_nodes s))%nat) as Hlt.
  { destruct Hr as [Hr|Hr]; [apply (proj2 Hfit); by rewrite Hr|by apply Hu]. }
  split; auto.
  - apply (sched_wf_change s); [done|done| |done]. intros q. rewrite state_unrun.
    case_decide; [unfold_status; lia|done].
  - destruct Hfit as [H1 H2]. split; [done|]. intros q. rewrite state_unrun. case_decide; [done|apply H2].
  - done.
  - intros q [->|Hq]%elem_of_cons; [done|]. by apply Hu.
  - eapply nodup_filter_mono; [|exact Hnd]. set_solver.
  - intros q Hq. destruct (Hst q Hq) as [H0 H1]. split; [done|]. rewrite state_unrun.
    intros [Hn Hn']%not_elem_of_cons. rewrite decide_False by done. auto.
  - intros q Hq. rewrite state_unrun, decide_False by congruence. auto.
  - intros c q Hq [Hn Hn']%not_elem_of_cons. rewrite state_unrun, decide_False by done. by apply Hli.
Qed.

Lemma trace_start s : sched_wf s -> ports_fit s -> ports_exact s -> trace_inv s [] [] s.
Proof.
  intros. split; auto; try (intros; set_solver); [constructor|]. intros [|] ????; done.
Qed.

Lemma trace_ok s0 ps us s :
  sched_wf s0 -> ports_fit s0 -> ports_exact s0 -> sys_trace s0 ps us s -> trace_inv s0 ps us s.
Proof.
  intros Hwf Hfit Hex H.
  induction H as [|ps us fuel s pm r s' pm' _ IH Hpm E|ps us s st _ IH Hst|ps us s p _ IH Hp Hr].
  - by apply trace_start.
  - destruct (scheduler_next_ok _ _ _ _ _ _ Hpm (sched_wf_listed _ (ti_wf _ _ _ _ IH)) E)
      as (s1 & Hpre & _ & Hr).
    destruct (pre_steps_ok _ _ Hpre) as (Hg & Ha & Hl & Hd).
    pose proof (ports_fit_pre _ _ Hpre (ti_fit _ _ _ _ IH)) as Hf1.
    assert (us = [] -> ports_exact s1) as Hx1.
    { intros Eu. apply (ports_pre _ _ Hpre (ti_fit _ _ _ _ IH) (ti_exact _ _ _ _ IH Eu)). }
    pose proof (sched_wf_pre _ _ Hpre (ti_wf _ _ _ _ IH)) as Hwf1.
    pose proof (trace_inv_advance _ _ _ _ _ IH Hg Hwf1 Hf1 Hx1 (fun p => or_intror (Ha p)) Hd) as Hi1.
    destruct r as [| |p]; simpl; rewrite ?app_nil_r; [by destruct Hr as [-> _]..|].
    destruct Hr as (-> & c & Hch & _). eapply trace_inv_launch; [exact Hi1|exact Hch|].
    intros q Hq. pose proof Hg as (_ & _ & ->). by eapply (wf_lists _ (ti_wf _ _ _ _ IH)).
  - assert (forall p, p ∈ us \/ advances (plugin_get_running_state s p)
                        (plugin_get_running_state (set_states st s) p)) as Ha.
    { intros p. specialize (Hst p). unfold advances, plugin_get_running_state in *. simpl. tauto. }
    eapply trace_inv_advance; [exact IH|done| | | |exact Ha|by auto].
    + apply (sched_wf_change s); [done|done| |exact (ti_wf _ _ _ _ IH)]. intros p Hp.
      specialize (Hst p). unfold plugin_get_running_state in *. simpl in *. unfold_status. lia.
    + destruct (ti_fit _ _ _ _ IH) as [H1 H2]. split; [done|]. intros p Hp.
      destruct (decide (p ∈ us)) as [Hu|Hu]; [by apply (ti_put_back _ _ _ _ IH)|]. apply H2.
      specialize (Hst p). unfold active, plugin_get_running_state in *. simpl in *.
      destruct Hst as [<-|[[Hr|?] _]]; [done|by rewrite Hr|done].
    + intros ->. apply (ports_exact_active s); [done|done| |by apply (ti_exact _ _ _ _ IH)]. intros p.
      specialize (Hst p). unfold active, plugin_get_running_state in *. simpl.
      destruct Hst as [->|[[Hr|?] ->]]; [done|by rewrite Hr|set_solver].
  - by apply trace_inv_unrun.
Qed.

(** Without failed forks no plugin is given out twice. *)
Lemma trace_nodup s0 ps s : trace_inv s0 ps [] s -> NoDup ps.
Proof.
  intros H. pose proof (ti_nodup _ _ _ _ H) as Hn.
  replace (filter (fun p => p ∉ []) ps) with ps in Hn; [done|].
  clear. induction ps as [|p ps IH]; [done|]. rewrite filter_cons_True by set_solver. by f_equal.
Qed.

End Traces.

(** ** Termination *)

Section Ranked.
Context (rank : nat -> nat).

(** The dependencies are acyclic: they have a smaller rank. *)
Definition ranked (s : sched) : Prop := forall p q, dep s p q -> (rank q < rank p)%nat.

Lemma ranked_graph s s' : same_graph s s' -> ranked s -> ranked s'.
Proof.
  intros Hg H p q (d & Hd & Hq). apply H. exists d. by rewrite <- (same_graph_deps _ _ _ Hg).
Qed.

Lemma dep_loop_returns n l flag s :
  (forall s d, ranked s -> (0 < n)%nat -> (forall x, x ∈ d -> (S (rank x) < n)%nat) ->
     exists r s', plugin_next_unrun_dependencie n s (Some d) = Ret (r, s')) ->
  ranked s -> (forall x, x ∈ l -> (rank x < n)%nat) ->
  exists r s', dep_loop (fun s d => plugin_next_unrun_dependencie n s (Some d)) l flag s = Ret (r, s').
Proof.
  intros Hrec. revert flag s. induction l as [|p l IH]; intros flag s Hr Hl; simpl; [eauto|].
  assert (forall flag s1, same_graph s s1 ->
    exists r s', dep_loop (fun s d => plugin_next_unrun_dependencie n s (Some d)) l flag s1
                 = Ret (r, s')) as Hnext.
  { intros flag' s1 Hg. apply IH; [by eapply ranked_graph|]. set_solver. }
  destruct (_ =? UNRUN).
  { destruct (deps_ptr s p) as [d|] eqn:Ed; [|eauto].
    destruct (Hrec s d Hr) as (r1 & s1 & E).
    - specialize (Hl p). destruct n; [|lia]. specialize (Hl ltac:(set_solver)). lia.
    - intros x Hx. specialize (Hl p ltac:(set_solver)).
      assert (rank x < rank p)%nat by (apply Hr; by exists d). lia.
    - rewrite E. destruct (unrun_dependencie_ok _ _ _ _ _ E) as [Hc _].
      destruct (cleans_frame _ _ Hc) as (Hg & _). destruct r1; [eauto|by apply Hnext|eauto]. }
  destruct (_ =? RUNNING); [by apply Hnext|]. destruct (_ =? DONE); by apply Hnext.
Qed.

Lemma unrun_returns n s d : ranked s -> (0 < n)%nat -> (forall x, x ∈ d -> (S (rank x) < n)%nat) ->
  exists r s', plugin_next_unrun_dependencie n s (Some d) = Ret (r, s').
Proof.
  revert s d. induction n as [|n IH]; intros s d Hr Hn Hd; [lia|]. simpl.
  apply dep_loop_returns; [exact IH|done|]. intros x Hx. specialize (Hd x Hx). lia.
Qed.

Lemma scan_returns n l rc flag s : ranked s -> (0 < n)%nat -> (forall x, x ∈ l -> (rank x < n)%nat) ->
  exists out, scan n l rc flag s = Ret out.
Proof.
  intros Hr Hn. revert rc flag s Hr. induction l as [|p l IH]; intros rc flag s Hr Hl; simpl; [eauto|].
  assert (forall rc flag s1, same_graph s s1 -> exists out, scan n l rc flag s1 = Ret out) as Hnext.
  { intros rc' flag' s1 Hg. apply IH; [by eapply ranked_graph|]. set_solver. }
  assert (forall rc flag s1, same_graph s s1 -> exists out,
    match scan n l rc flag s1 with
    | Ret (res, kept, s) => Ret (res, p :: kept, s)
    | NoReturn => NoReturn | Undef => Undef end = Ret out) as Hkeep.
  { intros rc' flag' s1 Hg. destruct (Hnext rc' flag' s1 Hg) as [[[??]?] ->]. eauto. }
  destruct (_ =? UNRUN).
  { destruct (deps_ptr s p) as [d|] eqn:Ed; [|eauto].
    destruct (unrun_returns n s d Hr Hn) as (r1 & s1 & E).
    - intros x Hx. specialize (Hl p ltac:(set_solver)).
      assert (rank x < rank p)%nat by (apply Hr; by exists d). lia.
    - rewrite E. destruct (unrun_dependencie_ok _ _ _ _ _ E) as [Hc _].
      destruct (cleans_frame _ _ Hc) as (Hg & _). destruct r1; [eauto|by apply Hkeep|eauto]. }
  destruct (_ =? RUNNING); [by apply Hkeep|]. destruct (_ =? DONE); [by apply Hnext|].
  destruct (_ =? CLEANED); [by apply Hnext|by apply Hkeep].
Qed.

(** The plugins that run. *)
Definition running_set (st : states) : gset nat := dom (filter (fun kv => kv.2 = RUNNING) st).

Lemma elem_of_running_set st p : p ∈ running_set st <-> state_of st p = RUNNING.
Proof.
  unfold running_set. rewrite elem_of_dom. unfold is_Some, state_of.
  setoid_rewrite map_lookup_filter_Some. destruct (st !! p) as [x|]; simpl.
  - split; [intros (y & [= ->] & H); done|]. intros ->. eauto.
  - split; [by intros (y & H & _)|]. unfold_status. lia.
Qed.

Lemma some_finished_less st st' : some_finished st st' ->
  (size (running_set st') < size (running_set st))%nat.
Proof.
  intros [H (p & Hp & Hp')]. apply subset_size. split.
  - intros q. rewrite !elem_of_running_set. specialize (H q). unfold_status. lia.
  - intros Hsub. assert (p ∈ running_set st') as Hin.
    { apply Hsub. by apply elem_of_running_set. }
    rewrite elem_of_running_set in Hin. unfold_status. congruence.
Qed.

Lemma cleans_running_set s s' : rtc clean_step s s' ->
  running_set (s_states s') = running_set (s_states s).
Proof.
  intros H. apply set_eq. intros p. rewrite !elem_of_running_set. by apply cleans_running.
Qed.

Context {PM : Type} `{!ProcessManager PM} {pm_ok : PM -> states -> Prop}
  `{Laws : !ProcessManagerLaws PM pm_ok} `{Live : !ProcessManagerLive PM pm_ok}.

Lemma next_loop_returns fuel R c rc flag s pm :
  ranked s -> (forall c p, p ∈ get_list s c -> (rank p < R)%nat) ->
  pm_ok pm (s_states s) -> (flag = true -> exists q, plugin_get_running_state s q = RUNNING) ->
  (R + Z.to_nat (ACT_LAST + 1 - c) + size (running_set (s_states s)) < fuel)%nat ->
  exists out, next_loop fuel c rc flag s pm = Ret out.
Proof.
  revert c rc flag s pm.
  induction fuel as [|n IH]; intros c rc flag s pm Hr HR Hpm Hflag Hf; [lia|].
  simpl. destruct (c <=? ACT_LAST) eqn:Ec; [|eauto].
  destruct (scan_returns n (get_list s c) rc flag s Hr) as [[[res kept] s1] E];
    [lia|intros x Hx; specialize (HR c x Hx); lia|].
  rewrite E. destruct res as [p|rc' flag']; [eauto|].
  destruct (scan_spec _ _ _ _ _ _ Hflag E) as (s1' & H1 & Hk & _ & -> & Hrun & _).
  destruct (cleans_frame _ _ H1) as (Hg & Hl & _).
  pose proof (cleans_running_set _ _ H1) as Hrs.
  pose proof (pm_cleans _ _ _ H1 (set_parallel_ok c _ _ Hpm)) as Hpm2.
  assert (forall c' p, p ∈ get_list (set_list c kept s1') c' -> (rank p < R)%nat) as HR'.
  { intros c' p. rewrite get_list_set. case_decide; [subst|].
    - intros Hp. by eapply (HR c'), elem_of_sublist.
    - unfold get_list. rewrite Hl. apply HR. }
  assert (ranked (set_list c kept s1')) as Hr' by (by eapply ranked_graph).
  destruct (phase_barrier c && flag') eqn:Eb.
  - destruct (Hrun ltac:(by destruct flag'; [|rewrite andb_false_r in Eb])) as [q Hq].
    pose proof (pm_wait_returns _ _ q Hpm2 Hq) as Hw. simpl.
    pose proof (pm_wait_ok _ (s_states s1') Hpm2) as Hok.
    destruct (pluginlaunch_wait_for_free_process _ (s_states s1')) as [[pm3 st]| |]; [|done|done].
    destruct Hok as [Hpm3 Hfin]. apply IH; [done|done|done|done|]. simpl.
    pose proof (some_finished_less _ _ Hfin). rewrite Hrs in *. lia.
  - destruct ((ACT_DENIAL <=? _) && _ && _); [eauto|].
    apply IH; [done|done|done|done|]. simpl. rewrite Hrs. lia.
Qed.

End Ranked.

(** ** Dependency cycles *)

(** Plugins that were not run, each with a first dependency of the set. *)
Definition unrun_cycle (s : sched) (C : gset nat) : Prop :=
  forall p, p ∈ C -> plugin_get_running_state s p = UNRUN
    /\ exists q l, deps_ptr s p = Some (q :: l) /\ q ∈ C.

Lemma cycle_diverges fuel s C q l : unrun_cycle s C -> q ∈ C ->
  plugin_next_unrun_dependencie fuel s (Some (q :: l)) = NoReturn.
Proof.
  intros H. revert q l. induction fuel as [|n IH]; intros q l Hq; [done|].
  destruct (H q Hq) as (Hun & q' & l' & Hd & Hq'). simpl. by rewrite Hun, Hd, IH.
Qed.

(** ** Construction *)

Section InitSpec.
Context `{G : Glib} (nvticache_get_by_oid : string -> option nvti)
  (g_path_get_dirname : string -> string) (g_build_filename : string -> string -> string).

(** Every name in a list or in the table is one of a node made so far. *)
Record building (n : nat) (s : sched) : Prop := {
  b_nodes : length (s_nodes s) = n;
  b_states p : plugin_get_running_state s p = (if decide (p < n)%nat then UNRUN else 0);
  b_lists c q : q ∈ get_list s c -> (q < n)%nat;
  b_hash h q : q ∈ default [] (s_hash s !! h) -> (q < n)%nat;
  b_deps p d q : deps_ptr s p = Some d -> q ∈ d -> (q < n)%nat;
  b_plist : s_plist s = [] }.

Lemma building_start args : building 0 (mk_sched args [] [] ∅ ∅ [] ∅).
Proof.
  split; try done; intros c q Hq; unfold get_list in *; simpl in Hq;
    rewrite lookup_empty in Hq; set_solver.
Qed.

Lemma add_plugin_building n s a s' :
  building n s -> add_plugin nvticache_get_by_oid s n a = Ret s' -> building (S n) s'.
Proof.
  intros [Hn Hs Hl Hh Hd Hp]. unfold add_plugin. destruct (arg_oid a) as [oid|]; [|done].
  destruct (nvticache_get_by_oid oid) as [nvt|]; [|done].
  set (cat := if ACT_LAST <? nvti_category nvt then ACT_LAST else nvti_category nvt).
  destruct (cat <? 0); [done|]. intros [= <-]. split; simpl.
  - rewrite length_app. simpl. lia.
  - intros p. unfold plugin_get_running_state in *. simpl. rewrite state_of_insert, Hs.
    repeat case_decide; lia || done.
  - intros c q. unfold hash_add, get_list. simpl. intros Hq.
    destruct (decide (cat = c)) as [->|].
    + rewrite lookup_insert_eq in Hq. simpl in Hq. apply elem_of_cons in Hq as [->|Hq]; [lia|].
      specialize (Hl c q Hq). lia.
    + rewrite lookup_insert_ne in Hq by done. specialize (Hl c q Hq). lia.
  - intros h q Hq. destruct (decide (mkhash (arg_name a) = h)) as [<-|].
    + rewrite lookup_insert_eq in Hq. simpl in Hq. apply elem_of_cons in Hq as [->|Hq]; [lia|].
      specialize (Hh _ _ Hq). lia.
    + rewrite lookup_insert_ne in Hq by done. specialize (Hh _ _ Hq). lia.
  - intros p d q. unfold deps_ptr. simpl. intros Hp' Hq.
    destruct (decide (p < length (s_nodes s))%nat).
    + rewrite lookup_app_l in Hp' by done. specialize (Hd p d q Hp' Hq). lia.
    + rewrite lookup_app_r in Hp' by lia. by destruct (p - _)%nat as [|[|]].
  - done.
Qed.

Lemma add_plugins_building args n s s' :
  building n s -> add_plugins nvticache_get_by_oid s n args = Ret s' ->
  building (n + length args) s'.
Proof.
  revert n s. induction args as [|a args IH]; intros n s Hb; simpl.
  { intros [= <-]. by rewrite Nat.add_0_r. }
  destruct (add_plugin _ s n a) as [s1| |] eqn:E; [|done..]. intros E'.
  rewrite <- Nat.add_succ_comm. eapply IH; [|exact E']. by eapply add_plugin_building.
Qed.

Lemma hash_get_known n s name i : building n s -> hash_get s name = Some i -> (i < n)%nat.
Proof.
  intros Hb. unfold hash_get. destruct (break_at _ _) as [[[a x] b]|] eqn:E; [|done].
  intros [= <-]. apply break_at_Some in E as (E & _ & _).
  apply (b_hash _ _ Hb (mkhash name)). rewrite E. set_solver.
Qed.

Lemma find_dep_known n s name d i : building n s ->
  find_dep g_path_get_dirname g_build_filename s name d = Some i -> (i < n)%nat.
Proof.
  intros Hb. unfold find_dep. destruct (hash_get s d) as [j|] eqn:E.
  - intros [= <-]. by eapply hash_get_known.
  - destruct (CStr.strcaseeq _ _); [done|]. by apply hash_get_known.
Qed.

Lemma fill_deps_building n s i : building n s ->
  building n (hash_fill_deps g_path_get_dirname g_build_filename s i).
Proof.
  intros Hb. unfold hash_fill_deps. destruct (s_nodes s !! i) as [l|] eqn:E; [|done].
  destruct (_ =? 0); [done|]. pose proof Hb as [Hn Hs Hl Hh Hd Hp]. split; auto.
  - simpl. by rewrite length_insert.
  - intros p d q. unfold deps_ptr. simpl. destruct (decide (i = p)) as [<-|].
    + rewrite list_lookup_insert_eq by (by eapply lookup_lt_Some). simpl. intros [= <-].
      intros (x & _ & Hx)%list_elem_of_omap. by eapply find_dep_known.
    + rewrite list_lookup_insert_ne by done. apply Hd.
Qed.

Lemma fill_buckets_building n k b s : building n s ->
  building n (fill_buckets g_path_get_dirname g_build_filename k b s).
Proof.
  revert b s. induction k as [|k IH]; intros b s Hb; simpl; [done|]. apply IH.
  generalize (default [] (s_hash s !! b)). intros l. revert s Hb.
  induction l as [|i l IHl]; intros s Hb; simpl; [done|]. by apply IHl, fill_deps_building.
Qed.

Lemma building_set_args n s a : building n s -> building n (set_args a s).
Proof. by intros []. Qed.

Lemma building_set_list n s c l : (forall q, q ∈ l -> q ∈ get_list s c) ->
  building n s -> building n (set_list c l s).
Proof.
  intros Hl [Hn Hs Hli Hh Hd Hp]. split; auto. intros c' q. rewrite get_list_set.
  case_decide; [subst; eauto|eauto].
Qed.

Lemma enable_building n fuel s p name t s' t' : building n s ->
  enable_plugin_and_dependencies fuel s p name t = Ret (s', t') -> building n s'.
Proof.
  revert s p name t s' t'. induction fuel as [|k IH]; intros s p name t s' t' Hb; [done|]. simpl.
  case_decide; [by intros [= <- _]|].
  match goal with |- context [if plug_get_launch s p =? LAUNCH_DISABLED then ?a else s] =>
    set (s1 := if plug_get_launch s p =? LAUNCH_DISABLED then a else s) end.
  assert (building n s1) as Hb1 by (unfold s1; destruct (_ =? _); [by apply building_set_args|done]).
  destruct (hash_get_deps_ptr s1 name) as [l|]; [|by intros [= <- _]].
  clearbody s1. generalize ({[name]} ∪ t). revert s1 Hb1.
  induction l as [|q l IHl]; intros s1 Hb1 t1; simpl; [by intros [= <- _]|].
  destruct (enable_plugin_and_dependencies k s1 q _ t1) as [[s2 t2]| |] eqn:E; [|done..].
  apply IHl. by eapply IH.
Qed.

Lemma enable_all_building n fuel s i k s' : building n s ->
  enable_all fuel s i k = Ret s' -> building n s'.
Proof.
  revert i s. induction k as [|k IH]; intros i s Hb; simpl; [by intros [= <-]|].
  destruct (_ =? _); [by apply IH|].
  destruct (enable_plugin_and_dependencies _ _ _ _ _) as [[s1 t1]| |] eqn:E; [|done..].
  apply IH. by eapply enable_building.
Qed.

Lemma building_foldl {B} n (f : sched -> B -> sched) l s :
  (forall s x, building n s -> building n (f s x)) -> building n s -> building n (foldl f s l).
Proof. intros Hf. revert s. induction l as [|x l IH]; intros s Hb; simpl; auto. Qed.

Lemma init_building fuel args autoload only_network s :
  plugins_scheduler_init nvticache_get_by_oid g_path_get_dirname g_build_filename fuel (Some args)
    autoload only_network = Ret (Some s) -> building (length args) s.
Proof.
  unfold plugins_scheduler_init.
  destruct (add_plugins _ _ _ _) as [s1| |] eqn:E1; [|done..].
  pose proof (add_plugins_building _ _ _ _ (building_start args) E1) as Hb1.
  pose proof (fill_buckets_building _ (Z.to_nat HASH_MAX) 0 _ Hb1) as Hb2.
  set (s2 := fill_buckets _ _ _ _ _) in *. clearbody s2.
  match goal with |- match ?x with _ => _ end = _ -> _ => set (e := x) end.
  assert (forall s3, e = Ret s3 -> building (length args) s3) as Hb3.
  { intros s3. unfold e. destruct autoload; [by apply enable_all_building|by intros [= <-]]. }
  clearbody e. destruct e as [s3| |]; [|done..]. specialize (Hb3 s3 eq_refl).
  generalize categories, (seqZ ACT_GATHER_INFO (ACT_LAST + 1 - ACT_GATHER_INFO)).
  intros cs ds [= <-].
  assert (building (length args) (foldl remove_disabled s3 cs)) as Hb4.
  { apply building_foldl; [|done]. intros s4 c Hb. apply building_set_list; [|done].
    intros q Hq. by apply list_elem_of_filter in Hq as [_ Hq]. }
  destruct only_network; [|done]. apply building_foldl; [|done].
  intros s4 c Hb. apply building_set_list; [set_solver|done].
Qed.

Lemma building_wf n s : building n s -> sched_wf s.
Proof.
  intros [Hn Hs Hl Hh Hd Hp]. split; rewrite Hn.
  - intros p Hp'. rewrite Hs, decide_True by done. unfold_status. lia.
  - done.
  - intros p q (d & Hdp & Hq). by eapply Hd.
Qed.

Lemma building_exact n s : building n s -> ports_exact s.
Proof.
  intros [Hn Hs Hl Hh Hd Hp]. split; rewrite Hp; [split; constructor|]. intros port.
  rewrite Hn. clear Hn Hl Hh Hd Hp.
  assert (forall k, sum_upto (used_by s port) k = 0) as Hz; [|by rewrite Hz].
  induction k as [|k IH]; simpl; [done|]. rewrite IH. unfold used_by. rewrite Hs. by case_decide.
Qed.

End InitSpec.

(** *** Enabling *)

Section Enabling.
Context `{G : Glib}.

Definition name_of (s : sched) (p : nat) : string := default "" (arg_name <$> s_args s !! p).

(** The names of the nodes are those of the plugins, and none occurs twice. *)
Definition names_ok (s : sched) : Prop :=
  forall p, (p < length (s_args s))%nat -> hash_get s (name_of s p) = Some p.

(** Changing launch states changes nothing else. *)
Definition launch_mono (s s' : sched) : Prop :=
  s_nodes s' = s_nodes s /\ s_hash s' = s_hash s
  /\ length (s_args s') = length (s_args s)
  /\ (forall p, name_of s' p = name_of s p)
  /\ (forall p, plug_get_launch s p <> LAUNCH_DISABLED -> plug_get_launch s' p <> LAUNCH_DISABLED).

Lemma launch_mono_refl s : launch_mono s s.
Proof. done. Qed.

Lemma launch_mono_trans s s' s'' : launch_mono s s' -> launch_mono s' s'' -> launch_mono s s''.
Proof.
  intros (A1 & A2 & A3 & A4 & A5) (B1 & B2 & B3 & B4 & B5).
  split; [congruence|]. split; [congruence|]. split; [congruence|]. split; [congruence|auto].
Qed.

Lemma set_launch_mono s p : launch_mono s (plug_set_launch s p LAUNCH_RUN).
Proof.
  split; [done|]. split; [done|]. split; [apply length_alter|].
  unfold name_of, plug_get_launch, plug_set_launch. simpl.
  split; intros q; (destruct (decide (p = q)) as [<-|];
    [rewrite list_lookup_alter_eq|by rewrite list_lookup_alter_ne]);
    destruct (s_args s !! p); simpl; done.
Qed.

Lemma set_launch_on s p : (p < length (s_args s))%nat ->
  plug_get_launch (plug_set_launch s p LAUNCH_RUN) p <> LAUNCH_DISABLED.
Proof.
  intros Hp. unfold plug_get_launch, plug_set_launch. simpl. rewrite list_lookup_alter_eq.
  destruct (lookup_lt_is_Some_2 _ _ Hp) as [a ->]. done.
Qed.

Definition dep_names (s : sched) (name : string) : list nat :=
  default [] (hash_get_deps_ptr s name).

Lemma mono_hash_get s s' name : launch_mono s s' -> hash_get s' name = hash_get s name.
Proof. intros (H1 & H2 & _). unfold hash_get. by rewrite H1, H2. Qed.

Lemma mono_dep_names s s' name : launch_mono s s' -> dep_names s' name = dep_names s name.
Proof.
  intros H. unfold dep_names, hash_get_deps_ptr. rewrite (mono_hash_get _ _ _ H).
  destruct H as (H1 & _). unfold deps_ptr. by rewrite H1.
Qed.

(** What a visit does: the names visited since are enabled, and the names of
    their dependencies were visited. *)
Definition visited_ok (s0 s : sched) (t0 t : gset string) : Prop :=
  launch_mono s0 s /\ t0 ⊆ t
  /\ forall p, (p < length (s_args s0))%nat -> name_of s0 p ∈ t -> name_of s0 p ∉ t0 ->
       plug_get_launch s p <> LAUNCH_DISABLED
       /\ forall q, q ∈ dep_names s0 (name_of s0 p) -> name_of s0 q ∈ t.

Lemma visited_refl s t : visited_ok s s t t.
Proof. split; [done|]. split; [done|]. done. Qed.

Lemma visited_trans s0 s1 s2 t0 t1 t2 :
  visited_ok s0 s1 t0 t1 -> visited_ok s1 s2 t1 t2 -> visited_ok s0 s2 t0 t2.
Proof.
  intros (M1 & T1 & V1) (M2 & T2 & V2). split; [by eapply launch_mono_trans|].
  split; [set_solver|]. intros x Hx Hx2 Hx0.
  pose proof M1 as (_ & _ & Hlen & Hnm & _). destruct M2 as (_ & _ & _ & _ & Hl2).
  destruct (decide (name_of s0 x ∈ t1)) as [Hx1|Hx1].
  - destruct (V1 x Hx Hx1 Hx0) as [H1 H2]. split; [by apply Hl2|]. intros y Hy. set_solver.
  - rewrite <- Hnm in Hx2, Hx1. rewrite <- Hlen in Hx. destruct (V2 x Hx Hx2 Hx1) as [H1 H2].
    split; [done|]. intros y Hy. rewrite (mono_dep_names _ _ _ M1), Hnm in H2.
    rewrite <- Hnm. by apply H2.
Qed.

(** Names identify plugins and dependencies are known plugins. *)
Definition names_graph_ok (s : sched) : Prop :=
  names_ok s /\ forall x, (x < length (s_args s))%nat ->
    Forall (fun q => (q < length (s_args s))%nat) (dep_names s (name_of s x)).

Lemma names_graph_mono s s' : launch_mono s s' -> names_graph_ok s -> names_graph_ok s'.
Proof.
  intros Hm [H1 H2]. pose proof Hm as (_ & _ & Hlen & Hnm & _). split.
  - intros x Hx. rewrite Hlen in Hx. rewrite (mono_hash_get _ _ _ Hm), Hnm. by apply H1.
  - intros x Hx. rewrite Hlen in *. rewrite (mono_dep_names _ _ _ Hm), Hnm. by apply H2.
Qed.

(** A visit of [p] that began with the names [t] visited. *)
Definition visit_ok (s s' : sched) (p : nat) (t t' : gset string) : Prop :=
  visited_ok s s' t t' /\ name_of s p ∈ t'.

Lemma enable_loop_visits rec l s t s' t' :
  (forall s p t s' t', names_graph_ok s -> (p < length (s_args s))%nat ->
     rec s p (name_of s p) t = Ret (s', t') -> visit_ok s s' p t t') ->
  names_graph_ok s -> Forall (fun q => (q < length (s_args s))%nat) l ->
  enable_loop rec l s t = Ret (s', t') ->
  visited_ok s s' t t' /\ forall q, q ∈ l -> name_of s q ∈ t'.
Proof.
  intros Hrec. revert s t. induction l as [|q l IH]; intros s t Hg Hl; simpl.
  { intros [= <- <-]. split; [apply visited_refl|set_solver]. }
  apply Forall_cons in Hl as [Hq Hl]. fold (name_of s q).
  destruct (rec s q (name_of s q) t) as [[s1 t1]| |] eqn:E; [|done..].
  destruct (Hrec _ _ _ _ _ Hg Hq E) as [Hv Hqt]. pose proof Hv as (Hm & _).
  pose proof Hm as (_ & _ & Hlen & Hnm & _). intros E'.
  destruct (IH s1 t1) as [Hv' Hall]; [by eapply names_graph_mono|by rewrite Hlen|exact E'|].
  split; [by eapply visited_trans|]. destruct Hv' as (_ & Ht & _).
  intros x [->|Hx]%elem_of_cons; [set_solver|]. rewrite <- Hnm. auto.
Qed.

(** The first visit of a name: the plugin is enabled, then its dependencies. *)
Lemma visit_first s s1 s2 p t t2 :
  names_graph_ok s -> (p < length (s_args s))%nat ->
  launch_mono s s1 -> plug_get_launch s1 p <> LAUNCH_DISABLED ->
  visited_ok s1 s2 ({[name_of s p]} ∪ t) t2 ->
  (forall q, q ∈ dep_names s (name_of s p) -> name_of s q ∈ t2) -> visit_ok s s2 p t t2.
Proof.
  intros [Hok _] Hp Hm1 Hon (Hm2 & Ht2 & Hv2) Hd. split; [|set_solver].
  split; [by eapply launch_mono_trans|]. split; [set_solver|]. intros x Hx Hxt Hnt.
  destruct (decide (name_of s x = name_of s p)) as [Hxn|Hxn].
  - assert (x = p) as -> by (pose proof (Hok x Hx) as He; rewrite Hxn, (Hok p Hp) in He; congruence).
    split; [destruct Hm2 as (_ & _ & _ & _ & Hl2); by apply Hl2|exact Hd].
  - pose proof Hm1 as (_ & _ & Hlen & Hnm & _). rewrite <- Hlen in Hx.
    destruct (Hv2 x Hx) as [H1 H2]; [by rewrite Hnm|rewrite Hnm; set_solver|].
    split; [done|]. intros y Hy. rewrite (mono_dep_names _ _ _ Hm1), Hnm in H2.
    rewrite <- Hnm. by apply H2.
Qed.

Lemma enable_self s p : (p < length (s_args s))%nat ->
  let s1 := if plug_get_launch s p =? LAUNCH_DISABLED then plug_set_launch s p LAUNCH_RUN else s in
  launch_mono s s1 /\ plug_get_launch s1 p <> LAUNCH_DISABLED.
Proof.
  intros Hp. simpl. destruct (plug_get_launch s p =? LAUNCH_DISABLED) eqn:E.
  - split; [apply set_launch_mono|by apply set_launch_on].
  - split; [done|lia].
Qed.

Lemma enable_visits fuel s p t s' t' :
  names_graph_ok s -> (p < length (s_args s))%nat ->
  enable_plugin_and_dependencies fuel s p (name_of s p) t = Ret (s', t') -> visit_ok s s' p t t'.
Proof.
  revert s p t s' t'. induction fuel as [|k IH]; intros s p t s' t' Hg Hp; [done|]. simpl.
  case_decide as Ht; [intros [= <- <-]; split; [apply visited_refl|done]|].
  destruct (enable_self s p Hp) as [Hm1 Hon].
  set (s1 := if plug_get_launch s p =? LAUNCH_DISABLED then _ else s) in *. clearbody s1.
  pose proof (mono_dep_names _ _ (name_of s p) Hm1) as Hdn. unfold dep_names at 1 in Hdn.
  destruct (hash_get_deps_ptr s1 (name_of s p)) as [l|] eqn:El; simpl in Hdn; subst.
  - intros E. pose proof Hm1 as (_ & _ & Hlen & Hnm & _).
    destruct (enable_loop_visits _ _ _ _ _ _ IH (names_graph_mono _ _ Hm1 Hg)
                ltac:(rewrite Hlen; by apply Hg) E) as [Hv Hd].
    apply (visit_first s s1); [done..|]. intros q Hq. rewrite <- Hnm. auto.
  - intros [= <- <-]. apply (visit_first s s1); [done..|apply visited_refl|].
    rewrite <- Hdn. set_solver.
Qed.

(** The visits end: each adds a name of a plugin. *)
Definition unvisited (s : sched) (t : gset string) : gset string :=
  list_to_set (name_of s <$> seq 0 (length (s_args s))) ∖ t.

Lemma size_of_list (l : list string) : (size (list_to_set l : gset string) <= length l)%nat.
Proof.
  induction l as [|x l IH]; simpl; [done|]. rewrite size_union_alt, size_singleton.
  pose proof (subseteq_size (list_to_set l ∖ {[x]} : gset string) (list_to_set l) ltac:(set_solver)).
  lia.
Qed.

Lemma unvisited_bound s fuel : (length (s_args s) < fuel)%nat -> (size (unvisited s ∅) < fuel)%nat.
Proof.
  intros Hf. unfold unvisited. rewrite difference_empty_L.
  pose proof (size_of_list (name_of s <$> seq 0 (length (s_args s)))) as H.
  rewrite length_fmap, length_seq in H. lia.
Qed.

Lemma unvisited_mono s s' t : launch_mono s s' -> unvisited s' t = unvisited s t.
Proof.
  intros (_ & _ & Hlen & Hnm & _). unfold unvisited. rewrite Hlen. f_equal. f_equal.
  by apply list_fmap_ext.
Qed.

Lemma enable_loop_returns k l s t :
  (forall s p t, names_graph_ok s -> (p < length (s_args s))%nat -> (size (unvisited s t) < k)%nat ->
     exists s' t', enable_plugin_and_dependencies k s p (name_of s p) t = Ret (s', t')) ->
  names_graph_ok s -> Forall (fun q => (q < length (s_args s))%nat) l ->
  (size (unvisited s t) < k)%nat ->
  exists s' t', enable_loop (enable_plugin_and_dependencies k) l s t = Ret (s', t').
Proof.
  intros Hrec. revert s t. induction l as [|q l IH]; intros s t Hg Hl Hk; simpl; [eauto|].
  apply Forall_cons in Hl as [Hq Hl]. fold (name_of s q).
  destruct (Hrec s q t Hg Hq Hk) as (s1 & t1 & E). rewrite E.
  destruct (enable_visits _ _ _ _ _ _ Hg Hq E) as [(Hm & Ht & _) _].
  pose proof Hm as (_ & _ & Hlen & _). apply IH; [by eapply names_graph_mono|by rewrite Hlen|].
  rewrite (unvisited_mono _ _ _ Hm). eapply Nat.le_lt_trans; [|exact Hk].
  apply subseteq_size. unfold unvisited. set_solver.
Qed.

Lemma enable_returns fuel s p t :
  names_graph_ok s -> (p < length (s_args s))%nat -> (size (unvisited s t) < fuel)%nat ->
  exists s' t', enable_plugin_and_dependencies fuel s p (name_of s p) t = Ret (s', t').
Proof.
  revert s p t. induction fuel as [|k IH]; intros s p t Hg Hp Hk; [lia|]. simpl.
  case_decide as Ht; [eauto|]. destruct (enable_self s p Hp) as [Hm1 _].
  set (s1 := if plug_get_launch s p =? LAUNCH_DISABLED then _ else s) in *. clearbody s1.
  pose proof (mono_dep_names _ _ (name_of s p) Hm1) as Hdn. unfold dep_names at 1 in Hdn.
  destruct (hash_get_deps_ptr s1 (name_of s p)) as [l|] eqn:El; [|eauto]. simpl in Hdn. subst l.
  pose proof Hm1 as (_ & _ & Hlen & _). apply enable_loop_returns; [exact IH| | |].
  - by eapply names_graph_mono.
  - rewrite Hlen. by apply Hg.
  - rewrite (unvisited_mono _ _ _ Hm1).
    enough (size (unvisited s ({[name_of s p]} ∪ t)) < size (unvisited s t))%nat by lia.
    apply subset_size. split; [unfold unvisited; set_solver|]. intros Hsub.
    specialize (Hsub (name_of s p)). unfold unvisited in Hsub.
    rewrite !elem_of_difference, elem_of_list_to_set in Hsub.
    destruct Hsub as [_ Hn]; [|set_solver]. split; [|done].
    apply list_elem_of_fmap_2, elem_of_seq. lia.
Qed.

End Enabling.

(** ** Properties *)

(** C3: In every scan only plugins that had not run are given out, every
    dependency of such a plugin that had not run either is given out before it,
    and no plugin is given out twice, but for those that were put back because
    their fork failed; without failed forks there is no exception. *)
Theorem launch_order {PM : Type} `{!ProcessManager PM} (pm_ok : PM -> states -> Prop)
  {Laws : ProcessManagerLaws PM pm_ok} (s0 : sched) (ps us : list nat) (s : sched)
  (Hwf : sched_wf s0) (Hfit : ports_fit s0) (Hex : ports_exact s0)
  (Htr : sys_trace (pm_ok := pm_ok) s0 ps us s) :
  NoDup (filter (fun p => p ∉ us) ps)
  /\ (us = [] -> NoDup ps)
  /\ (forall p, p ∈ ps -> plugin_get_running_state s0 p = UNRUN
                         /\ (p ∉ us -> plugin_get_running_state s p <> UNRUN))
  /\ forall ps1 p ps2 d, ps = ps1 ++ p :: ps2 -> dep s0 p d ->
       plugin_get_running_state s0 d = UNRUN -> d ∈ ps1.
Proof.
  pose proof (trace_ok _ _ _ _ Hwf Hfit Hex Htr) as Hi. split; [by eapply ti_nodup|].
  split; [intros ->; by eapply trace_nodup|]. split; [by eapply ti_unrun|by eapply ti_order].
Qed.

(** C14: When a scan that started with known, unrun plugins comes to NULL, every
    plugin of every list that was not put back after a failed fork was launched in
    it and is done and cleaned; without failed forks that is every plugin. *)
Theorem scan_complete {PM : Type} `{!ProcessManager PM} (pm_ok : PM -> states -> Prop)
  {Laws : ProcessManagerLaws PM pm_ok} (s0 : sched) (ps us : list nat) (s s' : sched)
  (fuel : nat) (pm pm' : PM)
  (Hwf : sched_wf s0) (Hfit : ports_fit s0) (Hex : ports_exact s0)
  (Htr : sys_trace (pm_ok := pm_ok) s0 ps us s) (Hpm : pm_ok pm (s_states s))
  (Hn : plugins_scheduler_next fuel (Some s) pm = Ret (PNull, Some s', pm')) :
  forall c q, 0 <= c <= ACT_LAST -> q ∈ get_list s0 c -> q ∉ us ->
    plugin_get_running_state s' q = CLEANED
    /\ (plugin_get_running_state s0 q = UNRUN -> q ∈ ps).
Proof.
  intros c q Hc Hq Hu.
  pose proof (trace_ok _ _ _ _ Hwf Hfit Hex (tr_next _ _ _ _ _ _ _ _ _ Htr Hpm Hn)) as Hi.
  simpl in Hi. rewrite app_nil_r in Hi.
  pose proof (trace_ok _ _ _ _ Hwf Hfit Hex Htr) as Hi0.
  destruct (scheduler_next_ok _ _ _ _ _ _ Hpm (sched_wf_listed _ (ti_wf _ _ _ _ Hi0)) Hn)
    as (s1 & _ & _ & -> & Hempty).
  destruct (ti_lists _ _ _ _ Hi c q Hq Hu) as [H|H]; [rewrite (Hempty c Hc) in H; set_solver|].
  split; [done|]. intros H0. destruct (decide (q ∈ ps)) as [|Hp]; [done|].
  destruct (ti_old _ _ _ _ Hi q Hp) as [He|[_ ?]]; [|done]. unfold_status. congruence.
Qed.

(** C18: Throughout a scan in which no fork has failed the table of ports in use
    holds every port exactly as often as the plugins running or not yet cleaned
    require it, provided the names of ports have less than 64 characters. *)
Theorem ports_table_exact {PM : Type} `{!ProcessManager PM} (pm_ok : PM -> states -> Prop)
  {Laws : ProcessManagerLaws PM pm_ok} (s0 : sched) (ps : list nat) (s : sched)
  (Hwf : sched_wf s0) (Hfit : ports_fit s0) (Hex : ports_exact s0)
  (Htr : sys_trace (pm_ok := pm_ok) s0 ps [] s) (port : string) :
  port_count (s_plist s) port = sum_upto (used_by s port) (length (s_nodes s)).
Proof. by apply (ti_exact _ _ _ _ (trace_ok _ _ _ _ Hwf Hfit Hex Htr)). Qed.

(** A plugin the scheduler returns had not run and is marked running, all
    its dependencies are done and cleaned, and it is in the list of a category
    or a dependency of one there, the lists of the init, scanner and settings
    phases before that category being empty. *)
Theorem next_launch_ready {PM : Type} `{!ProcessManager PM} (pm_ok : PM -> states -> Prop)
  {Laws : ProcessManagerLaws PM pm_ok} (s s' : sched) (fuel : nat) (pm pm' : PM) (p : nat)
  (Hwf : sched_wf s) (Hpm : pm_ok pm (s_states s))
  (Hn : plugins_scheduler_next fuel (Some s) pm = Ret (PPlugin p, Some s', pm')) :
  plugin_get_running_state s p = UNRUN /\ plugin_get_running_state s' p = RUNNING
  /\ (forall d, dep s p d -> plugin_get_running_state s' d = CLEANED)
  /\ exists c x, x ∈ get_list s c /\ rtc (dep s) x p
       /\ forall c', 0 <= c' < c -> c' <= ACT_SETTINGS -> get_list s' c' = [].
Proof.
  destruct (scheduler_next_ok _ _ _ _ _ _ Hpm (sched_wf_listed _ Hwf) Hn)
    as (s1 & Hpre & _ & -> & c & (Hun & Hset & x & Hx & Hr) & Hbar).
  destruct (pre_steps_ok _ _ Hpre) as (Hg & Ha & _).
  split; [specialize (Ha p); unfold advances in Ha; unfold_status; lia|].
  split; [by rewrite state_launch, decide_True|]. split.
  - intros d Hd. assert (dep s1 p d) as Hd1.
    { destruct Hd as (y & Hy & Hdy). exists y. by rewrite (same_graph_deps _ _ _ Hg). }
    pose proof (deps_cleaned _ _ _ (sched_wf_pre _ _ Hpre Hwf) Hset Hd1) as Hc.
    rewrite state_launch. case_decide; [subst; unfold_status; congruence|done].
  - exists c, x. split; [done|]. split; [by rewrite <- (same_graph_dep s s1)|]. exact Hbar.
Qed.

(** C15: When the dependencies are acyclic and waiting for a running process
    ends, a call of the scheduler returns; the number of iterations is bounded by
    the categories and the plugins running. *)
Theorem next_terminates {PM : Type} `{!ProcessManager PM} (pm_ok : PM -> states -> Prop)
  {Laws : ProcessManagerLaws PM pm_ok} {Live : ProcessManagerLive PM pm_ok}
  (rank : nat -> nat) (R : nat) (s : sched) (pm : PM) (fuel : nat)
  (Hr : ranked rank s) (HR : forall c p, p ∈ get_list s c -> (rank p < R)%nat)
  (Hpm : pm_ok pm (s_states s))
  (Hf : (R + 11 + size (running_set (s_states s)) < fuel)%nat) :
  exists r s' pm', plugins_scheduler_next fuel (Some s) pm = Ret (r, Some s', pm').
Proof.
  destruct (next_loop_returns rank fuel R ACT_FIRST ACT_LAST false s pm Hr HR Hpm ltac:(done))
    as [[[r s'] pm'] E].
  { change (Z.to_nat (ACT_LAST + 1 - ACT_FIRST)) with 11%nat. exact Hf. }
  exists r, s', pm'. unfold plugins_scheduler_next. by rewrite E.
Qed.

(** When the first plugin to consider lies on a cycle of first
    dependencies, the scheduler never returns: the search for an unrun dependency
    has no protection against cycles. *)
Theorem dependency_cycle_diverges {PM : Type} `{!ProcessManager PM} (s : sched) (C : gset nat)
  (pm : PM) (p : nat) (rest : list nat)
  (Hc : unrun_cycle s C) (Hp : p ∈ C) (Hl : get_list s ACT_FIRST = p :: rest) :
  forall fuel, plugins_scheduler_next fuel (Some s) pm = NoReturn.
Proof.
  intros fuel. unfold plugins_scheduler_next. destruct fuel as [|n]; [done|]. simpl.
  rewrite Hl. simpl. destruct (Hc p Hp) as (Hun & q & l & Hd & Hq).
  by rewrite Hun, Hd, (cycle_diverges _ _ C).
Qed.

(** Enabling a plugin ends and enables it and everything it depends on,
    directly or not, cycles included, and disables nothing. *)
Theorem enable_closure `{G : Glib} (s : sched) (p : nat) (fuel : nat)
  (Hg : names_graph_ok s) (Hp : (p < length (s_args s))%nat) (Hf : (length (s_args s) < fuel)%nat) :
  exists s' t, enable_plugin_and_dependencies fuel s p (name_of s p) ∅ = Ret (s', t)
    /\ (forall q, rtc (fun x y => y ∈ dep_names s (name_of s x)) p q ->
          plug_get_launch s' q <> LAUNCH_DISABLED)
    /\ forall q, plug_get_launch s q <> LAUNCH_DISABLED -> plug_get_launch s' q <> LAUNCH_DISABLED.
Proof.
  destruct (enable_returns fuel s p ∅ Hg Hp) as (s' & t & E); [by apply unvisited_bound|].
  exists s', t. split; [done|].
  destruct (enable_visits _ _ _ _ _ _ Hg Hp E) as [(Hm & _ & Hv) Hpt].
  split; [|by apply Hm]. intros q Hq.
  assert ((q < length (s_args s))%nat /\ name_of s q ∈ t) as [Hq1 Hq2].
  { clear E. induction Hq as [|x y z Hxy _ IH]; [done|].
    destruct (Hv x Hp Hpt ltac:(set_solver)) as [_ Hd]. apply IH; [|by apply Hd].
    pose proof (proj2 Hg x Hp) as Hall. rewrite Forall_forall in Hall. by apply Hall. }
  by apply (Hv q Hq1 Hq2 ltac:(set_solver)).
Qed.

(** A scheduler that initialisation returns is well formed: lists and
    dependencies name known plugins, all of them are unrun, no port is in use. *)
Theorem init_well_formed `{G : Glib} (nvticache_get_by_oid : string -> option nvti)
  (dirname : string -> string) (filename : string -> string -> string) (fuel : nat)
  (args : list nvt_arg) (autoload only_network : bool) (s : sched)
  (Hi : plugins_scheduler_init nvticache_get_by_oid dirname filename fuel (Some args)
          autoload only_network = Ret (Some s)) :
  length (s_nodes s) = length args /\ sched_wf s /\ ports_exact s
  /\ (forall p, (p < length args)%nat -> plugin_get_running_state s p = UNRUN)
  /\ (forall port, port_count (s_plist s) port = 0).
Proof.
  pose proof (init_building _ _ _ _ _ _ _ _ Hi) as Hb. split; [apply Hb|].
  split; [by eapply building_wf|]. split; [by eapply building_exact|]. split.
  - intros p Hp. by rewrite (b_states _ _ Hb), decide_True.
  - intros port. by rewrite (b_plist _ _ Hb).
Qed.

(** ** Witnesses *)

(** A manager whose processes all finish as soon as it waits. *)
Definition finish (x : Z) : Z := if x =? RUNNING then DONE else x.

#[local] Instance instant : ProcessManager unit := {|
  pluginlaunch_disable_parrallel_checks pm := pm;
  pluginlaunch_enable_parrallel_checks pm := pm;
  pluginlaunch_wait_for_free_process pm st :=
    if decide (running_set st = ∅) then NoReturn else Ret (pm, finish <$> st) |}.

Lemma state_of_finish st p : state_of (finish <$> st) p = finish (state_of st p).
Proof. unfold state_of. rewrite lookup_fmap. by destruct (st !! p). Qed.

Lemma finish_finishes st p : state_of (finish <$> st) p = state_of st p
  \/ state_of st p = RUNNING /\ state_of (finish <$> st) p = DONE.
Proof. rewrite state_of_finish. unfold finish. destruct (_ =? _) eqn:?; [right|left]; lia. Qed.

#[local] Instance instant_laws : ProcessManagerLaws unit (fun _ _ => True).
Proof.
  split; [done|done|]. intros [] st _. simpl. case_decide as H; [done|]. split; [done|].
  split; [apply finish_finishes|]. apply set_choose_L in H as [p Hp].
  apply elem_of_running_set in Hp. exists p. by rewrite state_of_finish, Hp.
Qed.

#[local] Instance instant_live : ProcessManagerLive unit (fun _ _ => True).
Proof.
  intros [] st p _ Hp. simpl. case_decide as H; [|done]. apply elem_of_running_set in Hp. set_solver.
Qed.

(** Plugin 0 depends on plugin 1. *)
Definition demo : sched :=
  mk_sched [mk_nvt_arg "a" None 1; mk_nvt_arg "b" None 0] []
    [mk_hash "a" (Some ["b"%string]) 1 (Some [1%nat]) (Some ["80"%string]);
     mk_hash "b" None 0 None (Some ["80"%string; "443"%string])]
    (<[mkhash "a" := [0%nat]]> (<[mkhash "b" := [1%nat]]> ∅))
    (<[3 := [0%nat]]> (<[2 := [1%nat]]> ∅)) [] (<[0%nat := 1]> (<[1%nat := 1]> ∅)).

Definition next_state (s : sched) : sched :=
  match plugins_scheduler_next 30 (Some s) tt with Ret (_, Some s', _) => s' | _ => s end.
Definition finish_state (s : sched) : sched := set_states (finish <$> s_states s) s.

Lemma get_list_demo c : get_list demo c = if decide (3 = c) then [0%nat] else if decide (2 = c) then [1%nat] else [].
Proof.
  unfold get_list, demo. simpl. repeat case_decide; subst; rewrite ?lookup_insert_eq; [done| |].
  - rewrite lookup_insert_ne by done. by rewrite lookup_insert_eq.
  - by rewrite !lookup_insert_ne, lookup_empty by done.
Qed.

Lemma demo_dep p q : dep demo p q -> p = 0%nat /\ q = 1%nat.
Proof.
  intros (d & Hd & Hq). destruct p as [|[|p]]; vm_compute in Hd; simplify_eq.
  apply list_elem_of_singleton in Hq. done.
Qed.

Lemma demo_state p : plugin_get_running_state demo p = if decide (p < 2)%nat then UNRUN else 0.
Proof.
  unfold plugin_get_running_state, demo. simpl. rewrite !state_of_insert.
  repeat case_decide; done || lia.
Qed.

Lemma demo_wf : sched_wf demo.
Proof.
  split.
  - intros p Hp. rewrite demo_state, decide_True by done. unfold_status. lia.
  - intros c q. rewrite get_list_demo. simpl. repeat case_decide; intros Hq;
      [apply list_elem_of_singleton in Hq; lia..|set_solver].
  - intros p q [_ ->]%demo_dep. simpl. lia.
Qed.

Lemma demo_fit : ports_fit demo.
Proof.
  split.
  - intros [|[|p]]; repeat constructor; vm_compute; lia.
  - intros p. rewrite demo_state. by case_decide.
Qed.

Lemma demo_exact : ports_exact demo.
Proof. split; [split; constructor|]. intros port. vm_compute. done. Qed.

Definition demo1 := Eval vm_compute in finish_state (next_state demo).
Definition demo2 := Eval vm_compute in finish_state (next_state demo1).

Lemma demo_trace : sys_trace (pm_ok := fun _ _ => True) demo [1%nat; 0%nat] [] demo2.
Proof.
  change demo2 with (set_states (finish <$> s_states (next_state demo1)) (next_state demo1)).
  apply tr_finish; [|intros p; destruct (finish_finishes (s_states (next_state demo1)) p); tauto].
  apply (tr_next demo [1%nat] [] 30 demo1 tt (PPlugin 0) _ tt); [|done|by vm_compute].
  change demo1 with (set_states (finish <$> s_states (next_state demo)) (next_state demo)).
  apply tr_finish; [|intros p; destruct (finish_finishes (s_states (next_state demo)) p); tauto].
  apply (tr_next demo [] [] 30 demo tt (PPlugin 1) _ tt); [apply tr_start|done|by vm_compute].
Qed.

(** The fork for plugin 1 fails: it is put back and given out again. *)
Definition demo_back := Eval vm_compute in plugin_set_running_state (next_state demo) 1 UNRUN.

Lemma demo_back_trace :
  sys_trace (pm_ok := fun _ _ => True) demo [1%nat; 1%nat] [1%nat] (next_state demo_back).
Proof.
  apply (tr_next demo [1%nat] [1%nat] 30 demo_back tt (PPlugin 1) _ tt); [|done|by vm_compute].
  change demo_back with (plugin_set_running_state (next_state demo) 1 UNRUN).
  apply tr_unrun; [|set_solver|left; by vm_compute].
  apply (tr_next demo [] [] 30 demo tt (PPlugin 1) _ tt); [apply tr_start|done|by vm_compute].
Qed.

Lemma launch_order_witness :
  (sys_trace (pm_ok := fun _ _ => True) demo [1%nat; 0%nat] [] demo2 /\ 1%nat ∈ [1%nat])
  /\ sys_trace (pm_ok := fun _ _ => True) demo [1%nat; 1%nat] [1%nat] (next_state demo_back)
  /\ plugin_get_running_state demo 1 = UNRUN.
Proof.
  split; [split; [exact demo_trace|]|split; [exact demo_back_trace|]].
  - apply (proj2 (proj2 (proj2 (launch_order (fun _ _ => True) demo [1%nat; 0%nat] [] demo2
             demo_wf demo_fit demo_exact demo_trace))) [1%nat] 0%nat [] 1%nat);
      [reflexivity|by exists [1%nat]; split; [|set_solver]|reflexivity].
  - apply (proj1 (proj2 (proj2 (launch_order (fun _ _ => True) demo [1%nat; 1%nat] [1%nat]
             (next_state demo_back) demo_wf demo_fit demo_exact demo_back_trace))) 1%nat). set_solver.
Defined.

Lemma scan_complete_witness : 0%nat ∈ get_list demo 3 /\ 0%nat ∈ [1%nat; 0%nat].
Proof.
  assert (0%nat ∈ get_list demo 3) as Hin by (rewrite get_list_demo; set_solver).
  split; [exact Hin|].
  apply (scan_complete (fun _ _ => True) demo [1%nat; 0%nat] [] demo2 (next_state demo2) 30 tt tt
           demo_wf demo_fit demo_exact demo_trace I ltac:(by vm_compute) 3 0%nat
           ltac:(vm_compute; intuition congruence) Hin ltac:(set_solver)).
  reflexivity.
Defined.

Lemma ports_table_exact_witness :
  port_count (s_plist demo2) "80" = sum_upto (used_by demo2 "80") (length (s_nodes demo2))
  /\ port_count (s_plist demo2) "80" = 1.
Proof.
  split; [|vm_compute; reflexivity].
  exact (ports_table_exact (fun _ _ => True) demo [1%nat; 0%nat] demo2
           demo_wf demo_fit demo_exact demo_trace "80").
Defined.

Lemma next_launch_ready_witness :
  plugins_scheduler_next 30 (Some demo) tt = Ret (PPlugin 1, Some (next_state demo), tt)
  /\ plugin_get_running_state (next_state demo) 1 = RUNNING.
Proof.
  assert (plugins_scheduler_next 30 (Some demo) tt = Ret (PPlugin 1, Some (next_state demo), tt)) as E
    by (vm_compute; reflexivity).
  split; [exact E|].
  exact (proj1 (proj2 (next_launch_ready (fun _ _ => True) demo _ 30 tt tt 1%nat demo_wf I E))).
Defined.

Lemma next_terminates_witness :
  exists r s' pm', plugins_scheduler_next 20 (Some demo) tt = Ret (r, Some s', pm').
Proof.
  apply (next_terminates (fun _ _ => True) (fun p => 1 - p)%nat 2 demo tt 20).
  - intros p q [-> ->]%demo_dep. lia.
  - intros c p _. lia.
  - exact I.
  - vm_compute. lia.
Defined.

Definition demo_cycle : sched :=
  mk_sched [mk_nvt_arg "a" None 1] [] [mk_hash "a" (Some ["a"%string]) 1 (Some [0%nat]) None]
    ∅ (<[0 := [0%nat]]> ∅) [] (<[0%nat := 1]> ∅).

Lemma dependency_cycle_diverges_witness :
  unrun_cycle demo_cycle {[0%nat]} /\ plugins_scheduler_next 40 (Some demo_cycle) tt = NoReturn.
Proof.
  assert (unrun_cycle demo_cycle {[0%nat]}) as Hc.
  { intros p Hp. apply elem_of_singleton in Hp as ->. split; [reflexivity|].
    exists 0%nat, []. split; [reflexivity|set_solver]. }
  split; [exact Hc|].
  exact (dependency_cycle_diverges demo_cycle {[0%nat]} tt 0%nat [] Hc ltac:(set_solver) eq_refl 40).
Defined.

Lemma demo_names : names_graph_ok demo.
Proof.
  split.
  - intros [|[|p]] Hp; [vm_compute; reflexivity..|simpl in Hp; lia].
  - intros [|[|p]] Hp; [vm_compute; repeat constructor..|simpl in Hp; lia].
Qed.

Lemma enable_closure_witness :
  exists s' t, enable_plugin_and_dependencies 3 demo 0 "a" ∅ = Ret (s', t)
    /\ plug_get_launch demo 1 = LAUNCH_DISABLED /\ plug_get_launch s' 1 <> LAUNCH_DISABLED.
Proof.
  destruct (enable_closure demo 0 3 demo_names ltac:(simpl; lia) ltac:(simpl; lia))
    as (s' & t & E & H & _).
  exists s', t. split; [exact E|]. split; [reflexivity|]. apply H.
  eapply rtc_l; [|apply rtc_refl]. vm_compute. left.
Defined.

Lemma init_well_formed_witness :
  exists s, plugins_scheduler_init (fun _ => Some (mk_nvti 3 0 (Some "b"%string) None None None None None))
    (fun _ => "."%string) (fun _ f => f) 5
    (Some [mk_nvt_arg "a" (Some "1"%string) 1; mk_nvt_arg "b" (Some "2"%string) 0]) true false
    = Ret (Some s) /\ sched_wf s.
Proof.
  destruct (plugins_scheduler_init (fun _ => Some (mk_nvti 3 0 (Some "b"%string) None None None None None))
    (fun _ => "."%string) (fun _ f => f) 5
    (Some [mk_nvt_arg "a" (Some "1"%string) 1; mk_nvt_arg "b" (Some "2"%string) 0]) true false)
    as [[s|]| |] eqn:E; [|exfalso; revert E; vm_compute; discriminate..].
  exists s. split; [reflexivity|]. exact (proj1 (proj2 (init_well_formed _ _ _ _ _ _ _ _ E))).
Defined.

End SchedulerSpec.
