(* ===== verification/PortRanges.v ===== *)
(** * Port range texts ([base/openvas_networking.c])

    [validate_port_range] checks a text such as "103,U:200-1024,T:3-4" and
    [port_range_ranges] makes the array of [range_t] from a checked text; each
    has its own reading of an element, and the theorem of this file is that the
    two agree: the ranges made from a text that was found valid are ranges of
    port numbers. *)

From S2P Require Import Prelude Hosts.
From stdpp Require Import base gmap sets list strings.
From Stdlib Require Import Ascii ZArith Lia.
Local Open Scope Z_scope.

Module PortRanges.

Inductive port_protocol := PORT_PROTOCOL_TCP | PORT_PROTOCOL_UDP | PORT_PROTOCOL_OTHER.

#[export] Instance port_protocol_eq_dec : EqDecision port_protocol.
Proof. solve_decision. Defined.

(** [range_t], without the comment and the database identifier. *)
Record range := mk_range { start : Z; rend : Z; rtype : port_protocol; exclude : Z }.

Section WithGlib.
Context `{G : Glib}.

Definition skip_blank : string -> string := CStr.skip CStr.isblank.
Definition starts_with (c : ascii) (s : string) : bool :=
  match s with String d _ => bool_decide (d = c) | EmptyString => false end.

(** A leading "T:" or "U:". *)
Definition type_specifier (element : string) : option (port_protocol * string) :=
  match element with
  | String t (String ":" rest) =>
      if decide (t = "T"%char) then Some (PORT_PROTOCOL_TCP, rest)
      else if decide (t = "U"%char) then Some (PORT_PROTOCOL_UDP, rest)
      else None
  | _ => None
  end.

Definition newlines_to_commas (s : string) : string :=
  CStr.map_str (fun c => if decide (c = "010"%char) then ","%char else c) s.

(** [strtol] followed by blanks, the number in range: what is after it. *)
Definition check_number (s : string) : option (Z * string) :=
  let '(number, end_) := CStr.strtol 10 s in
  if CStr.strtol_errno 10 s || (number =? 0) || (65535 <? number) then None
  else Some (number, skip_blank end_).

(** One element, its type specifier taken off. *)
Definition valid_element (element : string) : bool :=
  match CStr.strchr_split "-" element with
  | Some (_, hyphen) =>
      let first := skip_blank element in
      if starts_with "-" first then false
      else
        match check_number first with
        | Some (number1, end1) =>
            if negb (starts_with "-" end1) then false
            else
              let hyphen := skip_blank hyphen in
              if bool_decide (hyphen = EmptyString) then false
              else
                match check_number hyphen with
                | Some (number2, end2) =>
                    bool_decide (end2 = EmptyString) && negb (number2 <? number1)
                | None => false
                end
        | None => false
        end
  | None =>
      let only := skip_blank element in
      if bool_decide (only = EmptyString) then true
      else
        match check_number only with
        | Some (_, end1) => bool_decide (end1 = EmptyString)
        | None => false
        end
  end.

Definition without_specifier (element : string) : string :=
  match type_specifier element with Some (_, e) => e | None => element end.

(** 0 on success, 1 on failure. *)
Definition validate_port_range (port_range : option string) : Z :=
  match port_range with
  | None => 1
  | Some s =>
      let s := skip_blank s in
      if bool_decide (s = EmptyString) then 1
      else if forallb (fun p => valid_element (without_specifier (g_strstrip p)))
                (g_strsplit "," (newlines_to_commas s))
           then 0 else 1
  end.

(** The loop over the elements; a false [assert] has no result. *)
Fixpoint ranges_loop (point : list string) (tcp : port_protocol) : outcome (list range) :=
  match point with
  | [] => Ret []
  | p :: rest =>
      let element := g_strstrip p in
      let '(tcp, element) :=
        match type_specifier element with Some (t, e) => (t, e) | None => (tcp, element) end in
      let element := skip_blank element in
      let add r := match ranges_loop rest tcp with Ret rs => Ret (r :: rs) | x => x end in
      match CStr.strchr_split "-" element with
      | Some (element, hyphen) =>
          let hyphen := skip_blank hyphen in
          if bool_decide (hyphen = EmptyString) then Undef
          else add (mk_range (CStr.atoi element) (CStr.atoi hyphen) tcp 0)
      | None =>
          if bool_decide (element = EmptyString) then ranges_loop rest tcp
          else add (mk_range (CStr.atoi element) (CStr.atoi element) tcp 0)
      end
  end.

(** NULL is dereferenced. *)
Definition port_range_ranges (port_range : option string) : outcome (list range) :=
  match port_range with
  | None => Undef
  | Some s => ranges_loop (g_strsplit "," (newlines_to_commas (skip_blank s))) PORT_PROTOCOL_TCP
  end.

Fixpoint in_ranges_loop (pnum : Z) (ptype : port_protocol) (pranges : list range) : bool :=
  match pranges with
  | [] => false
  | r :: rest =>
      if negb (bool_decide (rtype r = ptype)) then in_ranges_loop pnum ptype rest
      else if (start r <=? pnum) && (pnum <=? rend r) then true
      else in_ranges_loop pnum ptype rest
  end.

Definition port_in_port_ranges (pnum : Z) (ptype : port_protocol) (pranges : option (list range)) : bool :=
  match pranges with
  | None => false
  | Some l => if (pnum <? 0) || (65536 <? pnum) then false else in_ranges_loop pnum ptype l
  end.

End WithGlib.

Example valid1 : validate_port_range (Some "103,U:200-1024,3000 - 4000,T:3-4"%string) = 0.
Proof. reflexivity. Qed.
Example valid2 : validate_port_range (Some "103,200-100"%string) = 1. Proof. reflexivity. Qed.
Example ranges1 : port_range_ranges (Some "103,U:200- 1024,7"%string)
  = Ret [mk_range 103 103 PORT_PROTOCOL_TCP 0; mk_range 200 1024 PORT_PROTOCOL_UDP 0;
         mk_range 7 7 PORT_PROTOCOL_UDP 0].
Proof. reflexivity. Qed.

(** ** Reading the same number twice *)

Lemma skip_cut f c a r : f c = false ->
  CStr.skip f (a +:+ String c r) = (CStr.skip f a +:+ String c r).
Proof.
  intros Hf. induction a as [|d a IH].
  - change (CStr.skip f (String c r) = String c r). simpl. by rewrite Hf.
  - change (String d a +:+ String c r) with (String d (a +:+ String c r)). simpl.
    destruct (f d); [apply IH|done].
Qed.

Lemma digits_cut base acc c a r : CStr.digit_val base c = None ->
  CStr.digits base acc (a +:+ String c r)
  = (fst (CStr.digits base acc a), (snd (CStr.digits base acc a) +:+ String c r)).
Proof.
  intros Hb. revert acc. induction a as [|d a IH]; intros acc.
  - change (CStr.digits base acc (String c r) = (acc, String c r)). simpl. by rewrite Hb.
  - change (String d a +:+ String c r) with (String d (a +:+ String c r)). simpl.
    destruct (CStr.digit_val base d); [apply IH|done].
Qed.

Lemma digits_nonneg acc s : 0 <= acc -> 0 <= fst (CStr.digits 10 acc s).
Proof.
  revert acc. induction s as [|c s IH]; intros acc Ha; simpl; [done|].
  destruct (CStr.digit_val 10 c) as [d|] eqn:E; [|done]. apply IH.
  assert (0 <= d); [|lia]. unfold CStr.digit_val in E.
  destruct (CStr.isdigit c) eqn:Ed; [unfold CStr.isdigit in Ed|destruct (_ && _) eqn:Ex in E; [|done]];
    destruct (_ <? 10) in E; simplify_eq; lia.
Qed.

(** [strtol] in base 10: sign and digits. *)
Lemma strtol_raw_10 s :
  CStr.strtol_raw 10 s =
    let '(neg, s1) := CStr.sign (CStr.skip CStr.isspace s) in
    match CStr.peek s1 with
    | Some c => match CStr.digit_val 10 c with
                | Some _ => let '(v, rest) := CStr.digits 10 0 s1 in (if neg : bool then - v else v, rest)
                | None => (0, s)
                end
    | None => (0, s)
    end.
Proof.
  unfold CStr.strtol_raw. destruct (CStr.sign _) as [neg s1].
  assert (CStr.base_prefix 10 s1 = (10, s1)) as ->.
  { destruct s1 as [|c s1]; [done|]. simpl. destruct c as [[] [] [] [] [] [] [] []]; try done.
    destruct s1; done. }
  by destruct s1.
Qed.

Lemma strtol_raw_nonneg s : CStr.mem_char "-" s = false -> 0 <= fst (CStr.strtol_raw 10 s).
Proof.
  intros Hm. rewrite strtol_raw_10.
  assert (fst (CStr.sign (CStr.skip CStr.isspace s)) = false) as Hs.
  { assert (CStr.mem_char "-" (CStr.skip CStr.isspace s) = false) as Hm'.
    { induction s as [|c s IH]; [done|]. simpl in *. case_decide; [done|].
      destruct (CStr.isspace c); [auto|]. simpl. by rewrite decide_False. }
    destruct (CStr.skip CStr.isspace s) as [|c s']; [done|]. simpl in Hm'. case_decide; [done|].
    destruct c as [[] [] [] [] [] [] [] []]; done. }
  destruct (CStr.sign _) as [neg s1]. simpl in Hs. subst neg.
  destruct (CStr.peek s1) as [c|]; [|simpl; lia]. destruct (CStr.digit_val 10 c); [|simpl; lia].
  pose proof (digits_nonneg 0 s1 ltac:(lia)). by destruct (CStr.digits 10 0 s1).
Qed.

Lemma sign_cons c s : CStr.sign (String c s) =
  if decide (c = "-"%char) then (true, s)
  else if decide (c = "+"%char) then (false, s) else (false, String c s).
Proof.
  repeat case_decide; subst; try done. destruct c as [[] [] [] [] [] [] [] []]; done.
Qed.

Lemma no_minus_skip f s : CStr.mem_char "-" s = false -> CStr.mem_char "-" (CStr.skip f s) = false.
Proof.
  induction s as [|c s IH]; [done|]. simpl. case_decide; [done|]. intros Hm.
  destruct (f c); [auto|]. simpl. by rewrite decide_False.
Qed.

(** A number is read the same when the text is cut at the hyphen after it. *)
Lemma strtol_raw_cut a h :
  CStr.mem_char "-" a = false -> CStr.skip CStr.isspace a <> EmptyString ->
  fst (CStr.strtol_raw 10 (a +:+ String "-" h)) = fst (CStr.strtol_raw 10 a).
Proof.
  intros Hm Hne. rewrite !strtol_raw_10, skip_cut by done.
  apply (no_minus_skip CStr.isspace) in Hm.
  destruct (CStr.skip CStr.isspace a) as [|c a1]; [done|]. clear Hne. simpl in Hm.
  case_decide as Hc; [done|].
  change (String c a1 +:+ String "-" h) with (String c (a1 +:+ String "-" h)). rewrite !sign_cons.
  rewrite !(decide_False (P := c = "-"%char)) by congruence.
  assert (forall a2, CStr.mem_char "-" a2 = false ->
    fst match CStr.peek (a2 +:+ String "-" h) with
    | Some c => match CStr.digit_val 10 c with
                | Some _ => let '(v, rest) := CStr.digits 10 0 (a2 +:+ String "-" h) in (v, rest)
                | None => (0, a +:+ String "-" h)
                end
    | None => (0, a +:+ String "-" h)
    end = fst match CStr.peek a2 with
    | Some c => match CStr.digit_val 10 c with
                | Some _ => let '(v, rest) := CStr.digits 10 0 a2 in (v, rest)
                | None => (0, a)
                end
    | None => (0, a)
    end) as Hcut.
  { intros a2 _. destruct a2 as [|d a2]; [done|].
    change (CStr.peek (String d a2 +:+ String "-" h)) with (Some d). cbn [CStr.peek].
    destruct (CStr.digit_val 10 d); [|done]. rewrite digits_cut by done.
    by destruct (CStr.digits 10 0 (String d a2)). }
  case_decide; [by apply Hcut|]. apply (Hcut (String c a1)). simpl. by rewrite decide_False by congruence.
Qed.

(** Where only white space is before the hyphen, the number is negative and the
    text after the hyphen is not a number alone. *)
Lemma strtol_raw_minus a h :
  CStr.skip CStr.isspace a = EmptyString ->
  CStr.strtol_raw 10 (a +:+ String "-" h) =
    match CStr.peek h with
    | Some c => match CStr.digit_val 10 c with
                | Some _ => let '(v, rest) := CStr.digits 10 0 h in (- v, rest)
                | None => (0, a +:+ String "-" h)
                end
    | None => (0, a +:+ String "-" h)
    end.
Proof. intros Ha. rewrite strtol_raw_10, skip_cut, Ha by done. done. Qed.

Lemma digit_char_facts c d : CStr.digit_val 10 c = Some d ->
  CStr.isspace c = false /\ CStr.isblank c = false /\ c <> "-"%char /\ c <> "+"%char.
Proof.
  intros H. assert (CStr.isdigit c = true) as Hd.
  { unfold CStr.digit_val in H. destruct (CStr.isdigit c); [done|].
    destruct (_ && _) eqn:Ex; [|done].
    destruct (CStr.code (CStr.tolower c) - 87 <? 10) eqn:E; [lia|done]. }
  unfold CStr.isdigit, CStr.isspace, CStr.isblank in *.
  split; [lia|]. split; [lia|]. by split; intros ->.
Qed.

Lemma strtol_raw_digit c s d : CStr.digit_val 10 c = Some d ->
  CStr.strtol_raw 10 (String c s) = CStr.digits 10 0 (String c s).
Proof.
  intros H. destruct (digit_char_facts _ _ H) as (Hs & _ & H1 & H2).
  rewrite strtol_raw_10. cbn [CStr.skip]. rewrite Hs, sign_cons, !decide_False by done.
  cbn [CStr.peek]. rewrite H. by destruct (CStr.digits 10 0 (String c s)).
Qed.

Lemma check_number_Some s n e : check_number s = Some (n, e) ->
  fst (CStr.strtol_raw 10 s) = n /\ e = skip_blank (snd (CStr.strtol_raw 10 s))
  /\ n <> 0 /\ n <= 65535.
Proof.
  unfold check_number, CStr.strtol, CStr.strtol_errno.
  destruct (CStr.strtol_raw 10 s) as [v r]. simpl. intros H.
  destruct (negb (CStr.clamp_long v =? v) || (CStr.clamp_long v =? 0) || (65535 <? CStr.clamp_long v))
    eqn:E; simplify_eq.
  rewrite !orb_false_iff, negb_false_iff in E. destruct E as [[E1 E2] E3].
  assert (CStr.clamp_long v = v) as -> by lia. split; [done|]. split; [done|]. lia.
Qed.

Lemma atoi_small s n : fst (CStr.strtol_raw 10 s) = n -> 0 < n <= 65535 -> CStr.atoi s = n.
Proof.
  unfold CStr.atoi, CStr.strtol. destruct (CStr.strtol_raw 10 s) as [v r]. simpl. intros -> Hn.
  unfold CStr.clamp_long, MInt.LONG_MIN, MInt.LONG_MAX.
  rewrite Z.min_r, Z.max_r by lia. apply MInt.wrap32_id. unfold MInt.int_range, MInt.INT_MIN, MInt.INT_MAX. lia.
Qed.

(** What the check of an element says about the numbers made from it. *)
Definition element_ok (element : string) : Prop :=
  let e := skip_blank element in
  match CStr.strchr_split "-" e with
  | Some (a, h) => skip_blank h <> EmptyString
                   /\ 1 <= CStr.atoi a <= CStr.atoi (skip_blank h) /\ CStr.atoi (skip_blank h) <= 65535
  | None => e <> EmptyString -> 1 <= CStr.atoi e <= 65535
  end.

Lemma strchr_skip_blank s :
  CStr.strchr_split "-" (skip_blank s) =
    match CStr.strchr_split "-" s with Some (a, h) => Some (skip_blank a, h) | None => None end.
Proof.
  destruct (CStr.strchr_split "-" s) as [[a h]|] eqn:E.
  - apply CStr.strchr_split_app in E as [-> Hm]. unfold skip_blank. rewrite skip_cut by done.
    apply CStr.strchr_split_intro. by apply no_minus_skip.
  - by apply CStr.strchr_split_none, no_minus_skip, CStr.strchr_split_none_inv.
Qed.

Lemma valid_single only n : CStr.mem_char "-" only = false ->
  check_number only = Some (n, EmptyString) -> 1 <= CStr.atoi only <= 65535.
Proof.
  intros Hm Hc. apply check_number_Some in Hc as (Hr & _ & H0 & Hle).
  pose proof (strtol_raw_nonneg only Hm) as Hn. rewrite Hr in Hn.
  rewrite (atoi_small only n) by lia. lia.
Qed.

Lemma valid_pair a h n1 n2 end1 :
  CStr.mem_char "-" a = false ->
  check_number (a +:+ String "-" h) = Some (n1, end1) -> starts_with "-" end1 = true ->
  check_number (skip_blank h) = Some (n2, EmptyString) -> n1 <= n2 ->
  1 <= CStr.atoi a <= CStr.atoi (skip_blank h) /\ CStr.atoi (skip_blank h) <= 65535.
Proof.
  intros Hm H1 He H2 Hle.
  apply check_number_Some in H1 as (Hr1 & -> & Hn1 & Hl1).
  apply check_number_Some in H2 as (Hr2 & Hend2 & Hn2 & Hl2).
  destruct (decide (CStr.skip CStr.isspace a = EmptyString)) as [Ha|Ha].
  - exfalso. rewrite (strtol_raw_minus a h Ha) in Hr1, He.
    destruct h as [|c h]; simpl in Hr1; [congruence|].
    change (CStr.peek (String c h)) with (Some c) in *. cbn [CStr.peek] in *.
    destruct (CStr.digit_val 10 c) as [d|] eqn:Ed; [|simpl in Hr1; congruence].
    destruct (digit_char_facts _ _ Ed) as (_ & Hb & _).
    assert (skip_blank (String c h) = String c h) as Hsb by (unfold skip_blank; simpl; by rewrite Hb).
    rewrite Hsb, (strtol_raw_digit c h d Ed) in Hend2.
    destruct (CStr.digits 10 0 (String c h)) as [v r]. simpl in Hend2, He. by rewrite <- Hend2 in He.
  - pose proof (strtol_raw_cut a h Hm Ha) as Hcut. rewrite Hr1 in Hcut.
    pose proof (strtol_raw_nonneg a Hm) as Hpos.
    rewrite (atoi_small a n1) by lia.
    rewrite (atoi_small (skip_blank h) n2) by lia. lia.
Qed.

Lemma valid_element_ok element : valid_element element = true -> element_ok element.
Proof.
  unfold valid_element, element_ok. rewrite strchr_skip_blank.
  destruct (CStr.strchr_split "-" element) as [[a h]|] eqn:E.
  - destruct (starts_with "-" (skip_blank element)) eqn:Es; [done|].
    destruct (check_number (skip_blank element)) as [[n1 end1]|] eqn:E1; [|done].
    destruct (starts_with "-" end1) eqn:Ee; [|done]. simpl.
    bdec (skip_blank h = EmptyString) as Hh; [done|].
    destruct (check_number (skip_blank h)) as [[n2 end2]|] eqn:E2; [|done].
    rewrite andb_true_iff, bool_decide_eq_true. intros [-> Hle]. split; [done|].
    apply CStr.strchr_split_app in E as [-> Hm]. unfold skip_blank at 1 in E1.
    rewrite skip_cut in E1 by done.
    apply (valid_pair (skip_blank a) h n1 n2 end1); auto; [by apply no_minus_skip|lia].
  - bdec (skip_blank element = EmptyString) as Hne; [done|].
    destruct (check_number (skip_blank element)) as [[n end1]|] eqn:E1; [|done].
    rewrite bool_decide_eq_true. intros -> _. apply (valid_single _ n); [|done].
    by apply no_minus_skip, CStr.strchr_split_none_inv.
Qed.

(** ** Properties *)

Definition range_ok (r : range) : Prop :=
  1 <= start r <= rend r /\ rend r <= 65535 /\ rtype r <> PORT_PROTOCOL_OTHER /\ exclude r = 0.

Lemma type_specifier_known e t e' : type_specifier e = Some (t, e') -> t <> PORT_PROTOCOL_OTHER.
Proof.
  unfold type_specifier. intros H. repeat case_match; simplify_eq; done.
Qed.

Lemma ranges_loop_ok `{Glib} l tcp : tcp <> PORT_PROTOCOL_OTHER ->
  Forall (fun p => element_ok (without_specifier (g_strstrip p))) l ->
  exists rs, ranges_loop l tcp = Ret rs /\ Forall range_ok rs.
Proof.
  intros Ht Hl. revert tcp Ht. induction Hl as [|p l Hp _ IH]; intros tcp Ht; simpl; [eauto|].
  assert (exists tcp' e, match type_specifier (g_strstrip p) with
     | Some (t, e) => (t, e) | None => (tcp, g_strstrip p) end = (tcp', e)
     /\ tcp' <> PORT_PROTOCOL_OTHER /\ element_ok e) as (tcp' & e & -> & Ht' & He).
  { unfold without_specifier in Hp. destruct (type_specifier (g_strstrip p)) as [[t e]|] eqn:E; [|eauto].
    exists t, e. split; [done|]. split; [by eapply type_specifier_known|done]. }
  destruct (IH tcp' Ht') as (rs & Hr & Hok). rewrite Hr. unfold element_ok in He.
  destruct (CStr.strchr_split "-" (skip_blank e)) as [[a h]|].
  - destruct He as (Hh & H1 & H2). rewrite bool_decide_false by done. eexists. split; [done|].
    constructor; [|done]. split; [done|]. done.
  - bdec (skip_blank e = EmptyString) as Hne; [eauto|]. eexists. split; [done|].
    constructor; [|done]. specialize (He Hne). split; [simpl; lia|]. simpl. split; [lia|done].
Qed.

Lemma in_ranges_spec pnum ptype l : in_ranges_loop pnum ptype l = true <->
  exists r, r ∈ l /\ rtype r = ptype /\ start r <= pnum <= rend r.
Proof.
  induction l as [|r l IH]; simpl; [split; [done|intros (? & ? & _); set_solver]|].
  setoid_rewrite elem_of_cons. bdec (rtype r = ptype) as Ht; simpl.
  - destruct ((start r <=? pnum) && (pnum <=? rend r)) eqn:E.
    + split; [|done]. intros _. exists r. split; [by left|]. split; [done|lia].
    + rewrite IH. split; [intros (x & ? & ?); eauto|]. intros (x & [->|Hx] & ? & ?); [lia|eauto].
  - rewrite IH. split; [intros (x & ? & ?); eauto|]. intros (x & [->|Hx] & ? & ?); [done|eauto].
Qed.

(** A text that [validate_port_range] accepts is turned into ranges without
    a failing assertion, every range runs from a port number to a port number not
    below it (1 to 65535) on TCP or UDP, and a port is found in them exactly when
    one of the ranges of its protocol contains it. *)
Theorem validated_ranges `{Glib} (s : string) (Hv : validate_port_range (Some s) = 0) :
  exists rs, port_range_ranges (Some s) = Ret rs /\ Forall range_ok rs
    /\ forall pnum ptype, port_in_port_ranges pnum ptype (Some rs) = true <->
         exists r, r ∈ rs /\ rtype r = ptype /\ start r <= pnum <= rend r.
Proof.
  unfold validate_port_range in Hv. destruct (bool_decide _); [done|].
  destruct (forallb _ _) eqn:E in Hv; [|done]. rewrite forallb_forall in E.
  destruct (ranges_loop_ok (g_strsplit "," (newlines_to_commas (skip_blank s))) PORT_PROTOCOL_TCP)
    as (rs & Hr & Hok); [done| |].
  { apply Forall_forall. intros p Hp. apply valid_element_ok, E. by apply list_elem_of_In. }
  exists rs. split; [done|]. split; [done|]. intros pnum ptype. unfold port_in_port_ranges.
  rewrite <- in_ranges_spec. destruct ((pnum <? 0) || (65536 <? pnum)) eqn:Ep; [|done].
  split; [done|]. intros (r & Hin & _ & Hp)%in_ranges_spec.
  rewrite Forall_forall in Hok. destruct (Hok r Hin) as (H1 & H2 & _). lia.
Qed.

Lemma validated_ranges_witness :
  validate_port_range (Some "T:1-1024,U:53"%string) = 0 /\
  exists rs, port_range_ranges (Some "T:1-1024,U:53"%string) = Ret rs
    /\ port_in_port_ranges 53 PORT_PROTOCOL_UDP (Some rs) = true.
Proof.
  assert (validate_port_range (Some "T:1-1024,U:53"%string) = 0) as Hv by reflexivity.
  split; [exact Hv|]. destruct (validated_ranges "T:1-1024,U:53" Hv) as (rs & H1 & _ & H3).
  exists rs. split; [exact H1|]. apply H3. vm_compute in H1. injection H1 as <-.
  exists (mk_range 53 53 PORT_PROTOCOL_UDP 0). split; [set_solver|]. split; [reflexivity|simpl; lia].
Defined.

End PortRanges.
