(* ===== verification/PlugsReq.v ===== *)
(** * Requirements of a plugin ([plugs_req.c], [utils.c], [plugutils.c])

    Whether the knowledge base of the host satisfies what a plugin asks for, the
    ports two plugins have in common, the limits on hosts and checks run at the
    same time, and the escaping of texts sent between processes.  Lists of names
    ([struct arglist] cells of type ARG_INT) are the [names] of the scheduler;
    the preferences are an [arglist]. *)

From S2P Require Import Prelude Kb Arglists Hosts PortRanges Scheduler.
From stdpp Require Import base gmap sets list strings.
From Stdlib Require Import Ascii ZArith Lia.
Local Open Scope Z_scope.

Module PlugsReq.
Import PortRanges Scheduler.
Abbreviation kb_t := (option (gmap Z (list Kb.kb_item))).
Abbreviation prefs := (option (list Arglists.arg)).

(** ** Escaping ([addslashes], [rmslashes]) *)

Definition backslash : ascii := "\"%char.
Definition newline : ascii := "010"%char.
Definition creturn : ascii := "013"%char.

Fixpoint addslashes (s : string) : string :=
  match s with
  | EmptyString => EmptyString
  | String c s' =>
      if decide (c = backslash) then String backslash (String backslash (addslashes s'))
      else if decide (c = newline) then String backslash (String "n" (addslashes s'))
      else if decide (c = creturn) then String backslash (String "r" (addslashes s'))
      else String c (addslashes s')
  end.

(** An unknown escape leaves a zero byte, the end of the result. *)
Fixpoint rmslashes (s : string) : string :=
  match s with
  | EmptyString => EmptyString
  | String c s' =>
      if decide (c = backslash) then
        match s' with
        | String d s'' =>
            if decide (d = "r"%char) then String creturn (rmslashes s'')
            else if decide (d = "n"%char) then String newline (rmslashes s'')
            else if decide (d = backslash) then String backslash (rmslashes s'')
            else EmptyString
        | EmptyString => EmptyString
        end
      else String c (rmslashes s')
  end.

(** ** Lists of names ([utils.c]) *)

Fixpoint common_loop (l1 l2 : list string) : bool :=
  match l1 with
  | [] => false
  | x :: l1' => if existsb (fun y => bool_decide (x = y)) l2 then true else common_loop l1' l2
  end.

Definition common (l1 l2 : names) : bool :=
  match l1, l2 with Some l1, Some l2 => common_loop l1 l2 | _, _ => false end.

Definition skip_spaces : string -> string := CStr.skip (fun c => bool_decide (c = " "%char)).

Fixpoint list2arglist_loop (fuel : nat) (text : string) : list string :=
  let last := skip_spaces text in
  let tail := if bool_decide (last = EmptyString) then [] else [last] in
  match fuel with
  | O => tail
  | S n =>
      match CStr.strchr_split "," text with
      | Some (t, rest) =>
          let t := skip_spaces t in
          if bool_decide (t = EmptyString) then list2arglist_loop n rest
          else t :: list2arglist_loop n rest
      | None => tail
      end
  end.

(** Every iteration shortens the text. *)
Definition list2arglist (text : option string) : names :=
  match text with
  | None => None
  | Some s => Some (list2arglist_loop (String.length s) s)
  end.

Section Requirements.
Context `{G : Glib}.

(** A preference that holds a string. *)
Definition pref_str (p : prefs) (name : string) : option string :=
  match Arglists.arg_get_value p name with Arglists.VStr s => Some s | _ => None end.

Definition get_max_hosts_number (preferences : prefs) (global_max_hosts : Z) : Z :=
  match pref_str preferences "max_hosts" with
  | Some v =>
      let max_hosts := CStr.atoi v in
      if max_hosts <=? 0 then global_max_hosts
      else if global_max_hosts <? max_hosts then global_max_hosts
      else max_hosts
  | None => global_max_hosts
  end.

Definition get_max_checks_number (preferences : prefs) (global_max_checks : Z) : Z :=
  match pref_str preferences "max_checks" with
  | Some v =>
      let max_checks := CStr.atoi v in
      if max_checks <=? 0 then global_max_checks
      else if global_max_checks <? max_checks then global_max_checks
      else max_checks
  | None => global_max_checks
  end.

Definition get_active_plugins_number (plugins : option (list nvt_arg)) : Z :=
  Z.of_nat (length (filter (fun a => arg_launch a <> LAUNCH_DISABLED) (default [] plugins))).

(** ** State of a port ([plugutils.c]) *)

Definition unscanned_ports_as_closed (p : prefs) (ptype : PortRanges.port_protocol) : Z :=
  let unscanned :=
    if decide (ptype = PortRanges.PORT_PROTOCOL_UDP) then pref_str p "unscanned_closed_udp"
    else pref_str p "unscanned_closed" in
  if bool_decide (unscanned = Some "yes"%string) then 0 else 1.

Definition kb_get_port_state_proto (kb : kb_t) (p : prefs) (portnum : Z) (proto : string)
  : outcome Z :=
  let '(port_type, kbstr) :=
    if decide (proto = "udp"%string) then (PortRanges.PORT_PROTOCOL_UDP, "Host/udp_scanned"%string)
    else (PortRanges.PORT_PROTOCOL_TCP, "Host/scanned"%string) in
  if Kb.kb_item_get_int kb (Some kbstr) <=? 0 then Ret (unscanned_ports_as_closed p port_type)
  else
    match PortRanges.port_range_ranges (pref_str p "port_range") with
    | Ret ranges =>
        if negb (PortRanges.port_in_port_ranges portnum port_type (Some ranges))
        then Ret (unscanned_ports_as_closed p port_type)
        else
          let port_s := "Ports/" +:+ (proto +:+ ("/" +:+ CStr.dec portnum)) in
          Ret (if 0 <? Kb.kb_item_get_int kb (Some port_s) then 1 else 0)
    | NoReturn => NoReturn
    | Undef => Undef
    end.

(** ** Requirements ([plugs_req.c]) *)

Fixpoint closed_loop (kb : kb_t) (l : list string) (preferences : prefs) : outcome Z :=
  match l with
  | [] => Ret 0
  | name :: rest =>
      let iport := CStr.atoi name in
      if negb (iport =? 0) then
        match kb_get_port_state_proto kb preferences iport "tcp" with
        | Ret state => if negb (state =? 0) then Ret iport else closed_loop kb rest preferences
        | NoReturn => NoReturn
        | Undef => Undef
        end
      else if 0 <? Kb.kb_item_get_int kb (Some name) then Ret 1
      else closed_loop kb rest preferences
  end.

Definition get_closed_ports (kb : kb_t) (l : names) (preferences : prefs) : outcome Z :=
  match l with None => Ret (-1) | Some l => closed_loop kb l preferences end.

Fixpoint closed_udp_loop (kb : kb_t) (l : list string) (preferences : prefs) : outcome Z :=
  match l with
  | [] => Ret 0
  | name :: rest =>
      let iport := CStr.atoi name in
      if 0 <? iport then
        match kb_get_port_state_proto kb preferences iport "udp" with
        | Ret state => if negb (state =? 0) then Ret iport else closed_udp_loop kb rest preferences
        | NoReturn => NoReturn
        | Undef => Undef
        end
      else closed_udp_loop kb rest preferences
  end.

Definition get_closed_udp_ports (kb : kb_t) (l : names) (preferences : prefs) : outcome Z :=
  match l with None => Ret (-1) | Some l => closed_udp_loop kb l preferences end.

(** The first name of which the knowledge base has no item, resp. has one. *)
Fixpoint key_loop (wanted : bool) (kb : kb_t) (keys : list string) : option string :=
  match keys with
  | [] => None
  | k :: rest =>
      if Bool.eqb (HostSpec.is_some (Kb.kb_item_get_single kb (Some k) 0)) wanted then Some k
      else key_loop wanted kb rest
  end.

Definition key_missing (kb : kb_t) (keys : names) : option string :=
  match kb, keys with Some _, Some l => key_loop false kb l | _, _ => None end.
Definition key_present (kb : kb_t) (keys : names) : option string :=
  match kb, keys with Some _, Some l => key_loop true kb l | _, _ => None end.

Definition requirements_common_ports (plugin1 plugin2 : option scheduler_plugin) : names :=
  match plugin1, plugin2 with
  | Some p1, Some p2 =>
      match required_ports p1, required_ports p2 with
      | Some req1, Some req2 =>
          match flat_map (fun r1 => filter (fun r => r = r1) req2) req1 with
          | [] => None
          | ret => Some ret
          end
      | _, _ => None
      end
  | _, _ => None
  end.

Definition mandatory_requirements_met (kb : kb_t) (plugin : scheduler_plugin) : bool :=
  match key_missing kb (mandatory_keys plugin) with Some _ => false | None => true end.

(** The error buffer has 64 bytes.  [Ret None] is NULL: everything is fine. *)
Definition error_text (s : string) : option string := Some (CStr.take_str 63 s).

(** The level at which the checks stop. *)
Definition opti_is (opti : option string) (name : string) (n : Z) : bool :=
  match opti with Some o => bool_decide (o = name) || (CStr.atoi o =? n) | None => false end.

Definition requirements_plugin (kb : kb_t) (plugin : scheduler_plugin) (preferences : prefs)
  : outcome (option string) :=
  let opti := pref_str preferences "optimization_level" in
  let check_keys :=
    if opti_is opti "open_ports" 1 then Ret None
    else
      match key_missing kb (required_keys plugin) with
      | Some missing => Ret (error_text ("because the key " +:+ (missing +:+ " is missing")))
      | None =>
          if opti_is opti "required_keys" 2 then Ret None
          else
            match key_present kb (excluded_keys plugin) with
            | Some present => Ret (error_text ("because the key " +:+ (present +:+ " is present")))
            | None => Ret None
            end
      end in
  match get_closed_ports kb (required_ports plugin) preferences with
  | Ret tcp =>
      if HostSpec.is_some (required_ports plugin) && (tcp =? 0)
      then Ret (error_text "none of the required tcp ports are open")
      else
        match get_closed_udp_ports kb (required_udp_ports plugin) preferences with
        | Ret udp =>
            if HostSpec.is_some (required_udp_ports plugin) && (udp =? 0)
            then Ret (error_text "none of the required udp ports are open")
            else check_keys
        | NoReturn => NoReturn
        | Undef => Undef
        end
  | NoReturn => NoReturn
  | Undef => Undef
  end.

End Requirements.

Example common1 : list2arglist (Some "139, 445,, 21"%string) = Some ["139"; "445"; "21"]%string.
Proof. reflexivity. Qed.

(** ** Lemmas *)

Lemma common_loop_spec l1 l2 : common_loop l1 l2 = true <-> exists x, x ∈ l1 /\ x ∈ l2.
Proof.
  induction l1 as [|x l1 IH]; simpl; [split; [done|intros (? & ? & _); set_solver]|].
  destruct (existsb _ l2) eqn:E.
  - apply existsb_exists in E as (y & Hy & He). apply bool_decide_eq_true in He as <-.
    split; [|done]. intros _. exists x. split; [by left|]. by apply list_elem_of_In.
  - rewrite IH. setoid_rewrite elem_of_cons. split; [intros (y & ? & ?); eauto|].
    intros (y & [->|Hy] & Hy2); [|eauto]. exfalso.
    assert (existsb (fun y => bool_decide (x = y)) l2 = true) as Ht; [|congruence].
    apply existsb_exists. exists x. split; [by apply list_elem_of_In|by apply bool_decide_eq_true].
Qed.

Lemma common_ports_elem p1 p2 x :
  x ∈ default [] (requirements_common_ports (Some p1) (Some p2))
  <-> x ∈ default [] (required_ports p1) /\ x ∈ default [] (required_ports p2).
Proof.
  unfold requirements_common_ports.
  destruct (required_ports p1) as [r1|]; [|simpl; set_solver].
  destruct (required_ports p2) as [r2|]; [|simpl; set_solver]. simpl.
  assert (x ∈ flat_map (fun r1 => filter (fun r => r = r1) r2) r1 <-> x ∈ r1 /\ x ∈ r2) as <-.
  { rewrite list_elem_of_In, in_flat_map. setoid_rewrite <- list_elem_of_In.
    setoid_rewrite list_elem_of_filter. naive_solver. }
  by destruct (flat_map _ r1).
Qed.

Section ReqLemmas.
Context `{G : Glib}.

(** A port of the required list is accepted. *)
Definition tcp_satisfied (kb : kb_t) (p : prefs) (name : string) : Prop :=
  if CStr.atoi name =? 0 then 0 < Kb.kb_item_get_int kb (Some name)
  else exists n, kb_get_port_state_proto kb p (CStr.atoi name) "tcp" = Ret n /\ n <> 0.

Definition udp_satisfied (kb : kb_t) (p : prefs) (name : string) : Prop :=
  0 < CStr.atoi name
  /\ exists n, kb_get_port_state_proto kb p (CStr.atoi name) "udp" = Ret n /\ n <> 0.

(** The text of port ranges is one that was checked. *)
Definition ranges_valid (p : prefs) : Prop :=
  exists s rs, pref_str p "port_range" = Some s /\ PortRanges.port_range_ranges (Some s) = Ret rs.

Lemma port_state_returns kb p n proto : ranges_valid p ->
  exists r, kb_get_port_state_proto kb p n proto = Ret r.
Proof.
  intros (s & rs & Hs & Hr). unfold kb_get_port_state_proto. rewrite Hs, Hr.
  destruct (decide (proto = "udp"%string)); destruct (_ <=? 0); eauto; destruct (negb _); eauto.
Qed.

Lemma closed_loop_spec kb p l : ranges_valid p ->
  exists r, closed_loop kb l p = Ret r /\ (r <> 0 <-> exists name, name ∈ l /\ tcp_satisfied kb p name).
Proof.
  intros Hp. induction l as [|name l (r & Hr & IH)]; simpl.
  { exists 0. split; [done|]. split; [done|]. intros (? & ? & _). set_solver. }
  setoid_rewrite elem_of_cons. rewrite Hr.
  assert (~ tcp_satisfied kb p name -> (exists x, (x = name \/ x ∈ l) /\ tcp_satisfied kb p x)
            <-> exists x, x ∈ l /\ tcp_satisfied kb p x) as Hskip by naive_solver.
  destruct (CStr.atoi name =? 0) eqn:E0; simpl.
  - destruct (0 <? Kb.kb_item_get_int kb (Some name)) eqn:E1.
    + exists 1. split; [done|]. split; [|done]. intros _. exists name.
      split; [by left|]. unfold tcp_satisfied. rewrite E0. lia.
    + exists r. split; [done|]. rewrite Hskip; [done|]. unfold tcp_satisfied. rewrite E0. lia.
  - destruct (port_state_returns kb p (CStr.atoi name) "tcp" Hp) as [n Hn]. rewrite Hn.
    destruct (n =? 0) eqn:En; simpl.
    + exists r. split; [done|]. rewrite Hskip; [done|]. unfold tcp_satisfied. rewrite E0, Hn.
      intros (n' & [= <-] & ?). lia.
    + exists (CStr.atoi name). split; [done|]. split; [|lia]. intros _. exists name.
      split; [by left|]. unfold tcp_satisfied. rewrite E0, Hn. exists n. split; [done|lia].
Qed.

Lemma closed_udp_loop_spec kb p l : ranges_valid p ->
  exists r, closed_udp_loop kb l p = Ret r
    /\ (r <> 0 <-> exists name, name ∈ l /\ udp_satisfied kb p name).
Proof.
  intros Hp. induction l as [|name l (r & Hr & IH)]; simpl.
  { exists 0. split; [done|]. split; [done|]. intros (? & ? & _). set_solver. }
  setoid_rewrite elem_of_cons. rewrite Hr.
  assert (~ udp_satisfied kb p name -> (exists x, (x = name \/ x ∈ l) /\ udp_satisfied kb p x)
            <-> exists x, x ∈ l /\ udp_satisfied kb p x) as Hskip by naive_solver.
  destruct (0 <? CStr.atoi name) eqn:E0; simpl.
  - destruct (port_state_returns kb p (CStr.atoi name) "udp" Hp) as [n Hn]. rewrite Hn.
    destruct (n =? 0) eqn:En; simpl.
    + exists r. split; [done|]. rewrite Hskip; [done|]. unfold udp_satisfied. rewrite Hn.
      intros (_ & n' & [= <-] & ?). lia.
    + exists (CStr.atoi name). split; [done|]. split; [|lia]. intros _. exists name.
      split; [by left|]. unfold udp_satisfied. rewrite Hn. split; [lia|]. exists n. split; [done|lia].
  - exists r. split; [done|]. rewrite Hskip; [done|]. unfold udp_satisfied. lia.
Qed.

Lemma key_loop_spec w kb l : key_loop w kb l = None <->
  forall k, k ∈ l -> HostSpec.is_some (Kb.kb_item_get_single kb (Some k) 0) <> w.
Proof.
  induction l as [|k l IH]; simpl; [split; [set_solver|done]|].
  setoid_rewrite elem_of_cons. destruct (Bool.eqb _ w) eqn:E.
  - apply Bool.eqb_prop in E. split; [done|]. intros H. by destruct (H k (or_introl eq_refl)).
  - apply Bool.eqb_false_iff in E. rewrite IH. naive_solver.
Qed.

Definition has_key (kb : kb_t) (k : string) : Prop := Kb.kb_item_get_single kb (Some k) 0 <> None.

Lemma key_missing_spec m l :
  key_missing (Some m) l = None <-> forall k, k ∈ default [] l -> has_key (Some m) k.
Proof.
  unfold key_missing, has_key. destruct l as [l|]; [|simpl; set_solver].
  rewrite key_loop_spec. simpl. split; intros H k Hk; specialize (H k Hk);
    by destruct (Kb.find_single k 0 _).
Qed.

Lemma key_present_spec m l :
  key_present (Some m) l = None <-> forall k, k ∈ default [] l -> ~ has_key (Some m) k.
Proof.
  unfold key_present, has_key. destruct l as [l|]; [|simpl; set_solver].
  rewrite key_loop_spec. simpl. split; intros H k Hk; specialize (H k Hk);
    destruct (Kb.find_single k 0 _); naive_solver.
Qed.

(** What the keys checks come to. *)
Definition keys_ok (kb : kb_t) (plugin : scheduler_plugin) (p : prefs) : Prop :=
  opti_is (pref_str p "optimization_level") "open_ports" 1 = true
  \/ (forall k, k ∈ default [] (required_keys plugin) -> has_key kb k)
     /\ (opti_is (pref_str p "optimization_level") "required_keys" 2 = true
         \/ forall k, k ∈ default [] (excluded_keys plugin) -> ~ has_key kb k).

(** With a checked text the check of the requirements has a result. *)
Lemma requirements_returns kb plugin p : ranges_valid p ->
  exists r, requirements_plugin kb plugin p = Ret r.
Proof.
  intros Hp. unfold requirements_plugin, get_closed_ports, get_closed_udp_ports.
  assert (exists r, match required_ports plugin with None => Ret (-1) | Some l => closed_loop kb l p end = Ret r)
    as (r1 & ->).
  { destruct (required_ports plugin) as [l|]; [|eauto]. by destruct (closed_loop_spec kb p l Hp) as (r & -> & _); eauto. }
  assert (exists r, match required_udp_ports plugin with None => Ret (-1) | Some l => closed_udp_loop kb l p end = Ret r)
    as (r2 & ->).
  { destruct (required_udp_ports plugin) as [l|]; [|eauto].
    by destruct (closed_udp_loop_spec kb p l Hp) as (r & -> & _); eauto. }
  repeat case_match; eauto.
Qed.

(** ** Properties *)

(** C27: With a checked port range text, the requirements of a plugin are found
    to be met exactly when one of its TCP ports and one of its UDP ports is
    accepted (where it asks for any), and, unless the optimization level stops
    the check there, the knowledge base has every required key and, unless the
    level stops it there, none of the excluded keys. *)
Theorem requirements_met_iff (m : gmap Z (list Kb.kb_item)) (plugin : scheduler_plugin) (p : prefs)
  (Hp : ranges_valid p) :
  exists r, requirements_plugin (Some m) plugin p = Ret r /\
    (r = None <->
       (forall l, required_ports plugin = Some l -> exists name, name ∈ l /\ tcp_satisfied (Some m) p name)
       /\ (forall l, required_udp_ports plugin = Some l ->
             exists name, name ∈ l /\ udp_satisfied (Some m) p name)
       /\ keys_ok (Some m) plugin p).
Proof.
  unfold requirements_plugin, get_closed_ports, get_closed_udp_ports.
  assert (exists r, match required_ports plugin with None => Ret (-1) | Some l => closed_loop (Some m) l p end
     = Ret r /\ (HostSpec.is_some (required_ports plugin) && (r =? 0) = false <->
        forall l, required_ports plugin = Some l -> exists name, name ∈ l /\ tcp_satisfied (Some m) p name))
    as (r1 & -> & H1).
  { destruct (required_ports plugin) as [l|]; [|by eexists].
    destruct (closed_loop_spec (Some m) p l Hp) as (r & -> & H). exists r. split; [done|]. simpl.
    rewrite Z.eqb_neq, H. naive_solver. }
  assert (exists r, match required_udp_ports plugin with
                    | None => Ret (-1) | Some l => closed_udp_loop (Some m) l p end
     = Ret r /\ (HostSpec.is_some (required_udp_ports plugin) && (r =? 0) = false <->
        forall l, required_udp_ports plugin = Some l -> exists name, name ∈ l /\ udp_satisfied (Some m) p name))
    as (r2 & -> & H2).
  { destruct (required_udp_ports plugin) as [l|]; [|by eexists].
    destruct (closed_udp_loop_spec (Some m) p l Hp) as (r & -> & H). exists r. split; [done|]. simpl.
    rewrite Z.eqb_neq, H. naive_solver. }
  setoid_rewrite <- H1. setoid_rewrite <- H2. clear H1 H2.
  destruct (_ && (r1 =? 0)); [eexists; split; [done|naive_solver]|].
  destruct (_ && (r2 =? 0)); [eexists; split; [done|naive_solver]|].
  unfold keys_ok. destruct (opti_is _ "open_ports" 1); [eexists; split; [done|naive_solver]|].
  pose proof (key_missing_spec m (required_keys plugin)) as Hm.
  destruct (key_missing _ _); [eexists; split; [done|naive_solver]|].
  destruct (opti_is _ "required_keys" 2); [eexists; split; [done|naive_solver]|].
  pose proof (key_present_spec m (excluded_keys plugin)) as Hx.
  destruct (key_present _ _); eexists; (split; [done|naive_solver]).
Qed.

(** Two plugins have a conflict, a required port in common that must not
    be tested by two plugins at a time, exactly when some port is in the required
    ports of both and in the list of such ports. *)
Theorem port_conflict_iff (p1 p2 : scheduler_plugin) (non_simult_ports : list string) :
  common (requirements_common_ports (Some p1) (Some p2)) (Some non_simult_ports) = true <->
  exists port, port ∈ default [] (required_ports p1) /\ port ∈ default [] (required_ports p2)
               /\ port ∈ non_simult_ports.
Proof.
  pose proof (common_ports_elem p1 p2) as He. unfold common.
  destruct (requirements_common_ports _ _) as [l|]; simpl in He.
  - rewrite common_loop_spec. split; intros (x & Hx); exists x; specialize (He x); tauto.
  - split; [done|]. intros (x & H1 & H2 & _).
    specialize (He x). set_solver.
Qed.

(** The number of plugins to run at a time, whatever the client's preference says. *)
Lemma max_checks_bounds (preferences : prefs) (global_max_checks : Z) (Hg : 0 < global_max_checks) :
  1 <= get_max_checks_number preferences global_max_checks <= global_max_checks.
Proof.
  unfold get_max_checks_number. destruct (pref_str _ _); [|lia].
  destruct (_ <=? 0) eqn:?; [lia|]. destruct (_ <? _) eqn:?; lia.
Qed.

End ReqLemmas.

(** Removing the escapes of an escaped text gives the text back. *)
Theorem slashes_roundtrip (s : string) : rmslashes (addslashes s) = s.
Proof.
  induction s as [|c s IH]; [done|]. cbn [addslashes].
  repeat case_decide; subst; cbn [rmslashes]; repeat case_decide; rewrite ?IH; done.
Qed.

(** ** Witnesses *)

Definition demo_prefs : prefs :=
  Some [Arglists.Arg "port_range" Arglists.ARG_STRING (Arglists.VStr "1-100") 0 (Arglists.mkhash "port_range")].

Lemma requirements_met_iff_witness :
  ranges_valid demo_prefs /\
  exists r, requirements_plugin (Some ∅) (mk_plugin 3 0 (Some ["80"%string]) None (Some ["k"%string]) None None)
              demo_prefs = Ret r /\ r <> None.
Proof.
  assert (ranges_valid demo_prefs) as Hp by (exists "1-100"%string; eexists; split; vm_compute; reflexivity).
  split; [exact Hp|].
  destruct (requirements_met_iff ∅ (mk_plugin 3 0 (Some ["80"%string]) None (Some ["k"%string]) None None)
              demo_prefs Hp) as (r & H1 & H2).
  exists r. split; [exact H1|]. intros Hr. destruct (proj1 H2 Hr) as (_ & _ & [Hk|[Hk _]]).
  - vm_compute in Hk. discriminate.
  - apply (Hk "k"%string); [set_solver|reflexivity].
Defined.

End PlugsReq.
