(* ===== verification/PluginLaunch.v ===== *)
(** * The process manager of a host scan ([pluginlaunch.c])

    The static table [processes] of 32 slots and the counters around it are the
    record [pm]; a slot is free when its [pid] is not positive.  What the running
    processes do is the environment: in round [k] (one [select] followed by an
    update) whether [select] finds a socket ready, which slots report their end
    and what the clock says.  Loops that wait for processes take fuel.

    The file ends with the implementation of the interface [ProcessManager] of
    the scheduler and the proof of its laws. *)

From S2P Require Import Prelude Arglists Hosts PortRanges Scheduler PlugsReq.
From stdpp Require Import base gmap sets list strings.
From Stdlib Require Import Ascii ZArith Lia.
Local Open Scope Z_scope.

Module PluginLaunch.
Import Scheduler PlugsReq.

Definition MAX_PROCESSES : Z := 32.

(** [struct running]: what the manager itself reads of it. *)
Record running := mk_running
  { pid : Z;
    plugin : nat;
    start : Z;        (* seconds *)
    timeout : Z;
    alive : bool }.

Definition zeroed : running := mk_running 0 0 0 0 false.

Record pm := mk_pm
  { processes : list running;
    num_running_processes : Z;
    max_running_processes : Z;
    old_max_running_processes : Z;
    round : nat }.      (* rounds of the environment so far *)

Definition set_processes ps n (m : pm) : pm :=
  mk_pm ps n (max_running_processes m) (old_max_running_processes m) (round m).
Definition set_max x (m : pm) : pm :=
  mk_pm (processes m) (num_running_processes m) x (old_max_running_processes m) (round m).
Definition next_round (m : pm) : pm :=
  mk_pm (processes m) (num_running_processes m) (max_running_processes m)
    (old_max_running_processes m) (S (round m)).

Definition in_use (r : running) : bool := 0 <? pid r.

(** What the environment does. *)
Record environment := mk_env
  { ready : nat -> bool;               (* [select] in round k returns > 0 *)
    ended : nat -> nat -> bool;        (* round, slot: its end is read from the socket *)
    clock : nat -> Z;
    pid_alive : nat -> Z -> bool }.    (* [process_alive] after k rounds *)

Section Env.
Context (env : environment).

(** [process_alive]. *)
Definition process_alive (k : nat) (pid : Z) : bool :=
  if pid =? 0 then false else pid_alive env k pid.

(** ** Rounds *)

(** [process_internal_msg] for every ready socket. *)
Definition read_slot (k : nat) (i : nat) (r : running) : running :=
  if in_use r && ended env k i
  then mk_running (pid r) (plugin r) (start r) (timeout r) false else r.

Definition read_running_processes (m : pm) : pm :=
  if num_running_processes m =? 0 then m
  else if negb (ready env (round m)) then m
  else
    let ps := imap (read_slot (round m)) (processes m) in
    let flag := existsb in_use (processes m) in
    set_processes ps (if negb flag && negb (num_running_processes m =? 0) then 0
                      else num_running_processes m) m.

(** One slot of the loop of [update_running_processes]: whether it is freed. *)
Definition over (now : Z) (r : running) : bool :=
  in_use r && (negb (alive r) || ((0 <? timeout r) && (timeout r <? now - start r))).

Fixpoint update_loop (now : Z) (ps : list running) (num : Z) (st : states)
  : list running * Z * states :=
  match ps with
  | [] => ([], num, st)
  | r :: rest =>
      if over now r then
        let '(rest, num, st) := update_loop now rest (num - 1) (<[plugin r := PLUGIN_STATUS_DONE]> st) in
        (zeroed :: rest, num, st)
      else
        let '(rest, num, st) := update_loop now rest num st in (r :: rest, num, st)
  end.

Definition update_running_processes (m : pm) (st : states) : pm * states :=
  if num_running_processes m =? 0 then (m, st)
  else
    let '(ps, num, st) := update_loop (clock env (round m)) (processes m) (num_running_processes m) st in
    (set_processes ps num m, st).

Definition read_and_update (m : pm) (st : states) : pm * states :=
  let '(m, st) := update_running_processes (read_running_processes m) st in (next_round m, st).

(** ** Waiting *)

(** Rounds until [stop] holds of the counter, tested before each round. *)
Fixpoint rounds_until (stop : pm -> bool) (fuel : nat) (m : pm) (st : states) : outcome (pm * states) :=
  if stop m then Ret (m, st)
  else
    match fuel with
    | O => NoReturn
    | S n => let '(m, st) := read_and_update m st in rounds_until stop n m st
    end.

(** [pluginlaunch_wait_for_free_process]: until the number has changed, tested
    after each round. *)
Definition wait_for_free_process (fuel : nat) (m : pm) (st : states) : outcome (pm * states) :=
  let num := num_running_processes m in
  let '(m, st) := read_and_update m st in
  rounds_until (fun m => negb (num_running_processes m =? num)) fuel m st.

(** [pluginlaunch_wait]: until nothing runs. *)
Definition pluginlaunch_wait (fuel : nat) (m : pm) (st : states) : outcome (pm * states) :=
  let '(m, st) := read_and_update m st in
  rounds_until (fun m => num_running_processes m =? 0) fuel m st.

(** ** Start, stop, limits *)

Definition pluginlaunch_init (max_checks : Z) (m : pm) : pm :=
  mk_pm (replicate 32 zeroed) 0
    (if MAX_PROCESSES <=? max_checks then MAX_PROCESSES - 1 else max_checks) max_checks (round m).

Definition disable_parrallel_checks (m : pm) : pm := set_max 1 m.
Definition enable_parrallel_checks (m : pm) : pm := set_max (old_max_running_processes m) m.

(** The loop that kills what still runs. *)
Fixpoint kill_loop (ps : list running) (num : Z) (st : states) : list running * Z * states :=
  match ps with
  | [] => ([], num, st)
  | r :: rest =>
      if in_use r then
        let '(rest, num, st) := kill_loop rest (num - 1) (<[plugin r := PLUGIN_STATUS_DONE]> st) in
        (zeroed :: rest, num, st)
      else let '(rest, num, st) := kill_loop rest num st in (r :: rest, num, st)
  end.

Definition pluginlaunch_stop (m : pm) (st : states) : pm * states :=
  let m := read_running_processes m in
  let '(ps, num, st) := kill_loop (processes m) (num_running_processes m) st in
  (next_round (set_processes ps num m), st).

(** ** Launching *)

Section Launch.
Context `{G : Glib}.
(** The plugins and the ports that must not be tested by two at a time. *)
Context (plugins : list scheduler_plugin) (non_simult_ports_list : names).

Definition conflict (p q : nat) : bool :=
  common (requirements_common_ports (plugins !! p) (plugins !! q)) non_simult_ports_list.

(** For each slot in use with a port in conflict: rounds until its process (the
    [pid] is read again each time) is not alive. *)
Fixpoint wait_conflicts (fuel : nat) (slots : list nat) (upcoming : nat) (m : pm) (st : states)
  : outcome (pm * states) :=
  match slots with
  | [] => Ret (m, st)
  | r :: rest =>
      let slot := nth r (processes m) zeroed in
      if in_use slot && conflict (plugin slot) upcoming then
        match rounds_until (fun m => negb (process_alive (round m) (pid (nth r (processes m) zeroed))))
                fuel m st with
        | Ret (m, st) => wait_conflicts fuel rest upcoming m st
        | NoReturn => NoReturn
        | Undef => Undef
        end
      else wait_conflicts fuel rest upcoming m st
  end.

(** The first slot that is not in use, -1 if there is none. *)
Definition free_slot (ps : list running) : Z :=
  match break_at (fun r => negb (in_use r)) ps with
  | Some (before, _, _) => Z.of_nat (length before)
  | None => -1
  end.

Definition next_free_process (fuel : nat) (upcoming : nat) (m : pm) (st : states)
  : outcome (Z * pm * states) :=
  match wait_conflicts fuel (seq 0 32) upcoming m st with
  | Ret (m, st) => Ret (free_slot (processes m), m, st)
  | NoReturn => NoReturn
  | Undef => Undef
  end.

(** The preferences: "timeout.<oid>", and [preferences_plugins_timeout]. *)
Definition preferences_plugin_timeout (preferences : prefs) (oid : string) : Z :=
  let pref_name := "timeout." +:+ oid in
  if Arglists.arg_get_type preferences pref_name =? Arglists.ARG_STRING then
    match Arglists.arg_get_value preferences pref_name with
    | Arglists.VStr s => CStr.atoi s
    | _ => 0
    end
  else 0.

Definition launch_timeout (preferences : prefs) (plugins_timeout : Z) (oid : string) (p : nat) : Z :=
  let t := preferences_plugin_timeout preferences oid in
  let t := if t =? 0 then default 0 (Scheduler.timeout <$> plugins !! p) else t in
  if t =? 0 then
    if default 0 (category <$> plugins !! p) =? ACT_SCANNER then -1 else plugins_timeout
  else t.

(** [plugin_launch]: [fork] is the pid [nasl_plugin_launch] returns.  Without a
    free slot the table is written at index -1. *)
Definition plugin_launch (fuel : nat) (preferences : prefs) (plugins_timeout : Z) (oid : string)
    (p : nat) (fork : Z) (m : pm) (st : states) : outcome (Z * pm * states) :=
  match rounds_until (fun m => num_running_processes m <? max_running_processes m) fuel m st with
  | Ret (m, st) =>
      match next_free_process fuel p m st with
      | Ret (i, m, st) =>
          if i <? 0 then Undef
          else
            let slot := mk_running fork p (clock env (round m))
                          (launch_timeout preferences plugins_timeout oid p) true in
            let ps := <[Z.to_nat i := slot]> (processes m) in
            if 0 <? fork
            then Ret (fork, set_processes ps (num_running_processes m + 1) m, st)
            else Ret (fork, set_processes ps (num_running_processes m) m,
                      <[p := PLUGIN_STATUS_UNRUN]> st)
      | NoReturn => NoReturn
      | Undef => Undef
      end
  | NoReturn => NoReturn
  | Undef => Undef
  end.

End Launch.

End Env.

(** ** The invariant *)

(** The plugins in the slots in use. *)
Definition used (ps : list running) : list nat := plugin <$> filter (fun r => in_use r = true) ps.

(** The counter counts the slots in use, the plugins in them are distinct, and
    the plugins that run are these, and [pending] when one is about to be put in
    a slot. *)
Record pm_inv (pending : option nat) (m : pm) (st : states) : Prop := {
  inv_slots : length (processes m) = 32%nat;
  inv_count : num_running_processes m = Z.of_nat (length (used (processes m)));
  inv_nodup : NoDup (used (processes m));
  inv_pending p : pending = Some p -> p ∉ used (processes m);
  inv_running p : state_of st p = PLUGIN_STATUS_RUNNING <->
    p ∈ used (processes m) \/ pending = Some p }.

Lemma used_cons r ps : used (r :: ps) = if in_use r then plugin r :: used ps else used ps.
Proof. unfold used. rewrite filter_cons. by destruct (in_use r). Qed.

Lemma used_zeroed ps : used (zeroed :: ps) = used ps.
Proof. done. Qed.

Lemma used_app a b : used (a ++ b) = used a ++ used b.
Proof. unfold used. by rewrite filter_app, fmap_app. Qed.

Lemma used_none ps : existsb in_use ps = false -> used ps = [].
Proof.
  induction ps as [|r ps IH]; [done|]. simpl. rewrite orb_false_iff. intros [H1 H2].
  rewrite used_cons, H1. auto.
Qed.

Section EnvLemmas.
Context (env : environment).

Lemma used_imap (f : nat -> running -> running) ps :
  (forall i r, in_use (f i r) = in_use r /\ plugin (f i r) = plugin r) -> used (imap f ps) = used ps.
Proof.
  revert f. induction ps as [|r ps IH]; intros f Hf; [done|]. simpl. rewrite !used_cons.
  destruct (Hf 0%nat r) as [-> ->]. rewrite IH; [done|]. intros i r'. apply Hf.
Qed.

Lemma used_read k ps : used (imap (read_slot env k) ps) = used ps.
Proof. apply used_imap. intros i r. unfold read_slot. by destruct (_ && _). Qed.

Lemma read_inv o m st : pm_inv o m st -> pm_inv o (read_running_processes env m) st.
Proof.
  intros [Hl Hc Hn Hp Hr]. unfold read_running_processes.
  destruct (num_running_processes m =? 0); [done|].
  destruct (negb (ready env (round m))); [done|].
  split; simpl; rewrite ?length_imap, ?used_read; [done| |done|done|done].
  destruct (negb (existsb in_use (processes m)) && _) eqn:E; [|done].
  apply andb_true_iff in E as [E _]. apply negb_true_iff in E. by rewrite (used_none _ E).
Qed.

Lemma update_loop_spec now ps num st ps' num' st' :
  NoDup (used ps) -> update_loop now ps num st = (ps', num', st') ->
  length ps' = length ps /\ used ps' `sublist_of` used ps
  /\ num' - Z.of_nat (length (used ps')) = num - Z.of_nat (length (used ps))
  /\ forall p, state_of st' p =
       if decide (p ∈ used ps /\ ~ p ∈ used ps') then PLUGIN_STATUS_DONE else state_of st p.
Proof.
  revert num st ps' num' st'. induction ps as [|r ps IH]; intros num st ps' num' st' Hn; cbn [update_loop].
  { intros [= <- <- <-]. split; [done|]. split; [done|]. split; [done|]. intros p.
    rewrite decide_False; [done|]. intros [H _]. by apply not_elem_of_nil in H. }
  rewrite used_cons in *. destruct (over now r) eqn:Eo.
  - assert (in_use r = true) as Hi by (unfold over in Eo; by destruct (in_use r)).
    rewrite Hi in *. inv Hn. destruct (update_loop now ps _ _) as [[ps1 num1] st1] eqn:E.
    intros [= <- <- <-]. destruct (IH _ _ _ _ _ H2 E) as (I1 & I2 & I3 & I4).
    rewrite used_zeroed. split; [simpl; lia|]. split; [by apply sublist_cons|].
    split; [simpl; lia|]. intros p. rewrite I4, state_of_insert.
    assert (~ plugin r ∈ used ps1) by (intros Hx; by eapply elem_of_sublist in Hx).
    destruct (decide (plugin r = p)) as [<-|Hne].
    + rewrite (decide_False (P := plugin r ∈ used ps /\ _)) by tauto.
      rewrite decide_True; [done|]. split; [by left|done].
    + apply decide_ext. rewrite elem_of_cons. split; [intuition|]. intros [[->|?] ?]; done.
  - destruct (update_loop now ps num st) as [[ps1 num1] st1] eqn:E. intros [= <- <- <-].
    assert (NoDup (used ps)) as Hn' by (destruct (in_use r); [by inv Hn|done]).
    destruct (IH _ _ _ _ _ Hn' E) as (I1 & I2 & I3 & I4). rewrite used_cons.
    destruct (in_use r); [|split; [simpl; lia|done]]. inv Hn.
    split; [simpl; lia|]. split; [by apply sublist_skip|]. split; [simpl; lia|].
    intros p. rewrite I4. apply decide_ext. rewrite !elem_of_cons.
    split; [|intuition]. intros [Hp Hp']. split; [by right|]. intros [->|?]; done.
Qed.

(** A slot that is still in use holds the same process. *)
Definition slots_kept (ps ps' : list running) : Prop := forall i r',
  ps' !! i = Some r' -> in_use r' = true ->
  exists r, ps !! i = Some r /\ pid r = pid r' /\ plugin r = plugin r'.

Lemma slots_kept_refl ps : slots_kept ps ps.
Proof. intros i r Hr _. eauto. Qed.

Lemma slots_kept_trans a b c : slots_kept a b -> slots_kept b c -> slots_kept a c.
Proof.
  intros H1 H2 i r Hr Hi. destruct (H2 i r Hr Hi) as (r1 & Hr1 & Hp & Hq).
  destruct (H1 i r1 Hr1) as (r2 & Hr2 & ? & ?); [unfold in_use in *; congruence|].
  exists r2. split; [done|]. split; congruence.
Qed.

Lemma read_kept m : slots_kept (processes m) (processes (read_running_processes env m)).
Proof.
  unfold read_running_processes. destruct (_ =? 0); [apply slots_kept_refl|].
  destruct (negb (ready _ _)); [apply slots_kept_refl|]. simpl. intros i r'.
  rewrite list_lookup_imap. destruct (processes m !! i) as [r|]; [|done]. simpl. intros [= <-] _.
  exists r. split; [done|]. unfold read_slot. by destruct (_ && _).
Qed.

Lemma update_kept now ps num st : slots_kept ps (update_loop now ps num st).1.1.
Proof.
  revert num st. induction ps as [|r ps IH]; intros num st; [apply slots_kept_refl|]. simpl.
  destruct (over now r).
  - specialize (IH (num - 1) (<[plugin r:=PLUGIN_STATUS_DONE]> st)).
    destruct (update_loop now ps _ _) as [[ps1 n1] st1]. simpl in *.
    intros [|i] r'; simpl; [intros [= <-]; done|apply IH].
  - specialize (IH num st). destruct (update_loop now ps _ _) as [[ps1 n1] st1]. simpl in *.
    intros [|i] r'; simpl; [intros [= <-]; eauto|apply IH].
Qed.

(** What a round or several do. *)
Definition rounds_ok (m : pm) (st : states) (m' : pm) (st' : states) : Prop :=
  used (processes m') `sublist_of` used (processes m)
  /\ max_running_processes m' = max_running_processes m
  /\ old_max_running_processes m' = old_max_running_processes m
  /\ (round m <= round m')%nat
  /\ slots_kept (processes m) (processes m')
  /\ forall p, state_of st' p =
       if decide (p ∈ used (processes m) /\ ~ p ∈ used (processes m')) then PLUGIN_STATUS_DONE
       else state_of st p.

Lemma rounds_ok_refl m st : rounds_ok m st m st.
Proof.
  split; [done|]. split; [done|]. split; [done|]. split; [done|]. split; [apply slots_kept_refl|].
  intros p. rewrite decide_False; tauto.
Qed.

Lemma rounds_ok_trans m0 st0 m1 st1 m2 st2 :
  rounds_ok m0 st0 m1 st1 -> rounds_ok m1 st1 m2 st2 -> rounds_ok m0 st0 m2 st2.
Proof.
  intros (A1 & A2 & A3 & A4 & A5 & A6) (B1 & B2 & B3 & B4 & B5 & B6).
  split; [by etrans|]. split; [congruence|]. split; [congruence|]. split; [lia|].
  split; [by eapply slots_kept_trans|]. intros p. rewrite B6, A6.
  assert (p ∈ used (processes m1) -> p ∈ used (processes m0)) by (intros; by eapply elem_of_sublist).
  assert (p ∈ used (processes m2) -> p ∈ used (processes m1)) by (intros; by eapply elem_of_sublist).
  repeat case_decide; try done; exfalso; tauto.
Qed.

Lemma update_inv o m st m' st' :
  pm_inv o m st -> update_running_processes env m st = (m', st') ->
  pm_inv o m' st' /\ rounds_ok m st m' st'.
Proof.
  intros [Hl Hc Hn Hp Hr]. unfold update_running_processes.
  destruct (num_running_processes m =? 0); [intros [= <- <-]; split; [done|apply rounds_ok_refl]|].
  destruct (update_loop _ _ _ _) as [[ps num] st1] eqn:E. intros [= <- <-].
  destruct (update_loop_spec _ _ _ _ _ _ _ Hn E) as (I1 & I2 & I3 & I4).
  split.
  2:{ pose proof (update_kept (clock env (round m)) (processes m) (num_running_processes m) st) as Hk.
      rewrite E in Hk. by split. }
  assert (forall p, p ∈ used ps -> p ∈ used (processes m)) as Hsub by (intros; by eapply elem_of_sublist).
  split; simpl; [congruence|lia|by eapply sublist_NoDup| |].
  - intros p Ho Hx. by eapply Hp, Hsub.
  - intros p. rewrite I4. case_decide as Hd.
    + split; [done|]. intros [?|Ho]; [tauto|]. exfalso. by eapply Hp, Hd.
    + rewrite Hr. split; [|intros [?|?]; auto]. intros [Hx|?]; [|by right]. left.
      destruct (decide (p ∈ used ps)); [done|tauto].
Qed.

Lemma round_inv o m st m' st' :
  pm_inv o m st -> read_and_update env m st = (m', st') -> pm_inv o m' st' /\ rounds_ok m st m' st'.
Proof.
  intros Hi. unfold read_and_update.
  destruct (update_running_processes env (read_running_processes env m) st) as [m1 st1] eqn:E.
  intros [= <- <-]. destruct (update_inv _ _ _ _ _ (read_inv _ _ _ Hi) E) as [H1 H2].
  assert (used (processes (read_running_processes env m)) = used (processes m)) as Hu.
  { unfold read_running_processes. destruct (_ =? 0); [done|]. destruct (negb _); [done|].
    simpl. apply used_read. }
  split; [destruct H1; by split|]. destruct H2 as (A1 & A2 & A3 & A4 & A5 & A6). rewrite Hu in *.
  split; [done|]. split; [|split; [|split; [|split]]].
  - simpl. rewrite A2. unfold read_running_processes. destruct (_ =? 0); [done|]. by destruct (negb _).
  - simpl. rewrite A3. unfold read_running_processes. destruct (_ =? 0); [done|]. by destruct (negb _).
  - simpl. unfold read_running_processes in A4. destruct (_ =? 0); [simpl; lia|].
    destruct (negb _); simpl in *; lia.
  - eapply slots_kept_trans; [apply read_kept|exact A5].
  - done.
Qed.

Lemma rounds_until_inv o stop fuel m st m' st' :
  pm_inv o m st -> rounds_until env stop fuel m st = Ret (m', st') ->
  pm_inv o m' st' /\ rounds_ok m st m' st' /\ stop m' = true.
Proof.
  revert m st. induction fuel as [|n IH]; intros m st Hi; simpl; destruct (stop m) eqn:Es;
    try (intros [= <- <-]; split; [done|]; split; [apply rounds_ok_refl|done]); [done|].
  destruct (read_and_update env m st) as [m1 st1] eqn:E. intros E'.
  destruct (round_inv _ _ _ _ _ Hi E) as [H1 H2]. destruct (IH _ _ H1 E') as (H3 & H4 & H5).
  split; [done|]. split; [by eapply rounds_ok_trans|done].
Qed.

(** ** What has finished *)

Lemma rounds_finish o m st m' st' : pm_inv o m st -> rounds_ok m st m' st' ->
  forall p, state_of st' p = state_of st p
    \/ state_of st p = PLUGIN_STATUS_RUNNING /\ state_of st' p = PLUGIN_STATUS_DONE.
Proof.
  intros Hi (_ & _ & _ & _ & _ & H) p. rewrite H. case_decide as Hd; [|by left].
  right. split; [|done]. apply (inv_running _ _ _ Hi). left. apply Hd.
Qed.

Lemma rounds_some_finished o m st m' st' :
  pm_inv o m st -> pm_inv o m' st' -> rounds_ok m st m' st' ->
  num_running_processes m' <> num_running_processes m -> some_finished st st'.
Proof.
  intros Hi Hi' Hok Hne. split; [by eapply rounds_finish|].
  destruct Hok as (Hsub & _ & _ & _ & _ & H).
  destruct (decide (Forall (fun p => p ∈ used (processes m')) (used (processes m)))) as [Hall|Hex].
  - exfalso. apply Hne. rewrite (inv_count _ _ _ Hi), (inv_count _ _ _ Hi').
    rewrite Forall_forall in Hall. apply sublist_length in Hsub.
    pose proof (submseteq_length _ _ (NoDup_submseteq _ _ (inv_nodup _ _ _ Hi) Hall)). lia.
  - apply not_Forall_Exists in Hex; [|apply _]. apply Exists_exists in Hex as (p & Hp & Hnp).
    exists p. split; [apply (inv_running _ _ _ Hi); by left|]. rewrite H. by rewrite decide_True.
Qed.

Lemma wait_ok fuel m st : pm_inv None m st ->
  match wait_for_free_process env fuel m st with
  | Ret (m', st') => pm_inv None m' st' /\ rounds_ok m st m' st' /\ some_finished st st'
  | NoReturn => True
  | Undef => False
  end.
Proof.
  intros Hi. unfold wait_for_free_process.
  destruct (read_and_update env m st) as [m1 st1] eqn:E.
  destruct (round_inv _ _ _ _ _ Hi E) as [H1 R1].
  destruct (rounds_until env _ fuel m1 st1) as [[m2 st2]| |] eqn:E2; [|done|].
  - destruct (rounds_until_inv _ _ _ _ _ _ _ H1 E2) as (H2 & R2 & Hs).
    pose proof (rounds_ok_trans _ _ _ _ _ _ R1 R2) as R. split; [done|]. split; [done|].
    eapply rounds_some_finished; [exact Hi|exact H2|exact R|]. simpl in Hs. lia.
  - clear -E2. revert m1 st1 E2. induction fuel as [|n IH]; intros m1 st1; simpl;
      (destruct (negb _); [done|]); [done|]. destruct (read_and_update env m1 st1). apply IH.
Qed.

(** ** Progress *)

Lemma update_loop_lookup now ps num st i r : ps !! i = Some r ->
  let '(ps', num', _) := update_loop now ps num st in
  num' <= num /\ (over now r = true -> num' < num /\ ps' !! i = Some zeroed)
  /\ (over now r = false -> ps' !! i = Some r).
Proof.
  assert (forall ps num st, (update_loop now ps num st).1.2 <= num) as Hle.
  { clear. intros ps. induction ps as [|x ps IH]; intros num st; simpl; [lia|].
    destruct (over now x).
    - specialize (IH (num - 1) (<[plugin x:=PLUGIN_STATUS_DONE]> st)).
      destruct (update_loop _ _ _ _) as [[? ?] ?]. simpl in *. lia.
    - specialize (IH num st). by destruct (update_loop _ _ _ _) as [[? ?] ?]. }
  revert num st i. induction ps as [|x ps IH]; intros num st i Hr; [done|]. simpl.
  destruct (over now x) eqn:Ex.
  - pose proof (Hle ps (num - 1) (<[plugin x:=PLUGIN_STATUS_DONE]> st)) as Hl.
    specialize (IH (num - 1) (<[plugin x:=PLUGIN_STATUS_DONE]> st)).
    destruct (update_loop _ _ _ _) as [[ps1 n1] st1]. simpl in Hl.
    split; [lia|]. destruct i as [|i]; simpl in *; [split; [intros _; split; [lia|done]|congruence]|].
    destruct (IH i Hr) as (_ & I2 & I3). split; [|done]. intros Ho. split; [lia|by apply I2].
  - pose proof (Hle ps num st) as Hl. specialize (IH num st).
    destruct (update_loop _ _ _ _) as [[ps1 n1] st1]. simpl in Hl.
    split; [lia|]. destruct i as [|i]; simpl in *; [|by apply (IH i Hr)].
    simplify_eq. split; [congruence|done].
Qed.

(** A slot in use that reports its end in this round is freed in it. *)
Lemma round_progress o m st i r : pm_inv o m st ->
  processes m !! i = Some r -> in_use r = true ->
  let '(m', _) := read_and_update env m st in
  round m' = S (round m)
  /\ (num_running_processes m' = num_running_processes m ->
      (exists r', processes m' !! i = Some r' /\ in_use r' = true)
      /\ ~ (ready env (round m) = true /\ ended env (round m) i = true))
  /\ exists r', processes m' !! i = Some r' /\ (in_use r' = true \/ r' = zeroed)
       /\ (ready env (round m) = true -> ended env (round m) i = true -> r' = zeroed).
Proof.
  intros Hi Hr Hu. assert (plugin r ∈ used (processes m)) as Hin.
  { unfold used. apply list_elem_of_fmap_2, list_elem_of_filter. split; [done|].
    by eapply list_elem_of_lookup_2. }
  assert (num_running_processes m <> 0) as Hnz.
  { rewrite (inv_count _ _ _ Hi). destruct (used (processes m)); [set_solver|simpl; lia]. }
  set (m1 := read_running_processes env m).
  assert (round m1 = round m /\ num_running_processes m1 = num_running_processes m
    /\ exists r1, processes m1 !! i = Some r1 /\ in_use r1 = true
      /\ (ready env (round m) = true /\ ended env (round m) i = true -> alive r1 = false))
    as (Hrd & Hn1 & r1 & Hr1 & Hu1 & Hal).
  { pose proof (inv_count _ _ _ (read_inv _ _ _ Hi)) as Hc. fold m1 in Hc.
    assert (used (processes m1) = used (processes m)) as Hus.
    { unfold m1, read_running_processes. destruct (_ =? 0); [done|]. destruct (negb _); [done|].
      apply used_read. }
    rewrite Hus, <- (inv_count _ _ _ Hi) in Hc. unfold m1, read_running_processes in *.
    destruct (num_running_processes m =? 0) eqn:E0; [lia|].
    destruct (ready env (round m)) eqn:Erd; simpl.
    - split; [done|]. split; [exact Hc|]. exists (read_slot env (round m) i r).
      rewrite list_lookup_imap, Hr. split; [done|]. unfold read_slot. rewrite Hu. simpl.
      destruct (ended env (round m) i); simpl; [done|]. split; [done|]. by intros [_ ?].
    - split; [done|]. split; [done|]. exists r. split; [done|]. split; [done|]. by intros [? _]. }
  unfold read_and_update. fold m1. unfold update_running_processes.
  destruct (num_running_processes m1 =? 0) eqn:E1; [lia|].
  pose proof (update_loop_lookup (clock env (round m1)) (processes m1) (num_running_processes m1) st i r1 Hr1) as Hl.
  destruct (update_loop _ _ _ _) as [[ps' n'] st']. simpl. destruct Hl as (L1 & L2 & L3).
  split; [by rewrite Hrd|]. destruct (over (clock env (round m1)) r1) eqn:Eo.
  { destruct (L2 eq_refl) as [L4 L5]. split; [lia|]. exists zeroed. auto. }
  assert (~ (ready env (round m) = true /\ ended env (round m) i = true)) as Hnot.
  { intros Hend. specialize (Hal Hend). unfold over in Eo. by rewrite Hu1, Hal in Eo. }
  split; [intros _; eauto|]. exists r1. split; [by apply L3|]. split; [by left|]. intros. tauto.
Qed.

Lemma rounds_until_live o n num m st i r : pm_inv o m st ->
  processes m !! i = Some r -> in_use r = true -> num_running_processes m = num ->
  (exists j, (j < n)%nat /\ ready env (round m + j) = true /\ ended env (round m + j) i = true) ->
  rounds_until env (fun m => negb (num_running_processes m =? num)) n m st <> NoReturn.
Proof.
  revert m st r. induction n as [|n IH]; intros m st r Hi Hr Hu Hnum (j & Hj & Hrd & Hen); [lia|].
  simpl. destruct (negb _); [done|]. pose proof (round_progress _ _ st i r Hi Hr Hu) as Hp.
  destruct (read_and_update env m st) as [m1 st1] eqn:E. destruct Hp as (Hround & Hp & _).
  destruct (round_inv _ _ _ _ _ Hi E) as [H1 _].
  destruct (decide (num_running_processes m1 = num)) as [He|He].
  - destruct (Hp ltac:(congruence)) as [(r' & Hr' & Hu') Hnot].
    destruct j as [|j]; [rewrite Nat.add_0_r in *; tauto|].
    apply (IH m1 st1 r'); [done|done|done|done|]. exists j. rewrite Hround.
    replace (S (round m) + j)%nat with (round m + S j)%nat by lia. split; [lia|done].
  - destruct n; simpl; destruct (negb (num_running_processes m1 =? num)) eqn:En; done || lia.
Qed.

(** Every slot is heard of again within [F] rounds. *)
Definition fair (F : nat) : Prop := forall k i, exists j, (j < F)%nat
  /\ ready env (k + j) = true /\ ended env (k + j) i = true.

Lemma wait_live F m st p : fair F -> pm_inv None m st -> state_of st p = PLUGIN_STATUS_RUNNING ->
  wait_for_free_process env F m st <> NoReturn.
Proof.
  intros Hfair Hi Hp. apply (inv_running _ _ _ Hi) in Hp as [Hp|]; [|done].
  unfold used in Hp. apply list_elem_of_fmap in Hp as (r & -> & Hr).
  apply list_elem_of_filter in Hr as [Hu Hr]. apply list_elem_of_lookup in Hr as [i Hr].
  unfold wait_for_free_process. pose proof (round_progress _ _ st i r Hi Hr Hu) as Hpr.
  destruct (read_and_update env m st) as [m1 st1] eqn:E. destruct Hpr as (_ & Hpr & _).
  destruct (round_inv _ _ _ _ _ Hi E) as [H1 _].
  destruct (decide (num_running_processes m1 = num_running_processes m)) as [He|He].
  - destruct (Hpr He) as [(r' & Hr' & Hu') _].
    apply (rounds_until_live None F _ m1 st1 i r'); [done|done|done|done|]. apply Hfair.
  - destruct F; simpl; destruct (negb _) eqn:En; done || lia.
Qed.

End EnvLemmas.

(** ** The interface of the scheduler *)

Section Interface.
Context (env : environment) (F : nat).

#[export] Instance process_manager : ProcessManager pm := {|
  pluginlaunch_disable_parrallel_checks := disable_parrallel_checks;
  pluginlaunch_enable_parrallel_checks := enable_parrallel_checks;
  pluginlaunch_wait_for_free_process := wait_for_free_process env F |}.

#[export] Instance process_manager_laws : ProcessManagerLaws pm (pm_inv None).
Proof.
  split.
  - intros m st []. split; by split.
  - intros m st p [Hl Hc Hn Hp Hr] Hd. split; auto. intros q. rewrite state_of_insert.
    case_decide as E; [subst|apply Hr]. rewrite <- Hr, Hd. split; discriminate.
  - intros m st Hi. pose proof (wait_ok env F m st Hi) as H. simpl.
    destruct (wait_for_free_process env F m st) as [[m' st']| |]; tauto.
Qed.

Lemma process_manager_live : fair env F -> ProcessManagerLive pm (pm_inv None).
Proof. intros Hf m st p. by apply wait_live. Qed.

End Interface.

(** ** Launching a plugin *)

Section LaunchLemmas.
Context (env : environment).
Context (plugins : list scheduler_plugin) (ns : names).

Lemma rounds_until_defined stop fuel m st : rounds_until env stop fuel m st <> Undef.
Proof.
  revert m st. induction fuel as [|n IH]; intros m st; simpl; destruct (stop m); try done.
  destruct (read_and_update env m st). apply IH.
Qed.

Lemma wait_defined n m st : wait_for_free_process env n m st <> Undef.
Proof.
  unfold wait_for_free_process. destruct (read_and_update env m st). apply rounds_until_defined.
Qed.

Lemma wait_conflicts_defined fuel slots p m st :
  wait_conflicts env plugins ns fuel slots p m st <> Undef.
Proof.
  revert m st. induction slots as [|r rest IH]; intros m st; simpl; [done|].
  destruct (_ && _); [|apply IH]. destruct (rounds_until _ _ _ _ _) as [[m1 st1]| |] eqn:E; [apply IH|done|].
  by apply rounds_until_defined in E.
Qed.

(** A process that is dead stays dead. *)
Definition death_is_final : Prop := forall k k' x, (k <= k')%nat ->
  process_alive env k x = false -> process_alive env k' x = false.

(** The process in slot [r], if any, does not conflict with [p] or is dead. *)
Definition no_conflict (p : nat) (m : pm) (r : nat) : Prop := forall slot,
  processes m !! r = Some slot -> in_use slot = true ->
  conflict plugins ns (plugin slot) p = true -> process_alive env (round m) (pid slot) = false.

Lemma no_conflict_later p m st m' st' r : death_is_final -> rounds_ok m st m' st' ->
  no_conflict p m r -> no_conflict p m' r.
Proof.
  intros Hd (_ & _ & _ & Hr & Hk & _) Hn slot Hs Hu Hc.
  destruct (Hk r slot Hs Hu) as (slot0 & Hs0 & Hp & Hq).
  apply (Hd (round m)); [done|]. rewrite <- Hp. apply (Hn slot0); [done| |congruence].
  unfold in_use in *. congruence.
Qed.

Lemma wait_conflicts_inv o fuel slots p m st m' st' :
  pm_inv o m st -> wait_conflicts env plugins ns fuel slots p m st = Ret (m', st') ->
  pm_inv o m' st' /\ rounds_ok m st m' st'
  /\ (death_is_final -> forall r, r ∈ slots -> no_conflict p m' r).
Proof.
  revert m st. induction slots as [|r rest IH]; intros m st Hi; simpl.
  { intros [= <- <-]. split; [done|]. split; [apply rounds_ok_refl|set_solver]. }
  destruct (in_use _ && _) eqn:Ec.
  - destruct (rounds_until _ _ _ _ _) as [[m1 st1]| |] eqn:E; [|done..]. intros E'.
    destruct (rounds_until_inv _ _ _ _ _ _ _ _ Hi E) as (H1 & R1 & Hs).
    destruct (IH _ _ H1 E') as (H2 & R2 & Hc). split; [done|]. split; [by eapply rounds_ok_trans|].
    intros Hd q [->|Hq]%elem_of_cons; [|by apply Hc]. apply (no_conflict_later p m1 st1 m' st' _ Hd R2).
    intros slot Hl _ _. apply negb_true_iff in Hs. by rewrite (nth_lookup_Some _ _ _ _ Hl) in Hs.
  - intros E'. destruct (IH _ _ Hi E') as (H2 & R2 & Hc). split; [done|]. split; [done|].
    intros Hd q [->|Hq]%elem_of_cons; [|by apply Hc]. apply (no_conflict_later p m st m' st' _ Hd R2).
    intros slot Hl Hu Hcf. by rewrite (nth_lookup_Some _ _ _ _ Hl), Hu, Hcf in Ec.
Qed.

End LaunchLemmas.

(** Writing a slot that was free. *)
Lemma used_insert ps i r slot : ps !! i = Some r -> in_use r = false ->
  used (<[i := slot]> ps) ≡ₚ (if in_use slot then [plugin slot] else []) ++ used ps.
Proof.
  intros Hr Hu. rewrite <- (take_drop_middle ps i r Hr) at 2.
  rewrite insert_take_drop by (by eapply lookup_lt_Some).
  rewrite !used_app, !used_cons, Hu. destruct (in_use slot); [|done]. simpl.
  by rewrite <- Permutation_middle.
Qed.

Lemma free_slot_spec ps : (length (used ps) < length ps)%nat ->
  exists i r, free_slot ps = Z.of_nat i /\ ps !! i = Some r /\ in_use r = false.
Proof.
  unfold free_slot. induction ps as [|r ps IH]; simpl; [lia|]. rewrite used_cons.
  destruct (in_use r) eqn:Hu; simpl; intros Hl; [|by exists 0%nat, r].
  destruct IH as (i & r' & Hf & Hr' & Hu'); [lia|].
  destruct (break_at _ ps) as [[[b x] a]|]; [|lia]. exists (S i), r'. simpl. split; [lia|done].
Qed.

(** ** Waiting before a launch comes to an end *)

Section Returns.
Context (env : environment) (F : nat) (Hfair : fair env F).

Fixpoint rounds (k : nat) (x : pm * states) : pm * states :=
  match k with O => x | S k => rounds k (read_and_update env x.1 x.2) end.

Lemma rounds_add j k x : rounds (j + k) x = rounds k (rounds j x).
Proof. revert x. induction j as [|j IH]; intros x; [done|apply IH]. Qed.

Lemma rounds_inv o k m st : pm_inv o m st -> pm_inv o (rounds k (m, st)).1 (rounds k (m, st)).2
  /\ rounds_ok m st (rounds k (m, st)).1 (rounds k (m, st)).2.
Proof.
  revert m st. induction k as [|k IH]; intros m st Hi; simpl; [split; [done|apply rounds_ok_refl]|].
  destruct (read_and_update env m st) as [m1 st1] eqn:E. destruct (round_inv _ _ _ _ _ _ Hi E) as [H1 R1].
  destruct (IH _ _ H1) as [H2 R2]. split; [done|by eapply rounds_ok_trans].
Qed.

Lemma rounds_until_iff stop n m st :
  rounds_until env stop n m st <> NoReturn <-> exists k, (k <= n)%nat /\ stop (rounds k (m, st)).1 = true.
Proof.
  revert m st. induction n as [|n IH]; intros m st; simpl; destruct (stop m) eqn:Es.
  - split; [|done]. intros _. by exists 0%nat.
  - split; [done|]. intros (k & Hk & H). replace k with 0%nat in H by lia. simpl in H. congruence.
  - split; [|done]. intros _. exists 0%nat. split; [lia|done].
  - destruct (read_and_update env m st) as [m1 st1] eqn:E. rewrite IH. split.
    + intros (k & Hk & H). exists (S k). simpl. rewrite E. split; [lia|done].
    + intros ([|k] & Hk & H); simpl in H; [congruence|]. rewrite E in H. exists k. split; [lia|done].
Qed.

Lemma num_le o m st m' st' : pm_inv o m st -> pm_inv o m' st' -> rounds_ok m st m' st' ->
  num_running_processes m' <= num_running_processes m.
Proof.
  intros Hi Hi' (Hs & _). rewrite (inv_count _ _ _ Hi), (inv_count _ _ _ Hi').
  apply sublist_length in Hs. lia.
Qed.

(** While something runs, at most [F] rounds later less runs. *)
Lemma less_runs o m st : pm_inv o m st -> 0 < num_running_processes m ->
  exists k, (k <= F)%nat /\ num_running_processes (rounds k (m, st)).1 < num_running_processes m.
Proof.
  intros Hi Hnz. rewrite (inv_count _ _ _ Hi) in Hnz.
  destruct (used (processes m)) as [|p l] eqn:Eu; [simpl in Hnz; lia|].
  assert (p ∈ used (processes m)) as Hp by (rewrite Eu; left). unfold used in Hp.
  apply list_elem_of_fmap in Hp as (r & _ & Hr). apply list_elem_of_filter in Hr as [Hu Hr].
  apply list_elem_of_lookup in Hr as [i Hr].
  pose proof (rounds_until_live env o F (num_running_processes m) m st i r Hi Hr Hu eq_refl
    (Hfair (round m) i)) as Hl.
  apply rounds_until_iff in Hl as (k & Hk & Hs). exists k. split; [done|].
  destruct (rounds_inv o k m st Hi) as [H1 R1]. pose proof (num_le _ _ _ _ _ Hi H1 R1). simpl in Hs. lia.
Qed.

Lemma room_comes o N m st max : 1 <= max -> pm_inv o m st -> num_running_processes m <= Z.of_nat N ->
  exists k, (k <= F * N)%nat /\ num_running_processes (rounds k (m, st)).1 < max.
Proof.
  intros Hmax. revert m st. induction N as [|N IH]; intros m st Hi Hn; [exists 0%nat; simpl; lia|].
  destruct (decide (num_running_processes m < max)) as [Hl|Hl]; [exists 0%nat; simpl; split; [lia|done]|].
  destruct (less_runs o m st Hi) as (k1 & Hk1 & H1); [lia|].
  destruct (rounds_inv o k1 m st Hi) as [Hi1 _].
  destruct (IH _ _ Hi1) as (k2 & Hk2 & H2); [lia|]. exists (k1 + k2)%nat. split; [lia|].
  rewrite rounds_add. by destruct (rounds k1 (m, st)).
Qed.

(** A slot is heard of within [F] rounds and then free. *)
Lemma slot_freed o n m st i r : pm_inv o m st -> processes m !! i = Some r -> in_use r = true ->
  (exists j, (j < n)%nat /\ ready env (round m + j) = true /\ ended env (round m + j) i = true) ->
  exists k, (k <= n)%nat /\ processes (rounds k (m, st)).1 !! i = Some zeroed.
Proof.
  revert m st r. induction n as [|n IH]; intros m st r Hi Hr Hu (j & Hj & Hrd & Hen); [lia|].
  pose proof (round_progress env _ _ st i r Hi Hr Hu) as Hp.
  destruct (read_and_update env m st) as [m1 st1] eqn:E.
  destruct Hp as (Hround & _ & r1 & Hr1 & Hor & Hend).
  destruct (round_inv _ _ _ _ _ _ Hi E) as [H1 _]. destruct Hor as [Hu1| ->].
  - destruct j as [|j].
    { rewrite Nat.add_0_r in *. rewrite (Hend Hrd Hen) in Hr1. exists 1%nat. simpl. rewrite E. split; [lia|done]. }
    destruct (IH m1 st1 r1 H1 Hr1 Hu1) as (k & Hk & Hz).
    { exists j. rewrite Hround. replace (S (round m) + j)%nat with (round m + S j)%nat by lia. split; [lia|done]. }
    exists (S k). simpl. rewrite E. split; [lia|done].
  - exists 1%nat. simpl. rewrite E. split; [lia|done].
Qed.

Lemma wait_conflicts_returns plugins ns o slots p m st : pm_inv o m st ->
  wait_conflicts env plugins ns F slots p m st <> NoReturn.
Proof.
  revert m st. induction slots as [|i rest IH]; intros m st Hi; simpl; [done|].
  destruct (in_use (nth i (processes m) zeroed) && _) eqn:Ec; [|by apply IH].
  apply andb_true_iff in Ec as [Hu _].
  destruct (rounds_until _ _ _ _ _) as [[m1 st1]| |] eqn:E.
  - destruct (rounds_until_inv _ _ _ _ _ _ _ _ Hi E) as (H1 & _ & _). by apply IH.
  - exfalso. revert E. apply rounds_until_iff.
    destruct (processes m !! i) as [r|] eqn:Hr; [|by rewrite nth_overflow in Hu; [|apply lookup_ge_None]].
    rewrite (nth_lookup_Some _ _ _ _ Hr) in Hu.
    destruct (slot_freed o F m st i r Hi Hr Hu (Hfair _ _)) as (k & Hk & Hz).
    exists k. split; [done|]. by rewrite (nth_lookup_Some _ _ _ _ Hz).
  - done.
Qed.

End Returns.

(** ** A plugin about to be launched, the end of a scan *)

Lemma pending_inv m st p : pm_inv None m st -> state_of st p <> PLUGIN_STATUS_RUNNING ->
  pm_inv (Some p) m (<[p := PLUGIN_STATUS_RUNNING]> st).
Proof.
  intros [Hl Hc Hn Hp Hr] Hs. split; [done..| |].
  - intros q [= <-] Hq. apply Hs, Hr. by left.
  - intros q. rewrite state_of_insert. case_decide as Hq; [subst; naive_solver|]. rewrite Hr. naive_solver.
Qed.

Lemma settled_inv m st p x : pm_inv (Some p) m st -> x <> PLUGIN_STATUS_RUNNING ->
  pm_inv None m (<[p := x]> st).
Proof.
  intros [Hl Hc Hn Hp Hr] Hx. specialize (Hp p eq_refl). split; [done..|].
  intros q. rewrite state_of_insert. case_decide as Hq; [subst; naive_solver|]. rewrite Hr. naive_solver.
Qed.

Lemma kill_loop_spec ps num st ps' num' st' : kill_loop ps num st = (ps', num', st') ->
  length ps' = length ps /\ used ps' = [] /\ num' = num - Z.of_nat (length (used ps))
  /\ forall p, p ∉ used ps -> state_of st' p = state_of st p.
Proof.
  revert num st ps' num' st'. induction ps as [|r ps IH]; intros num st ps' num' st'; cbn [kill_loop].
  { intros [= <- <- <-]. split; [done|]. split; [done|]. split; [simpl; lia|done]. }
  rewrite used_cons. destruct (in_use r) eqn:Hu; destruct (kill_loop ps _ _) as [[ps1 n1] st1] eqn:E;
    intros [= <- <- <-]; destruct (IH _ _ _ _ _ E) as (I1 & I2 & I3 & I4); rewrite ?used_zeroed, ?used_cons, ?Hu;
    (split; [simpl; lia|]); (split; [done|]); (split; [simpl; lia|]); intros p Hp; [|by apply I4].
  rewrite not_elem_of_cons in Hp. rewrite I4 by tauto. rewrite state_of_insert, decide_False; [done|]. naive_solver.
Qed.

Lemma kill_loop_done ps num st p : p ∈ used ps -> NoDup (used ps) ->
  state_of (kill_loop ps num st).2 p = PLUGIN_STATUS_DONE.
Proof.
  revert num st. induction ps as [|r ps IH]; intros num st Hp Hn; [by apply not_elem_of_nil in Hp|].
  cbn [kill_loop]. rewrite used_cons in Hp, Hn. destruct (in_use r); [|specialize (IH num st Hp Hn); by destruct (kill_loop _ _ _) as [[??]?]].
  apply NoDup_cons in Hn as [Hn1 Hn2].
  destruct (kill_loop ps _ _) as [[ps1 n1] st1] eqn:E. simpl.
  apply elem_of_cons in Hp as [->|Hp].
  - destruct (kill_loop_spec _ _ _ _ _ _ E) as (_ & _ & _ & ->); [|done].
    by rewrite state_of_insert, decide_True.
  - specialize (IH (num - 1) (<[plugin r:=PLUGIN_STATUS_DONE]> st) Hp Hn2). by rewrite E in IH.
Qed.

(** After [pluginlaunch_stop] the table is empty; what ran is done. *)
Lemma stop_inv env o m st : pm_inv o m st ->
  let '(m', st') := pluginlaunch_stop env m st in
  pm_inv o m' st' /\ used (processes m') = [] /\ num_running_processes m' = 0
  /\ forall p, state_of st' p = state_of st p
       \/ state_of st p = PLUGIN_STATUS_RUNNING /\ state_of st' p = PLUGIN_STATUS_DONE.
Proof.
  intros Hi0. pose proof (read_inv env _ _ _ Hi0) as Hi. unfold pluginlaunch_stop.
  set (m1 := read_running_processes env m) in *.
  destruct (kill_loop (processes m1) (num_running_processes m1) st) as [[ps num] st1] eqn:E.
  destruct (kill_loop_spec _ _ _ _ _ _ E) as (I1 & I2 & I3 & I4).
  pose proof (kill_loop_done (processes m1) (num_running_processes m1) st) as Hd. rewrite E in Hd. simpl in Hd.
  destruct Hi as [Hl Hc Hn Hp Hr].
  assert (forall p, state_of st1 p = if decide (p ∈ used (processes m1)) then PLUGIN_STATUS_DONE else state_of st p) as Hst.
  { intros p. case_decide as H; [by apply Hd|by apply I4]. }
  split; [|split; [done|split; [simpl; lia|]]].
  - split; simpl; rewrite ?I2; [congruence|simpl; lia|constructor|set_solver|].
    intros p. rewrite Hst. case_decide as H; [|rewrite Hr; set_solver].
    split; [done|]. intros [?|Ho]; [set_solver|]. by destruct (Hp p Ho).
  - intros p. rewrite Hst. case_decide as H; [right|by left]. split; [apply Hr; by left|done].
Qed.

Lemma pluginlaunch_wait_inv env o fuel m st : pm_inv o m st ->
  match pluginlaunch_wait env fuel m st with
  | Ret (m', st') => pm_inv o m' st' /\ rounds_ok m st m' st' /\ num_running_processes m' = 0
  | NoReturn => True
  | Undef => False
  end.
Proof.
  intros Hi. unfold pluginlaunch_wait. destruct (read_and_update env m st) as [m1 st1] eqn:E.
  destruct (round_inv _ _ _ _ _ _ Hi E) as [H1 R1].
  destruct (rounds_until env _ fuel m1 st1) as [[m2 st2]| |] eqn:E2; [|done|by apply rounds_until_defined in E2].
  destruct (rounds_until_inv _ _ _ _ _ _ _ _ H1 E2) as (H2 & R2 & Hs).
  split; [done|]. split; [by eapply rounds_ok_trans|]. lia.
Qed.

Lemma num_le_32 o m st : pm_inv o m st -> num_running_processes m <= 32.
Proof.
  intros Hi. rewrite (inv_count _ _ _ Hi). unfold used. rewrite length_fmap.
  pose proof (length_filter (fun r => in_use r = true) (processes m)) as Hl.
  rewrite (inv_slots _ _ _ Hi) in Hl. lia.
Qed.

Lemma pluginlaunch_wait_returns env F fuel o m st : fair env F -> pm_inv o m st -> (F * 32 <= fuel)%nat ->
  pluginlaunch_wait env fuel m st <> NoReturn.
Proof.
  intros Hf Hi Hfuel. unfold pluginlaunch_wait. destruct (read_and_update env m st) as [m1 st1] eqn:E.
  destruct (round_inv _ _ _ _ _ _ Hi E) as [H1 _]. apply rounds_until_iff.
  destruct (room_comes env F Hf o 32 m1 st1 1 ltac:(lia) H1) as (k & Hk & Hr); [by apply (num_le_32 _ _ _ H1)|].
  exists k. split; [lia|]. destruct (rounds_inv env o k m1 st1 H1) as [H2 _].
  pose proof (inv_count _ _ _ H2). lia.
Qed.

Lemma fair_mono env F F' : (F <= F')%nat -> fair env F -> fair env F'.
Proof. intros Hle Hf k i. destruct (Hf k i) as (j & Hj & H). exists j. split; [lia|done]. Qed.

(** What [plugin_launch] leaves behind: the slot, the counter and the state. *)
Lemma place_inv p fork (m : pm) st i r slot :
  pm_inv (Some p) m st -> processes m !! i = Some r -> in_use r = false ->
  plugin slot = p -> pid slot = fork ->
  pm_inv None (set_processes (<[i := slot]> (processes m))
      (num_running_processes m + (if 0 <? fork then 1 else 0)) m)
    (if 0 <? fork then st else <[p := PLUGIN_STATUS_UNRUN]> st).
Proof.
  intros [Hl Hc Hn Hp Hr] Hi Hu Hpl Hpid. specialize (Hp p eq_refl).
  pose proof (used_insert _ _ _ slot Hi Hu) as Hus.
  assert (in_use slot = (0 <? fork)) as Hs by (unfold in_use; by rewrite Hpid).
  rewrite Hs, Hpl in Hus. split; simpl.
  - by rewrite length_insert.
  - rewrite (Permutation_length Hus), Hc. destruct (0 <? fork); simpl; lia.
  - rewrite Hus. destruct (0 <? fork); [by apply NoDup_cons|done].
  - done.
  - intros q. rewrite Hus. destruct (0 <? fork); simpl.
    + rewrite Hr, elem_of_cons. naive_solver.
    + rewrite state_of_insert. case_decide as Hq; [subst q; naive_solver|rewrite Hr; naive_solver].
Qed.

(** What a launch does; the property below is the part its callers see. *)
Lemma launch_ok `{G : Glib} (env : environment) (plugins : list scheduler_plugin) (ns : names)
  (fuel : nat) (preferences : prefs) (plugins_timeout : Z) (oid : string) (p : nat) (fork : Z)
  (m : pm) (st : states)
  (Hi : pm_inv (Some p) m st) (Hmax : 1 <= max_running_processes m <= MAX_PROCESSES)
  (Hd : death_is_final env) :
  match plugin_launch env plugins ns fuel preferences plugins_timeout oid p fork m st with
  | Ret (res, m', st') =>
      res = fork /\ pm_inv None m' st'
      /\ num_running_processes m' <= max_running_processes m'
      /\ max_running_processes m' = max_running_processes m
      /\ old_max_running_processes m' = old_max_running_processes m
      /\ state_of st' p = (if 0 <? fork then PLUGIN_STATUS_RUNNING else PLUGIN_STATUS_UNRUN)
      /\ (forall q, q <> p -> state_of st' q = state_of st q
           \/ state_of st q = PLUGIN_STATUS_RUNNING /\ state_of st' q = PLUGIN_STATUS_DONE)
      /\ forall i slot, processes m' !! i = Some slot -> in_use slot = true -> plugin slot <> p ->
           conflict plugins ns (plugin slot) p = true -> process_alive env (round m') (pid slot) = false
  | NoReturn => True
  | Undef => False
  end.
Proof.
  unfold plugin_launch, next_free_process, MAX_PROCESSES in *.
  destruct (rounds_until env _ fuel m st) as [[m1 st1]| |] eqn:E1; [|done|by apply rounds_until_defined in E1].
  destruct (rounds_until_inv _ _ _ _ _ _ _ _ Hi E1) as (H1 & R1 & Hs).
  destruct (wait_conflicts _ _ _ _ _ _ _ _) as [[m2 st2]| |] eqn:E2; [|done|by apply wait_conflicts_defined in E2].
  destruct (wait_conflicts_inv _ _ _ _ _ _ _ _ _ _ _ H1 E2) as (H2 & R2 & Hc).
  pose proof (num_le _ _ _ _ _ H1 H2 R2) as Hle. pose proof (rounds_ok_trans _ _ _ _ _ _ R1 R2) as R.
  assert (max_running_processes m2 = max_running_processes m) as Hm by apply R.
  assert (old_max_running_processes m2 = old_max_running_processes m) as Hom by apply R.
  assert (num_running_processes m2 < max_running_processes m2) as Hroom.
  { destruct R2 as (_ & R2 & _). lia. }
  destruct (free_slot_spec (processes m2)) as (i & r & -> & Hr & Hu).
  { pose proof (inv_count _ _ _ H2). rewrite (inv_slots _ _ _ H2). lia. }
  destruct (Z.of_nat i <? 0) eqn:Ei; [lia|]. rewrite Nat2Z.id.
  set (slot := mk_running _ _ _ _ _).
  pose proof (place_inv p fork m2 st2 i r slot H2 Hr Hu eq_refl eq_refl) as Hinv.
  assert (forall q, q <> p -> state_of (if 0 <? fork then st2 else <[p := PLUGIN_STATUS_UNRUN]> st2) q = state_of st q
    \/ state_of st q = PLUGIN_STATUS_RUNNING
       /\ state_of (if 0 <? fork then st2 else <[p := PLUGIN_STATUS_UNRUN]> st2) q = PLUGIN_STATUS_DONE) as Hst.
  { intros q Hq. pose proof (rounds_finish _ _ _ _ _ Hi R q) as Hf. destruct (0 <? fork); [done|].
    by rewrite state_of_insert, decide_False by congruence. }
  assert (forall j s, <[i := slot]> (processes m2) !! j = Some s -> in_use s = true -> plugin s <> p ->
    conflict plugins ns (plugin s) p = true -> process_alive env (round m2) (pid s) = false) as Hcf.
  { intros j s Hs' Hus Hne. destruct (decide (i = j)) as [<-|Hij].
    { rewrite list_lookup_insert_eq in Hs' by (by eapply lookup_lt_Some). by simplify_eq. }
    rewrite list_lookup_insert_ne in Hs' by done. apply (Hc Hd j); [|done|done].
    apply lookup_lt_Some in Hs'. rewrite (inv_slots _ _ _ H2) in Hs'. apply elem_of_seq. lia. }
  destruct (0 <? fork) eqn:Ef.
  - split; [done|]. split; [exact Hinv|]. simpl. split; [lia|]. split; [done|]. split; [done|].
    split; [|by split]. apply (inv_running _ _ _ H2). by right.
  - rewrite Z.add_0_r in Hinv. split; [done|]. split; [exact Hinv|]. simpl. split; [lia|]. split; [done|]. split; [done|].
    split; [by rewrite state_of_insert, decide_True|by split].
Qed.


(** C21: A launch never writes outside the table as long as the limit is between 1
    and 32: it waits for room and for conflicting processes, takes a free slot,
    keeps the counter, the table and the states of the plugins in step, and
    afterwards at most the allowed number runs and every other process with a
    forbidden port in common is dead.  When the fork fails the plugin is unrun. *)
Theorem plugin_launch_correct `{G : Glib} (env : environment) (plugins : list scheduler_plugin) (ns : names)
  (fuel : nat) (preferences : prefs) (plugins_timeout : Z) (oid : string) (p : nat) (fork : Z)
  (m : pm) (st : states)
  (Hi : pm_inv (Some p) m st) (Hmax : 1 <= max_running_processes m <= MAX_PROCESSES)
  (Hd : death_is_final env) :
  match plugin_launch env plugins ns fuel preferences plugins_timeout oid p fork m st with
  | Ret (res, m', st') =>
      res = fork /\ pm_inv None m' st'
      /\ num_running_processes m' <= max_running_processes m'
      /\ max_running_processes m' = max_running_processes m
      /\ state_of st' p = (if 0 <? fork then PLUGIN_STATUS_RUNNING else PLUGIN_STATUS_UNRUN)
      /\ (forall q, q <> p -> state_of st' q = state_of st q
           \/ state_of st q = PLUGIN_STATUS_RUNNING /\ state_of st' q = PLUGIN_STATUS_DONE)
      /\ forall i slot, processes m' !! i = Some slot -> in_use slot = true -> plugin slot <> p ->
           conflict plugins ns (plugin slot) p = true -> process_alive env (round m') (pid slot) = false
  | NoReturn => True
  | Undef => False
  end.
Proof.
  pose proof (launch_ok env plugins ns fuel preferences plugins_timeout oid p fork m st Hi Hmax Hd) as H.
  destruct (plugin_launch _ _ _ _ _ _ _ _ _ _ _) as [[[res m'] st']| |]; tauto.
Qed.

Lemma launch_returns `{G : Glib} (env : environment) (plugins : list scheduler_plugin) (ns : names)
  (F fuel : nat) (preferences : prefs) (plugins_timeout : Z) (oid : string) (p : nat) (fork : Z)
  (m : pm) (st : states)
  (Hf : fair env F) (Hi : pm_inv (Some p) m st) (Hmax : 1 <= max_running_processes m <= MAX_PROCESSES)
  (Hfuel : (F * 32 <= fuel)%nat) :
  exists res m' st',
    plugin_launch env plugins ns fuel preferences plugins_timeout oid p fork m st = Ret (res, m', st').
Proof.
  assert (plugin_launch env plugins ns fuel preferences plugins_timeout oid p fork m st <> NoReturn
    /\ plugin_launch env plugins ns fuel preferences plugins_timeout oid p fork m st <> Undef) as [H1 H2].
  2:{ destruct (plugin_launch _ _ _ _ _ _ _ _ _ _ _) as [[[res m'] st']| |]; [eauto|done..]. }
  assert (fair env fuel) as Hff by (eapply fair_mono, Hf; lia).
  pose proof (num_le_32 _ _ _ Hi) as Hn.
  unfold plugin_launch, next_free_process, MAX_PROCESSES in *.
  destruct (rounds_until env _ fuel m st) as [[m1 st1]| |] eqn:E1.
  - destruct (rounds_until_inv _ _ _ _ _ _ _ _ Hi E1) as (Hi1 & R1 & Hs).
    pose proof (wait_conflicts_returns env fuel Hff plugins ns (Some p) (seq 0 32) p m1 st1 Hi1) as Hw.
    destruct (wait_conflicts _ _ _ _ _ _ _ _) as [[m2 st2]| |] eqn:E2;
      [|done|by apply wait_conflicts_defined in E2].
    destruct (wait_conflicts_inv _ _ _ _ _ _ _ _ _ _ _ Hi1 E2) as (Hi2 & R2 & _).
    pose proof (num_le _ _ _ _ _ Hi1 Hi2 R2) as Hle.
    assert (max_running_processes m1 = max_running_processes m) as Hm by apply R1.
    destruct (free_slot_spec (processes m2)) as (i & r & -> & _).
    { pose proof (inv_count _ _ _ Hi2). rewrite (inv_slots _ _ _ Hi2). lia. }
    destruct (Z.of_nat i <? 0) eqn:Ei; [lia|]. by destruct (0 <? fork).
  - exfalso. revert E1. apply rounds_until_iff.
    destruct (room_comes env F Hf (Some p) 32 m st (max_running_processes m)) as (k & Hk & Hr); [lia|done|lia|].
    exists k. split; [lia|]. destruct (rounds_inv env (Some p) k m st Hi) as [_ (_ & -> & _)]. lia.
  - by apply rounds_until_defined in E1.
Qed.

(** C22: When every slot is heard of again within [F] rounds a launch comes to an
    end, after at most [32 * F] rounds of waiting for room and [F] for each
    conflict. *)
Theorem plugin_launch_returns `{G : Glib} (env : environment) (plugins : list scheduler_plugin) (ns : names)
  (F fuel : nat) (preferences : prefs) (plugins_timeout : Z) (oid : string) (p : nat) (fork : Z)
  (m : pm) (st : states)
  (Hf : fair env F) (Hi : pm_inv (Some p) m st) (Hmax : 1 <= max_running_processes m <= MAX_PROCESSES)
  (Hfuel : (F * 32 <= fuel)%nat) :
  exists res m' st',
    plugin_launch env plugins ns fuel preferences plugins_timeout oid p fork m st = Ret (res, m', st').
Proof.
  by apply (launch_returns env plugins ns F).
Qed.

(** ** The limit that is not a limit *)

Section Overflow.
Context `{G : Glib}.
Context (env : environment) (plugins : list scheduler_plugin) (fuel : nat) (preferences : prefs)
  (plugins_timeout : Z) (oid : nat -> string).

(** Launching plugins one after the other, [(plugin, pid)] each, no port being
    forbidden to be tested twice. *)
Fixpoint launch_all (l : list (nat * Z)) (m : pm) (st : states) : outcome (pm * states) :=
  match l with
  | [] => Ret (m, st)
  | (p, fork) :: rest =>
      match plugin_launch env plugins None fuel preferences plugins_timeout (oid p) p fork m st with
      | Ret (_, m, st) => launch_all rest m st
      | NoReturn => NoReturn
      | Undef => Undef
      end
  end.

Lemma wait_conflicts_none slots p m st :
  wait_conflicts env plugins None fuel slots p m st = Ret (m, st).
Proof.
  induction slots as [|r rest IH]; [done|]. cbn [wait_conflicts]. unfold conflict, common.
  rewrite IH. destruct (requirements_common_ports _ _); by rewrite andb_false_r.
Qed.

Lemma free_slot_full ps rest : Forall (fun r => in_use r = true) ps ->
  free_slot (ps ++ zeroed :: rest) = Z.of_nat (length ps).
Proof.
  unfold free_slot. induction ps as [|r ps IH]; simpl; [done|]. rewrite Forall_cons. intros [-> Hps].
  specialize (IH Hps). simpl. destruct (break_at _ (ps ++ zeroed :: rest)) as [[[b x] a]|]; simpl; lia.
Qed.

Lemma free_slot_none ps : Forall (fun r => in_use r = true) ps -> free_slot ps = -1.
Proof.
  intros H. unfold free_slot. replace (break_at _ ps) with (@None (list running * running * list running)); [done|].
  symmetry. apply break_at_None. eapply Forall_impl; [exact H|]. by intros r ->.
Qed.

Lemma launch_all_full l ps m st :
  Forall (fun x => 0 < x.2) l -> Forall (fun r => in_use r = true) ps ->
  (length ps <= 32)%nat -> (33 <= length ps + length l)%nat -> 33 <= max_running_processes m ->
  processes m = ps ++ replicate (32 - length ps) zeroed ->
  num_running_processes m = Z.of_nat (length ps) ->
  launch_all l m st = Undef.
Proof.
  revert ps m st. induction l as [|[p fork] l IH]; intros ps m st Hl Hps Hle Hlen Hmax Hpr Hn; simpl in *; [lia|].
  apply Forall_cons in Hl as [Hfork Hl]. unfold plugin_launch, next_free_process.
  replace (rounds_until env _ fuel m st) with (Ret (m, st)).
  2:{ destruct fuel; simpl; destruct (num_running_processes m <? _) eqn:E; done || lia. }
  rewrite wait_conflicts_none, Hpr. destruct (decide (length ps = 32%nat)) as [He|He].
  { rewrite He, app_nil_r, free_slot_none; done. }
  destruct (32 - length ps)%nat as [|k] eqn:Ek; [lia|]. simpl replicate. rewrite free_slot_full by done.
  destruct (Z.of_nat (length ps) <? 0) eqn:E0; [lia|]. simpl in Hfork.
  rewrite (proj2 (Z.ltb_lt 0 fork) Hfork), Nat2Z.id. set (slot := mk_running _ _ _ _ _).
  apply (IH (ps ++ [slot])); simpl; rewrite ?length_app; simpl; try lia.
  - done.
  - apply Forall_app. split; [done|]. apply Forall_singleton. unfold in_use. simpl. by apply Z.ltb_lt.
  - rewrite <- app_assoc. replace (32 - (length ps + 1))%nat with k by lia.
    by rewrite insert_app_r_alt, Nat.sub_diag by lia.
Qed.

(** The start of a scan cuts a limit of 32 processes or more to 31, but the
    first category that may run in parallel brings the uncut limit back: with a
    limit above 32, launching 33 plugins in a row writes outside the table. *)
Theorem limit_not_kept (max_checks : Z) (l : list (nat * Z)) (m : pm) (st : states)
  (Hmax : 33 <= max_checks) (Hlen : (33 <= length l)%nat) (Hpids : Forall (fun x => 0 < x.2) l) :
  max_running_processes (pluginlaunch_init max_checks m) = MAX_PROCESSES - 1
  /\ launch_all l (enable_parrallel_checks (pluginlaunch_init max_checks m)) st = Undef.
Proof.
  split.
  - unfold pluginlaunch_init, MAX_PROCESSES. simpl. destruct (32 <=? max_checks) eqn:E; lia.
  - apply (launch_all_full l []); simpl; done || lia.
Qed.

End Overflow.

(** ** Witnesses *)

Definition demo_env : environment :=
  mk_env (fun k => Nat.odd k) (fun _ _ => true) (fun k => Z.of_nat k) (fun k _ => (k <? 3)%nat).
Definition demo_plugins : list scheduler_plugin :=
  [mk_plugin ACT_GATHER_INFO 0 (Some ["139"%string]) None None None None;
   mk_plugin ACT_GATHER_INFO 0 (Some ["80"%string; "139"%string]) None None None None].
Definition demo_ports : names := Some ["139"%string; "445"%string].
Definition demo_running : states := <[0%nat := PLUGIN_STATUS_RUNNING]> (<[1%nat := PLUGIN_STATUS_RUNNING]> ∅).
(** Plugin 0 runs as process 100 when plugin 1 is launched. *)
Definition demo_pm : pm :=
  mk_pm (mk_running 100 0 0 5 true :: replicate 31 zeroed) 1 10 10 0.

Lemma demo_pm_inv : pm_inv (Some 1%nat) demo_pm demo_running.
Proof.
  split; [done|done| | |].
  - change (used _) with [0%nat]. apply NoDup_singleton.
  - intros p [= <-]. change (used _) with [0%nat]. set_solver.
  - intros p. change (used _) with [0%nat]. unfold demo_running. rewrite !state_of_insert.
    repeat case_decide; subst; set_solver.
Qed.

Lemma demo_fair : fair demo_env 2.
Proof.
  intros k i. destruct (Nat.odd k) eqn:E; [exists 0%nat|exists 1%nat]; (split; [lia|split; [|done]]).
  - by rewrite Nat.add_0_r.
  - rewrite Nat.add_1_r. cbn [ready demo_env]. by rewrite Nat.odd_succ, <- Nat.negb_odd, E.
Qed.

Lemma demo_final : death_is_final demo_env.
Proof.
  intros k k' x Hk. unfold process_alive. simpl. destruct (x =? 0); [done|].
  rewrite !Nat.ltb_ge. lia.
Qed.

Lemma plugin_launch_correct_witness :
  exists m' st', plugin_launch demo_env demo_plugins demo_ports 64 None 300 "1.2" 1 101 demo_pm demo_running
    = Ret (101, m', st') /\ pm_inv None m' st'
    /\ state_of st' 0 = PLUGIN_STATUS_DONE /\ state_of st' 1 = PLUGIN_STATUS_RUNNING.
Proof.
  pose proof (plugin_launch_correct demo_env demo_plugins demo_ports 64 None 300 "1.2" 1 101 demo_pm
    demo_running demo_pm_inv ltac:(simpl; unfold MAX_PROCESSES; lia) demo_final) as H.
  destruct (plugin_launch _ _ _ _ _ _ _ _ _ _ _) as [[[r m'] st']| |] eqn:E; [|discriminate E|done].
  exists m', st'. destruct H as (-> & Hi & _ & _ & Hs & _). split; [done|]. split; [done|].
  split; [|exact Hs]. vm_compute in E. by simplify_eq.
Defined.

Lemma plugin_launch_returns_witness :
  exists res m' st', plugin_launch demo_env demo_plugins demo_ports 64 None 300 "1.2" 1 101 demo_pm demo_running
    = Ret (res, m', st').
Proof.
  exact (plugin_launch_returns demo_env demo_plugins demo_ports 2 64 None 300 "1.2" 1 101 demo_pm
    demo_running demo_fair demo_pm_inv ltac:(simpl; unfold MAX_PROCESSES; lia) ltac:(simpl; lia)).
Defined.

Lemma limit_not_kept_witness :
  launch_all demo_env [] 0 None 300 (fun _ => "1.2"%string) (imap (fun i _ => (i, 100 + Z.of_nat i)) (replicate 33 tt))
    (enable_parrallel_checks (pluginlaunch_init 40 demo_pm)) ∅ = Undef.
Proof.
  refine (proj2 (limit_not_kept demo_env [] 0 None 300 (fun _ => "1.2"%string) 40 _ demo_pm ∅ _ _ _)).
  - lia.
  - vm_compute. lia.
  - vm_compute. repeat constructor.
Defined.

End PluginLaunch.
