(* ===== verification/Preferences.v ===== *)
(** * Preferences of the scanner ([preferences.c])

    The getters look a preference up in the arglist of preferences; most keep the
    first answer in a static variable, which a later call returns whatever the
    preferences are then.  The static variables are the record [caches], -1 when
    nothing is kept yet. *)

From S2P Require Import Prelude Arglists PlugsReq.
From stdpp Require Import base list strings.
From Stdlib Require Import ZArith Lia.
Local Open Scope Z_scope.

Module Preferences.
Import PlugsReq.

Definition NVT_TIMEOUT : Z := 320.

Record caches := mk_caches
  { log_whole_attack : Z;
    optimize_test : Z;
    log_plugins_at_load : Z;
    plugins_timeout : Z;
    benice : Z;
    safe_checks : Z;
    nasl_no_signature_check : Z }.

(** The initial values. *)
Definition no_caches : caches := mk_caches (-1) (-1) (-1) (-1) (-1) (-1) (-1).

(** A getter with its static variable [yes]: the result and the variable. *)
Definition cached (value : prefs -> Z) (preferences : prefs) (yes : Z) : Z * Z :=
  match preferences with
  | None => (-1, -1)
  | Some _ => if 0 <=? yes then (yes, yes) else (value preferences, value preferences)
  end.

Definition yes_no (b : bool) : Z := if b then 1 else 0.
Definition is_pref (p : prefs) (name value : string) : bool :=
  bool_decide (pref_str p name = Some value).

Section WithGlib.
Context `{G : Glib}.

(** What the getters compute the first time. *)
Definition log_whole_attack_value (p : prefs) : Z :=
  match pref_str p "log_whole_attack" with
  | Some v => yes_no (bool_decide (v = "yes"%string))
  | None => 1
  end.
Definition optimize_value (p : prefs) : Z := yes_no (negb (is_pref p "optimize_test" "no")).
Definition log_plugins_value (p : prefs) : Z := yes_no (is_pref p "log_plugins_name_at_load" "yes").
Definition plugins_timeout_value (p : prefs) : Z :=
  match pref_str p "plugins_timeout" with
  | Some v => if CStr.atoi v =? 0 then NVT_TIMEOUT else CStr.atoi v
  | None => NVT_TIMEOUT
  end.
Definition benice_value (p : prefs) : Z := yes_no (is_pref p "be_nice" "yes").
Definition safe_checks_value (p : prefs) : Z := yes_no (is_pref p "safe_checks" "yes").
Definition no_signature_value (p : prefs) : Z := yes_no (is_pref p "nasl_no_signature_check" "yes").

Definition preferences_log_whole_attack (p : prefs) (c : caches) : Z * caches :=
  let '(r, y) := cached log_whole_attack_value p (log_whole_attack c) in
  (r, mk_caches y (optimize_test c) (log_plugins_at_load c) (plugins_timeout c) (benice c)
        (safe_checks c) (nasl_no_signature_check c)).

Definition preferences_optimize_test (p : prefs) (c : caches) : Z * caches :=
  let '(r, y) := cached optimize_value p (optimize_test c) in
  (r, mk_caches (log_whole_attack c) y (log_plugins_at_load c) (plugins_timeout c) (benice c)
        (safe_checks c) (nasl_no_signature_check c)).

Definition preferences_log_plugins_at_load (p : prefs) (c : caches) : Z * caches :=
  let '(r, y) := cached log_plugins_value p (log_plugins_at_load c) in
  (r, mk_caches (log_whole_attack c) (optimize_test c) y (plugins_timeout c) (benice c)
        (safe_checks c) (nasl_no_signature_check c)).

Definition preferences_plugins_timeout (p : prefs) (c : caches) : Z * caches :=
  let '(r, y) := cached plugins_timeout_value p (plugins_timeout c) in
  (r, mk_caches (log_whole_attack c) (optimize_test c) (log_plugins_at_load c) y (benice c)
        (safe_checks c) (nasl_no_signature_check c)).

(** Without preferences this one returns its variable and leaves it. *)
Definition preferences_benice (p : prefs) (c : caches) : Z * caches :=
  match p with
  | None => (benice c, c)
  | Some _ =>
      let '(r, y) := cached benice_value p (benice c) in
      (r, mk_caches (log_whole_attack c) (optimize_test c) (log_plugins_at_load c)
            (plugins_timeout c) y (safe_checks c) (nasl_no_signature_check c))
  end.

Definition preferences_safe_checks_enabled (p : prefs) (c : caches) : Z * caches :=
  let '(r, y) := cached safe_checks_value p (safe_checks c) in
  (r, mk_caches (log_whole_attack c) (optimize_test c) (log_plugins_at_load c) (plugins_timeout c)
        (benice c) y (nasl_no_signature_check c)).

Definition preferences_nasl_no_signature_check (p : prefs) (c : caches) : Z * caches :=
  let '(r, y) := cached no_signature_value p (nasl_no_signature_check c) in
  (r, mk_caches (log_whole_attack c) (optimize_test c) (log_plugins_at_load c) (plugins_timeout c)
        (benice c) (safe_checks c) y).

(** The calls with NULL. *)
Definition preferences_reset_cache (c : caches) : caches :=
  let c := snd (preferences_log_whole_attack None c) in
  let c := snd (preferences_optimize_test None c) in
  let c := snd (preferences_log_plugins_at_load None c) in
  let c := snd (preferences_plugins_timeout None c) in
  let c := snd (preferences_benice None c) in
  snd (preferences_safe_checks_enabled None c).

(** Not kept. *)
Definition preferences_drop_privileges (p : prefs) : Z :=
  match p with
  | None => 0
  | Some _ =>
      if Arglists.arg_get_type p "drop_privileges" =? Arglists.ARG_STRING
      then yes_no (is_pref p "drop_privileges" "yes") else 0
  end.

Definition preferences_get_bool (p : prefs) (name : string) : Z :=
  match pref_str p name with
  | Some pref =>
      if bool_decide (pref = EmptyString) then -1
      else if bool_decide (pref = "no"%string) then 0
      else if bool_decide (pref = "yes"%string) then 1
      else -1
  | None => -1
  end.

Definition preferences_get_string (p : prefs) (name : string) : option string :=
  match pref_str p name with
  | Some pref => if bool_decide (pref = EmptyString) || bool_decide (pref = "no"%string)
                 then None else Some pref
  | None => None
  end.

End WithGlib.

(** ** What is kept agrees with the preferences *)

Section Coherent.
Context `{G : Glib}.

Definition kept_ok (value : prefs -> Z) (p : prefs) (yes : Z) : Prop := yes < 0 \/ yes = value p.

Record coherent (p : prefs) (c : caches) : Prop := {
  co_log : kept_ok log_whole_attack_value p (log_whole_attack c);
  co_optimize : kept_ok optimize_value p (optimize_test c);
  co_timeout : kept_ok plugins_timeout_value p (plugins_timeout c);
  co_safe : kept_ok safe_checks_value p (safe_checks c) }.

Lemma cached_ok value a yes : kept_ok value (Some a) yes ->
  cached value (Some a) yes = (value (Some a), value (Some a)).
Proof. unfold cached. intros [H| ->]; destruct (0 <=? _) eqn:E; done || lia. Qed.

Lemma optimize_ok a c : coherent (Some a) c ->
  exists c', preferences_optimize_test (Some a) c = (optimize_value (Some a), c') /\ coherent (Some a) c'.
Proof.
  intros [H1 H2 H3 H4]. unfold preferences_optimize_test. rewrite (cached_ok _ _ _ H2).
  eexists. split; [done|]. split; simpl; try done. by right.
Qed.

Lemma safe_checks_ok a c : coherent (Some a) c ->
  exists c', preferences_safe_checks_enabled (Some a) c = (safe_checks_value (Some a), c')
    /\ coherent (Some a) c'.
Proof.
  intros [H1 H2 H3 H4]. unfold preferences_safe_checks_enabled. rewrite (cached_ok _ _ _ H4).
  eexists. split; [done|]. split; simpl; try done. by right.
Qed.

Lemma timeout_ok a c : coherent (Some a) c ->
  exists c', preferences_plugins_timeout (Some a) c = (plugins_timeout_value (Some a), c')
    /\ coherent (Some a) c'.
Proof.
  intros [H1 H2 H3 H4]. unfold preferences_plugins_timeout. rewrite (cached_ok _ _ _ H3).
  eexists. split; [done|]. split; simpl; try done. by right.
Qed.

Lemma no_caches_coherent p : coherent p no_caches.
Proof. split; left; simpl; lia. Qed.

Lemma reset_coherent p c : coherent p (preferences_reset_cache c).
Proof. split; left; simpl; lia. Qed.

End Coherent.

End Preferences.
