(* ===== verification/Attack.v ===== *)
(** * The scan of a host ([attack.c])

    [launch_plugin] decides whether a plugin chosen by the scheduler is started
    and [attack_host] is the loop around the scheduler, the process manager and
    the knowledge base of the host.  What the outside does is the record
    [attack_env]: the environment of the process manager, the messages of the
    running plugins to the knowledge base, and for the [tick]-th question to the
    operating system or the client its answer. *)

From S2P Require Import Prelude Kb Arglists Hosts Scheduler PortRanges PlugsReq PluginLaunch Preferences.
From stdpp Require Import base gmap sets list strings.
From Stdlib Require Import Ascii ZArith Lia.
Local Open Scope Z_scope.

Module Attack.
Import Scheduler PlugsReq PluginLaunch Preferences.

Definition ERR_HOST_DEAD : Z := -1.
Definition ERR_CANT_FORK : Z := -2.
Definition MAX_FORK_RETRIES : nat := 10.
Definition ACT_DESTRUCTIVE_ATTACK : Z := 6.

(** ** The host *)

Abbreviation kb_map := (gmap Z (list Kb.kb_item)).

Record attack_env := mk_attack_env
  { pm_env : environment;
    kb_messages : nat -> kb_map -> kb_map;   (* what arrives in round k ([kb_parse]) *)
    status_sent : nat -> bool;               (* [comm_send_status] succeeds *)
    fork_pid : nat -> Z;                     (* result of [nasl_plugin_launch] *)
    parent_alive : nat -> bool;
    pause_whole_test : nat -> bool }.

(** The state of a scan.  [sc_log] is a record of the launches for the
    theorems: plugin and knowledge base when it was found fit to launch. *)
Record scan := mk_scan
  { sc_sched : sched;
    sc_pm : pm;
    sc_kb : kb_map;
    sc_caches : caches;
    cur_plug : Z;
    last_status : Z;
    tick : nat;
    sc_log : list (nat * kb_map) }.

Definition set_sched x (s : scan) : scan :=
  mk_scan x (sc_pm s) (sc_kb s) (sc_caches s) (cur_plug s) (last_status s) (tick s) (sc_log s).
Definition set_kb x (s : scan) : scan :=
  mk_scan (sc_sched s) (sc_pm s) x (sc_caches s) (cur_plug s) (last_status s) (tick s) (sc_log s).
Definition set_caches x (s : scan) : scan :=
  mk_scan (sc_sched s) (sc_pm s) (sc_kb s) x (cur_plug s) (last_status s) (tick s) (sc_log s).
Definition set_count c l (s : scan) : scan :=
  mk_scan (sc_sched s) (sc_pm s) (sc_kb s) (sc_caches s) c l (tick s) (sc_log s).
Definition ticked (s : scan) : scan :=
  mk_scan (sc_sched s) (sc_pm s) (sc_kb s) (sc_caches s) (cur_plug s) (last_status s) (S (tick s)) (sc_log s).
Definition logged p kb (s : scan) : scan :=
  mk_scan (sc_sched s) (sc_pm s) (sc_kb s) (sc_caches s) (cur_plug s) (last_status s) (tick s)
    (sc_log s ++ [(p, kb)]).

Section Host.
Context `{G : Glib}.
Context (env : attack_env).
Context (preferences : prefs) (network_scan_status : option string) (non_simult_ports_list : names).
(** [fuel] for every loop that waits and every call of the scheduler. *)
Context (fuel : nat).

Definition status_is (status : string) : bool :=
  match network_scan_status with Some s => CStr.strcaseeq s status | None => false end.
Definition network_scan : bool := status_is "busy".

(** The messages of [n] rounds from round [k] on. *)
Fixpoint kb_rounds (k n : nat) (kb : kb_map) : kb_map :=
  match n with O => kb | S n => kb_rounds (S k) n (kb_messages env k kb) end.

(** The process manager has gone on to [m], the plugins to [st]. *)
Definition after_rounds (m : pm) (st : states) (s : scan) : scan :=
  mk_scan (set_states st (sc_sched s)) m
    (kb_rounds (round (sc_pm s)) (round m - round (sc_pm s)) (sc_kb s))
    (sc_caches s) (cur_plug s) (last_status s) (tick s) (sc_log s).

Definition mark (p : nat) (state : Z) (s : scan) : scan :=
  set_sched (plugin_set_running_state (sc_sched s) p state) s.

Definition stop (s : scan) : scan :=
  let '(m, st) := pluginlaunch_stop (pm_env env) (sc_pm s) (s_states (sc_sched s)) in
  after_rounds m st s.

Definition send_status (s : scan) : bool * scan := (status_sent env (tick s), ticked s).

(** *** [launch_plugin] *)

Definition dangerous (category : Z) : bool :=
  (category =? ACT_DESTRUCTIVE_ATTACK) || (category =? ACT_KILL_HOST)
  || (category =? ACT_FLOOD) || (category =? ACT_DENIAL).

(** The count for the client: whether it could be sent.  A division by zero has
    no result. *)
Definition count_plugin (num_plugs : Z) (s : scan) : outcome (bool * scan) :=
  let cur := cur_plug s + 1 in
  if num_plugs =? 0 then Undef
  else
    let percent := Z.quot (cur * 100) num_plugs in
    if last_status s <=? percent
    then Ret (send_status (set_count cur (percent + 2) s))
    else Ret (true, set_count cur (last_status s) s).

Definition launched_key (oid : string) : string := CStr.take_str 99 ("Launched/" +:+ oid).

(** In a network scan a plugin is launched once only. *)
Definition already_launched (oid : string) (s : scan) : bool * scan :=
  if network_scan then
    if 0 <? Kb.kb_item_get_int (Some (sc_kb s)) (Some (launched_key oid)) then (true, s)
    else (false, set_kb (default (sc_kb s) (snd (Kb.kb_item_add_int (Some (sc_kb s)) (launched_key oid) 1))) s)
  else (false, s).

(** Whether an error forbids the launch. *)
Definition launch_error (optimize : Z) (plugin : scheduler_plugin) (s : scan) : outcome bool :=
  if negb (network_scan || mandatory_requirements_met (Some (sc_kb s)) plugin) then Ret true
  else if optimize =? 0 then Ret false
  else
    match requirements_plugin (Some (sc_kb s)) plugin preferences with
    | Ret error => Ret (HostSpec.is_some error)
    | NoReturn => NoReturn
    | Undef => Undef
    end.

Definition host_dead (kb : kb_map) : bool :=
  (0 <? Kb.kb_item_get_int (Some kb) (Some "Host/dead"%string))
  || (0 <? Kb.kb_item_get_int (Some kb) (Some "Host/ping_failed"%string)).

(** [plugin_launch] and what follows it.  The static variable of the timeout
    preference is read only: the preferences do not change during a scan. *)
Definition start_plugin (oid : string) (p : nat) (s : scan) : outcome (Z * scan) :=
  let pid := fork_pid env (tick s) in
  match plugin_launch (pm_env env) (s_plugins (sc_sched s)) non_simult_ports_list fuel preferences
          (fst (preferences_plugins_timeout preferences (sc_caches s))) oid p pid
          (sc_pm s) (s_states (sc_sched s)) with
  | Ret (pid, m, st) =>
      let s := ticked (after_rounds m st (logged p (sc_kb s) s)) in
      if pid <? 0 then Ret (ERR_CANT_FORK, mark p PLUGIN_STATUS_UNRUN s)
      else if host_dead (sc_kb s) then Ret (ERR_HOST_DEAD, mark p PLUGIN_STATUS_DONE (stop s))
      else Ret (0, s)
  | NoReturn => NoReturn
  | Undef => Undef
  end.

Definition plugin_oid (s : scan) (p : nat) : option string := s_args (sc_sched s) !! p ≫= arg_oid.

Definition launch_plugin (num_plugs : Z) (p : nat) (s : scan) : outcome (Z * scan) :=
  let '(optimize, c) := preferences_optimize_test preferences (sc_caches s) in
  let s := set_caches c s in
  match plugin_oid s p, s_plugins (sc_sched s) !! p with
  | Some oid, Some plugin =>
      if negb (plug_get_launch (sc_sched s) p =? LAUNCH_DISABLED) || (category plugin =? ACT_SETTINGS)
      then
        let '(safe, c) := preferences_safe_checks_enabled preferences (sc_caches s) in
        let s := set_caches c s in
        if negb (safe =? 0) && dangerous (category plugin) then Ret (0, mark p PLUGIN_STATUS_DONE s)
        else
          match count_plugin num_plugs s with
          | Ret (false, s) => Ret (ERR_HOST_DEAD, stop s)
          | Ret (true, s) =>
              let '(already, s) := already_launched oid s in
              if already then Ret (0, mark p PLUGIN_STATUS_DONE s)
              else
                match launch_error optimize plugin s with
                | Ret false => start_plugin oid p s
                | Ret true => Ret (0, mark p PLUGIN_STATUS_DONE s)
                | NoReturn => NoReturn
                | Undef => Undef
                end
          | NoReturn => NoReturn
          | Undef => Undef
          end
      else Ret (0, mark p PLUGIN_STATUS_DONE s)
  | None, _ => Ret (0, s)
  | Some _, None => Undef
  end.

(** *** [attack_host] *)

(** How the loop ends. *)
Inductive scan_end := ParentDied | HostDied | Completed.

(** The label [again]: the launch, repeated while the fork fails and [retries]
    are left for the whole scan.  The result says whether to give the host up. *)
Fixpoint launch_retry (num_plugs : Z) (retries : nat) (p : nat) (s : scan) : outcome (bool * nat * scan) :=
  match launch_plugin num_plugs p s with
  | Ret (e, s) =>
      if e =? ERR_HOST_DEAD then Ret (true, retries, s)
      else if e =? ERR_CANT_FORK then
        match retries with
        | O => Ret (true, O, s)
        | S retries => launch_retry num_plugs retries p s
        end
      else Ret (false, retries, s)
  | NoReturn => NoReturn
  | Undef => Undef
  end.

(** The pause: [false] when the client could not be told of it. *)
Definition pause (s : scan) : outcome (bool * scan) :=
  if pause_whole_test env (tick s) then
    match pluginlaunch_wait (pm_env env) fuel (sc_pm s) (s_states (sc_sched s)) with
    | Ret (m, st) =>
        let '(ok, s) := send_status (ticked (after_rounds m st s)) in
        if negb ok then Ret (false, stop s)
        else let '(ok, s) := send_status s in
             if negb ok then Ret (false, stop s) else Ret (true, s)
    | NoReturn => NoReturn
    | Undef => Undef
    end
  else Ret (true, ticked s).

(** The call of the scheduler. *)
Definition schedule (s : scan) : outcome (sched_result * scan) :=
  match plugins_scheduler_next (ProcessManager0 := process_manager (pm_env env) fuel)
          fuel (Some (sc_sched s)) (sc_pm s) with
  | Ret (r, Some sch, m) => Ret (r, after_rounds m (s_states sch) (set_sched sch s))
  | Ret (_, None, _) => Undef
  | NoReturn => NoReturn
  | Undef => Undef
  end.

Fixpoint attack_loop (n : nat) (num_plugs : Z) (retries : nat) (s : scan) : outcome (scan_end * scan) :=
  match n with
  | O => NoReturn
  | S n =>
      let alive := parent_alive env (tick s) in
      let s := ticked s in
      if negb alive then Ret (ParentDied, stop s)
      else
        match pause s with
        | Ret (false, s) => Ret (HostDied, s)
        | Ret (true, s) =>
            match schedule s with
            | Ret (PPlugin p, s) =>
                match launch_retry num_plugs retries p s with
                | Ret (true, _, s) => Ret (HostDied, s)
                | Ret (false, retries, s) => attack_loop n num_plugs retries s
                | NoReturn => NoReturn
                | Undef => Undef
                end
            | Ret (PNull, s) => Ret (Completed, s)
            | Ret (PRunning, s) =>
                match wait_for_free_process (pm_env env) fuel (sc_pm s) (s_states (sc_sched s)) with
                | Ret (m, st) => attack_loop n num_plugs retries (after_rounds m st s)
                | NoReturn => NoReturn
                | Undef => Undef
                end
            | NoReturn => NoReturn
            | Undef => Undef
            end
        | NoReturn => NoReturn
        | Undef => Undef
        end
  end.

(** From the label [host_died] on. *)
Definition host_died (s : scan) : scan := stop (snd (send_status s)).

Definition attack_host (n : nat) (global_max_checks : Z) (s : scan) : outcome (scan_end * scan) :=
  let num_plugs := get_active_plugins_number (Some (s_args (sc_sched s))) in
  let m := pluginlaunch_init (get_max_checks_number preferences global_max_checks) (sc_pm s) in
  let s := mk_scan (sc_sched s) m (sc_kb s) (sc_caches s) 1 (last_status s) (tick s) (sc_log s) in
  match attack_loop n num_plugs MAX_FORK_RETRIES s with
  | Ret (ParentDied, s) => Ret (ParentDied, s)
  | Ret (HostDied, s) => Ret (HostDied, host_died s)
  | Ret (Completed, s) =>
      match pluginlaunch_wait (pm_env env) fuel (sc_pm s) (s_states (sc_sched s)) with
      | Ret (m, st) => Ret (Completed, host_died (after_rounds m st s))
      | NoReturn => NoReturn
      | Undef => Undef
      end
  | NoReturn => NoReturn
  | Undef => Undef
  end.

End Host.

End Attack.
