(* ===== verification/AttackSpec.v ===== *)
(** * What a scan of a host guarantees

    The loop [attack_host] keeps the invariants of the scheduler and of the
    process manager together; every theorem here is about the whole loop. *)

From S2P Require Import Prelude Kb Arglists Hosts Scheduler SchedulerSpec.
From S2P Require Import PortRanges PlugsReq PluginLaunch Preferences Attack.
From stdpp Require Import base gmap sets list strings.
From Stdlib Require Import Ascii ZArith Lia.
Local Open Scope Z_scope.

Module AttackSpec.
Import Scheduler SchedulerSpec PlugsReq PluginLaunch Preferences Attack.

(** ** The invariants together *)

Definition limits (m : pm) : Prop :=
  1 <= max_running_processes m <= MAX_PROCESSES /\ 1 <= old_max_running_processes m <= MAX_PROCESSES.

(** The process manager between two calls of it. *)
Definition pm_good (m : pm) (st : states) : Prop := pm_inv None m st /\ limits m.

Lemma limits_rounds m st m' st' : rounds_ok m st m' st' -> limits m -> limits m'.
Proof. intros (_ & H1 & H2 & _). unfold limits. by rewrite H1, H2. Qed.

Section WithEnv.
Context (e : environment) (F : nat).
#[local] Instance manager : ProcessManager pm := process_manager e F.

#[local] Instance good_laws : ProcessManagerLaws pm pm_good.
Proof.
  pose proof (process_manager_laws e F) as [L1 L2 _]. split.
  - intros m st [Hi [H1 H2]]. destruct (L1 m st Hi). unfold pm_good, limits, MAX_PROCESSES in *.
    split; (split; [done|]); simpl; lia.
  - intros m st p [Hi Hl] Hp. split; [by apply L2|done].
  - intros m st [Hi Hl]. pose proof (wait_ok e F m st Hi) as H. simpl.
    destruct (wait_for_free_process e F m st) as [[m' st']| |]; [|done..].
    destruct H as (H1 & H2 & H3). split; [|done]. split; [done|]. by eapply limits_rounds.
Qed.

Lemma good_live : fair e F -> ProcessManagerLive pm pm_good.
Proof. intros Hf m st p [Hi _]. by apply wait_live. Qed.

End WithEnv.

(** Some of the plugins that ran are done, nothing else has changed. *)
Definition finished_since (st st' : states) : Prop := forall p,
  state_of st' p = state_of st p
  \/ state_of st p = PLUGIN_STATUS_RUNNING /\ state_of st' p = PLUGIN_STATUS_DONE.

Lemma finished_refl st : finished_since st st.
Proof. by left. Qed.

Lemma finished_trans a b c : finished_since a b -> finished_since b c -> finished_since a c.
Proof.
  intros H1 H2 p. specialize (H1 p). specialize (H2 p). unfold PLUGIN_STATUS_RUNNING, PLUGIN_STATUS_DONE in *. lia.
Qed.

Lemma finished_mark st p : state_of st p = PLUGIN_STATUS_RUNNING ->
  finished_since st (<[p := PLUGIN_STATUS_DONE]> st).
Proof. intros H q. rewrite state_of_insert. case_decide; [subst; by right|by left]. Qed.

Definition st_of (s : scan) : states := s_states (sc_sched s).

(** ** The invariant of a scan *)

Section Host.
Context `{G : Glib}.
Context (env : attack_env) (args : list Arglists.arg) (network_scan_status : option string)
  (ports : names) (fuel : nat) (s0 : sched).
Abbreviation preferences := (Some args).
#[local] Instance host_manager : ProcessManager pm := process_manager (pm_env env) fuel.
#[local] Instance host_laws : ProcessManagerLaws pm pm_good := good_laws (pm_env env) fuel.

(** What the scan starts from: every plugin has its description and an OID, the
    text of the port ranges was checked, forks succeed. *)
Record start_ok : Prop := {
  so_wf : sched_wf s0;
  so_fit : ports_fit s0;
  so_exact : ports_exact s0;
  so_known p : (p < length (s_nodes s0))%nat ->
    is_Some (s_args s0 !! p ≫= arg_oid) /\ is_Some (s_plugins s0 !! p);
  so_ranges : ranges_valid preferences;
  so_fork k : 0 < fork_pid env k }.

(** [o] is the plugin the scheduler has just chosen, if any. *)
Record scan_inv (o : option nat) (s : scan) : Prop := {
  si_trace : exists ps, sys_trace (pm_ok := pm_good) s0 (ps ++ opt_list o) [] (sc_sched s)
               /\ (sc_log s).*1 `sublist_of` ps;
  si_pm : pm_inv o (sc_pm s) (st_of s);
  si_limits : limits (sc_pm s);
  si_caches : coherent preferences (sc_caches s);
  si_running p : state_of (st_of s) p = PLUGIN_STATUS_RUNNING -> (p < length (s_nodes s0))%nat }.

(** The scan is given up: only the table of the processes is still of interest. *)
Definition over_inv (s : scan) : Prop :=
  (exists o, pm_inv o (sc_pm s) (st_of s)) /\ exists ps, NoDup ps /\ (sc_log s).*1 `sublist_of` ps.

Context (Hstart : start_ok).

Lemma trace_facts ps s : sys_trace (pm_ok := pm_good) s0 ps [] s -> trace_inv s0 ps [] s.
Proof. apply trace_ok; apply Hstart. Qed.

Lemma inv_graph o s : scan_inv o s -> same_graph s0 (sc_sched s).
Proof. intros Hi. destruct (si_trace _ _ Hi) as (ps & Ht & _). by apply trace_facts, ti_graph in Ht. Qed.

Lemma scan_over o s : scan_inv o s -> over_inv s.
Proof.
  intros Hi. split; [exists o; apply Hi|]. destruct (si_trace _ _ Hi) as (ps & Ht & Hs).
  exists ps. split; [|done]. apply trace_facts in Ht. pose proof (trace_nodup _ _ _ Ht) as Hn.
  by apply NoDup_app in Hn as [Hn _].
Qed.

(** Replacing the state of the plugins, with or without the process manager. *)
Lemma inv_states o o' s m st s' :
  scan_inv o s -> pm_inv o' m st -> limits m -> finished_since (st_of s) st ->
  (o' = o \/ o' = None) ->
  sc_sched s' = set_states st (sc_sched s) -> sc_pm s' = m -> sc_caches s' = sc_caches s ->
  sc_log s' = sc_log s -> scan_inv o' s'.
Proof.
  intros [Ht Hp Hl Hc Hr] Hp' Hl' Hf Ho Es <- Ec El.
  split; rewrite ?Ec, ?El; unfold st_of in *; rewrite ?Es; try done.
  - destruct Ht as (ps & Ht & Hs). apply (tr_finish _ _ _ _ st) in Ht; [|intros q; destruct (Hf q); tauto].
    destruct Ho as [->| ->]; [by exists ps|]. exists (ps ++ opt_list o). rewrite app_nil_r.
    split; [done|]. etrans; [exact Hs|]. by apply sublist_inserts_r.
  - intros p. simpl. intros Hp1. apply Hr. destruct (Hf p) as [H|[H _]]; congruence.
Qed.

(** What is not in the invariant may change. *)
Lemma inv_same o s s' : scan_inv o s -> sc_sched s' = sc_sched s -> sc_pm s' = sc_pm s ->
  coherent preferences (sc_caches s') -> sc_log s' = sc_log s -> scan_inv o s'.
Proof.
  intros [Ht Hp Hl Hc Hr] Es Em Ec El. split; unfold st_of in *; rewrite ?Es, ?Em, ?El; done.
Qed.

Lemma scan_rounds_inv o s m st : scan_inv o s -> pm_inv o m st ->
  rounds_ok (sc_pm s) (st_of s) m st -> scan_inv o (after_rounds env m st s).
Proof.
  intros Hi Hp Hr. apply (inv_states o o s m st); auto.
  - eapply limits_rounds; [exact Hr|apply Hi].
  - intros q. apply (rounds_finish _ _ _ _ _ (si_pm _ _ Hi) Hr).
Qed.

(** The plugin chosen is not launched after all. *)
Lemma skip_inv p s : scan_inv (Some p) s -> scan_inv None (mark p PLUGIN_STATUS_DONE s)
  /\ finished_since (st_of s) (st_of (mark p PLUGIN_STATUS_DONE s)).
Proof.
  intros Hi. assert (state_of (st_of s) p = PLUGIN_STATUS_RUNNING) as Hp.
  { apply (inv_running _ _ _ (si_pm _ _ Hi)). by right. }
  split; [|by apply finished_mark].
  apply (inv_states (Some p) None s (sc_pm s) (<[p := PLUGIN_STATUS_DONE]> (st_of s))); auto.
  - by apply (settled_inv _ _ _ _ (si_pm _ _ Hi)).
  - apply Hi.
  - by apply finished_mark.
Qed.

Lemma stop_over s : over_inv s -> over_inv (stop env s)
  /\ used (processes (sc_pm (stop env s))) = [] /\ num_running_processes (sc_pm (stop env s)) = 0
  /\ finished_since (st_of s) (st_of (stop env s)) /\ sc_log (stop env s) = sc_log s.
Proof.
  intros [[o Hi] Hl]. unfold stop. pose proof (stop_inv (pm_env env) o (sc_pm s) (st_of s) Hi) as H.
  unfold st_of in *.
  destruct (pluginlaunch_stop (pm_env env) (sc_pm s) (s_states (sc_sched s))) as [m st] eqn:E.
  destruct H as (H1 & H2 & H3 & H4). split; [|split; [done|split; [done|split; [done|done]]]].
  split; [by exists o|done].
Qed.

(** ** Launching *)

(** What is left of a launch: the scan goes on with the plugin settled, or the
    host is given up. *)
Definition launched_ok (s : scan) (e : Z) (s' : scan) : Prop :=
  (e = 0 /\ scan_inv None s' /\ finished_since (st_of s) (st_of s'))
  \/ (e = ERR_HOST_DEAD /\ over_inv s').

Lemma pending_state p s : scan_inv (Some p) s -> state_of (st_of s) p = PLUGIN_STATUS_RUNNING.
Proof. intros Hi. apply (inv_running _ _ _ (si_pm _ _ Hi)). by right. Qed.

Lemma launched_states p fork st st' : (forall q, q <> p -> state_of st' q = state_of st q
    \/ state_of st q = PLUGIN_STATUS_RUNNING /\ state_of st' q = PLUGIN_STATUS_DONE) ->
  state_of st p = PLUGIN_STATUS_RUNNING -> 0 < fork ->
  state_of st' p = (if 0 <? fork then PLUGIN_STATUS_RUNNING else PLUGIN_STATUS_UNRUN) ->
  finished_since st st'.
Proof.
  intros Hq Hp Hf Hp' q. destruct (decide (q = p)) as [->|Hne]; [left|by apply Hq].
  rewrite (proj2 (Z.ltb_lt 0 fork) Hf) in Hp'. congruence.
Qed.

(** Putting the launch on record. *)
Lemma logged_inv p kb s m st s' : scan_inv (Some p) s -> pm_inv None m st -> limits m ->
  finished_since (st_of s) st ->
  sc_sched s' = set_states st (sc_sched s) -> sc_pm s' = m -> sc_caches s' = sc_caches s ->
  sc_log s' = sc_log s ++ [(p, kb)] -> scan_inv None s'.
Proof.
  intros [Ht Hp Hl Hc Hr] Hp' Hl' Hf Es <- Ec El.
  split; rewrite ?Ec, ?El; unfold st_of in *; rewrite ?Es; try done.
  - destruct Ht as (ps & Ht & Hs). apply (tr_finish _ _ _ _ st) in Ht; [|intros q; destruct (Hf q); tauto].
    exists (ps ++ [p]). rewrite app_nil_r. split; [done|]. rewrite fmap_app. by apply sublist_app.
  - intros q. simpl. intros Hq. apply Hr. destruct (Hf q) as [H|[H _]]; congruence.
Qed.

(** After a launch the host may turn out to be dead. *)
Lemma dead_inv p s : scan_inv None s -> over_inv (mark p PLUGIN_STATUS_DONE (stop env s)).
Proof.
  intros Hi. destruct (stop_over _ (scan_over _ _ Hi)) as (Hov & Hu & Hn & _).
  assert (pm_inv None (sc_pm (stop env s)) (st_of (stop env s))) as Hst.
  { unfold stop, st_of in *. pose proof (stop_inv (pm_env env) None _ _ (si_pm _ _ Hi)) as H.
    unfold st_of in H. destruct (pluginlaunch_stop _ _ _) as [m st]. apply H. }
  split; [exists None|apply Hov]. destruct Hst as [H1 H2 H3 H4 H5]. split; try done.
  intros q. unfold mark, st_of. simpl. rewrite state_of_insert. case_decide as Hq; [|apply H5].
  rewrite Hu. split; [done|]. intros [H|H]; [by apply not_elem_of_nil in H|done].
Qed.

Hypothesis Hfinal : death_is_final (pm_env env).

Lemma start_plugin_ok oid p s : scan_inv (Some p) s ->
  match start_plugin env preferences ports fuel oid p s with
  | Ret (e, s') => launched_ok s e s'
  | NoReturn => True
  | Undef => False
  end.
Proof.
  intros Hi. unfold start_plugin. pose proof (so_fork Hstart (tick s)) as Hfork.
  pose proof (launch_ok (pm_env env) (s_plugins (sc_sched s)) ports fuel preferences
    (preferences_plugins_timeout preferences (sc_caches s)).1 oid p (fork_pid env (tick s)) _ _
    (si_pm _ _ Hi) (proj1 (si_limits _ _ Hi)) Hfinal) as H. unfold st_of in H.
  destruct (plugin_launch _ _ _ _ _ _ _ _ _ _ _) as [[[pid m] st]| |]; [|done..].
  destruct H as (-> & Hpm & _ & Hm & Hold & Hp & Hq & _).
  pose proof (launched_states p _ _ _ Hq (pending_state _ _ Hi) Hfork Hp) as Hf.
  destruct (fork_pid env (tick s) <? 0) eqn:E0; [lia|]. set (s' := ticked _).
  assert (limits m) as Hl by (pose proof (si_limits _ _ Hi); unfold limits in *; by rewrite Hm, Hold).
  assert (scan_inv None s') as Hi' by (by apply (logged_inv p (sc_kb s) s m st)).
  destruct (host_dead _); [right|by left]. split; [done|]. by apply dead_inv.
Qed.

Lemma launch_error_ok optimize plugin s : exists b,
  launch_error preferences network_scan_status optimize plugin s = Ret b.
Proof.
  unfold launch_error. destruct (negb _); [eauto|]. destruct (optimize =? 0); [eauto|].
  destruct (requirements_returns (Some (sc_kb s)) plugin preferences (so_ranges Hstart)) as (r & ->). eauto.
Qed.

Lemma skipped_ok p s s1 : scan_inv (Some p) s1 -> st_of s1 = st_of s ->
  launched_ok s 0 (mark p PLUGIN_STATUS_DONE s1).
Proof. intros Hi He. left. rewrite <- He. split; [done|]. by apply skip_inv. Qed.

Lemma count_plugin_ok o num_plugs s : num_plugs <> 0 -> scan_inv o s ->
  exists b s', count_plugin env num_plugs s = Ret (b, s') /\ scan_inv o s' /\ st_of s' = st_of s
    /\ sc_sched s' = sc_sched s /\ (b = false -> exists k, status_sent env k = false).
Proof.
  intros Hn Hi. unfold count_plugin. rewrite (proj2 (Z.eqb_neq _ _) Hn).
  destruct (_ <=? _); (eexists; eexists; split; [reflexivity|]; split; [|split; [done|split; [done|]]]).
  - by apply (inv_same o s); try apply Hi.
  - intros H. by exists (tick s).
  - by apply (inv_same o s); try apply Hi.
  - done.
Qed.

Lemma already_ok o oid s : scan_inv o s ->
  let '(b, s') := already_launched network_scan_status oid s in
  scan_inv o s' /\ st_of s' = st_of s.
Proof.
  intros Hi. unfold already_launched. destruct (network_scan _); [|done].
  destruct (_ <? _); [done|]. split; [|done]. by apply (inv_same o s); try apply Hi.
Qed.

Lemma plugin_known p s : scan_inv (Some p) s ->
  is_Some (plugin_oid s p) /\ is_Some (s_plugins (sc_sched s) !! p).
Proof.
  intros Hi. unfold plugin_oid. destruct (inv_graph _ _ Hi) as (-> & -> & _).
  apply Hstart. by apply (si_running _ _ Hi), pending_state.
Qed.

Lemma launch_plugin_ok num_plugs p s : num_plugs <> 0 -> scan_inv (Some p) s ->
  match launch_plugin env preferences network_scan_status ports fuel num_plugs p s with
  | Ret (e, s') => launched_ok s e s'
  | NoReturn => True
  | Undef => False
  end.
Proof.
  intros Hn Hi. unfold launch_plugin.
  destruct (optimize_ok args (sc_caches s) (si_caches _ _ Hi)) as (c & -> & Hc).
  destruct (plugin_known p s Hi) as [[oid Ho] [plugin Hp]]. set (s1 := set_caches c s).
  assert (scan_inv (Some p) s1) as Hi1 by (by apply (inv_same (Some p) s)).
  change (plugin_oid s1 p) with (plugin_oid s p). rewrite Ho. simpl. rewrite Hp.
  destruct (negb _ || _); [|by apply (skipped_ok p s s1)].
  destruct (safe_checks_ok args c Hc) as (c2 & -> & Hc2).
  set (s2 := set_caches c2 s1).
  assert (scan_inv (Some p) s2) as Hi2 by (by apply (inv_same (Some p) s)).
  destruct (negb _ && _); [by apply (skipped_ok p s s2)|].
  destruct (count_plugin_ok _ num_plugs s2 Hn Hi2) as (b & s3 & -> & Hi3 & E3 & _).
  destruct b; [|right; split; [done|by apply stop_over, (scan_over (Some p))]].
  pose proof (already_ok _ oid s3 Hi3) as H4.
  destruct (already_launched network_scan_status oid s3) as [already s4]. destruct H4 as [Hi4 E4].
  assert (st_of s4 = st_of s) as Es by (rewrite E4; exact E3).
  destruct already; [by apply skipped_ok|].
  destruct (launch_error_ok (optimize_value preferences) plugin s4) as ([|] & ->); [by apply skipped_ok|].
  pose proof (start_plugin_ok oid p s4 Hi4) as H.
  destruct (start_plugin _ _ _ _ _ _ _) as [[e s']| |]; [|done..]. unfold launched_ok in *. by rewrite <- Es.
Qed.

Lemma launch_retry_ok num_plugs retries p s : num_plugs <> 0 -> scan_inv (Some p) s ->
  match launch_retry env preferences network_scan_status ports fuel num_plugs retries p s with
  | Ret (false, _, s') => scan_inv None s' /\ finished_since (st_of s) (st_of s')
  | Ret (true, _, s') => over_inv s'
  | NoReturn => True
  | Undef => False
  end.
Proof.
  intros Hn Hi. pose proof (launch_plugin_ok num_plugs p s Hn Hi) as H.
  destruct retries; cbn [launch_retry];
    destruct (launch_plugin _ _ _ _ _ _ _ _) as [[e s']| |]; try done;
    (destruct H as [(-> & H)|(-> & H)]; [exact H|exact H]).
Qed.

(** ** The steps of the loop *)

Lemma ticked_inv o s : scan_inv o s -> scan_inv o (ticked s).
Proof. intros Hi. by apply (inv_same o s); try apply Hi. Qed.

Lemma pause_ok s : scan_inv None s ->
  match pause env fuel s with
  | Ret (true, s') => scan_inv None s' /\ finished_since (st_of s) (st_of s')
  | Ret (false, s') => over_inv s'
  | NoReturn => True
  | Undef => False
  end.
Proof.
  intros Hi. unfold pause. destruct (pause_whole_test env (tick s)).
  2:{ split; [by apply ticked_inv|apply finished_refl]. }
  pose proof (pluginlaunch_wait_inv (pm_env env) None fuel _ _ (si_pm _ _ Hi)) as H. unfold st_of in H.
  destruct (pluginlaunch_wait _ _ _ _) as [[m st]| |]; [|done..]. destruct H as (H1 & H2 & _).
  pose proof (scan_rounds_inv None s m st Hi H1 H2) as Hi1. set (s1 := after_rounds env m st s) in *.
  assert (finished_since (st_of s) (st_of s1)) as Hf.
  { intros q. apply (rounds_finish _ _ _ _ _ (si_pm _ _ Hi) H2). }
  unfold send_status. destruct (status_sent env _); simpl;
    [|apply stop_over, (scan_over None); by repeat apply ticked_inv].
  destruct (status_sent env _); simpl; [|apply stop_over, (scan_over None); by repeat apply ticked_inv].
  split; [by repeat apply ticked_inv|done].
Qed.

Definition advanced (st st' : states) : Prop := forall p, advances (state_of st p) (state_of st' p).

(** Every list empty, that is: every plugin of a list cleaned. *)
Definition all_cleaned (s : scan) : Prop := forall c q, 0 <= c <= ACT_LAST -> q ∈ get_list s0 c ->
  state_of (st_of s) q = PLUGIN_STATUS_DONE_AND_CLEANED.

Lemma schedule_ok s : scan_inv None s ->
  match schedule env fuel s with
  | Ret (PPlugin p, s') => scan_inv (Some p) s' /\ exists st, advanced (st_of s) st
      /\ state_of st p = PLUGIN_STATUS_UNRUN /\ (p < length (s_nodes s0))%nat
      /\ st_of s' = <[p := PLUGIN_STATUS_RUNNING]> st
  | Ret (PRunning, s') => scan_inv None s' /\ advanced (st_of s) (st_of s')
      /\ exists q, state_of (st_of s') q = PLUGIN_STATUS_RUNNING
  | Ret (PNull, s') => scan_inv None s' /\ advanced (st_of s) (st_of s') /\ all_cleaned s'
  | NoReturn => True
  | Undef => False
  end.
Proof.
  intros Hi. destruct (si_trace _ _ Hi) as (ps & Ht & Hlog). simpl in Ht. rewrite app_nil_r in Ht.
  pose proof (trace_facts _ _ Ht) as Hti.
  unfold schedule. destruct (plugins_scheduler_next _ _ _) as [[[r sch] m]| |] eqn:E;
    [|done|by apply scheduler_next_defined in E; [|apply wait_defined]].
  destruct sch as [sch|]; [|by apply scheduler_next_some in E].
  assert (pm_good (sc_pm s) (s_states (sc_sched s))) as Hgood by (split; apply Hi).
  pose proof (tr_next _ _ _ _ _ _ _ _ _ Ht Hgood E) as Ht'.
  destruct (scheduler_next_ok _ _ _ _ _ _ Hgood (sched_wf_listed _ (ti_wf _ _ _ _ Hti)) E)
    as (s1 & Hpre & [Hpm Hlim] & Hr).
  destruct (pre_steps_ok _ _ Hpre) as (Hg & Ha & _).
  pose proof (trace_facts _ _ Ht') as Hti'.
  assert (forall q, state_of (s_states s1) q = PLUGIN_STATUS_RUNNING -> (q < length (s_nodes s0))%nat) as Hrun.
  { intros q Hq. apply (si_running _ _ Hi). specialize (Ha q). unfold plugin_get_running_state in Ha.
    rewrite Hq in Ha. unfold advances, st_of in *. unfold_status. lia. }
  assert (forall o, sys_trace (pm_ok := pm_good) s0 (ps ++ opt_list o) [] sch -> pm_inv o m (s_states sch) ->
    (forall q, state_of (s_states sch) q = PLUGIN_STATUS_RUNNING -> (q < length (s_nodes s0))%nat) ->
    scan_inv o (after_rounds env m (s_states sch) (set_sched sch s))) as Hmk.
  { intros o H1 H2 H3. split; try done; [|apply Hi]. exists ps. split; [|done]. by destruct sch. }
  destruct r as [| |p]; simpl in Ht'; rewrite ?app_nil_r in Ht'.
  - destruct Hr as [-> Hempty]. split; [apply Hmk; simpl; rewrite ?app_nil_r; done|]. split; [done|].
    intros c q Hc Hq. destruct (ti_lists _ _ _ _ Hti' c q Hq (not_elem_of_nil q)) as [H|H]; [|done].
    rewrite (Hempty c Hc) in H. by apply not_elem_of_nil in H.
  - destruct Hr as [-> Hq]. split; [apply Hmk; simpl; rewrite ?app_nil_r; done|]. done.
  - destruct Hr as (-> & c & Hch & _). pose proof Hch as (Hun & _).
    assert ((p < length (s_nodes s0))%nat) as Hp.
    { destruct (same_graph_trans _ _ _ (inv_graph _ _ Hi) Hg) as (_ & _ & Hn). rewrite <- Hn.
      eapply (chosen_known (get_list (sc_sched s) c)); [|  |exact Hch].
      - by apply (sched_wf_pre _ _ Hpre), (ti_wf _ _ _ _ Hti).
      - intros q. destruct Hg as (_ & _ & ->). apply (wf_lists _ (ti_wf _ _ _ _ Hti)). }
    split; [|by exists (s_states s1)]. apply (Hmk (Some p)); [done| |].
    + apply pending_inv; [done|]. change (plugin_get_running_state s1 p <> PLUGIN_STATUS_RUNNING). by rewrite Hun.
    + intros q. simpl. rewrite state_of_insert. case_decide; [by subst|apply Hrun].
Qed.

(** ** The loop *)

Definition empty_table (s : scan) : Prop :=
  used (processes (sc_pm s)) = [] /\ num_running_processes (sc_pm s) = 0.

Definition loop_ok (e : scan_end) (s : scan) : Prop :=
  over_inv s /\ (e = Completed -> scan_inv None s /\ all_cleaned s) /\ (e = ParentDied -> empty_table s).

Lemma attack_loop_ok n num_plugs retries s : num_plugs <> 0 -> scan_inv None s ->
  match attack_loop env preferences network_scan_status ports fuel n num_plugs retries s with
  | Ret (e, s') => loop_ok e s'
  | NoReturn => True
  | Undef => False
  end.
Proof.
  intros Hn. revert retries s. induction n as [|n IH]; intros retries s Hi; [done|]. cbn [attack_loop].
  pose proof (ticked_inv _ _ Hi) as Hi1. destruct (negb _).
  { destruct (stop_over _ (scan_over _ _ Hi1)) as (H1 & H2 & H3 & _). split; [done|]. by split. }
  pose proof (pause_ok _ Hi1) as H2. destruct (pause env fuel (ticked s)) as [[[|] s2]| |]; [| |done|done].
  2:{ by split. }
  destruct H2 as [Hi2 _]. pose proof (schedule_ok _ Hi2) as H3.
  destruct (schedule env fuel s2) as [[[| |p] s3]| |]; [| | |done|done].
  - destruct H3 as (H3 & _ & H4). split; [by eapply scan_over|]. by split.
  - destruct H3 as (Hi3 & _). pose proof (wait_ok (pm_env env) fuel _ _ (si_pm _ _ Hi3)) as H4.
    unfold st_of in H4. destruct (wait_for_free_process _ _ _ _) as [[m st]| |]; [|done|done].
    apply IH. destruct H4 as (H4 & H5 & _). by apply (scan_rounds_inv None).
  - destruct H3 as (Hi3 & _). pose proof (launch_retry_ok num_plugs retries p s3 Hn Hi3) as H4.
    destruct (launch_retry _ _ _ _ _ _ _ _ _) as [[[[|] retries'] s4]| |]; [by split| |done|done].
    apply IH, H4.
Qed.

(** ** The loop comes to an end *)

Definition weight (x : Z) : Z :=
  if x =? PLUGIN_STATUS_UNRUN then 2 else if x =? PLUGIN_STATUS_RUNNING then 1 else 0.
(** What is left to do. *)
Definition work (st : states) : Z := sum_upto (fun p => weight (state_of st p)) (length (s_nodes s0)).

Lemma work_nonneg st : 0 <= work st.
Proof.
  unfold work. induction (length _) as [|n IH]; simpl; [lia|].
  assert (0 <= weight (state_of st n)); [|lia]. unfold weight. repeat case_match; lia.
Qed.

Lemma weight_advances x y : advances x y -> weight y <= weight x.
Proof. unfold advances, weight. unfold_status. intros H. repeat case_match; lia. Qed.

Lemma work_advanced st st' : advanced st st' -> work st' <= work st.
Proof. intros H. apply sum_upto_mono. intros q. apply weight_advances, H. Qed.

Lemma finished_advanced st st' : finished_since st st' -> advanced st st'.
Proof. intros H p. specialize (H p). unfold advances. tauto. Qed.

Lemma work_finished st st' q : finished_since st st' -> (q < length (s_nodes s0))%nat ->
  state_of st q = PLUGIN_STATUS_RUNNING -> state_of st' q = PLUGIN_STATUS_DONE -> work st' < work st.
Proof.
  intros H Hq H1 H2. apply (sum_upto_less _ _ _ q); [done| |by rewrite H1, H2].
  intros p. by apply weight_advances, finished_advanced.
Qed.

Lemma work_launched st p : (p < length (s_nodes s0))%nat -> state_of st p = PLUGIN_STATUS_UNRUN ->
  work (<[p := PLUGIN_STATUS_RUNNING]> st) < work st.
Proof.
  intros Hp H. apply (sum_upto_less _ _ _ p); [done| |by rewrite state_of_insert, decide_True, H].
  intros q. rewrite state_of_insert. case_decide; [subst; by rewrite H|done].
Qed.

(** ** The whole host *)

(** The state [attack_host] is called in. *)
Record fresh (s : scan) : Prop := {
  fr_sched : sc_sched s = s0;
  fr_unrun p : state_of (s_states s0) p <> PLUGIN_STATUS_RUNNING;
  fr_caches : coherent preferences (sc_caches s);
  fr_log : sc_log s = [];
  fr_active : get_active_plugins_number (Some (s_args s0)) <> 0 }.

(** The scan when the loop starts. *)
Definition loop_start (global_max_checks : Z) (s : scan) : scan :=
  mk_scan (sc_sched s) (pluginlaunch_init (get_max_checks_number preferences global_max_checks) (sc_pm s))
    (sc_kb s) (sc_caches s) 1 (last_status s) (tick s) (sc_log s).

Lemma loop_start_inv gmc s : fresh s -> 0 < gmc <= MAX_PROCESSES -> scan_inv None (loop_start gmc s).
Proof.
  intros [Es Hun Hc Hlog _] Hg. pose proof (max_checks_bounds preferences gmc ltac:(lia)) as Hb.
  split; unfold st_of, loop_start; cbn [sc_sched sc_pm sc_log sc_caches]; rewrite ?Es, ?Hlog; try done.
  - exists []. split; [apply tr_start|done].
  - split; simpl; [done|done|constructor|done|]. intros p. split; [intros H; by destruct (Hun p)|].
    intros [H|H]; [by apply not_elem_of_nil in H|done].
  - revert Hb. generalize (get_max_checks_number preferences gmc). intros k Hb.
    unfold limits, pluginlaunch_init, MAX_PROCESSES in *. cbn. destruct (32 <=? k) eqn:E; lia.
  - intros p Hp. by destruct (Hun p).
Qed.

Lemma send_over s : over_inv s -> over_inv (snd (send_status env s)).
Proof. done. Qed.

(** What is true whichever way the scan ends. *)
Definition host_ok (e : scan_end) (s : scan) : Prop :=
  empty_table s /\ NoDup (sc_log s).*1 /\ (e = Completed -> all_cleaned s).

Lemma over_nodup s : over_inv s -> NoDup (sc_log s).*1.
Proof. intros [_ (ps & H1 & H2)]. by eapply sublist_NoDup. Qed.

Lemma died_ok s : over_inv s -> empty_table (host_died env s) /\ NoDup (sc_log (host_died env s)).*1
  /\ finished_since (st_of s) (st_of (host_died env s)).
Proof.
  intros Ho. unfold host_died. destruct (stop_over _ (send_over _ Ho)) as (H1 & H2 & H3 & H4 & _).
  split; [done|]. split; [by apply over_nodup|done].
Qed.

Lemma cleaned_later s s' : all_cleaned s -> finished_since (st_of s) (st_of s') -> all_cleaned s'.
Proof.
  intros H Hf c q Hc Hq. specialize (H c q Hc Hq). specialize (Hf q). rewrite H in Hf. unfold_status. lia.
Qed.

Lemma attack_host_ok n gmc s : fresh s -> 0 < gmc <= MAX_PROCESSES ->
  match attack_host env preferences network_scan_status ports fuel n gmc s with
  | Ret (e, s') => host_ok e s'
  | NoReturn => True
  | Undef => False
  end.
Proof.
  intros Hf Hg. pose proof (loop_start_inv gmc s Hf Hg) as Hi. unfold attack_host.
  assert (get_active_plugins_number (Some (s_args (sc_sched s))) <> 0) as Hn.
  { rewrite (fr_sched _ Hf). apply Hf. }
  cbv zeta. fold (loop_start gmc s).
  pose proof (attack_loop_ok n _ MAX_FORK_RETRIES _ Hn Hi) as H.
  destruct (attack_loop _ _ _ _ _ _ _ _ _) as [[[| |] s1]| |]; [| | |done|done]; destruct H as (H1 & H2 & H3).
  - split; [by apply H3|]. split; [by apply over_nodup|done].
  - destruct (died_ok s1 H1) as (H4 & H5 & _). by split.
  - destruct (H2 eq_refl) as [Hi1 Hall].
    pose proof (pluginlaunch_wait_inv (pm_env env) None fuel _ _ (si_pm _ _ Hi1)) as H4. unfold st_of in H4.
    destruct (pluginlaunch_wait _ _ _ _) as [[m st]| |]; [|done|done]. destruct H4 as (H4 & H5 & _).
    pose proof (scan_rounds_inv None s1 m st Hi1 H4 H5) as Hi2. destruct (died_ok _ (scan_over _ _ Hi2)) as (H6 & H7 & H8).
    split; [done|]. split; [done|]. intros _. eapply cleaned_later; [|exact H8].
    apply (cleaned_later s1); [done|]. intros q. apply (rounds_finish _ _ _ _ _ (si_pm _ _ Hi1) H5).
Qed.

(** The conditions under which a scan comes to its end: every process is heard
    of again within [F] rounds, the dependencies are acyclic, parent, client and
    host stay alive. *)
Record live_ok (F : nat) (rank : nat -> nat) (R : nat) : Prop := {
  lo_fair : fair (pm_env env) F;
  lo_fuel : (F * 32 <= fuel)%nat;
  lo_ranked : ranked rank s0;
  lo_rank p : (p < length (s_nodes s0))%nat -> (rank p < R)%nat;
  lo_depth : (R + 43 < fuel)%nat;
  lo_parent k : parent_alive env k = true;
  lo_status k : status_sent env k = true;
  lo_host k kb : host_dead kb = false -> host_dead (kb_messages env k kb) = false }.

Context (F : nat) (rank : nat -> nat) (R : nat) (Hlive : live_ok F rank R).

Definition alive_kb (s : scan) : Prop := host_dead (sc_kb s) = false.

Lemma kb_rounds_alive k n kb : host_dead kb = false -> host_dead (kb_rounds env k n kb) = false.
Proof.
  revert k kb. induction n as [|n IH]; intros k kb H; [done|]. apply IH. by apply (lo_host _ _ _ Hlive).
Qed.

Lemma rounds_alive m st s : alive_kb s -> alive_kb (after_rounds env m st s).
Proof. apply kb_rounds_alive. Qed.

Lemma already_alive oid s : alive_kb s -> alive_kb (already_launched network_scan_status oid s).2.
Proof.
  unfold alive_kb, already_launched. destruct (network_scan _); [|done]. destruct (_ <? _); [done|].
  cbn [snd sc_kb set_kb]. intros H. unfold host_dead in *.
  destruct (Kb.add_int_other (sc_kb s) (launched_key oid) 1 "Host/dead") as (m & Hm & H1); [by destruct oid|].
  destruct (Kb.add_int_other (sc_kb s) (launched_key oid) 1 "Host/ping_failed") as (m' & Hm' & H2);
    [by destruct oid|].
  rewrite Hm in Hm'. injection Hm' as <-. rewrite Hm. change (default (sc_kb s) (Some m)) with m. by rewrite H1, H2.
Qed.

Lemma start_plugin_returns oid p s : scan_inv (Some p) s -> alive_kb s ->
  exists s', start_plugin env preferences ports fuel oid p s = Ret (0, s') /\ alive_kb s'.
Proof.
  intros Hi Ha. unfold start_plugin. pose proof (so_fork Hstart (tick s)) as Hfork.
  destruct (launch_returns (pm_env env) (s_plugins (sc_sched s)) ports F fuel preferences
    (preferences_plugins_timeout preferences (sc_caches s)).1 oid p (fork_pid env (tick s)) _ _
    (lo_fair _ _ _ Hlive) (si_pm _ _ Hi) (proj1 (si_limits _ _ Hi)) (lo_fuel _ _ _ Hlive)) as (pid & m & st & E).
  unfold st_of in E. rewrite E.
  pose proof (launch_ok (pm_env env) (s_plugins (sc_sched s)) ports fuel preferences
    (preferences_plugins_timeout preferences (sc_caches s)).1 oid p (fork_pid env (tick s)) _ _
    (si_pm _ _ Hi) (proj1 (si_limits _ _ Hi)) Hfinal) as H. unfold st_of in H. rewrite E in H.
  destruct H as (-> & _). destruct (fork_pid env (tick s) <? 0) eqn:E0; [lia|]. set (s' := ticked _).
  assert (alive_kb s') as Ha' by (by apply (rounds_alive m st (logged p (sc_kb s) s))).
  rewrite Ha'. eauto.
Qed.

Lemma launch_plugin_returns num_plugs p s : num_plugs <> 0 -> scan_inv (Some p) s -> alive_kb s ->
  exists s', launch_plugin env preferences network_scan_status ports fuel num_plugs p s = Ret (0, s')
    /\ alive_kb s'.
Proof.
  intros Hn Hi Ha. unfold launch_plugin.
  destruct (optimize_ok args (sc_caches s) (si_caches _ _ Hi)) as (c & -> & Hc).
  destruct (plugin_known p s Hi) as [[oid Ho] [plugin Hp]]. set (s1 := set_caches c s).
  change (plugin_oid s1 p) with (plugin_oid s p). rewrite Ho. simpl. rewrite Hp.
  destruct (negb _ || _); [|eauto]. destruct (safe_checks_ok args c Hc) as (c2 & -> & Hc2).
  set (s2 := set_caches c2 s1).
  assert (scan_inv (Some p) s2) as Hi2 by (by apply (inv_same (Some p) s)).
  destruct (negb _ && _); [eauto|].
  assert (alive_kb s2) as Ha2 by done.
  destruct (count_plugin_ok _ num_plugs s2 Hn Hi2) as (b & s3 & E3 & Hi3 & _ & _ & Hb).
  assert (alive_kb s3) as Ha3.
  { unfold count_plugin in E3. rewrite (proj2 (Z.eqb_neq _ _) Hn) in E3. destruct (_ <=? _); by simplify_eq. }
  rewrite E3. destruct b; [|destruct (Hb eq_refl) as [k Hk]; by rewrite (lo_status _ _ _ Hlive) in Hk].
  pose proof (already_ok _ oid s3 Hi3) as H4. pose proof (already_alive oid s3 Ha3) as Ha4.
  destruct (already_launched network_scan_status oid s3) as [already s4]. destruct H4 as [Hi4 E4].
  destruct already; [eauto|].
  destruct (launch_error_ok (optimize_value preferences) plugin s4) as ([|] & ->); [eauto|].
  by apply start_plugin_returns.
Qed.

Lemma pause_returns s : scan_inv None s -> alive_kb s ->
  exists s', pause env fuel s = Ret (true, s') /\ alive_kb s'.
Proof.
  intros Hi Ha. unfold pause. destruct (pause_whole_test _ _); [|eauto].
  pose proof (pluginlaunch_wait_returns _ _ _ _ _ _ (lo_fair _ _ _ Hlive) (si_pm _ _ Hi) (lo_fuel _ _ _ Hlive)) as H1.
  pose proof (pluginlaunch_wait_inv (pm_env env) None fuel _ _ (si_pm _ _ Hi)) as H2. unfold st_of in *.
  destruct (pluginlaunch_wait _ _ _ _) as [[m st]| |]; [|done..]. unfold send_status.
  rewrite (lo_status _ _ _ Hlive). simpl. rewrite (lo_status _ _ _ Hlive). simpl.
  eexists. split; [done|]. by apply (rounds_alive m st s).
Qed.

Lemma running_bound s : scan_inv None s -> (size (running_set (st_of s)) <= 32)%nat.
Proof.
  intros Hi. pose proof (si_pm _ _ Hi) as Hpm.
  assert (running_set (st_of s) ⊆ list_to_set (used (processes (sc_pm s)))) as Hsub.
  { intros q Hq. apply elem_of_running_set, (inv_running _ _ _ Hpm) in Hq.
    apply elem_of_list_to_set. by destruct Hq. }
  apply subseteq_size in Hsub. rewrite size_list_to_set in Hsub by apply Hpm.
  pose proof (num_le_32 _ _ _ Hpm). pose proof (inv_count _ _ _ Hpm). lia.
Qed.

Lemma schedule_returns s : scan_inv None s -> alive_kb s ->
  exists r s', schedule env fuel s = Ret (r, s') /\ alive_kb s'.
Proof.
  intros Hi Ha. pose proof (schedule_ok s Hi) as Hok. unfold schedule in *.
  destruct (si_trace _ _ Hi) as (ps & Ht & _). apply trace_facts in Ht.
  assert (ProcessManagerLive pm pm_good) as Hl.
  { apply good_live. eapply fair_mono, (lo_fair _ _ _ Hlive). pose proof (lo_fuel _ _ _ Hlive). lia. }
  destruct (next_loop_returns (pm_ok := pm_good) rank fuel R ACT_FIRST ACT_LAST false (sc_sched s) (sc_pm s))
    as [[[r s1] m1] E].
  - eapply ranked_graph; [apply (inv_graph _ _ Hi)|apply Hlive].
  - intros c q Hq. apply (lo_rank _ _ _ Hlive). destruct (inv_graph _ _ Hi) as (_ & _ & <-).
    by apply (wf_lists _ (ti_wf _ _ _ _ Ht)) in Hq.
  - split; apply Hi.
  - done.
  - pose proof (running_bound s Hi). pose proof (lo_depth _ _ _ Hlive). unfold st_of in *.
    change (Z.to_nat (ACT_LAST + 1 - ACT_FIRST)) with 11%nat. lia.
  - unfold plugins_scheduler_next. unfold host_manager in E. rewrite E. eexists _, _. split; [done|].
    by apply (rounds_alive m1 (s_states s1) (set_sched s1 s)).
Qed.

Lemma launch_retry_returns num_plugs retries p s : num_plugs <> 0 -> scan_inv (Some p) s -> alive_kb s ->
  exists r s', launch_retry env preferences network_scan_status ports fuel num_plugs retries p s
    = Ret (false, r, s') /\ alive_kb s'.
Proof.
  intros Hn Hi Ha. destruct (launch_plugin_returns num_plugs p s Hn Hi Ha) as (s' & E & Ha').
  destruct retries; cbn [launch_retry]; rewrite E; eauto.
Qed.

Lemma attack_loop_returns n num_plugs retries s : num_plugs <> 0 -> scan_inv None s -> alive_kb s ->
  work (st_of s) < Z.of_nat n ->
  exists s', attack_loop env preferences network_scan_status ports fuel n num_plugs retries s
    = Ret (Completed, s').
Proof.
  intros Hn. revert retries s. induction n as [|n IH]; intros retries s Hi Ha Hw.
  { pose proof (work_nonneg (st_of s)). lia. }
  cbn [attack_loop]. rewrite (lo_parent _ _ _ Hlive). cbn [negb].
  pose proof (ticked_inv _ _ Hi) as Hi1. pose proof (pause_ok _ Hi1) as H2.
  destruct (pause_returns _ Hi1 Ha) as (s2 & E2 & Ha2). rewrite E2 in *. destruct H2 as [Hi2 Hf2].
  pose proof (schedule_ok _ Hi2) as H3. destruct (schedule_returns _ Hi2 Ha2) as (r & s3 & E3 & Ha3).
  pose proof (work_advanced _ _ (finished_advanced _ _ Hf2)) as Hw2.
  change (st_of (ticked s)) with (st_of s) in Hw2. rewrite E3 in *. destruct r as [| |p]; [eauto| |].
  - destruct H3 as (Hi3 & Ha23 & q & Hq). pose proof (work_advanced _ _ Ha23) as Hw3.
    pose proof (wait_ok (pm_env env) fuel _ _ (si_pm _ _ Hi3)) as H4.
    assert (fair (pm_env env) fuel) as Hfair.
    { eapply fair_mono, (lo_fair _ _ _ Hlive). pose proof (lo_fuel _ _ _ Hlive). lia. }
    pose proof (wait_live (pm_env env) fuel _ _ q Hfair (si_pm _ _ Hi3) Hq) as H5. unfold st_of in *.
    destruct (wait_for_free_process _ _ _ _) as [[m st]| |]; [|done|done].
    destruct H4 as (H4 & H6 & H7 & x & Hx & Hx').
    apply IH; [by apply (scan_rounds_inv None)|by apply rounds_alive|].
    pose proof (work_finished (s_states (sc_sched s3)) st x H7 (si_running _ _ Hi3 x Hx) Hx Hx').
    change (work st < Z.of_nat n). lia.
  - destruct H3 as (Hi3 & st & Ha23 & Hun & Hp & Est). pose proof (work_advanced _ _ Ha23) as Hw3.
    pose proof (work_launched st p Hp Hun) as Hw4. rewrite <- Est in Hw4.
    pose proof (launch_retry_ok num_plugs retries p s3 Hn Hi3) as H4.
    destruct (launch_retry_returns num_plugs retries p s3 Hn Hi3 Ha3) as (r' & s4 & E4 & Ha4).
    rewrite E4 in *. destruct H4 as [Hi4 Hf4].
    pose proof (work_advanced _ _ (finished_advanced _ _ Hf4)). apply IH; [done|done|lia].
Qed.

Lemma work_bound st : work st <= 2 * Z.of_nat (length (s_nodes s0)).
Proof.
  unfold work. induction (length _) as [|n IH]; simpl; [lia|].
  assert (weight (state_of st n) <= 2); [|lia]. unfold weight. repeat case_match; lia.
Qed.

Lemma attack_host_returns n gmc s : fresh s -> 0 < gmc <= MAX_PROCESSES -> alive_kb s ->
  (2 * length (s_nodes s0) < n)%nat ->
  exists s', attack_host env preferences network_scan_status ports fuel n gmc s = Ret (Completed, s').
Proof.
  intros Hf Hg Ha Hfuel. pose proof (loop_start_inv gmc s Hf Hg) as Hi. unfold attack_host.
  assert (get_active_plugins_number (Some (s_args (sc_sched s))) <> 0) as Hn.
  { rewrite (fr_sched _ Hf). apply Hf. }
  cbv zeta. fold (loop_start gmc s).
  pose proof (work_bound (st_of (loop_start gmc s))) as Hw.
  destruct (attack_loop_returns n _ MAX_FORK_RETRIES _ Hn Hi Ha ltac:(lia)) as (s1 & E).
  pose proof (attack_loop_ok n _ MAX_FORK_RETRIES _ Hn Hi) as H. rewrite E in *.
  destruct H as (_ & H2 & _). destruct (H2 eq_refl) as [Hi1 _].
  pose proof (pluginlaunch_wait_returns _ _ _ _ _ _ (lo_fair _ _ _ Hlive) (si_pm _ _ Hi1) (lo_fuel _ _ _ Hlive)) as H3.
  pose proof (pluginlaunch_wait_inv (pm_env env) None fuel _ _ (si_pm _ _ Hi1)) as H4. unfold st_of in *.
  destruct (pluginlaunch_wait _ _ _ _) as [[m st]| |]; [eauto|done|done].
Qed.

End Host.

(** ** What is launched *)

(** In any environment: forks may fail, the host may die, the client go. *)
Section Guard.
Context `{G : Glib}.
Context (env : attack_env) (args : list Arglists.arg) (network_scan_status : option string)
  (ports : names) (fuel : nat) (s0 : sched).
Abbreviation preferences := (Some args).

(** Plugin [p] may be launched when the knowledge base is [kb]. *)
Definition may_launch (p : nat) (kb : kb_map) : Prop := exists plugin,
  s_plugins s0 !! p = Some plugin
  /\ (plug_get_launch s0 p <> LAUNCH_DISABLED \/ category plugin = ACT_SETTINGS)
  /\ (is_pref preferences "safe_checks" "yes" = true -> dangerous (category plugin) = false)
  /\ (network_scan network_scan_status = true \/ key_missing (Some kb) (mandatory_keys plugin) = None)
  /\ (is_pref preferences "optimize_test" "no" = false ->
       requirements_plugin (Some kb) plugin preferences = Ret None).

Record guard (s : scan) : Prop := {
  gu_graph : same_graph s0 (sc_sched s);
  gu_caches : coherent preferences (sc_caches s);
  gu_log : Forall (fun x => may_launch x.1 x.2) (sc_log s) }.

(** Steps that launch nothing. *)
Lemma guard_same s s' : guard s -> s_args (sc_sched s') = s_args (sc_sched s) ->
  s_plugins (sc_sched s') = s_plugins (sc_sched s) -> s_nodes (sc_sched s') = s_nodes (sc_sched s) ->
  coherent preferences (sc_caches s') -> sc_log s' = sc_log s -> guard s'.
Proof.
  intros [(G1 & G2 & G3) H2 H3] E1 E2 E3 Hc El. split; [|done|by rewrite El].
  split; [congruence|]. split; congruence.
Qed.

Lemma guard_stop s : guard s -> guard (stop env s).
Proof.
  intros H. unfold stop. destruct (pluginlaunch_stop _ _ _). by apply (guard_same s); try apply H.
Qed.

Lemma guard_rounds m st s : guard s -> guard (after_rounds env m st s).
Proof. intros H. by apply (guard_same s); try apply H. Qed.

Lemma guard_mark p x s : guard s -> guard (mark p x s).
Proof. intros H. by apply (guard_same s); try apply H. Qed.

Lemma guard_ticked s : guard s -> guard (ticked s).
Proof. intros H. by apply (guard_same s); try apply H. Qed.

Lemma start_guard oid p s e s' : guard s -> may_launch p (sc_kb s) ->
  start_plugin env preferences ports fuel oid p s = Ret (e, s') -> guard s'.
Proof.
  intros H Hm. unfold start_plugin. destruct (plugin_launch _ _ _ _ _ _ _ _ _ _ _) as [[[pid m] st]| |]; [|done..].
  assert (guard (ticked (after_rounds env m st (logged p (sc_kb s) s)))) as Hg.
  { apply guard_ticked, guard_rounds. destruct H as [H1 H2 H3]. split; [done|done|]. simpl.
    apply Forall_app. split; [done|]. by apply Forall_singleton. }
  destruct (pid <? 0); [intros [= <- <-]; by apply guard_mark|].
  destruct (host_dead _); intros [= <- <-]; [by apply guard_mark, guard_stop|done].
Qed.

Lemma count_guard num_plugs s b s' : guard s -> count_plugin env num_plugs s = Ret (b, s') -> guard s'.
Proof.
  intros H. unfold count_plugin. destruct (num_plugs =? 0); [done|].
  destruct (_ <=? _); intros [= <- <-]; by apply (guard_same s); try apply H.
Qed.

Lemma already_guard oid s : guard s -> guard (already_launched network_scan_status oid s).2.
Proof.
  intros H. unfold already_launched. destruct (network_scan _); [|done].
  destruct (_ <? _); [done|]. by apply (guard_same s); try apply H.
Qed.

Lemma no_error optimize plugin s :
  launch_error preferences network_scan_status optimize plugin s = Ret false ->
  (network_scan network_scan_status = true \/ key_missing (Some (sc_kb s)) (mandatory_keys plugin) = None)
  /\ (optimize <> 0 -> requirements_plugin (Some (sc_kb s)) plugin preferences = Ret None).
Proof.
  unfold launch_error, mandatory_requirements_met.
  destruct (network_scan _), (key_missing _ _); simpl; try done;
    (destruct (optimize =? 0) eqn:E;
      [intros _; split; [by auto|intros; lia]|
       destruct (requirements_plugin _ _ _) as [[x|]| |]; try done; split; [by auto|done]]).
Qed.

Lemma launch_plugin_guard num_plugs p s e s' : guard s ->
  launch_plugin env preferences network_scan_status ports fuel num_plugs p s = Ret (e, s') -> guard s'.
Proof.
  intros H. unfold launch_plugin.
  destruct (optimize_ok args (sc_caches s) (gu_caches _ H)) as (c & -> & Hc).
  set (s1 := set_caches c s). assert (guard s1) as H1 by (by apply (guard_same s)).
  destruct (plugin_oid s1 p) as [oid|]; [|by intros [= <- <-]].
  destruct (s_plugins (sc_sched s1) !! p) as [plugin|] eqn:Ep; [|done].
  destruct (negb _ || _) eqn:El; [|intros [= <- <-]; by apply guard_mark].
  destruct (safe_checks_ok args c Hc) as (c2 & Es & Hc2). change (sc_caches s1) with c. rewrite Es.
  set (s2 := set_caches c2 s1). assert (guard s2) as H2 by (by apply (guard_same s)).
  destruct (negb _ && _) eqn:Ed; [intros [= <- <-]; by apply guard_mark|].
  destruct (count_plugin _ _ s2) as [[b s3]| |] eqn:E3; [|done..].
  pose proof (count_guard _ _ _ _ H2 E3) as H3. destruct b; [|intros [= <- <-]; by apply guard_stop].
  pose proof (already_guard oid s3 H3) as H4.
  destruct (already_launched network_scan_status oid s3) as [already s4]. simpl in H4.
  destruct already; [intros [= <- <-]; by apply guard_mark|].
  destruct (launch_error _ _ _ _ s4) as [[|]| |] eqn:E5; [intros [= <- <-]; by apply guard_mark| |done..].
  apply start_guard; [done|]. apply no_error in E5 as [E5 E6]. exists plugin.
  destruct (gu_graph _ H1) as (Ga & Gp & _). rewrite <- Gp. split; [done|]. split; [|split; [|split; [done|]]].
  - unfold plug_get_launch in *. rewrite <- Ga. apply orb_true_iff in El as [El|El]; [left|right]; [|lia].
    rewrite negb_true_iff, Z.eqb_neq in El. done.
  - intros Hs. unfold safe_checks_value in Ed. rewrite Hs in Ed. by destruct (dangerous _).
  - intros Ho. apply E6. unfold optimize_value. by rewrite Ho.
Qed.

Lemma launch_retry_guard num_plugs retries p s b r s' : guard s ->
  launch_retry env preferences network_scan_status ports fuel num_plugs retries p s = Ret (b, r, s') ->
  guard s'.
Proof.
  revert s. induction retries as [|retries IH]; intros s H; cbn [launch_retry];
    (destruct (launch_plugin _ _ _ _ _ _ _ _) as [[e s1]| |] eqn:E; [|done..]);
    apply (launch_plugin_guard _ _ _ _ _ H) in E;
    (destruct (e =? ERR_HOST_DEAD); [by intros [= <- <- <-]|]);
    (destruct (e =? ERR_CANT_FORK); [|by intros [= <- <- <-]]); [by intros [= <- <- <-]|by apply IH].
Qed.

Lemma pause_guard s b s' : guard s -> pause env fuel s = Ret (b, s') -> guard s'.
Proof.
  intros H. unfold pause, send_status. destruct (pause_whole_test _ _); [|intros [= <- <-]; by apply guard_ticked].
  destruct (pluginlaunch_wait _ _ _ _) as [[m st]| |]; [|done..].
  destruct (status_sent env _); simpl;
    [destruct (status_sent env _); simpl|]; intros [= <- <-];
    repeat first [apply guard_stop|apply guard_ticked|apply guard_rounds]; done.
Qed.

Lemma schedule_guard s r s' : guard s -> schedule env fuel s = Ret (r, s') -> guard s'.
Proof.
  intros H. unfold schedule. destruct (plugins_scheduler_next _ _ _) as [[[r1 [sch|]] m]| |] eqn:E; [|done..].
  intros [= <- <-]. apply scheduler_next_plugins in E as (E1 & E2 & E3).
  apply guard_rounds. by apply (guard_same s); try apply H.
Qed.

Lemma attack_loop_guard n num_plugs retries s e s' : guard s ->
  attack_loop env preferences network_scan_status ports fuel n num_plugs retries s = Ret (e, s') -> guard s'.
Proof.
  revert retries s. induction n as [|n IH]; intros retries s H; [done|]. cbn [attack_loop].
  destruct (negb _); [intros [= <- <-]; by apply guard_stop, guard_ticked|].
  destruct (pause _ _ _) as [[[|] s2]| |] eqn:E2; [| |done..];
    apply (pause_guard _ _ _ (guard_ticked _ H)) in E2; [|by intros [= <- <-]].
  destruct (schedule _ _ _) as [[[| |p] s3]| |] eqn:E3; [| | |done..];
    apply (schedule_guard _ _ _ E2) in E3; [by intros [= <- <-]| |].
  - destruct (wait_for_free_process _ _ _ _) as [[m st]| |]; [|done..]. by apply IH, guard_rounds.
  - destruct (launch_retry _ _ _ _ _ _ _ _ _) as [[[[|] r] s4]| |] eqn:E4; [| |done..];
      apply (launch_retry_guard _ _ _ _ _ _ _ E3) in E4; [by intros [= <- <-]|by apply IH].
Qed.

Lemma attack_host_guard n gmc s e s' : guard s ->
  attack_host env preferences network_scan_status ports fuel n gmc s = Ret (e, s') -> guard s'.
Proof.
  intros H. unfold attack_host. cbv zeta. fold (loop_start args gmc s).
  assert (guard (loop_start args gmc s)) as H0 by (by apply (guard_same s); try apply H).
  destruct (attack_loop _ _ _ _ _ _ _ _ _) as [[e1 s1]| |] eqn:E; [|done..].
  apply (attack_loop_guard _ _ _ _ _ _ H0) in E.
  destruct e1; [by intros [= <- <-]|intros [= <- <-]; by apply guard_stop, guard_ticked|].
  destruct (pluginlaunch_wait _ _ _ _) as [[m st]| |]; [|done..].
  intros [= <- <-]. by apply guard_stop, guard_ticked, guard_rounds.
Qed.

End Guard.

(** ** Properties *)

(** C1: The scan of a host comes to its end: when every process is heard of
    again, the dependencies are acyclic, forks succeed and parent, client and host
    stay alive, [attack_host] returns normally within two iterations per plugin,
    with every plugin of every list done and cleaned, nothing running any more and
    no plugin launched twice. *)
Theorem attack_host_completes `{G : Glib} (env : attack_env) (args : list Arglists.arg)
  (network_scan_status : option string) (ports : names) (fuel F R : nat) (rank : nat -> nat)
  (s0 : sched) (n : nat) (global_max_checks : Z) (s : scan)
  (Hs : start_ok env args s0) (Hd : death_is_final (pm_env env))
  (Hl : live_ok env fuel s0 F rank R) (Hf : fresh args s0 s)
  (Hg : 0 < global_max_checks <= MAX_PROCESSES) (Ha : host_dead (sc_kb s) = false)
  (Hn : (2 * length (s_nodes s0) < n)%nat) :
  exists s', attack_host env (Some args) network_scan_status ports fuel n global_max_checks s
      = Ret (Completed, s')
    /\ (forall c q, 0 <= c <= ACT_LAST -> q ∈ get_list s0 c ->
         state_of (st_of s') q = PLUGIN_STATUS_DONE_AND_CLEANED)
    /\ used (processes (sc_pm s')) = [] /\ num_running_processes (sc_pm s') = 0
    /\ NoDup (sc_log s').*1.
Proof.
  destruct (attack_host_returns env args network_scan_status ports fuel s0 Hs Hd F rank R Hl n
    global_max_checks s Hf Hg Ha Hn) as (s' & E).
  pose proof (attack_host_ok env args network_scan_status ports fuel s0 Hs Hd n global_max_checks s Hf Hg) as H.
  rewrite E in H. destruct H as ((H1 & H2) & H3 & H4). exists s'. split; [done|]. split; [|done]. by apply H4.
Qed.

(** C2: Take the scan of a host that starts from a well-formed scheduler, with valid
    port ranges and at least one active plugin, with a system-wide limit of one to
    [MAX_PROCESSES] plugins at a time, where forks succeed and a process once dead
    stays dead.  Whatever else the client, the parent and the processes do, it never
    leaves defined behaviour, and however it ends no process is left in the table
    and no plugin was launched twice.  Without an active plugin the percentage
    divides by zero, with a higher limit the table overflows, and after a failed
    fork a plugin can be launched twice. *)
Theorem attack_host_safe `{G : Glib} (env : attack_env) (args : list Arglists.arg)
  (network_scan_status : option string) (ports : names) (fuel : nat) (s0 : sched) (n : nat)
  (global_max_checks : Z) (s : scan)
  (Hs : start_ok env args s0) (Hd : death_is_final (pm_env env)) (Hf : fresh args s0 s)
  (Hg : 0 < global_max_checks <= MAX_PROCESSES) :
  match attack_host env (Some args) network_scan_status ports fuel n global_max_checks s with
  | Ret (_, s') => used (processes (sc_pm s')) = [] /\ num_running_processes (sc_pm s') = 0
                   /\ NoDup (sc_log s').*1
  | NoReturn => True
  | Undef => False
  end.
Proof.
  pose proof (attack_host_ok env args network_scan_status ports fuel s0 Hs Hd n global_max_checks s Hf Hg) as H.
  destruct (attack_host _ _ _ _ _ _ _ _) as [[e s']| |]; [|done..]. destruct H as ((H1 & H2) & H3 & _). done.
Qed.

(** C19: A plugin is only launched when it is enabled or a settings plugin, safe
    checks do not forbid its category, its mandatory keys are in the knowledge
    base (but for a network scan) and, unless the optimization is off, its
    requirements are met; whatever the environment does. *)
Theorem launches_allowed `{G : Glib} (env : attack_env) (args : list Arglists.arg)
  (network_scan_status : option string) (ports : names) (fuel n : nat) (global_max_checks : Z)
  (s s' : scan) (e : scan_end)
  (Hc : coherent (Some args) (sc_caches s)) (Hlog : sc_log s = [])
  (E : attack_host env (Some args) network_scan_status ports fuel n global_max_checks s = Ret (e, s')) :
  forall p kb, (p, kb) ∈ sc_log s' -> exists plugin,
    s_plugins (sc_sched s) !! p = Some plugin
    /\ (plug_get_launch (sc_sched s) p <> LAUNCH_DISABLED \/ category plugin = ACT_SETTINGS)
    /\ (is_pref (Some args) "safe_checks" "yes" = true -> category plugin ∉
          [ACT_DESTRUCTIVE_ATTACK; ACT_DENIAL; ACT_KILL_HOST; ACT_FLOOD])
    /\ (network_scan network_scan_status = true \/ key_missing (Some kb) (mandatory_keys plugin) = None)
    /\ (is_pref (Some args) "optimize_test" "no" = false ->
         requirements_plugin (Some kb) plugin (Some args) = Ret None).
Proof.
  intros p kb Hp. assert (guard args network_scan_status (sc_sched s) s) as Hgd.
  { split; [done|done|]. rewrite Hlog. constructor. }
  apply (attack_host_guard _ _ _ _ _ _ _ _ _ _ _ Hgd) in E. pose proof (gu_log _ _ _ _ E) as H.
  rewrite Forall_forall in H. destruct (H (p, kb) Hp) as (plugin & H1 & H2 & H3 & H4).
  exists plugin. split; [done|]. split; [done|]. split; [|done]. intros Hsafe. specialize (H3 Hsafe).
  unfold dangerous in H3. rewrite !orb_false_iff, !Z.eqb_neq in H3.
  rewrite !not_elem_of_cons. pose proof (not_elem_of_nil (category plugin)). tauto.
Qed.

(** *** The retry after a failed fork *)

Lemma launch_unrun `{G : Glib} e plugins ns fuel prefs t oid p fork m st m' st' pid' :
  pm_inv None m st -> state_of st p = PLUGIN_STATUS_UNRUN -> 0 < fork -> limits m ->
  plugin_launch e plugins ns fuel prefs t oid p fork m st = Ret (pid', m', st') ->
  p ∈ used (processes m') /\ state_of st' p = PLUGIN_STATUS_UNRUN.
Proof.
  intros Hi Hp Hfork [Hl _]. unfold plugin_launch, next_free_process, MAX_PROCESSES in *.
  destruct (rounds_until e _ fuel m st) as [[m1 st1]| |] eqn:E1; [|done..].
  destruct (rounds_until_inv _ _ _ _ _ _ _ _ Hi E1) as (H1 & R1 & Hs).
  destruct (wait_conflicts _ _ _ _ _ _ _ _) as [[m2 st2]| |] eqn:E2; [|done..].
  destruct (wait_conflicts_inv _ _ _ _ _ _ _ _ _ _ _ H1 E2) as (H2 & R2 & _).
  pose proof (num_le _ _ _ _ _ H1 H2 R2) as Hle. pose proof (rounds_ok_trans _ _ _ _ _ _ R1 R2) as R.
  assert (max_running_processes m1 = max_running_processes m) as Hm by apply R1.
  destruct (free_slot_spec (processes m2)) as (i & r & -> & Hr & Hu).
  { pose proof (inv_count _ _ _ H2). rewrite (inv_slots _ _ _ H2). lia. }
  destruct (Z.of_nat i <? 0) eqn:Ei; [lia|]. rewrite Nat2Z.id, (proj2 (Z.ltb_lt 0 fork) Hfork).
  intros [= <- <- <-]. split.
  - simpl. rewrite (used_insert _ _ _ _ Hr Hu). unfold in_use. simpl.
    rewrite (proj2 (Z.ltb_lt 0 fork) Hfork). apply elem_of_app. left. by left.
  - destruct (rounds_finish _ _ _ _ _ Hi R p) as [->|[H _]]; [done|]. by rewrite Hp in H.
Qed.

(** When the fork for a plugin fails and the retry succeeds, the plugin runs
    but is marked as one that has not run: the scheduler, which launches what has
    not run, launches it again. *)
Theorem retried_plugin_unrun `{G : Glib} (env : attack_env) (preferences : prefs) (ports : names)
  (fuel : nat) (oid : string) (p : nat) (s s1 s2 : scan)
  (Hi : pm_inv (Some p) (sc_pm s) (st_of s)) (Hl : limits (sc_pm s)) (Hd : death_is_final (pm_env env))
  (H1 : start_plugin env preferences ports fuel oid p s = Ret (ERR_CANT_FORK, s1))
  (Hfork : 0 < fork_pid env (tick s1))
  (H2 : start_plugin env preferences ports fuel oid p s1 = Ret (0, s2)) :
  p ∈ used (processes (sc_pm s2)) /\ state_of (st_of s2) p = PLUGIN_STATUS_UNRUN.
Proof.
  unfold start_plugin in H1.
  pose proof (launch_ok (pm_env env) (s_plugins (sc_sched s)) ports fuel preferences
    (preferences_plugins_timeout preferences (sc_caches s)).1 oid p (fork_pid env (tick s)) _ _
    Hi (proj1 Hl) Hd) as H. unfold st_of in H.
  destruct (plugin_launch _ _ _ _ _ _ _ _ _ _ _) as [[[pid m] st]| |]; [|done..].
  destruct H as (-> & Hpm & _ & Hm & Hold & Hp & _).
  destruct (fork_pid env (tick s) <? 0) eqn:E0; [|by destruct (host_dead _)].
  rewrite (proj2 (Z.ltb_ge 0 _)) in Hp by lia. injection H1 as <-.
  unfold start_plugin in H2. destruct (plugin_launch _ _ _ _ _ _ _ _ _ _ _) as [[[pid2 m2] st2]| |] eqn:E2; [|done..].
  apply launch_unrun in E2 as [H3 H4]; [|simpl| |done|].
  - destruct (pid2 <? 0); [done|]. destruct (host_dead _); [done|]. by injection H2 as <-.
  - destruct Hpm as [A1 A2 A3 A4 A5]. split; try done. intros q. unfold mark. simpl. rewrite state_of_insert.
    case_decide as Hq; [|apply A5]. subst q. rewrite <- A5, Hp. done.
  - unfold mark. simpl. by rewrite state_of_insert, decide_True.
  - unfold limits in *. simpl. by rewrite Hm, Hold.
Qed.

(** ** Witnesses *)

(** Plugin "a" depends on plugin "b"; the processes are those of the environment
    of the process manager's witnesses, the scan is paused once. *)
Definition host_sched : sched :=
  mk_sched [mk_nvt_arg "a" (Some "1.1"%string) 1; mk_nvt_arg "b" (Some "1.2"%string) 1]
    [mk_plugin ACT_GATHER_INFO 0 (Some ["139"%string]) None None None None;
     mk_plugin ACT_SETTINGS 0 None None None None None]
    (s_nodes demo) (s_hash demo) (s_lists demo) (s_plist demo) (s_states demo).

Definition host_args : list Arglists.arg :=
  [Arglists.Arg "port_range" Arglists.ARG_STRING (Arglists.VStr "1-1000") 0 (Arglists.mkhash "port_range")].

Definition host_env (forks : nat -> Z) : attack_env :=
  mk_attack_env demo_env (fun _ kb => kb) (fun _ => true) forks (fun _ => true) (fun k => (k =? 1)%nat).

Definition host_scan : scan := mk_scan host_sched (pluginlaunch_init 1 demo_pm) ∅ no_caches 0 0 0 [].

Lemma host_start (forks : nat -> Z) : (forall k, 0 < forks k) -> start_ok (host_env forks) host_args host_sched.
Proof.
  intros Hf. split.
  - destruct demo_wf as [H1 H2 H3]. by split.
  - exact demo_fit.
  - exact demo_exact.
  - intros [|[|p]] Hp; [split; by eexists..|simpl in Hp; lia].
  - exists "1-1000"%string. eexists. split; vm_compute; reflexivity.
  - exact Hf.
Qed.

Lemma host_fresh : fresh host_args host_sched host_scan.
Proof.
  split; [done| |apply no_caches_coherent|done|vm_compute; discriminate].
  intros p. change (plugin_get_running_state demo p <> PLUGIN_STATUS_RUNNING). rewrite demo_state.
  by case_decide.
Qed.

Lemma attack_host_completes_witness :
  exists s', attack_host (host_env (fun k => 100 + Z.of_nat k)) (Some host_args) None None 64 5 10 host_scan
      = Ret (Completed, s') /\ state_of (st_of s') 0 = PLUGIN_STATUS_DONE_AND_CLEANED.
Proof.
  destruct (attack_host_completes (host_env (fun k => 100 + Z.of_nat k)) host_args None None 64 2 2
    (fun p => 1 - p)%nat host_sched 5 10 host_scan) as (s' & E & H & _).
  - apply host_start. intros k. lia.
  - exact demo_final.
  - split; simpl; try done; try lia; [exact demo_fair|]. intros p q H.
    assert (dep demo p q) as Hd by exact H. apply demo_dep in Hd as [-> ->]. lia.
  - exact host_fresh.
  - unfold MAX_PROCESSES. lia.
  - vm_compute. reflexivity.
  - simpl. lia.
  - exists s'. split; [exact E|]. apply (H 3); [unfold ACT_LAST; lia|]. vm_compute. left.
Defined.

Lemma attack_host_safe_witness :
  match attack_host (host_env (fun k => 100 + Z.of_nat k)) (Some host_args) None None 64 5 10 host_scan with
  | Ret (_, s') => used (processes (sc_pm s')) = [] /\ num_running_processes (sc_pm s') = 0
                   /\ NoDup (sc_log s').*1
  | NoReturn => True
  | Undef => False
  end.
Proof.
  apply (attack_host_safe (host_env (fun k => 100 + Z.of_nat k)) host_args None None 64 host_sched 5 10 host_scan).
  - apply host_start. intros k. lia.
  - exact demo_final.
  - exact host_fresh.
  - unfold MAX_PROCESSES. lia.
Defined.

Definition host_result : scan := Eval vm_compute in
  match attack_host (host_env (fun k => 100 + Z.of_nat k)) (Some host_args) None None 64 5 10 host_scan with
  | Ret (_, s') => s' | _ => host_scan end.

Lemma launches_allowed_witness : sc_log host_result <> [] /\ forall p kb, (p, kb) ∈ sc_log host_result ->
  exists plugin, s_plugins host_sched !! p = Some plugin
    /\ key_missing (Some kb) (mandatory_keys plugin) = None.
Proof.
  assert (attack_host (host_env (fun k => 100 + Z.of_nat k)) (Some host_args) None None 64 5 10 host_scan
    = Ret (Completed, host_result)) as E by (vm_compute; reflexivity).
  split; [discriminate|]. intros p kb Hp.
  destruct (launches_allowed (host_env (fun k => 100 + Z.of_nat k)) host_args None None 64 5 10 host_scan
    host_result Completed (no_caches_coherent _) eq_refl E p kb Hp) as (plugin & H1 & _ & _ & H2 & _).
  exists plugin. split; [exact H1|]. destruct H2 as [H2|H2]; [discriminate H2|exact H2].
Defined.

(** The first fork fails. *)
Definition retry_env : attack_env := host_env (fun k => if (k =? 0)%nat then -1 else 100 + Z.of_nat k).
Definition retry_scan : scan :=
  mk_scan (set_states (<[0%nat := PLUGIN_STATUS_RUNNING]> (s_states host_sched)) host_sched)
    (pluginlaunch_init 4 demo_pm) ∅ no_caches 0 0 0 [].

Definition retry_once : scan := Eval vm_compute in
  match start_plugin retry_env (Some host_args) None 64 "1.1" 0 retry_scan with Ret (_, s) => s | _ => retry_scan end.
Definition retry_twice : scan := Eval vm_compute in
  match start_plugin retry_env (Some host_args) None 64 "1.1" 0 retry_once with Ret (_, s) => s | _ => retry_scan end.

Lemma retried_plugin_unrun_witness :
  0%nat ∈ used (processes (sc_pm retry_twice)) /\ state_of (st_of retry_twice) 0 = PLUGIN_STATUS_UNRUN.
Proof.
  apply (retried_plugin_unrun retry_env (Some host_args) None 64 "1.1" 0 retry_scan retry_once retry_twice).
  - apply (pending_inv _ (s_states host_sched)).
    + split; [done|done|constructor|done|]. intros p.
      change (plugin_get_running_state demo p = PLUGIN_STATUS_RUNNING <-> p ∈ [] \/ None = Some p).
      rewrite demo_state. split; [by case_decide|]. intros [H|H]; [by apply not_elem_of_nil in H|done].
    + vm_compute. discriminate.
  - unfold limits, MAX_PROCESSES. simpl. lia.
  - exact demo_final.
  - vm_compute. reflexivity.
  - vm_compute. reflexivity.
  - vm_compute. reflexivity.
Defined.

End AttackSpec.
