(* ===== verification/AttackNetwork.v ===== *)
(** * The scan of a network ([attack.c])

    [attack_network] goes through the target hosts, leaves out those the access
    lists or the resolver exclude and starts a process for each of the others.
    Parameters of the model: the resolver, the random numbers of a shuffle, the
    network library (MAC addresses, source interface), the NVT cache, the table of hosts under
    test ([hosts.c]) and [fork].  What happens to each host is recorded. *)

From S2P Require Import Prelude Arglists Inet Hosts HostsSpec Scheduler PortRanges PlugsReq Preferences.
From stdpp Require Import base gmap sets list strings.
From Stdlib Require Import Ascii ZArith Lia.
Local Open Scope Z_scope.

Module AttackNetwork.
Import Inet HostSpec HostList PlugsReq Preferences.

Definition MAX_FORK_RETRIES : nat := 10.

(** What the outside does; the [nat] arguments count the questions. *)
Record net_env := mk_net_env
  { resolve4 : string -> option addr4;
    getnameinfo : host -> option string;
    rand : nat -> nat;
    is_local_ip : addr6 -> bool;               (* [v6_is_local_ip] *)
    get_mac_addr : addr6 -> Z;                 (* [v6_get_mac_addr]: 1 if the host is down *)
    source_iface_init : string -> Z;           (* [openvas_source_iface_init]: 0 on success *)
    hosts_new : nat -> Z;                      (* [hosts_new]: a socket, or -1 *)
    create_process : nat -> Z;                 (* a pid, or -1 *)
    stop_required : nat -> bool }.

(** What has become of a host. *)
Inductive event :=
| Unresolved (h : host)
| Denied (h : host)
| DeniedSys (h : host)
| Down (h : host)
| Started (h : host) (pid : Z).

Definition bind {A B} (x : outcome A) (f : A -> outcome B) : outcome B :=
  match x with Ret a => f a | NoReturn => NoReturn | Undef => Undef end.

Section Net.
Context `{G : Glib} `{F : FreedMemory}.
Context (env : net_env) (fuel : nat).

(** ** Preferences on hosts and interfaces *)

Fixpoint strip_find (str : string) (split : list string) : bool :=
  match split with
  | [] => false
  | element :: rest => if bool_decide (g_strstrip element = str) then true else strip_find str rest
  end.

Definition str_in_comma_list (str comma_list : option string) : bool :=
  match str, comma_list with
  | Some str, Some l => strip_find str (g_strsplit "," l)
  | _, _ => false
  end.

Definition is_some {A} (o : option A) : bool := match o with Some _ => true | None => false end.

Definition iface_authorized (iface : option string) (preferences : prefs) : Z :=
  match iface with
  | None => 0
  | Some _ =>
      let denied name := let l := preferences_get_string preferences name in
                         is_some l && str_in_comma_list iface l in
      let not_allowed name := let l := preferences_get_string preferences name in
                              is_some l && negb (str_in_comma_list iface l) in
      if denied "ifaces_deny"%string then -1
      else if not_allowed "ifaces_allow"%string then -1
      else if denied "sys_ifaces_deny"%string then -2
      else if not_allowed "sys_ifaces_allow"%string then -2
      else 1
  end.

Definition apply_source_iface_preference (preferences : prefs) : Z :=
  match preferences_get_string preferences "source_iface" with
  | None => 0
  | Some source_iface =>
      let ret := iface_authorized (Some source_iface) preferences in
      if ret =? -1 then -1
      else if ret =? -2 then -1
      else if negb (source_iface_init env source_iface =? 0) then -2
      else 0
  end.

Definition host_authorized (h : option host) (addr : option addr6) (hosts_allow hosts_deny : option hosts_t)
  : bool :=
  match h with
  | None => false
  | Some _ =>
      if is_some hosts_deny && openvas_host_in_hosts (resolve4 env) h addr hosts_deny then false
      else if is_some hosts_allow && negb (openvas_host_in_hosts (resolve4 env) h addr hosts_allow) then false
      else true
  end.

(** Ordering, exclusion, reverse lookup. *)
Definition apply_hosts_preferences (hs : option hosts_t) (preferences : prefs) : outcome (option hosts_t) :=
  match hs with
  | None => Ret None
  | Some h =>
      let ordering := preferences_get_string preferences "hosts_ordering" in
      let h :=
        match ordering with
        | Some o =>
            if bool_decide (o = "random"%string) then openvas_hosts_shuffle (rand env) h
            else if bool_decide (o = "reverse"%string) then openvas_hosts_reverse h
            else h
        | None => h
        end in
      bind (match preferences_get_string preferences "exclude_hosts" with
            | Some e => bind (openvas_hosts_exclude (resolve4 env) fuel (Some h) (Some e) true)
                          (fun r => Ret (snd r))
            | None => Ret (Some h)
            end)
        (fun hs =>
          let hs := if preferences_get_bool preferences "reverse_lookup_unify" =? 1
                    then snd (openvas_hosts_reverse_lookup_unify (getnameinfo env) hs) else hs in
          Ret (if preferences_get_bool preferences "reverse_lookup_only" =? 1
               then snd (openvas_hosts_reverse_lookup_only (getnameinfo env) hs) else hs))
  end.

(** ** The loop over the hosts *)

(** How the loop ends: no host is left, or [goto scan_stop], or [goto stop]. *)
Inductive loop_end := AllTested | ScanStop | Stop.

(** The access lists. *)
Record access := mk_access
  { hosts_allow : option hosts_t; hosts_deny : option hosts_t;
    sys_hosts_allow : option hosts_t; sys_hosts_deny : option hosts_t }.

(** The label [forkagain]: the pid, if one of the forks that are left succeeds. *)
Fixpoint fork_again (retries : nat) (k : nat) : option Z * nat * nat :=
  let pid := create_process env k in
  if pid <? 0 then
    match retries with
    | O => (None, O, S k)
    | S retries => fork_again retries (S k)
    end
  else (Some pid, retries, S k).

(** The state of the loop: retries left, questions asked, and whether a host has
    been dealt with in the network phase, which sets the status to "done". *)
Record loop_st := mk_loop { retries : nat; asked : nat; net_done : bool; events : list event }.

Definition record (ev : event) (s : loop_st) : loop_st :=
  mk_loop (retries s) (asked s) (net_done s) (events s ++ [ev]).
Definition set_done (s : loop_st) : loop_st := mk_loop (retries s) (asked s) true (events s).

(** One iteration; [None] in the first place of the result: go on to the next
    host without the end of the iteration ([continue]). *)
Inductive verdict := Continue | Tested | Leave (e : loop_end).

Definition test_host (preferences : prefs) (a : access) (h : host) (s : loop_st) : verdict * loop_st :=
  match openvas_host_get_addr6 (resolve4 env) h with
  | None => (Continue, record (Unresolved h) s)
  | Some host_ip =>
      if negb (host_authorized (Some h) (Some host_ip) (hosts_allow a) (hosts_deny a))
      then (Tested, record (Denied h) s)
      else if negb (host_authorized (Some h) (Some host_ip) (sys_hosts_allow a) (sys_hosts_deny a))
      then (Tested, record (DeniedSys h) s)
      else if (0 <? preferences_get_bool preferences "use_mac_addr") && is_local_ip env host_ip
              && (0 <? get_mac_addr env host_ip)
      then (Continue, record (Down h) s)
      else
        let soc := hosts_new env (asked s) in
        let k := S (asked s) in
        if soc <? 0 then (Leave ScanStop, mk_loop (retries s) k (net_done s) (events s))
        else
          match fork_again (retries s) k with
          | (Some pid, retries, k) =>
              (Tested, record (Started h pid) (mk_loop retries k (net_done s) (events s)))
          | (None, retries, k) => (Leave Stop, mk_loop retries k (net_done s) (events s))
          end
  end.

(** [l]: the hosts [openvas_hosts_next] has yet to return. *)
Fixpoint host_loop (preferences : prefs) (a : access) (network_phase : bool) (l : list host) (s : loop_st)
  : loop_end * loop_st :=
  match l with
  | [] => (AllTested, s)
  | h :: rest =>
      match test_host preferences a h s with
      | (Continue, s) => host_loop preferences a network_phase rest s
      | (Tested, s) => if network_phase then (AllTested, set_done s)
                       else host_loop preferences a network_phase rest s
      | (Leave e, s) => (e, s)
      end
  end.

Definition remaining (hs : option hosts_t) : list host :=
  match hs with Some hs => drop (current hs) (hosts hs) | None => [] end.

(** ** [attack_network] *)

(** Why it returns. *)
Inductive net_end := MissingTarget | InvalidPorts | Unauthorized | Finished.

Definition hosts_of (preferences : prefs) (name : string) : outcome (option hosts_t) :=
  openvas_hosts_new fuel (preferences_get_string preferences name).

Definition access_lists (preferences : prefs) : outcome access :=
  bind (hosts_of preferences "hosts_allow") (fun ha =>
  bind (hosts_of preferences "hosts_deny") (fun hd =>
  bind (hosts_of preferences "sys_hosts_allow") (fun sa =>
  bind (hosts_of preferences "sys_hosts_deny") (fun sd =>
  Ret (mk_access ha hd sa sd))))).

(** The NVT cache and GLib's functions on file names, for the scheduler. *)
Context (nvticache_get_by_oid : string -> option Scheduler.nvti)
  (g_path_get_dirname : string -> string) (g_build_filename : string -> string -> string).

(** [n] bounds the recursion at the end, [plugins] are the plugins of the globals,
    whose launch flags the scheduler may change, [status] is the text
    "network_scan_status" of the globals, [s] the questions asked and the events
    so far. *)
Fixpoint attack_network (n : nat) (preferences : prefs) (plugins : option (list Scheduler.nvt_arg))
    (status : option string) (s : loop_st)
  : outcome (net_end * option string * loop_st) :=
  match n with
  | O => NoReturn
  | S n =>
      let do_network_scan := preferences_get_bool preferences "network_scan" =? 1 in
      let network_phase :=
        do_network_scan && match status with Some t => negb (CStr.strcaseeq t "done") | None => true end in
      let status :=
        if do_network_scan && negb (is_some status) then Some "busy"%string else status in
      match pref_str preferences "TARGET" with
      | None => Ret (MissingTarget, status, s)
      | Some hostlist =>
          if negb (PortRanges.validate_port_range (pref_str preferences "port_range") =? 0)
          then Ret (InvalidPorts, status, s)
          else
            bind (Scheduler.plugins_scheduler_init nvticache_get_by_oid g_path_get_dirname g_build_filename
                    fuel plugins (preferences_get_bool preferences "auto_enable_dependencies" =? 1)
                    network_phase) (fun sched =>
            bind (openvas_hosts_new fuel (Some hostlist)) (fun hs =>
            bind (apply_hosts_preferences hs preferences) (fun hs =>
            if negb (apply_source_iface_preference preferences =? 0) then Ret (Unauthorized, status, s)
            else
              bind (access_lists preferences) (fun a =>
              let '(_, s) := host_loop preferences a network_phase (remaining hs)
                               (mk_loop MAX_FORK_RETRIES (asked s) false (events s)) in
              let status := if net_done s then Some "done"%string else status in
              if do_network_scan && network_phase && negb (stop_required env (asked s))
              then attack_network n preferences (Scheduler.s_args <$> sched) status s
              else Ret (Finished, status, s)))))
      end
  end.

End Net.

(** ** What becomes of the hosts *)

Section Verdicts.
Context `{G : Glib} `{F : FreedMemory}.
Context (env : net_env) (fuel : nat) (preferences : prefs).

(** A host the access lists let through. *)
Definition authorized (a : access) (h : host) (ip : addr6) : Prop :=
  host_authorized env (Some h) (Some ip) (hosts_allow a) (hosts_deny a) = true
  /\ host_authorized env (Some h) (Some ip) (sys_hosts_allow a) (sys_hosts_deny a) = true.

Definition down (ip : addr6) : Prop :=
  0 < preferences_get_bool preferences "use_mac_addr" /\ is_local_ip env ip = true /\ 0 < get_mac_addr env ip.

(** The event of a host is the one it ought to be. *)
Definition right_event (a : access) (h : host) (ev : event) : Prop :=
  match ev with
  | Unresolved h' => h' = h /\ openvas_host_get_addr6 (resolve4 env) h = None
  | Denied h' => h' = h /\ exists ip, openvas_host_get_addr6 (resolve4 env) h = Some ip
      /\ host_authorized env (Some h) (Some ip) (hosts_allow a) (hosts_deny a) = false
  | DeniedSys h' => h' = h /\ exists ip, openvas_host_get_addr6 (resolve4 env) h = Some ip
      /\ host_authorized env (Some h) (Some ip) (hosts_allow a) (hosts_deny a) = true
      /\ host_authorized env (Some h) (Some ip) (sys_hosts_allow a) (sys_hosts_deny a) = false
  | Down h' => h' = h /\ exists ip, openvas_host_get_addr6 (resolve4 env) h = Some ip
      /\ authorized a h ip /\ down ip
  | Started h' pid => h' = h /\ 0 <= pid /\ exists ip, openvas_host_get_addr6 (resolve4 env) h = Some ip
      /\ authorized a h ip /\ ~ down ip
  end.

(** Sockets and processes are to be had. *)
Definition enough : Prop := forall k, 0 <= hosts_new env k /\ 0 <= create_process env k.

Lemma fork_again_pid r k pid r' k' : fork_again env r k = (Some pid, r', k') -> 0 <= pid.
Proof.
  revert k. induction r as [|r IH]; intros k; simpl; destruct (_ <? 0) eqn:E; try done;
    try (intros [= <- <- <-]; lia). apply IH.
Qed.

Lemma fork_again_enough r k : enough -> (fork_again env r k).1.1 <> None.
Proof.
  intros He. destruct r; simpl; destruct (_ <? 0) eqn:E; try done; destruct (He k); lia.
Qed.

(** One host: either its event is recorded or the loop is left. *)
Lemma test_host_ok a h s :
  let '(v, s') := test_host env preferences a h s in
  match v with
  | Leave _ => events s' = events s /\ ~ enough
  | _ => exists ev, right_event a h ev /\ events s' = events s ++ [ev]
  end /\ net_done s' = net_done s.
Proof.
  unfold test_host. destruct (openvas_host_get_addr6 (resolve4 env) h) as [ip|] eqn:Eip.
  2:{ split; [|done]. exists (Unresolved h). by repeat split. }
  destruct (host_authorized env (Some h) (Some ip) (hosts_allow a) (hosts_deny a)) eqn:E1; cbn [negb].
  2:{ split; [|done]. exists (Denied h). split; [|done]. split; [done|]. eauto. }
  destruct (host_authorized env (Some h) (Some ip) (sys_hosts_allow a) (sys_hosts_deny a)) eqn:E2; cbn [negb].
  2:{ split; [|done]. exists (DeniedSys h). split; [|done]. split; [done|]. eauto. }
  destruct ((0 <? preferences_get_bool preferences "use_mac_addr") && is_local_ip env ip
            && (0 <? get_mac_addr env ip)) eqn:E3.
  { rewrite !andb_true_iff, !Z.ltb_lt in E3. split; [|done]. exists (Down h). split; [|done].
    split; [done|]. exists ip. split; [done|]. split; [done|]. by destruct E3 as [[??]?]. }
  destruct (hosts_new env (asked s) <? 0) eqn:E4.
  { split; [|done]. split; [done|]. intros He. destruct (He (asked s)). lia. }
  destruct (fork_again env (retries s) (S (asked s))) as [[[pid|] r] k] eqn:E5.
  - split; [|done]. exists (Started h pid). split; [|done]. split; [done|]. split; [by eapply fork_again_pid|].
    exists ip. split; [done|]. split; [done|]. intros (H1 & H2 & H3).
    rewrite H2, (proj2 (Z.ltb_lt _ _) H1), (proj2 (Z.ltb_lt _ _) H3) in E3. done.
  - split; [|done]. split; [done|]. intros He. pose proof (fork_again_enough (retries s) (S (asked s)) He) as H.
    by rewrite E5 in H.
Qed.

(** The whole loop, outside the network phase. *)
Lemma host_loop_ok a l s :
  let '(e, s') := host_loop env preferences a false l s in
  net_done s' = net_done s /\
  exists evs, events s' = events s ++ evs /\ Forall2 (right_event a) (take (length evs) l) evs
    /\ (enough -> length evs = length l /\ e = AllTested).
Proof.
  revert s. induction l as [|h l IH]; intros s; simpl.
  { split; [done|]. exists []. rewrite app_nil_r. by repeat split. }
  pose proof (test_host_ok a h s) as Ht.
  destruct (test_host env preferences a h s) as [[| |e] s1]; destruct Ht as [Ht Hd].
  3:{ split; [done|]. exists []. destruct Ht as [-> He]. rewrite app_nil_r. split; [done|]. split; [constructor|done]. }
  all: destruct Ht as (ev & Hev & Es); specialize (IH s1);
    destruct (host_loop env preferences a false l s1) as [e s2]; destruct IH as (Hd2 & evs & E1 & E2 & E3);
    (split; [congruence|]); exists (ev :: evs); rewrite E1, Es, <- app_assoc; (split; [done|]);
    (split; [by constructor|]); intros He; destruct (E3 He) as [E4 ->]; simpl; by rewrite E4.
Qed.

(** In the network phase with nothing but hosts without address. *)
Lemma host_loop_unresolved a l s : Forall (fun h => openvas_host_get_addr6 (resolve4 env) h = None) l ->
  host_loop env preferences a true l s
  = (AllTested, mk_loop (retries s) (asked s) (net_done s) (events s ++ (Unresolved <$> l))).
Proof.
  intros Hl. revert s. induction Hl as [|h l Hh Hl IH]; intros s; simpl; [by destruct s; rewrite app_nil_r|].
  unfold test_host. rewrite Hh, IH. simpl. by rewrite <- app_assoc.
Qed.

End Verdicts.

(** ** Properties *)

(** C20: Outside a network scan every target host, in the order the preferences
    give, gets exactly one verdict, and the right one: a process is started for a
    host exactly when it has an address, neither the lists of the client nor those
    of the system exclude it and it is not known to be down.  Sockets or processes
    running out only cuts the list of verdicts short. *)
Theorem attack_network_verdicts `{G : Glib} `{F : FreedMemory} (env : net_env) (fuel : nat)
  (nvticache_get_by_oid : string -> option Scheduler.nvti) (g_path_get_dirname : string -> string)
  (g_build_filename : string -> string -> string) (n : nat) (preferences : prefs)
  (plugins : option (list Scheduler.nvt_arg)) (status status' : option string) (s s' : loop_st)
  (Hp : preferences_get_bool preferences "network_scan" <> 1)
  (E : attack_network env fuel nvticache_get_by_oid g_path_get_dirname g_build_filename n preferences plugins
         status s = Ret (Finished, status', s')) :
  exists hostlist sched hs0 hs a evs,
    pref_str preferences "TARGET" = Some hostlist
    /\ Scheduler.plugins_scheduler_init nvticache_get_by_oid g_path_get_dirname g_build_filename fuel plugins
         (preferences_get_bool preferences "auto_enable_dependencies" =? 1) false = Ret sched
    /\ openvas_hosts_new fuel (Some hostlist) = Ret hs0
    /\ apply_hosts_preferences env fuel hs0 preferences = Ret hs
    /\ access_lists fuel preferences = Ret a
    /\ events s' = events s ++ evs
    /\ Forall2 (right_event env preferences a) (take (length evs) (remaining hs)) evs
    /\ (enough env -> length evs = length (remaining hs)).
Proof.
  destruct n as [|n]; [done|]. cbn [attack_network] in E. rewrite (proj2 (Z.eqb_neq _ _) Hp) in E.
  cbn [andb] in E. destruct (pref_str preferences "TARGET") as [hostlist|]; [|done].
  destruct (negb (_ =? 0)); [done|].
  destruct (Scheduler.plugins_scheduler_init _ _ _ _ _ _ _) as [sched| |] eqn:E0; cbn [bind] in E; [|done..].
  destruct (openvas_hosts_new fuel (Some hostlist)) as [hs0| |] eqn:E1; cbn [bind] in E; [|done..].
  destruct (apply_hosts_preferences env fuel hs0 preferences) as [hs| |] eqn:E2; cbn [bind] in E; [|done..].
  destruct (negb _); [done|].
  destruct (access_lists fuel preferences) as [a| |] eqn:E3; cbn [bind] in E; [|done..].
  pose proof (host_loop_ok env preferences a (remaining hs)
    (mk_loop MAX_FORK_RETRIES (asked s) false (events s))) as H.
  destruct (host_loop _ _ _ _ _ _) as [e s1]. destruct H as (_ & evs & H1 & H2 & H3).
  injection E as <- <-. exists hostlist, sched, hs0, hs, a, evs. do 5 (split; [done|]). split; [done|].
  split; [done|]. intros He. by apply H3.
Qed.

(** A source interface is accepted exactly when neither list of denied
    interfaces, of the client or of the system, names it and each list of allowed
    interfaces that there is does; -1 blames the client's lists, -2 the system's. *)
Theorem iface_authorized_spec `{G : Glib} (iface : string) (preferences : prefs) :
  let listed name := exists l e, preferences_get_string preferences name = Some l
                       /\ e ∈ g_strsplit "," l /\ g_strstrip e = iface in
  let allowed name := preferences_get_string preferences name = None \/ listed name in
  let client_ok := ~ listed "ifaces_deny"%string /\ allowed "ifaces_allow"%string in
  let system_ok := ~ listed "sys_ifaces_deny"%string /\ allowed "sys_ifaces_allow"%string in
  (iface_authorized (Some iface) preferences = 1 <-> client_ok /\ system_ok)
  /\ (iface_authorized (Some iface) preferences = -1 <-> ~ client_ok)
  /\ (iface_authorized (Some iface) preferences = -2 <-> client_ok /\ ~ system_ok).
Proof.
  intros listed allowed client_ok system_ok.
  assert (forall parts, strip_find iface parts = true <-> exists e, e ∈ parts /\ g_strstrip e = iface) as Hf.
  { induction parts as [|x parts IH]; simpl; [split; [done|intros (e & He & _); by apply not_elem_of_nil in He]|].
    setoid_rewrite elem_of_cons. case_bool_decide as Hx; [naive_solver|]. rewrite IH. naive_solver. }
  assert (forall name, (is_some (preferences_get_string preferences name)
     && str_in_comma_list (Some iface) (preferences_get_string preferences name)) = true <-> listed name) as Hd.
  { intros name. unfold listed. destruct (preferences_get_string preferences name) as [l|]; simpl; [|naive_solver].
    rewrite Hf. naive_solver. }
  assert (forall name, (is_some (preferences_get_string preferences name)
     && negb (str_in_comma_list (Some iface) (preferences_get_string preferences name))) = false <-> allowed name) as Ha.
  { intros name. unfold allowed. rewrite <- Hd.
    destruct (preferences_get_string preferences name) as [l|]; simpl; [|by split; [left|]].
    destruct (strip_find _ _); simpl; split; try done; [by right|by intros [?|?]]. }
  unfold iface_authorized, client_ok, system_ok. rewrite <- !Hd, <- !Ha.
  repeat case_match; naive_solver.
Qed.

(** A network scan without plugins none of whose hosts has an address never ends: the status
    stays at "busy" and [attack_network] calls itself again and again. *)
Theorem network_scan_diverges `{G : Glib} `{F : FreedMemory} (env : net_env) (fuel : nat)
  (nvticache_get_by_oid : string -> option Scheduler.nvti) (g_path_get_dirname : string -> string)
  (g_build_filename : string -> string -> string) (preferences : prefs)
  (hostlist : string) (hs0 hs : option hosts_t) (a : access)
  (Hp : preferences_get_bool preferences "network_scan" = 1)
  (Ht : pref_str preferences "TARGET" = Some hostlist)
  (Hv : PortRanges.validate_port_range (pref_str preferences "port_range") = 0)
  (Hn : openvas_hosts_new fuel (Some hostlist) = Ret hs0)
  (Ha : apply_hosts_preferences env fuel hs0 preferences = Ret hs)
  (Hi : apply_source_iface_preference env preferences = 0)
  (Hl : access_lists fuel preferences = Ret a)
  (Hu : Forall (fun h => openvas_host_get_addr6 (resolve4 env) h = None) (remaining hs))
  (Hs : forall k, stop_required env k = false) :
  forall n s, attack_network env fuel nvticache_get_by_oid g_path_get_dirname g_build_filename n preferences None None s
    = NoReturn.
Proof.
  assert (forall n status s, (status = None \/ status = Some "busy"%string) ->
    attack_network env fuel nvticache_get_by_oid g_path_get_dirname g_build_filename n preferences None status s
    = NoReturn) as H; [|intros n s; apply H; by left].
  induction n as [|n IH]; intros status s Hst; [done|]. cbn [attack_network].
  rewrite Hp, Ht, Hv. cbn [bind negb Z.eqb Scheduler.plugins_scheduler_init]. rewrite Hn. cbn [bind]. rewrite Ha. cbn [bind]. rewrite Hi. cbn [negb Z.eqb].
  rewrite Hl. cbn [bind].
  destruct Hst as [->| ->]; rewrite (host_loop_unresolved _ _ _ _ _ Hu); cbn [asked net_done];
    rewrite Hs; apply IH; by right.
Qed.

(** ** Witnesses *)

Definition arg_str (name value : string) : Arglists.arg :=
  Arglists.Arg name Arglists.ARG_STRING (Arglists.VStr value) 0 (Arglists.mkhash name).

(** The names "a" and "b" resolve, "b" is denied by the client. *)
Definition demo_net : net_env :=
  mk_net_env (fun n => if decide (n = "a"%string) then Some 1 else if decide (n = "b"%string) then Some 2 else None)
    (fun _ => None) (fun _ => 0%nat) (fun _ => false) (fun _ => 0) (fun _ => 0) (fun _ => 5) (fun _ => 77)
    (fun _ => false).
Definition demo_net_prefs : prefs :=
  Some [arg_str "TARGET" "a, b, c"; arg_str "port_range" "1-5"; arg_str "hosts_deny" "b"].
#[local] Existing Instance kept_memory.
Definition net_start : loop_st := mk_loop 0 0 false [].
Definition net_result : loop_st := Eval vm_compute in
  match attack_network demo_net 9 (fun _ => None) id (fun _ d => d) 1 demo_net_prefs None None net_start with Ret (_, _, s) => s | _ => net_start end.

Example net_events : events net_result =
  [Started (HName "a") 77; Denied (HName "b"); Unresolved (HName "c")].
Proof. reflexivity. Qed.

Lemma attack_network_verdicts_witness :
  exists a evs, access_lists 9 demo_net_prefs = Ret a /\ events net_result = evs
    /\ Forall2 (right_event demo_net demo_net_prefs a) [HName "a"; HName "b"; HName "c"] evs.
Proof.
  destruct (attack_network_verdicts demo_net 9 (fun _ => None) id (fun _ d => d) 1 demo_net_prefs None None None
      net_start net_result)
    as (hostlist & sched & hs0 & hs & a & evs & H1 & H0 & H2 & H3 & H4 & H5 & H6 & H7).
  - vm_compute. discriminate.
  - vm_compute. reflexivity.
  - exists a, evs. split; [exact H4|]. split; [exact H5|].
    assert (remaining hs = [HName "a"; HName "b"; HName "c"]) as Hr.
    { vm_compute in H1. injection H1 as <-. vm_compute in H2. injection H2 as <-.
      vm_compute in H3. injection H3 as <-. reflexivity. }
    rewrite Hr in *. rewrite (H7 ltac:(intros k; simpl; lia)) in H6. exact H6.
Defined.

Definition lost_prefs : prefs :=
  Some [arg_str "TARGET" "c"; arg_str "port_range" "1-5"; arg_str "network_scan" "yes"].

Definition lost_hosts : option hosts_t := Some (mk_hosts "c" [HName "c"] 0 1 0).

Lemma network_scan_diverges_witness : 
  attack_network demo_net 9 (fun _ => None) id (fun _ d => d) 100 lost_prefs None None net_start = NoReturn.
Proof.
  refine (network_scan_diverges demo_net 9 (fun _ => None) id (fun _ d => d) lost_prefs "c" lost_hosts lost_hosts (mk_access None None None None)
    _ _ _ _ _ _ _ _ _ 100 net_start).
  1-7: vm_compute; reflexivity.
  - repeat constructor.
  - intros k. reflexivity.
Defined.

End AttackNetwork.
