(* ===== verification/Nasl.v ===== *)
(** * The data of the NASL interpreter ([nasl/])

    [nasl_tree.h], [nasl_var.h], [nasl_func.h], [nasl_lex_ctxt.h]: parse trees,
    variables, arrays, functions and contexts.

    A cell of a parse tree ([tree_cell]) is immutable while a script runs, but
    for its reference count, which is not modelled; so a pointer to a cell is the
    cell, and [NULL] and [FAKE_CELL] are constructors.  Variables are shared and
    changed in place: they live in a [store] and a pointer to one is an [addr].
    Addresses are never used again; a pointer to a variable that has been freed
    leads nowhere and its use has no defined behaviour.

    An array is part of a variable or belongs to a [DYN_ARRAY] cell; the latter
    gets an entry of the store too, so that an array is always named by an
    [addr].  Text is a [string]; it may hold zero bytes, its length is the size the
    code keeps beside it, and since [emalloc] clears what it returns, one more zero
    byte always follows.  [None] is the NULL pointer. *)

From S2P Require Import Prelude.
From stdpp Require Import base gmap sets list strings.
From Stdlib Require Import Ascii ZArith Lia.
Local Open Scope Z_scope.

Module Nasl.

(** ** Parse trees *)

Inductive node_type :=
| NODE_EMPTY | NODE_IF_ELSE | NODE_INSTR_L | NODE_FOR | NODE_WHILE
| NODE_FOREACH | NODE_REPEAT_UNTIL | NODE_REPEATED | NODE_FUN_DEF
| NODE_FUN_CALL | NODE_DECL | NODE_ARG | NODE_RETURN | NODE_BREAK
| NODE_CONTINUE | NODE_ARRAY_EL | NODE_AFF | NODE_VAR | NODE_LOCAL
| NODE_GLOBAL | NODE_PLUS_EQ | NODE_MINUS_EQ | NODE_MULT_EQ | NODE_DIV_EQ
| NODE_MODULO_EQ | NODE_L_SHIFT_EQ | NODE_R_SHIFT_EQ | NODE_R_USHIFT_EQ
| EXPR_AND | EXPR_OR | EXPR_NOT | EXPR_PLUS | EXPR_MINUS | EXPR_U_MINUS
| EXPR_MULT | EXPR_DIV | EXPR_MODULO | EXPR_EXPO | EXPR_BIT_AND | EXPR_BIT_OR
| EXPR_BIT_XOR | EXPR_BIT_NOT | EXPR_INCR | EXPR_DECR | EXPR_L_SHIFT
| EXPR_R_SHIFT | EXPR_R_USHIFT | COMP_MATCH | COMP_NOMATCH | COMP_RE_MATCH
| COMP_RE_NOMATCH | COMP_LT | COMP_LE | COMP_EQ | COMP_NE | COMP_GT | COMP_GE
| CONST_INT | CONST_STR | CONST_DATA | CONST_REGEX | ARRAY_ELEM | REF_VAR
| REF_ARRAY | DYN_ARRAY.

Abbreviation addr := positive.

(** The union [x] of a cell. *)
Inductive cell_x :=
| x_str (str_val : option string)
| x_int (i_val : Z)
| x_var (ref_val : option addr)      (* REF_VAR, REF_ARRAY, DYN_ARRAY *)
| x_re (ref_val : option string).    (* a compiled regular expression, by its text *)

Inductive tree_cell :=
| NULL
| FAKE_CELL
| Cell (type : node_type) (line_nb : Z) (x : cell_x) (l0 l1 l2 l3 : tree_cell).

Definition is_null (c : tree_cell) : bool := match c with NULL => true | _ => false end.

(** [NULL] and [FAKE_CELL], which most functions treat alike. *)
Definition no_cell (c : tree_cell) : bool :=
  match c with Cell _ _ _ _ _ _ _ => false | _ => true end.

(** ** Variables *)

Definition VAR_NAME_HASH : nat := 17.
Definition FUNC_NAME_HASH : nat := 17.

Definition named_nasl_var : Type := option string * addr.

(** [max_idx] is the length of [num_elt]. *)
Record nasl_array := mk_array
  { num_elt : list (option addr);
    hash_elt : option (list (list named_nasl_var)) }.

(** A variable that is undefined has a cleared union. *)
Inductive anon_nasl_var :=
| VAR2_UNDEF
| VAR2_INT (v_int : Z)
| VAR2_STRING (v_str : option string)
| VAR2_DATA (v_str : option string)
| VAR2_ARRAY (v_arr : nasl_array).

Definition max_idx (a : nasl_array) : Z := Z.of_nat (length (num_elt a)).
Definition empty_array : nasl_array := mk_array [] None.
Definition empty_hash : list (list named_nasl_var) := replicate VAR_NAME_HASH [].

Definition set_num (l : list (option addr)) (a : nasl_array) : nasl_array := mk_array l (hash_elt a).
Definition set_hash_elt (h : option (list (list named_nasl_var))) (a : nasl_array) : nasl_array :=
  mk_array (num_elt a) h.

Definition is_undef (v : anon_nasl_var) : bool := match v with VAR2_UNDEF => true | _ => false end.

(** ** Functions and contexts *)

Inductive fblock :=
| user_block (block : tree_cell)
| internal_block (f : string).       (* a C function, by its name *)

(** [args_names] is kept in the order of the declaration: the code sorts it with
    a comparison of pointers and only searches it. *)
Record nasl_func := mk_func
  { func_name : string;
    compat : bool;                   (* FUNC_FLAG_COMPAT *)
    nb_unnamed_args : Z;
    args_names : list string;
    fblock_of : fblock }.

Record lex_ctxt := mk_ctxt
  { ret_val : tree_cell;
    fct_ctxt : bool;
    break_flag : bool;
    cont_flag : bool;
    recv_timeout : Z;
    line_nb : Z;
    ctx_vars : nasl_array;
    functions : list (list nasl_func) }.

Definition set_ret_val r (c : lex_ctxt) : lex_ctxt :=
  mk_ctxt r (fct_ctxt c) (break_flag c) (cont_flag c) (recv_timeout c) (line_nb c) (ctx_vars c) (functions c).
Definition set_fct_ctxt f (c : lex_ctxt) : lex_ctxt :=
  mk_ctxt (ret_val c) f (break_flag c) (cont_flag c) (recv_timeout c) (line_nb c) (ctx_vars c) (functions c).
Definition set_break_flag b (c : lex_ctxt) : lex_ctxt :=
  mk_ctxt (ret_val c) (fct_ctxt c) b (cont_flag c) (recv_timeout c) (line_nb c) (ctx_vars c) (functions c).
Definition set_cont_flag b (c : lex_ctxt) : lex_ctxt :=
  mk_ctxt (ret_val c) (fct_ctxt c) (break_flag c) b (recv_timeout c) (line_nb c) (ctx_vars c) (functions c).
Definition set_recv_timeout t (c : lex_ctxt) : lex_ctxt :=
  mk_ctxt (ret_val c) (fct_ctxt c) (break_flag c) (cont_flag c) t (line_nb c) (ctx_vars c) (functions c).
Definition set_line_nb l (c : lex_ctxt) : lex_ctxt :=
  mk_ctxt (ret_val c) (fct_ctxt c) (break_flag c) (cont_flag c) (recv_timeout c) l (ctx_vars c) (functions c).
Definition set_ctx_vars a (c : lex_ctxt) : lex_ctxt :=
  mk_ctxt (ret_val c) (fct_ctxt c) (break_flag c) (cont_flag c) (recv_timeout c) (line_nb c) a (functions c).
Definition set_functions f (c : lex_ctxt) : lex_ctxt :=
  mk_ctxt (ret_val c) (fct_ctxt c) (break_flag c) (cont_flag c) (recv_timeout c) (line_nb c) (ctx_vars c) f.

(** ** The store and the interpreter's state *)

(** [a2s_len] is the length of the static buffer of [array2str]. *)
Record store := mk_store { heap : gmap addr anon_nasl_var; next : addr; a2s_len : Z }.

(** [st_ctxts] is [lexic] followed by its [up_ctxt]s. *)
Record state := mk_state { st_store : store; st_ctxts : list lex_ctxt }.

Definition empty_store : store := mk_store ∅ 1%positive 0.

Definition alloc (v : anon_nasl_var) : M store addr :=
  fun s => Ret (next s, mk_store (<[next s := v]> (heap s)) (Pos.succ (next s)) (a2s_len s)).

Definition load (a : addr) : M store anon_nasl_var :=
  fun s => match heap s !! a with Some v => Ret (v, s) | None => Undef end.

Definition write (a : addr) (v : anon_nasl_var) : M store unit :=
  fun s => match heap s !! a with
           | Some _ => Ret (tt, mk_store (<[a := v]> (heap s)) (next s) (a2s_len s))
           | None => Undef
           end.

Definition free (a : addr) : M store unit :=
  fun s => match heap s !! a with
           | Some _ => Ret (tt, mk_store (delete a (heap s)) (next s) (a2s_len s))
           | None => Undef
           end.

(** [&v->v.v_arr] read as an array.  The union of an undefined variable is
    cleared, that of another one holds something else. *)
Definition array_at (a : addr) : M store nasl_array :=
  v ← load a;
  match v with
  | VAR2_ARRAY arr => mret arr
  | VAR2_UNDEF => mret empty_array
  | _ => undef
  end.

Lemma load_Ret a v s : heap s !! a = Some v -> load a s = Ret (v, s).
Proof. unfold load. by intros ->. Qed.

Lemma write_Ret a v w s : heap s !! a = Some v ->
  write a w s = Ret (tt, mk_store (<[a := w]> (heap s)) (next s) (a2s_len s)).
Proof. unfold write. by intros ->. Qed.

Definition lift {A} (m : M store A) : M state A :=
  fun s => match m (st_store s) with
           | Ret (a, st) => Ret (a, mk_state st (st_ctxts s))
           | NoReturn => NoReturn
           | Undef => Undef
           end.

(** The context the code is given, [lexic]. *)
Definition lexic : M state lex_ctxt :=
  fun s => match st_ctxts s with c :: _ => Ret (c, s) | [] => Undef end.

Definition update_lexic (f : lex_ctxt -> lex_ctxt) : M state unit :=
  fun s => match st_ctxts s with
           | c :: up => Ret (tt, mk_state (st_store s) (f c :: up))
           | [] => Undef
           end.

(** *** The union of a cell *)

Definition int_of (x : cell_x) {S} : M S Z := match x with x_int i => mret i | _ => undef end.
Definition str_of (x : cell_x) {S} : M S (option string) :=
  match x with x_str s => mret s | _ => undef end.
Definition ref_of (x : cell_x) {S} : M S (option addr) :=
  match x with x_var r => mret r | _ => undef end.
Definition deref {S} (o : option addr) : M S addr :=
  match o with Some a => mret a | None => undef end.

End Nasl.
