(* ===== verification/NaslVar.v ===== *)
(** * Variables of the NASL interpreter ([nasl/nasl_var.c])

    The operations on arrays and variables, in the order of the source.  An
    operation on an array takes it and gives it back changed.  A recursion over
    the variables an array holds takes a fuel [k]: one unit per level of nesting. *)

From S2P Require Import Prelude Nasl.
From stdpp Require Import base gmap sets list strings.
From Stdlib Require Import Ascii ZArith Lia.
Local Open Scope Z_scope.

Module NaslVar.
Import Nasl.

(** ** Names *)

(** The C string at the start of a text: up to its first zero byte. *)
Definition cstr (s : string) : string :=
  match CStr.strchr_split "000"%char s with Some (a, _) => a | None => s end.

Fixpoint hash_from (h : Z) (s : string) : Z :=
  match s with
  | EmptyString => h
  | String c s' => hash_from (MInt.uwrap64 (Z.shiftl h 3 + CStr.code c)) s'
  end.
Definition hash_str2 (s : option string) (n : nat) : nat :=
  match s with
  | None => O
  | Some s => Z.to_nat (hash_from 0 (cstr s) mod Z.of_nat n)
  end.
Definition hash_str (s : option string) : nat := hash_str2 s VAR_NAME_HASH.

(** The variable of a chain with that name. *)
Fixpoint find_named (s : string) (chain : list named_nasl_var) : option addr :=
  match chain with
  | [] => None
  | (name, v) :: chain' => if decide (name = Some s) then Some v else find_named s chain'
  end.

Definition bucket (h : nat) (t : list (list named_nasl_var)) : list named_nasl_var :=
  default [] (t !! h).

Definition push_named (h : nat) (v : named_nasl_var) (t : list (list named_nasl_var)) :=
  <[h := v :: bucket h t]> t.

(** ** Elements of arrays *)

(** [erealloc]: the process ends when the size does not fit; the new elements are
    cleared by the caller. *)
Definition resize (size num : Z) (l : list (option addr)) : M store (list (option addr)) :=
  if MInt.INT_MAX <=? num then undef
  else if MInt.wrap32 (size * (num + 1)) <? 0 then no_return
  else mret (l ++ replicate (Z.to_nat (num + 1) - length l) None).

Definition elt (a : nasl_array) (i : Z) : option addr := default None (num_elt a !! Z.to_nat i).
Definition set_elt (i : Z) (v : option addr) (a : nasl_array) : nasl_array :=
  set_num (<[Z.to_nat i := v]> (num_elt a)) a.

Definition nasl_get_var_by_num (a : nasl_array) (num : Z) (create : bool)
  : M store (option addr * nasl_array) :=
  if num <? 0 then mret (None, a)
  else
    let v := if num <? max_idx a then elt a num else None in
    match v, create with
    | Some _, _ | None, false => mret (v, a)
    | None, true =>
        l ← (if max_idx a <=? num then resize 8 num (num_elt a) else mret (num_elt a));
        v ← alloc VAR2_UNDEF;
        mret (Some v, set_elt num (Some v) (set_num l a))
    end.

(** A name that is NULL can be stored but not compared with. *)
Definition get_var_by_name (a : nasl_array) (s : option string) : M store (addr * nasl_array) :=
  let s := cstr <$> s in
  let t := default empty_hash (hash_elt a) in
  let h := hash_str s in
  let create :=
    v ← alloc VAR2_UNDEF;
    mret (v, set_hash_elt (Some (push_named h (s, v) t)) a) in
  match s with
  | None => if existsb (fun p => match fst p with Some _ => true | None => false end) (bucket h t) then undef else create
  | Some n =>
      match find_named n (bucket h t) with
      | Some v => mret (v, set_hash_elt (Some t) a)
      | None => create
      end
  end.

(** ** Variables of a context *)

Definition find_in_ctxt (name : string) (c : lex_ctxt) : option addr :=
  match hash_elt (ctx_vars c) with
  | Some t => find_named name (bucket (hash_str (Some name)) t)
  | None => None
  end.

Fixpoint climb_ctxts (name : string) (l : list lex_ctxt) : option addr :=
  match l with
  | [] => None
  | c :: up => match find_in_ctxt name c with Some v => Some v | None => climb_ctxts name up end
  end.

(** [v] becomes the first variable of its chain. *)
Definition push_var (name : string) (v : addr) (c : lex_ctxt) : lex_ctxt :=
  let t := default empty_hash (hash_elt (ctx_vars c)) in
  set_ctx_vars
    (set_hash_elt (Some (push_named (hash_str (Some name)) (Some name, v) t)) (ctx_vars c)) c.

Definition get_var_ref_by_name (name : string) (climb : bool) : M state addr :=
  fun s =>
    let found := if climb then climb_ctxts name (st_ctxts s)
                 else match st_ctxts s with c :: _ => find_in_ctxt name c | [] => None end in
    match found with
    | Some v => Ret (v, s)
    | None => (v ← lift (alloc VAR2_UNDEF); update_lexic (push_var name v);; mret v) s
    end.

Definition get_var_ref_by_num (num : Z) : M state (option addr) :=
  if num <? 0 then mret None
  else
    c ← lexic;
    let a := ctx_vars c in
    l ← lift (if max_idx a <=? num then resize 8 num (num_elt a) else mret (num_elt a));
    match elt (set_num l a) num with
    | Some v => update_lexic (set_ctx_vars (set_num l a));; mret (Some v)
    | None =>
        v ← lift (alloc VAR2_UNDEF);
        update_lexic (set_ctx_vars (set_elt num (Some v) (set_num l a)));;
        mret (Some v)
    end.

Definition var2cell (v : option addr) : tree_cell := Cell REF_VAR 0 (x_var v) NULL NULL NULL NULL.

Definition _FCT_ANON_ARGS : string := "_FCT_ANON_ARGS".

(** ** Freeing and clearing *)

Section Free.
Context (free_anon_var : option addr -> M store unit).

Definition free_var_chain (chain : list named_nasl_var) : M store unit :=
  iterM (fun p => free_anon_var (Some (snd p))) (reverse chain).

Definition free_array_with (a : nasl_array) : M store unit :=
  iterM free_anon_var (num_elt a);;
  match hash_elt a with
  | Some t => iterM free_var_chain t
  | None => mret tt
  end.
End Free.

Fixpoint free_anon_var (k : nat) (v : option addr) : M store unit :=
  match v with
  | None => mret tt
  | Some v =>
      u ← load v;
      match u with
      | VAR2_ARRAY a =>
          match k with
          | O => no_return
          | S k => free_array_with (free_anon_var k) a
          end
      | _ => mret tt
      end;;
      free v
  end.

Definition free_array (k : nat) (a : nasl_array) : M store unit := free_array_with (free_anon_var k) a.

(** The array's elements are freed; it is empty afterwards. *)
Definition clear_array (k : nat) (a : nasl_array) : M store unit := free_array k a.

(** [clear_anon_var] of a variable that is not in the store, [v0]. *)
Definition clear_value (k : nat) (v : anon_nasl_var) : M store unit :=
  match v with VAR2_ARRAY a => clear_array k a | _ => mret tt end.

Definition clear_anon_var (k : nat) (v : addr) : M store unit :=
  u ← load v; clear_value k u;; write v VAR2_UNDEF.

(** ** Copying *)

Section Copy.
Context (copy_anon_var : addr -> anon_nasl_var -> M store unit) (k : nat).

Definition dup_anon_var_with (v : option addr) : M store (option addr) :=
  match v with
  | None => mret None
  | Some v =>
      u ← load v; v1 ← alloc VAR2_UNDEF; copy_anon_var v1 u;; mret (Some v1)
  end.

Definition dup_named_var (v : named_nasl_var) : M store named_nasl_var :=
  u ← load (snd v); v1 ← alloc VAR2_UNDEF; copy_anon_var v1 u;; mret (fst v, v1).

(** Change the array of the variable [a1]. *)
Definition update_array (a1 : addr) (f : nasl_array -> nasl_array) : M store unit :=
  a ← array_at a1; write a1 (VAR2_ARRAY (f a)).

Fixpoint copy_elements (a1 : addr) (i : Z) (l : list (option addr)) : M store unit :=
  match l with
  | [] => mret tt
  | v :: l' =>
      d ← dup_anon_var_with v;
      update_array a1 (set_elt i d);;
      copy_elements a1 (i + 1) l'
  end.

(** The copies of a chain are put in front of one another. *)
Fixpoint copy_chain (a1 : addr) (h : nat) (chain : list named_nasl_var) : M store unit :=
  match chain with
  | [] => mret tt
  | v2 :: chain' =>
      v ← dup_named_var v2;
      update_array a1 (fun a => set_hash_elt (push_named h v <$> hash_elt a) a);;
      copy_chain a1 h chain'
  end.

Fixpoint copy_chains (a1 : addr) (h : nat) (t : list (list named_nasl_var)) : M store unit :=
  match t with
  | [] => mret tt
  | chain :: t' => copy_chain a1 h chain;; copy_chains a1 (S h) t'
  end.

(** [a1] is an array of the store, [a2] the one copied. *)
Definition copy_array_with (a1 : addr) (a2 : nasl_array) (copy_named : bool) : M store unit :=
  a ← array_at a1;
  clear_array k a;;
  write a1 (VAR2_ARRAY (mk_array (replicate (length (num_elt a2)) None) None));;
  copy_elements a1 0 (num_elt a2);;
  match hash_elt a2, copy_named with
  | Some t, true =>
      update_array a1 (set_hash_elt (Some empty_hash));;
      copy_chains a1 0 t
  | _, _ => mret tt
  end.
End Copy.

Fixpoint copy_anon_var (k : nat) (v1 : addr) (v2 : anon_nasl_var) : M store unit :=
  match v2 with
  | VAR2_ARRAY a2 =>
      match k with
      | O => no_return
      | S k =>
          write v1 (VAR2_ARRAY empty_array);;
          copy_array_with (copy_anon_var k) k v1 a2 true
      end
  | _ => write v1 v2
  end.

Definition dup_anon_var (k : nat) (v : option addr) : M store (option addr) :=
  dup_anon_var_with (copy_anon_var k) v.

Definition copy_array (k : nat) (a1 : addr) (a2 : nasl_array) (copy_named : bool) : M store unit :=
  copy_array_with (copy_anon_var k) k a1 a2 copy_named.

Definition copy_ref_array (k : nat) (c1 : tree_cell) : M store tree_cell :=
  match c1 with
  | Cell REF_ARRAY _ x _ _ _ _ =>
      r ← ref_of x;
      a ← deref r;
      a2 ← alloc (VAR2_ARRAY empty_array);
      arr ← array_at a;
      copy_array k a2 arr true;;
      mret (Cell DYN_ARRAY 0 (x_var (Some a2)) NULL NULL NULL NULL)
  | _ => mret NULL
  end.

(** [_FCT_ANON_ARGS] is a copy of the numbered variables of [ctxt], which need not
    be the context of a function. *)
Definition get_variable_by_name (k : nat) (name : option string) : M state tree_cell :=
  match name with
  | None => mret NULL
  | Some name =>
      if decide (name = _FCT_ANON_ARGS) then
        c ← lexic;
        a ← lift (alloc (VAR2_ARRAY empty_array));
        lift (copy_array k a (ctx_vars c) false);;
        mret (Cell DYN_ARRAY 0 (x_var (Some a)) NULL NULL NULL NULL)
      else
        v ← get_var_ref_by_name name true;
        mret (var2cell (Some v))
  end.

(** ** Elements *)

(** The array [get_array_elem] looks in when the name is [_FCT_ANON_ARGS]. *)
Fixpoint fake_array (l : list lex_ctxt) : option nasl_array :=
  match l with
  | [] => None
  | c :: up => if fct_ctxt c then Some (set_hash_elt None (ctx_vars c)) else fake_array up
  end.

Definition data_cell (line : Z) (s : string) : tree_cell :=
  Cell CONST_DATA line (x_str (Some s)) NULL NULL NULL NULL.

Definition slen_opt (s : option string) : Z := match s with Some s => CStr.slen s | None => 0 end.

(** A character of a string. *)
Definition string_elem (v : option string) (line i : Z) : tree_cell :=
  if slen_opt v <=? i then data_cell line EmptyString
  else if i <? 0 then NULL
  else match String.get (Z.to_nat i) (default EmptyString v) with
       | Some c => data_cell line (String c EmptyString)
       | None => NULL
       end.

(** An element of an array: the variable and the array that may have grown. *)
Definition array_elem (a : nasl_array) (idx_type : node_type) (x : cell_x) (create : bool)
  : M store (option tree_cell * nasl_array) :=
  match idx_type with
  | CONST_INT =>
      i ← int_of x;
      r ← nasl_get_var_by_num a i create;
      mret (Some (var2cell (fst r)), snd r)
  | CONST_STR | CONST_DATA =>
      s ← str_of x;
      r ← get_var_by_name a s;
      mret (Some (var2cell (Some (fst r))), snd r)
  | _ => mret (None, a)
  end.

(** The element of the variable [u]; one that is undefined becomes an array. *)
Definition elem_of_var (u : addr) (idx_type : node_type) (line : Z) (x : cell_x) : M store tree_cell :=
  v ← load u;
  match v with
  | VAR2_UNDEF | VAR2_ARRAY _ =>
      let a := match v with VAR2_ARRAY a => a | _ => empty_array end in
      write u (VAR2_ARRAY a);;
      r ← array_elem a idx_type x true;
      write u (VAR2_ARRAY (snd r));;
      mret (default NULL (fst r))
  | VAR2_INT _ => mret NULL
  | VAR2_STRING s | VAR2_DATA s =>
      match idx_type with
      | CONST_INT => i ← int_of x; mret (string_elem s line i)
      | _ => mret NULL
      end
  end.

(** A NULL index counts as zero; [FAKE_CELL] is dereferenced, but not if the
    variable is an integer. *)
Definition get_array_elem (name : string) (idx : tree_cell) : M state tree_cell :=
  let elem ty line x :=
    if decide (name = _FCT_ANON_ARGS) then
      fun s => match fake_array (st_ctxts s) with
               | None => Ret (NULL, s)
               | Some a => (r ← lift (array_elem a ty x false); mret (default NULL (fst r))) s
               end
    else
      u ← get_var_ref_by_name name true;
      lift (elem_of_var u ty line x) in
  match idx with
  | NULL => elem CONST_INT 0 (x_int 0)
  | Cell ty line x _ _ _ _ => elem ty line x
  | FAKE_CELL =>
      if decide (name = _FCT_ANON_ARGS) then
        fun s => match fake_array (st_ctxts s) with None => Ret (NULL, s) | Some _ => Undef end
      else
        u ← get_var_ref_by_name name true;
        v ← lift (load u);
        match v with VAR2_INT _ => mret NULL | _ => undef end
  end.

(** ** Assignment *)

(** What is assigned: a value, or the array of a variable. *)
Inductive rvalue :=
| rv_value (v : anon_nasl_var)
| rv_array (a : option addr)
| rv_self        (* the variable itself *)
| rv_bad.        (* a cell that has no value *)

Definition rvalue_of (v1 : addr) (type : node_type) (x : cell_x) : M store rvalue :=
  match type with
  | CONST_INT => i ← int_of x; mret (rv_value (VAR2_INT i))
  | CONST_STR => s ← str_of x; mret (rv_value (VAR2_STRING s))
  | CONST_DATA => s ← str_of x; mret (rv_value (VAR2_DATA s))
  | REF_VAR =>
      r ← ref_of x;
      match r with
      | None => mret (rv_value VAR2_UNDEF)
      | Some v2 =>
          if decide (v2 = v1) then mret rv_self
          else
            v ← load v2;
            mret (match v with VAR2_ARRAY _ => rv_array (Some v2) | _ => rv_value v end)
      end
  | REF_ARRAY | DYN_ARRAY =>
      a ← ref_of x;
      v ← load v1;
      mret (match v with
            | VAR2_ARRAY _ => if decide (a = Some v1) then rv_self else rv_array a
            | _ => rv_array a
            end)
  | _ => mret rv_bad
  end.

(** The old value [v0] is freed only after the new one has been copied. *)
Definition affect_to_anon_var (k : nat) (v1 : option addr) (rval : tree_cell) : M store tree_cell :=
  match v1 with
  | None => mret NULL
  | Some v1 =>
      match rval with
      | NULL | FAKE_CELL => clear_anon_var k v1;; mret NULL
      | Cell type _ x _ _ _ _ =>
          v0 ← load v1;
          r ← rvalue_of v1 type x;
          match r with
          | rv_bad => mret NULL
          | rv_self => mret FAKE_CELL
          | rv_value v => write v1 v;; clear_value k v0;; mret FAKE_CELL
          | rv_array a =>
              a ← deref a;
              write v1 (VAR2_ARRAY empty_array);;
              (if decide (a = v1) then mret tt
               else a2 ← array_at a; copy_array k v1 a2 true);;
              clear_value k v0;;
              mret FAKE_CELL
          end
      end
  end.

Definition nasl_affect (k : nat) (lval rval : tree_cell) : M store tree_cell :=
  match lval with
  | NULL => mret NULL
  | FAKE_CELL => undef
  | Cell REF_VAR _ x _ _ _ _ => v1 ← ref_of x; affect_to_anon_var k v1 rval
  | Cell _ _ _ _ _ _ _ => mret NULL
  end.

(** [create_named_var] and [create_anon_var]: the name is kept in the chain. *)
Definition create_anon_var (k : nat) (val : tree_cell) : M store addr :=
  v ← alloc VAR2_UNDEF;
  (if no_cell val then mret NULL else affect_to_anon_var k (Some v) val);;
  mret v.

Definition add_numbered_var_to_ctxt (k : nat) (c : lex_ctxt) (num : Z) (val : tree_cell)
  : M store (option addr * lex_ctxt) :=
  let a := ctx_vars c in
  let add l :=
    v ← create_anon_var k val;
    mret (Some v, set_ctx_vars (set_elt num (Some v) (set_num l a)) c) in
  if num <? max_idx a then
    match elt a num with
    | None => add (num_elt a)
    | Some v =>
        u ← load v;
        if is_undef u then free_anon_var k (Some v);; add (num_elt a)
        else mret (None, c)
    end
  else l ← resize 24 num (num_elt a); add l.

(** The table of named variables of a context is never NULL here. *)
Definition add_named_var_to_ctxt (k : nat) (c : lex_ctxt) (name : string) (val : tree_cell)
  : M store (option addr * lex_ctxt) :=
  match find_in_ctxt name c with
  | Some _ => mret (None, c)
  | None =>
      v ← create_anon_var k val;
      mret (Some v, push_var name v c)
  end.

(** ** Declarations *)

Fixpoint decl_variables (k : nat) (c : lex_ctxt) (vars : tree_cell) : M store lex_ctxt :=
  match vars with
  | NULL => mret c
  | FAKE_CELL => undef
  | Cell _ _ x l0 _ _ _ =>
      name ← str_of x;
      match name with
      | None => decl_variables k c l0
      | Some n => r ← add_named_var_to_ctxt k c n NULL; decl_variables k (snd r) l0
      end
  end.

Definition decl_local_variables (k : nat) (vars : tree_cell) : M state tree_cell :=
  c ← lexic;
  c' ← lift (decl_variables k c vars);
  update_lexic (fun _ => c');;
  mret FAKE_CELL.

(** The context at the bottom. *)
Definition decl_global_variables (k : nat) (vars : tree_cell) : M state tree_cell :=
  fun s =>
    match last (st_ctxts s) with
    | None => Undef
    | Some c =>
        match decl_variables k c vars (st_store s) with
        | Ret (c', st) =>
            Ret (FAKE_CELL, mk_state st (<[pred (length (st_ctxts s)) := c']> (st_ctxts s)))
        | NoReturn => NoReturn
        | Undef => Undef
        end
    end.

(** ** Reading *)

(** The length of a string is repaired when it is zero and the text is not; the
    text is read for that. *)
Definition nasl_read_var_ref (tc : tree_cell) : M store tree_cell :=
  match tc with
  | Cell REF_VAR line x _ _ _ _ =>
      r ← ref_of x;
      match r with
      | None => mret NULL
      | Some a =>
          v ← load a;
          match v with
          | VAR2_INT i => mret (Cell CONST_INT line (x_int i) NULL NULL NULL NULL)
          | VAR2_STRING None => undef
          | VAR2_STRING (Some s) => mret (Cell CONST_STR line (x_str (Some s)) NULL NULL NULL NULL)
          | VAR2_DATA s => mret (Cell CONST_DATA line (x_str s) NULL NULL NULL NULL)
          | VAR2_ARRAY _ => mret (Cell REF_ARRAY line (x_var (Some a)) NULL NULL NULL NULL)
          | VAR2_UNDEF => mret NULL
          end
      end
  | _ => mret NULL
  end.

Definition int2cell (i : Z) : tree_cell := Cell CONST_INT 0 (x_int i) NULL NULL NULL NULL.

(** For an array the message that reports it is given arguments of other types
    than its format says. *)
Definition nasl_incr_variable (k : nat) (tc : tree_cell) (pre : bool) (val : Z) : M store tree_cell :=
  match tc with
  | Cell REF_VAR _ x _ _ _ _ =>
      r ← ref_of x;
      v ← deref r;
      u ← load v;
      old_val ←
        match u with
        | VAR2_INT i => mret i
        | VAR2_STRING s | VAR2_DATA s =>
            mret (match s with None => 0 | Some s => CStr.atoi (cstr s) end)
        | VAR2_UNDEF => mret 0
        | VAR2_ARRAY _ => undef
        end;
      let new_val := MInt.wrap32 (old_val + val) in
      clear_anon_var k v;;
      write v (VAR2_INT new_val);;
      mret (int2cell (if pre then new_val else old_val))
  | Cell _ _ _ _ _ _ _ => mret NULL
  | _ => undef
  end.

Definition var2int (v : option addr) (defval : Z) : M store Z :=
  match v with
  | None => mret defval
  | Some v =>
      u ← load v;
      match u with
      | VAR2_INT i => mret i
      | VAR2_STRING (Some s) | VAR2_DATA (Some s) => mret (CStr.atoi (cstr s))
      | VAR2_STRING None | VAR2_DATA None => undef
      | VAR2_UNDEF | VAR2_ARRAY _ => mret defval
      end
  end.

(** ** Arrays as text *)

(** The static buffer: what is seen of it (up to its first zero byte), whether
    [n] has gone past that byte, [n], [len] and whether an element was printed. *)
Record a2s := mk_a2s { a_text : string; a_cut : bool; a_n : Z; a_len : Z; a_n1 : bool }.

(** Write [written] (of a text of length [full] when it was cut) at [s + n] and
    add [advance] to [n]: the bytes and the zero after them must fit. *)
Definition put (written : string) (advance : Z) (b : a2s) : outcome a2s :=
  if a_len b <? a_n b + CStr.slen written + 1 then Undef
  else
    let text := if a_cut b then a_text b else (a_text b +:+ written) in
    Ret (mk_a2s text (a_cut b || (CStr.slen written <? advance)) (a_n b + advance) (a_len b) (a_n1 b)).

Definition sprintf (text : string) (b : a2s) : outcome a2s := put text (CStr.slen text) b.

(** [snprintf (s + n, size, ...)] followed by [n += strlen (s + n)]; the size is
    unsigned. *)
Definition snprintf_cut (size : Z) (text : string) (b : a2s) : outcome a2s :=
  let size := MInt.uwrap64 size in
  if size =? 0 then Undef
  else let w := CStr.take_str (Z.to_nat (Z.min (size - 1) (CStr.slen text))) text in put w (CStr.slen w) b.

(** [n += snprintf (s + n, size, ...)]: the length of the whole text. *)
Definition snprintf_full (size : Z) (text : string) (b : a2s) : outcome a2s :=
  let size := MInt.uwrap64 size in
  if size =? 0 then Undef
  else put (CStr.take_str (Z.to_nat (Z.min (size - 1) (CStr.slen text))) text) (CStr.slen text) b.

Definition then_ (r : outcome a2s) (f : a2s -> outcome a2s) : outcome a2s :=
  match r with Ret b => f b | _ => r end.

Definition grow (room : Z) (b : a2s) : a2s :=
  if a_len b <=? a_n b + 80
  then mk_a2s (a_text b) (a_cut b) (a_n b) (a_len b + room) (a_n1 b) else b.

Definition separator (b : a2s) : outcome a2s :=
  then_ (if a_n1 b then sprintf ", " b else Ret b)
    (fun b => Ret (mk_a2s (a_text b) (a_cut b) (a_n b) (a_len b) true)).

Definition shown (s : option string) : string :=
  match s with Some s => cstr s | None => "(null)" end.

(** An element with its index or name [label] of length [l]; [named] elements
    that are integers advance by the length before it was cut. *)
Definition show_value (named : bool) (label : string) (l : Z) (u : anon_nasl_var) (b : a2s)
  : outcome a2s :=
  match u with
  | VAR2_INT i =>
      (if named then snprintf_full else snprintf_cut)
        (a_len b - a_n b) (label +:+ ": " +:+ CStr.dec i) b
  | VAR2_STRING s | VAR2_DATA s =>
      if slen_opt s <? 64
      then snprintf_cut (a_len b - a_n b) (label +:+ ": '" +:+ shown s +:+ "'") b
      else then_ (snprintf_cut (70 + l) (label +:+ ": '" +:+ shown s) b) (sprintf "'...")
  | _ => snprintf_cut (a_len b - a_n b) (label +:+ ": ????") b
  end.

Fixpoint show_elements (i : Z) (l : list (option anon_nasl_var)) (b : a2s) : outcome a2s :=
  match l with
  | [] => Ret b
  | None :: l' | Some VAR2_UNDEF :: l' => show_elements (i + 1) l' b
  | Some u :: l' =>
      then_ (then_ (separator (grow 80 b)) (show_value false (CStr.dec i) 0 u))
        (show_elements (i + 1) l')
  end.

(** [strlen] of a name that is NULL is not defined. *)
Fixpoint show_named (l : list (option string * anon_nasl_var)) (b : a2s) : outcome a2s :=
  match l with
  | [] => Ret b
  | (_, VAR2_UNDEF) :: l' => show_named l' b
  | (None, _) :: _ => Undef
  | (Some name, u) :: l' =>
      let n := CStr.slen name in
      then_ (then_ (separator (grow (80 + n) b)) (show_value true name n u)) (show_named l')
  end.

Fixpoint mapS {A B} (f : A -> M store B) (l : list A) : M store (list B) :=
  match l with
  | [] => mret []
  | x :: l' => y ← f x; ys ← mapS f l'; mret (y :: ys)
  end.

(** [len] is the length of the static buffer, 0 before the first call. *)
Definition array2str_buffer (len : Z) (elts : list (option anon_nasl_var))
    (named : list (option string * anon_nasl_var)) : outcome (string * Z) :=
  let len := if len =? 0 then 80 else len in
  match then_ (then_ (show_elements 0 elts (mk_a2s "[ " false 2 len false)) (show_named named))
              (fun b =>
                 let b := if a_len b <=? a_n b + 2
                          then mk_a2s (a_text b) (a_cut b) (a_n b) (a_len b + 80) (a_n1 b) else b in
                 put " ]" 2 b) with
  | Ret b => Ret (a_text b, a_len b)
  | NoReturn => NoReturn
  | Undef => Undef
  end.

Definition with_buffer (elts : list (option anon_nasl_var))
    (named : list (option string * anon_nasl_var)) : M store string :=
  fun s => match array2str_buffer (a2s_len s) elts named with
           | Ret (text, len) => Ret (text, mk_store (heap s) (next s) len)
           | NoReturn => NoReturn
           | Undef => Undef
           end.

Definition array2str (a : nasl_array) : M store string :=
  elts ← mapS (fun v => match v with
                        | None => mret None
                        | Some v => u ← load v; mret (Some u)
                        end) (num_elt a);
  named ← mapS (fun p => u ← load (snd p); mret (fst p, u)) (concat (default [] (hash_elt a)));
  with_buffer elts named.

Definition var2str (v : option addr) : M store (option string) :=
  match v with
  | None => mret None
  | Some v =>
      u ← load v;
      match u with
      | VAR2_INT i => mret (Some (CStr.dec i))
      | VAR2_STRING s | VAR2_DATA s => mret (Some (default EmptyString s))
      | VAR2_UNDEF => mret None
      | VAR2_ARRAY a => s ← array2str a; mret (Some s)
      end
  end.

(** ** What the functions in C read *)

Definition get_int_var_by_num (num defval : Z) : M state Z :=
  v ← get_var_ref_by_num num; lift (var2int v defval).
Definition get_int_var_by_name (name : string) (defval : Z) : M state Z :=
  v ← get_var_ref_by_name name true; lift (var2int (Some v) defval).
Definition get_int_local_var_by_name (name : string) (defval : Z) : M state Z :=
  v ← get_var_ref_by_name name false; lift (var2int (Some v) defval).

Definition get_str_var_by_num (num : Z) : M state (option string) :=
  v ← get_var_ref_by_num num; lift (var2str v).
Definition get_str_var_by_name (name : string) : M state (option string) :=
  v ← get_var_ref_by_name name true; lift (var2str (Some v)).
Definition get_str_local_var_by_name (name : string) : M state (option string) :=
  v ← get_var_ref_by_name name false; lift (var2str (Some v)).

Definition get_var_size (v : option addr) : M store Z :=
  match v with
  | None => mret 0
  | Some v =>
      u ← load v;
      mret (match u with VAR2_STRING s | VAR2_DATA s => slen_opt s | _ => 0 end)
  end.

Definition get_var_size_by_name (name : string) : M state Z :=
  v ← get_var_ref_by_name name true; lift (get_var_size (Some v)).
Definition get_local_var_size_by_name (name : string) : M state Z :=
  v ← get_var_ref_by_name name false; lift (get_var_size (Some v)).
Definition get_var_size_by_num (num : Z) : M state Z :=
  v ← get_var_ref_by_num num; lift (get_var_size v).

(** [var_type]. *)
Definition var_type (v : anon_nasl_var) : Z :=
  match v with
  | VAR2_UNDEF => 0
  | VAR2_INT _ => 1
  | VAR2_STRING _ => 2
  | VAR2_DATA _ => 3
  | VAR2_ARRAY _ => 4
  end.

Definition get_var_type_by_num (num : Z) : M state Z :=
  v ← get_var_ref_by_num num;
  match v with
  | None => mret 0
  | Some v => u ← lift (load v); mret (var_type u)
  end.
Definition get_local_var_type_by_name (name : string) : M state Z :=
  v ← get_var_ref_by_name name false; u ← lift (load v); mret (var_type u).

(** ** Iteration *)

(** [it_a] is the variable of the array, [it_v] the current named variable: a
    variable of the chain [it_iH - 1]. *)
Record nasl_iterator := mk_it
  { it_a : option addr; it_i1 : Z; it_iH : nat; it_v : option addr }.

Definition nasl_array_iterator (c : tree_cell) : M store nasl_iterator :=
  match c with
  | Cell REF_VAR _ x _ _ _ _ =>
      r ← ref_of x;
      match r with
      | None => mret (mk_it None 0 0 None)
      | Some v =>
          u ← load v;
          mret (mk_it (match u with VAR2_ARRAY _ => Some v | _ => None end) 0 0 None)
      end
  | Cell (REF_ARRAY | DYN_ARRAY) _ x _ _ _ _ => r ← ref_of x; mret (mk_it r 0 0 None)
  | _ => mret (mk_it None 0 0 None)
  end.

(** The first variable of [l] that is defined. *)
Fixpoint first_defined (l : list (option addr)) : M store (option (addr * nat)) :=
  match l with
  | [] => mret None
  | None :: l' => r ← first_defined l'; mret (prod_map id S <$> r)
  | Some v :: l' =>
      u ← load v;
      if is_undef u then r ← first_defined l'; mret (prod_map id S <$> r)
      else mret (Some (v, O))
  end.

Definition chain_addrs (chain : list named_nasl_var) : list (option addr) :=
  (fun p => Some (snd p)) <$> chain.

(** What follows the variable [v] in its chain; [v] must still be there. *)
Fixpoint after_var (v : addr) (chain : list named_nasl_var) : M store (list named_nasl_var) :=
  match chain with
  | [] => undef
  | p :: chain' => if decide (snd p = v) then mret chain' else after_var v chain'
  end.

(** The chains from [iH] on. *)
Fixpoint next_chains (iH : nat) (t : list (list named_nasl_var)) : M store (option (addr * nat)) :=
  match t with
  | [] => mret None
  | chain :: t' =>
      r ← first_defined (chain_addrs chain);
      match r with
      | Some (v, _) => mret (Some (v, S iH))
      | None => next_chains (S iH) t'
      end
  end.

Definition nasl_iterate_array (it : nasl_iterator) : M store (option addr * nasl_iterator) :=
  match it_a it with
  | None => mret (None, it)
  | Some aa =>
      a ← array_at aa;
      r ← (if 0 <=? it_i1 it
           then first_defined (drop (Z.to_nat (it_i1 it)) (num_elt a)) else mret None);
      match r with
      | Some (v, d) => mret (Some v, mk_it (Some aa) (it_i1 it + Z.of_nat d + 1) (it_iH it) (it_v it))
      | None =>
          match hash_elt a with
          | None => mret (None, mk_it (Some aa) (-1) (it_iH it) (it_v it))
          | Some t =>
              (* the rest of the chain of the current variable *)
              rest ← match it_v it with
                     | None => mret []
                     | Some v => after_var v (bucket (pred (it_iH it)) t)
                     end;
              r ← first_defined (chain_addrs rest);
              match r with
              | Some (v, _) => mret (Some v, mk_it (Some aa) (-1) (it_iH it) (Some v))
              | None =>
                  r ← next_chains (it_iH it) (drop (it_iH it) t);
                  match r with
                  | Some (v, iH) => mret (Some v, mk_it (Some aa) (-1) iH (Some v))
                  | None => mret (None, mk_it (Some aa) (-1) VAR_NAME_HASH None)
                  end
              end
          end
      end
  end.

(** ** Building arrays *)

(** The variable [v] is a value of the caller. *)
Definition add_var_to_list (k : nat) (a : nasl_array) (i : Z) (v : option anon_nasl_var)
  : M store (Z * nasl_array) :=
  if i <? 0 then mret (-1, a)
  else
    l ← (if max_idx a <=? i then resize 8 i (num_elt a) else mret (num_elt a));
    let a := set_num l a in
    free_anon_var k (elt a i);;
    match v with
    | None => mret (0, set_elt i None a)
    | Some u =>
        v2 ← alloc VAR2_UNDEF;
        copy_anon_var k v2 u;;
        mret (1, set_elt i (Some v2) a)
    end.

(** The new variable hides one with the same name. *)
Definition add_var_to_array (k : nat) (a : nasl_array) (name : string) (v : anon_nasl_var)
  : M store (Z * nasl_array) :=
  let t := default empty_hash (hash_elt a) in
  v2 ← alloc VAR2_UNDEF;
  copy_anon_var k v2 v;;
  mret (0, set_hash_elt (Some (push_named (hash_str (Some name)) (Some name, v2) t)) a).

(** The length without the undefined variables at the end, to which the array is
    cut, unless all are undefined. *)
Fixpoint defined_prefix (l : list (option addr)) : M store nat :=
  match l with
  | [] => mret O
  | v :: l' =>
      n ← defined_prefix l';
      match n with
      | S _ => mret (S n)
      | O =>
          match v with
          | None => mret O
          | Some v => u ← load v; mret (if is_undef u then O else 1%nat)
          end
      end
  end.

Definition array_max_index (a : nasl_array) : M store (Z * nasl_array) :=
  n ← defined_prefix (num_elt a);
  match n with
  | O => mret (0, a)
  | S _ => mret (Z.of_nat n, set_num (take n (num_elt a)) a)
  end.

(** The value of an element of a constant array; a cell that is missing leaves
    the variable [v] of the loop as it is. *)
Definition elem_value (c2 : tree_cell) (v : option anon_nasl_var) : M store (option anon_nasl_var) :=
  match c2 with
  | Cell CONST_INT _ x _ _ _ _ => i ← int_of x; mret (Some (VAR2_INT i))
  | Cell CONST_STR _ x _ _ _ _ => s ← str_of x; mret (Some (VAR2_STRING s))
  | Cell CONST_DATA _ x _ _ _ _ => s ← str_of x; mret (Some (VAR2_DATA s))
  | Cell _ _ _ _ _ _ _ => mret (Some VAR2_UNDEF)
  | _ => mret v
  end.

Fixpoint count_elems (el : tree_cell) : nat :=
  match el with Cell _ _ _ _ l1 _ _ => S (count_elems l1) | _ => O end.

Fixpoint add_elems (k : nat) (el : tree_cell) (n : Z) (v : option anon_nasl_var) (a : nasl_array)
  : M store nasl_array :=
  match el with
  | NULL => mret a
  | FAKE_CELL => undef
  | Cell _ _ x c2 l1 _ _ =>
      name ← str_of x;
      v ← elem_value c2 v;
      match v, name with
      | None, _ => undef            (* [v] was never set *)
      | Some u, None => r ← add_var_to_list k a n (Some u); add_elems k l1 (n + 1) v (snd r)
      | Some u, Some name => r ← add_var_to_array k a name u; add_elems k l1 n v (snd r)
      end
  end.

(** The first element decides whether the elements are numbered. *)
Definition make_array_from_elems (k : nat) (el : tree_cell) : M store tree_cell :=
  match el with
  | Cell _ _ x _ _ _ _ =>
      name ← str_of x;
      let a := match name with
               | None => mk_array (replicate (count_elems el) None) None
               | Some _ => mk_array [] (Some empty_hash)
               end in
      a ← add_elems k el 0 None a;
      c ← alloc (VAR2_ARRAY a);
      mret (Cell DYN_ARRAY 0 (x_var (Some c)) NULL NULL NULL NULL)
  | _ => undef
  end.

End NaslVar.
