(* ===== verification/NaslExec.v ===== *)
(** * The NASL interpreter ([nasl/exec.c], [nasl/nasl_func.c], [nasl/nasl_lex_ctxt.c])

    [nasl_exec] executes a cell of the parse tree in the context at the head of
    the state.  Its cases are definitions of their own; they take the function
    that executes a cell ([exec]) and a fuel [k] for their loops.  [nasl_exec n]
    gives them [nasl_exec (n - 1)] and [n - 1].  The functions in C a script calls
    ([builtin]) and the matching of regular expressions are parameters. *)

From S2P Require Import Prelude Nasl NaslVar.
From stdpp Require Import base gmap sets list strings.
From Stdlib Require Import Ascii ZArith Lia.
Local Open Scope Z_scope.

Module NaslExec.
Import Nasl NaslVar.

(** ** Contexts and functions *)

Definition init_empty_lex_ctxt : lex_ctxt :=
  mk_ctxt NULL false false false 0 0 (mk_array [] (Some empty_hash)) (replicate FUNC_NAME_HASH []).

Definition free_lex_ctxt (k : nat) (c : lex_ctxt) : M store unit := free_array k (ctx_vars c).

Definition func_hash (s : string) : nat := hash_str2 (Some s) FUNC_NAME_HASH.

Definition func_bucket (h : nat) (c : lex_ctxt) : list nasl_func := default [] (functions c !! h).

Fixpoint get_func (name : string) (h : nat) (l : list lex_ctxt) : option nasl_func :=
  match l with
  | [] => None
  | c :: up =>
      match List.find (fun f => String.eqb name (func_name f)) (func_bucket h c) with
      | Some f => Some f
      | None => get_func name h up
      end
  end.

Definition get_func_ref_by_name (name : string) : M state (option nasl_func) :=
  fun s => Ret (get_func name (func_hash name) (st_ctxts s), s).

(** The declared names of a list of arguments. *)
Fixpoint decl_names (pc : tree_cell) : list (option string) :=
  match pc with
  | Cell _ _ (x_str name) l0 _ _ _ => name :: decl_names l0
  | _ => []
  end.

Definition insert_func (f : nasl_func) (c : lex_ctxt) : lex_ctxt :=
  let h := func_hash (func_name f) in
  set_functions (<[h := f :: func_bucket h c]> (functions c)) c.

(** A function may be called with any number of unnamed arguments. *)
Definition insert_nasl_func (fname : string) (args block : tree_cell) : M state (option nasl_func) :=
  f ← get_func_ref_by_name fname;
  match f with
  | Some _ => mret None
  | None =>
      let pf := mk_func fname false 9999 (omap id (decl_names args)) (user_block block) in
      update_lexic (insert_func pf);;
      mret (Some pf)
  end.

Definition decl_nasl_func (decl_node : tree_cell) : M state tree_cell :=
  match decl_node with
  | Cell _ _ x l0 l1 _ _ =>
      name ← str_of x;
      match name with
      | None => undef
      | Some fname =>
          f ← insert_nasl_func fname l0 l1;
          mret (match f with Some _ => FAKE_CELL | None => NULL end)
      end
  | _ => mret NULL
  end.

(** The contexts up to the one of a function. *)
Fixpoint set_ret_vals (r : tree_cell) (l : list lex_ctxt) : list lex_ctxt :=
  match l with
  | [] => []
  | c :: up => set_ret_val r c :: (if fct_ctxt c then up else set_ret_vals r up)
  end.

Definition set_ret (r : tree_cell) : M state unit :=
  fun s => Ret (tt, mk_state (st_store s) (set_ret_vals r (st_ctxts s))).

Definition push_ctxt (c : lex_ctxt) : M state unit :=
  fun s => Ret (tt, mk_state (st_store s) (c :: st_ctxts s)).
Definition pop_ctxt : M state lex_ctxt :=
  fun s => match st_ctxts s with
           | c :: up => Ret (c, mk_state (st_store s) up)
           | [] => Undef
           end.

(** ** Results *)

Definition nasl_is_leaf (pc : tree_cell) : bool :=
  match pc with
  | NULL | FAKE_CELL => true
  | Cell (CONST_INT | CONST_STR | CONST_DATA | REF_ARRAY | DYN_ARRAY) _ _ _ _ _ _ => true
  | _ => false
  end.

Definition cell_type (c : tree_cell) : option node_type :=
  match c with Cell t _ _ _ _ _ _ => Some t | _ => None end.

Definition bool2cell (b : bool) : tree_cell := int2cell (if b then 1 else 0).

Definition str_cell (type : node_type) (s : string) : tree_cell :=
  Cell type 0 (x_str (Some s)) NULL NULL NULL NULL.

(** How two cells are compared, by their types. *)
Inductive comparison_kind := as_int | as_string | fixed (flag : Z).

Definition is_string (t : option node_type) : bool :=
  match t with Some (CONST_STR | CONST_DATA) => true | _ => false end.
Definition is_int (t : option node_type) : bool :=
  match t with Some CONST_INT => true | _ => false end.
Definition is_nothing (t : option node_type) : bool :=
  match t with None => true | _ => false end.

Definition compare_as (t1 t2 : option node_type) : comparison_kind :=
  if is_nothing t1 && is_nothing t2 then fixed 0
  else if is_int t1 && is_int t2 then as_int
  else if (is_string t1 || is_int t1) && (is_string t2 || is_int t2) then as_string
  else if is_nothing t1 then
    if is_int t2 then as_int else if is_string t2 then as_string else fixed (-1)
  else if is_nothing t2 then
    if is_int t1 then as_int else if is_string t1 then as_string else fixed 1
  else fixed 0.

(** [memcmp]: the difference of the first bytes that differ. *)
Fixpoint mem_cmp (a b : string) (n : nat) : Z :=
  match n, a, b with
  | S n, String c a, String d b =>
      if CStr.code c =? CStr.code d then mem_cmp a b n else CStr.code c - CStr.code d
  | _, _, _ => 0
  end.

Definition bytes_cmp (a b : string) : Z :=
  let flag := mem_cmp a b (Z.to_nat (Z.min (CStr.slen a) (CStr.slen b))) in
  if flag =? 0 then CStr.slen a - CStr.slen b else flag.

(** [expo]: [y] is halved at each call. *)
Fixpoint expo_pos (x : Z) (y : positive) : Z :=
  match y with
  | xH => x
  | xO y => let z := expo_pos x y in MInt.wrap32 (z * z)
  | xI y => let z := expo_pos x y in MInt.wrap32 (MInt.wrap32 (x * z) * z)
  end.
Definition expo (x y : Z) : Z :=
  match y with
  | Z0 => 1
  | Zneg _ => if x =? 1 then 1 else 0
  | Zpos y => expo_pos x y
  end.

(** The arithmetic of [nasl_exec] on two integers.  [INT_MIN / -1] and a shift by
    a negative number or by more than 31 are not defined. *)
Definition arith (op : node_type) (x y : Z) : outcome Z :=
  let trap := (x =? MInt.INT_MIN) && (y =? -1) in
  let shift (z : Z) := if (0 <=? y) && (y <? 32) then Ret z else Undef in
  match op with
  | EXPR_MULT => Ret (MInt.wrap32 (x * y))
  | EXPR_DIV => if y =? 0 then Ret 0 else if trap then Undef else Ret (Z.quot x y)
  | EXPR_EXPO => Ret (expo x y)
  | EXPR_MODULO => if y =? 0 then Ret 0 else if trap then Undef else Ret (Z.rem x y)
  | EXPR_BIT_AND => Ret (Z.land x y)
  | EXPR_BIT_OR => Ret (Z.lor x y)
  | EXPR_BIT_XOR => Ret (Z.lxor x y)
  | EXPR_L_SHIFT => shift (MInt.wrap32 (Z.shiftl x y))
  | EXPR_R_SHIFT => shift (Z.shiftr x y)
  | EXPR_R_USHIFT => shift (MInt.wrap32 (Z.shiftr (MInt.uwrap32 x) y))
  | _ => Undef
  end.

Definition of_outcome {S A} (o : outcome A) : M S A :=
  fun s => match o with Ret a => Ret (a, s) | NoReturn => NoReturn | Undef => Undef end.

(** [EXPR_MINUS] on texts: the first occurrence is removed. *)
Definition str_minus (p1 p2 : string) : string :=
  if (CStr.slen p2 =? 0) || (CStr.slen p1 <? CStr.slen p2) then p1
  else match CStr.strstr_split p1 p2 with
       | Some (before, after) => before +:+ after
       | None => p1
       end.

(** Whether the first text occurs in the second. *)
Definition str_match (p1 p2 : string) : bool :=
  (CStr.slen p1 <=? CStr.slen p2)
  && match CStr.strstr_split p2 p1 with Some _ => true | None => false end.

(** The type of a sum or a difference. *)
Definition result_type (t1 t2 : option node_type) : option node_type :=
  match t1, t2 with
  | Some CONST_DATA, _ | _, Some CONST_DATA => Some CONST_DATA
  | Some CONST_STR, _ | _, Some CONST_STR => Some CONST_STR
  | Some CONST_INT, _ | _, Some CONST_INT => Some CONST_INT
  | _, _ => None
  end.

Section Exec.
Context (regexec : string -> string -> Z).          (* the expression, the text *)
Context (builtin : string -> M state tree_cell).
Context (exec : tree_cell -> M state tree_cell).

(** ** Conversions *)

Fixpoint cell2bool (k : nat) (c : tree_cell) : M state bool :=
  match c with
  | NULL | FAKE_CELL => mret false
  | Cell CONST_INT _ x _ _ _ _ => i ← int_of x; mret (negb (i =? 0))
  | Cell (CONST_STR | CONST_DATA) _ x _ _ _ _ => s ← str_of x; mret (negb (slen_opt s =? 0))
  | Cell (REF_ARRAY | DYN_ARRAY) _ _ _ _ _ _ => mret true
  | _ =>
      match k with
      | O => no_return
      | S k => c2 ← exec c; cell2bool k c2
      end
  end.

(** [cell2int3]; an array is executed again and again. *)
Fixpoint cell2int (k : nat) (c : tree_cell) : M state Z :=
  match c with
  | NULL | FAKE_CELL => mret 0
  | Cell CONST_INT _ x _ _ _ _ => int_of x
  | Cell (CONST_STR | CONST_DATA) _ x _ _ _ _ =>
      s ← str_of x;
      match s with
      | None => undef
      | Some s => mret (MInt.wrap32 (fst (CStr.strtol 0 (cstr s))))
      end
  | _ =>
      match k with
      | O => no_return
      | S k => c2 ← exec c; cell2int k c2
      end
  end.

Fixpoint cell2str (k : nat) (c : tree_cell) : M state (option string) :=
  match c with
  | NULL | FAKE_CELL => mret None
  | Cell CONST_INT _ x _ _ _ _ => i ← int_of x; mret (Some (CStr.dec i))
  | Cell (CONST_STR | CONST_DATA) _ x _ _ _ _ => s ← str_of x; mret (Some (default EmptyString s))
  | Cell (REF_ARRAY | DYN_ARRAY) _ x _ _ _ _ =>
      r ← ref_of x;
      match r with
      | None => mret (Some EmptyString)
      | Some a => s ← lift (arr ← array_at a; array2str arr); mret (Some s)
      end
  | _ =>
      match k with
      | O => no_return
      | S k => c2 ← exec c; p ← cell2str k c2; mret (Some (default EmptyString p))
      end
  end.

Fixpoint cell2atom (k : nat) (c : tree_cell) : M state tree_cell :=
  if nasl_is_leaf c then mret c
  else
    match k with
    | O => no_return
    | S k => c2 ← exec c; cell2atom k c2
    end.

(** The text of an atom with the length the operators use: its size, or for other
    types that of the C string. *)
Definition text_of (k : nat) (c : tree_cell) : M state string :=
  s ← cell2str k c; mret (default EmptyString s).

(** ** Comparison *)

Definition cell_cmp (k : nat) (c1 c2 : tree_cell) : M state Z :=
  c1 ← cell2atom k c1;
  c2 ← cell2atom k c2;
  match compare_as (cell_type c1) (cell_type c2) with
  | fixed flag => mret flag
  | as_int =>
      x1 ← cell2int k c1;
      x2 ← cell2int k c2;
      mret (MInt.wrap32 (x1 - x2))
  | as_string =>
      s1 ← text_of k c1;
      s2 ← text_of k c2;
      mret (bytes_cmp s1 s2)
  end.

(** ** Calls *)

(** The arguments are evaluated in the caller's context and become variables of
    the new context [c2]; [false] when one exists already. *)
Fixpoint bind_args (k : nat) (args : tree_cell) (nb_u : Z) (c2 : lex_ctxt) : M state (bool * lex_ctxt) :=
  match args with
  | NULL => mret (true, c2)
  | FAKE_CELL => undef
  | Cell _ _ x l0 l1 _ _ =>
      name ← str_of x;
      pc2 ← cell2atom k l0;
      match name with
      | None =>
          r ← lift (add_numbered_var_to_ctxt k c2 nb_u pc2);
          match fst r with
          | Some _ => bind_args k l1 (nb_u + 1) (snd r)
          | None => mret (false, snd r)
          end
      | Some name =>
          r ← lift (add_named_var_to_ctxt k c2 name pc2);
          match fst r with
          | Some _ => bind_args k l1 nb_u (snd r)
          | None => mret (false, snd r)
          end
      end
  end.

Definition func_ctxt (c : lex_ctxt) : lex_ctxt :=
  set_fct_ctxt true (set_recv_timeout (recv_timeout c) init_empty_lex_ctxt).

(** What a call gives: the result of a function in C, the returned value. *)
Definition call_result (retc : tree_cell) (c2 : lex_ctxt) : tree_cell :=
  if no_cell retc && negb (no_cell (ret_val c2)) then ret_val c2 else retc.

Definition nasl_func_call (k : nat) (f : nasl_func) (arg_list : tree_cell) : M state tree_cell :=
  c ← lexic;
  if compat f then mret NULL
  else
    r ← bind_args k arg_list 0 (func_ctxt c);
    if (fst r : bool) then
      push_ctxt (snd r);;
      retc ← match fblock_of f with
             | internal_block g => builtin g
             | user_block block => exec block;; mret FAKE_CELL
             end;
      c2 ← pop_ctxt;
      lift (free_lex_ctxt k c2);;
      mret (call_result retc c2)
    else
      lift (free_lex_ctxt k (snd r));;
      mret NULL.

(** A returned array that belongs to a variable is copied. *)
Definition nasl_return (k : nat) (retv : tree_cell) : M state tree_cell :=
  retv ← cell2atom k retv;
  retv ← match retv with
         | NULL => mret FAKE_CELL
         | Cell REF_ARRAY _ _ _ _ _ _ => lift (copy_ref_array k retv)
         | _ => mret retv
         end;
  set_ret retv;;
  mret FAKE_CELL.

(** ** The nodes *)

Definition exec_if (k : nat) (l0 l1 l2 : tree_cell) : M state tree_cell :=
  ret ← exec l0;
  flag ← cell2bool k ret;
  if flag : bool then exec l1
  else if is_null l2 then mret FAKE_CELL else exec l2.

Definition exec_block (l0 l1 : tree_cell) : M state tree_cell :=
  ret ← exec l0;
  c ← lexic;
  if is_null l1 || break_flag c || cont_flag c then mret ret else exec l1.

(** After the block of a loop: whether the loop goes on. *)
Definition loop_continues : M state bool :=
  c ← lexic;
  if break_flag c then update_lexic (set_break_flag false);; mret false
  else update_lexic (set_cont_flag false);; mret true.

Fixpoint for_loop (k : nat) (l1 l2 l3 : tree_cell) : M state tree_cell :=
  match k with
  | O => no_return
  | S k =>
      c ← lexic;
      if negb (is_null (ret_val c)) then mret (ret_val c)
      else
        ret ← exec l1;
        if is_null ret then mret NULL
        else
          flag ← cell2bool k ret;
          if flag : bool then
            exec l3;;
            go ← loop_continues;
            if go : bool then exec l2;; for_loop k l1 l2 l3 else mret FAKE_CELL
          else mret FAKE_CELL
  end.

Fixpoint while_loop (k : nat) (l0 l1 : tree_cell) : M state tree_cell :=
  match k with
  | O => no_return
  | S k =>
      c ← lexic;
      if negb (is_null (ret_val c)) then mret (ret_val c)
      else
        ret ← exec l0;
        if is_null ret then mret NULL
        else
          flag ← cell2bool k ret;
          if flag : bool then
            exec l1;;
            go ← loop_continues;
            if go : bool then while_loop k l0 l1 else mret FAKE_CELL
          else mret FAKE_CELL
  end.

Fixpoint repeat_loop (k : nat) (l0 l1 : tree_cell) : M state tree_cell :=
  match k with
  | O => no_return
  | S k =>
      c ← lexic;
      if negb (is_null (ret_val c)) then mret (ret_val c)
      else
        exec l0;;
        go ← loop_continues;
        if go : bool then
          ret ← exec l1;
          flag ← cell2bool k ret;
          if flag : bool then mret FAKE_CELL else repeat_loop k l0 l1
        else mret FAKE_CELL
  end.

Fixpoint foreach_loop (k : nat) (v l1 : tree_cell) (ai : nasl_iterator) : M state tree_cell :=
  match k with
  | O => no_return
  | S k =>
      r ← lift (nasl_iterate_array ai);
      match fst r with
      | None => mret FAKE_CELL
      | Some val =>
          lift (nasl_affect k v (var2cell (Some val)));;
          exec l1;;
          c ← lexic;
          if negb (is_null (ret_val c)) then mret FAKE_CELL
          else
            go ← loop_continues;
            if go : bool then foreach_loop k v l1 (snd r) else mret FAKE_CELL
      end
  end.

Definition exec_foreach (k : nat) (name : option string) (l0 l1 : tree_cell) : M state tree_cell :=
  v ← get_variable_by_name k name;
  if is_null v then mret NULL
  else
    a ← exec l0;
    ai ← lift (nasl_array_iterator a);
    foreach_loop k v l1 ai.

Definition exec_fun_call (k : nat) (name : option string) (args : tree_cell) : M state tree_cell :=
  match name with
  | None => undef
  | Some name =>
      pf ← get_func_ref_by_name name;
      match pf with
      | None => mret NULL
      | Some pf => nasl_func_call k pf args
      end
  end.

(** The counter is an [int] that must pass [n]. *)
Fixpoint repeated (k : nat) (i n : Z) (l0 : tree_cell) : M state tree_cell :=
  if n <? i then mret FAKE_CELL
  else
    match k with
    | O => no_return
    | S k => exec l0;; if i =? MInt.INT_MAX then undef else repeated k (i + 1) n l0
    end.

Definition exec_repeated (k : nat) (l0 l1 : tree_cell) : M state tree_cell :=
  n ← cell2int k l1;
  if n <=? 0 then mret NULL else repeated k 1 n l0.

Definition exec_array_el (k : nat) (name : option string) (l0 : tree_cell) : M state tree_cell :=
  idx ← cell2atom k l0;
  match name with None => undef | Some name => get_array_elem name idx end.

Definition exec_aff (k : nat) (l0 l1 : tree_cell) : M state tree_cell :=
  tc1 ← exec l0;
  tc2 ← exec l1;
  lift (nasl_affect k tc1 tc2);;
  mret tc2.

(** [NODE_PLUS_EQ] and the like: the operator is executed on the two results. *)
Definition exec_op_eq (k : nat) (op : node_type) (l0 l1 : tree_cell) : M state tree_cell :=
  tc1 ← exec l0;
  tc2 ← exec l1;
  ret2 ← exec (Cell op 0 (x_str None) tc1 tc2 NULL NULL);
  lift (nasl_affect k tc1 ret2);;
  mret ret2.

Definition exec_and (k : nat) (l0 l1 : tree_cell) : M state tree_cell :=
  x ← cell2bool k l0;
  if x : bool then y ← cell2bool k l1; mret (bool2cell y) else mret (bool2cell false).

Definition exec_or (k : nat) (l0 l1 : tree_cell) : M state tree_cell :=
  x ← cell2bool k l0;
  if x : bool then mret (bool2cell true) else y ← cell2bool k l1; mret (bool2cell y).

Definition exec_not (k : nat) (l0 : tree_cell) : M state tree_cell :=
  x ← cell2bool k l0; mret (bool2cell (negb x)).

Definition exec_incr (k : nat) (val : Z) (l0 l1 : tree_cell) : M state tree_cell :=
  let pre := is_null l0 in
  tc2 ← exec (if pre then l1 else l0);
  if is_null tc2 then mret NULL else lift (nasl_incr_variable k tc2 pre val).

(** The integer of the first operand is read as it is, whatever its type. *)
Definition exec_plus (k : nat) (l0 l1 : tree_cell) : M state tree_cell :=
  tc1 ← cell2atom k l0;
  tc2 ← cell2atom k l1;
  match tc2, tc1 with
  | (NULL | FAKE_CELL), _ => mret tc1
  | _, (NULL | FAKE_CELL) => mret tc2
  | _, Cell _ _ x1 _ _ _ _ =>
      match result_type (cell_type tc1) (cell_type tc2) with
      | Some CONST_INT =>
          x ← int_of x1;
          y ← cell2int k tc2;
          mret (int2cell (MInt.wrap32 (x + y)))
      | Some flag =>
          s1 ← text_of k tc1;
          s2 ← text_of k tc2;
          mret (str_cell flag (s1 +:+ s2))
      | None => mret NULL
      end
  end.

Definition exec_minus (k : nat) (l0 l1 : tree_cell) : M state tree_cell :=
  tc1 ← cell2atom k l0;
  tc2 ← cell2atom k l1;
  if no_cell tc2 then mret tc1
  else if no_cell tc1 then
    match tc2 with
    | Cell CONST_INT _ _ _ _ _ _ => y ← cell2int k tc2; mret (int2cell (MInt.wrap32 (- y)))
    | _ => mret NULL
    end
  else
    match result_type (cell_type tc1) (cell_type tc2) with
    | Some CONST_INT =>
        x ← cell2int k tc1;
        y ← cell2int k tc2;
        mret (int2cell (MInt.wrap32 (x - y)))
    | Some flag =>
        s1 ← text_of k tc1;
        s2 ← text_of k tc2;
        mret (str_cell flag (str_minus s1 s2))
    | None => mret NULL
    end.

Definition exec_arith (k : nat) (op : node_type) (l0 l1 : tree_cell) : M state tree_cell :=
  x ← cell2int k l0;
  y ← cell2int k l1;
  z ← of_outcome (arith op x y);
  mret (int2cell z).

(** [~x] and [-x]. *)
Definition exec_unary (k : nat) (f : Z -> Z) (l0 : tree_cell) : M state tree_cell :=
  x ← cell2int k l0; mret (int2cell (f x)).

Definition exec_match (k : nat) (positive : bool) (l0 l1 : tree_cell) : M state tree_cell :=
  tc1 ← cell2atom k l0;
  tc2 ← cell2atom k l1;
  p1 ← text_of k tc1;
  p2 ← text_of k tc2;
  mret (bool2cell (Bool.eqb positive (str_match p1 p2))).

Definition REG_NOMATCH : Z := 1.

(** The expression is NULL when it did not compile. *)
Definition exec_re_match (k : nat) (positive : bool) (x : cell_x) (l0 : tree_cell) : M state tree_cell :=
  match x with
  | x_re None => mret NULL
  | x_re (Some re) =>
      s1 ← cell2str k l0;
      match s1 with
      | None => mret NULL
      | Some s1 =>
          mret (bool2cell (Bool.eqb positive (negb (regexec re (cstr s1) =? REG_NOMATCH))))
      end
  | _ => undef
  end.

Definition exec_comp (k : nat) (test : Z -> bool) (l0 l1 : tree_cell) : M state tree_cell :=
  flag ← cell_cmp k l0 l1; mret (bool2cell (test flag)).

(** ** [nasl_exec] *)

Definition operators (k : nat) (type : node_type) (x : cell_x) (l0 l1 : tree_cell) : M state tree_cell :=
  match type with
  | EXPR_AND => exec_and k l0 l1
  | EXPR_OR => exec_or k l0 l1
  | EXPR_NOT => exec_not k l0
  | EXPR_INCR => exec_incr k 1 l0 l1
  | EXPR_DECR => exec_incr k (-1) l0 l1
  | EXPR_PLUS => exec_plus k l0 l1
  | EXPR_MINUS => exec_minus k l0 l1
  | EXPR_MULT | EXPR_DIV | EXPR_EXPO | EXPR_MODULO | EXPR_BIT_AND | EXPR_BIT_OR | EXPR_BIT_XOR
  | EXPR_L_SHIFT | EXPR_R_SHIFT | EXPR_R_USHIFT => exec_arith k type l0 l1
  | EXPR_BIT_NOT => exec_unary k Z.lnot l0
  | EXPR_U_MINUS => exec_unary k (fun x => MInt.wrap32 (- x)) l0
  | COMP_MATCH => exec_match k true l0 l1
  | COMP_NOMATCH => exec_match k false l0 l1
  | COMP_RE_MATCH => exec_re_match k true x l0
  | COMP_RE_NOMATCH => exec_re_match k false x l0
  | COMP_LT => exec_comp k (fun f => f <? 0) l0 l1
  | COMP_LE => exec_comp k (fun f => f <=? 0) l0 l1
  | COMP_EQ => exec_comp k (fun f => f =? 0) l0 l1
  | COMP_NE => exec_comp k (fun f => negb (f =? 0)) l0 l1
  | COMP_GT => exec_comp k (fun f => 0 <? f) l0 l1
  | COMP_GE => exec_comp k (fun f => 0 <=? f) l0 l1
  | _ => undef                       (* abort *)
  end.

(** The text of a cell that has a name or none. *)
Definition cell_name (x : cell_x) : option string := match x with x_str s => s | _ => None end.

Definition exec_node (k : nat) (st : tree_cell) : M state tree_cell :=
  match st with
  | NULL => mret NULL
  | FAKE_CELL => undef
  | Cell type _ x l0 l1 l2 l3 =>
      match type with
      | NODE_IF_ELSE => exec_if k l0 l1 l2
      | NODE_INSTR_L => exec_block l0 l1
      | NODE_FOR => exec l0;; for_loop k l1 l2 l3
      | NODE_WHILE => while_loop k l0 l1
      | NODE_REPEAT_UNTIL => repeat_loop k l0 l1
      | NODE_FOREACH => exec_foreach k (cell_name x) l0 l1
      | NODE_FUN_DEF => decl_nasl_func st
      | NODE_FUN_CALL => exec_fun_call k (cell_name x) l0
      | NODE_REPEATED => exec_repeated k l0 l1
      | NODE_DECL => mret st
      | NODE_ARG => exec l0
      | NODE_RETURN => nasl_return k l0
      | NODE_BREAK => update_lexic (set_break_flag true);; mret FAKE_CELL
      | NODE_CONTINUE => update_lexic (set_cont_flag true);; mret FAKE_CELL
      | NODE_ARRAY_EL => exec_array_el k (cell_name x) l0
      | NODE_AFF => exec_aff k l0 l1
      | NODE_PLUS_EQ => exec_op_eq k EXPR_PLUS l0 l1
      | NODE_MINUS_EQ => exec_op_eq k EXPR_MINUS l0 l1
      | NODE_MULT_EQ => exec_op_eq k EXPR_MULT l0 l1
      | NODE_DIV_EQ => exec_op_eq k EXPR_DIV l0 l1
      | NODE_MODULO_EQ => exec_op_eq k EXPR_MODULO l0 l1
      | NODE_L_SHIFT_EQ => exec_op_eq k EXPR_L_SHIFT l0 l1
      | NODE_R_SHIFT_EQ => exec_op_eq k EXPR_R_SHIFT l0 l1
      | NODE_R_USHIFT_EQ => exec_op_eq k EXPR_R_USHIFT l0 l1
      | NODE_VAR => get_variable_by_name k (cell_name x)
      | NODE_LOCAL => decl_local_variables k l0
      | NODE_GLOBAL => decl_global_variables k l0
      | REF_ARRAY | DYN_ARRAY | CONST_INT | CONST_STR | CONST_DATA => mret st
      | REF_VAR => lift (nasl_read_var_ref st)
      | _ => operators k type x l0 l1
      end
  end.

(** What comes before the switch: a pending return, break or continue ends
    everything.  A [FAKE_CELL] is dereferenced. *)
Definition enter (st : tree_cell) (body : M state tree_cell) : M state tree_cell :=
  match st with
  | FAKE_CELL => undef
  | NULL => mret tt
  | Cell _ line _ _ _ _ _ => update_lexic (set_line_nb line)
  end;;
  c ← lexic;
  if negb (is_null (ret_val c)) then mret (ret_val c)
  else if break_flag c || cont_flag c then mret FAKE_CELL
  else body.

End Exec.

Fixpoint nasl_exec (regexec : string -> string -> Z) (builtin : string -> M state tree_cell)
    (n : nat) (st : tree_cell) : M state tree_cell :=
  match n with
  | O => no_return
  | S n => enter st (exec_node regexec builtin (nasl_exec regexec builtin n) n st)
  end.

End NaslExec.
