(* ===== verification/NaslFuel.v ===== *)
(** * Fuel of the NASL interpreter

    A result of the interpreter does not depend on the fuel: with more of it the
    result is the same.  [approx m m'] says that [m'] does what [m] does wherever
    [m] does not run out of fuel; every operation is monotone for it. *)

From S2P Require Import Prelude Nasl NaslVar NaslExec.
From stdpp Require Import base gmap sets list strings.
From Stdlib Require Import Ascii ZArith Lia.
Local Open Scope Z_scope.

Module NaslFuel.
Import Nasl NaslVar NaslExec.

Definition approx {S A} (m m' : M S A) : Prop := forall s, m s <> NoReturn -> m' s = m s.

Lemma approx_refl {S A} (m : M S A) : approx m m.
Proof. by intros s ?. Qed.

Lemma approx_no_return {S A} (m : M S A) : approx no_return m.
Proof. by intros s []. Qed.

Lemma approx_bind {S A B} (m m' : M S A) (f f' : A -> M S B) :
  approx m m' -> (forall a, approx (f a) (f' a)) -> approx (m ≫= f) (m' ≫= f').
Proof.
  intros Hm Hf s. unfold mbind, M_bind. specialize (Hm s).
  destruct (m s) as [[a s1]| |]; intros H; try (rewrite Hm by done); [by apply Hf|done|done].
Qed.

Lemma approx_lift {A} (m m' : M store A) : approx m m' -> approx (lift m) (lift m').
Proof.
  intros Hm s. unfold lift. specialize (Hm (st_store s)).
  destruct (m (st_store s)) as [[a s1]| |]; intros H; by try rewrite Hm.
Qed.

Lemma approx_iterM {S A} (f f' : A -> M S unit) l :
  (forall a, approx (f a) (f' a)) -> approx (iterM f l) (iterM f' l).
Proof.
  intros Hf. induction l as [|x l IH]; simpl; [apply approx_refl|].
  apply approx_bind; auto.
Qed.

Create HintDb fuel.
#[local] Hint Resolve approx_refl approx_no_return approx_lift approx_iterM : fuel.

(** One case at a time: binds, conditionals, matches on the same value. *)
Ltac approx_step :=
  match goal with
  | |- approx ?m ?m => apply approx_refl
  | |- approx (_ ≫= _) (_ ≫= _) => apply approx_bind; [|intros]
  | |- approx (if ?b then _ else _) (if ?b then _ else _) => destruct b
  | |- approx (match ?x with _ => _ end) (match ?x with _ => _ end) => destruct x
  | |- approx (let _ := _ in _) _ => cbv zeta
  | _ => solve [eauto with fuel]
  end.
Ltac approx_solve := repeat (approx_step; try done).

(** ** Variables *)

Lemma free_anon_var_mono k k' v : (k <= k')%nat -> approx (free_anon_var k v) (free_anon_var k' v).
Proof.
  revert k' v. induction k as [|k IH]; intros k' v Hk.
  - destruct k'; simpl; approx_solve.
  - destruct k' as [|k']; [lia|]. specialize (fun v => IH k' v ltac:(lia)).
    simpl. unfold free_array_with, free_var_chain. approx_solve.
    all: apply approx_iterM; intros; apply approx_iterM; auto.
Qed.

Lemma free_array_mono k k' a : (k <= k')%nat -> approx (free_array k a) (free_array k' a).
Proof.
  intros Hk. pose proof (fun v => free_anon_var_mono k k' v Hk).
  unfold free_array, free_array_with, free_var_chain. approx_solve.
Qed.

Section Variables.
Context (k k' : nat) (Hk : (k <= k')%nat).

#[local] Hint Extern 0 (_ <= _)%nat => exact Hk : fuel.
#[local] Hint Resolve free_anon_var_mono free_array_mono : fuel.

Lemma clear_value_mono v : approx (clear_value k v) (clear_value k' v).
Proof. unfold clear_value, clear_array. approx_solve. Qed.
#[local] Hint Resolve clear_value_mono : fuel.

Lemma clear_anon_var_mono v : approx (clear_anon_var k v) (clear_anon_var k' v).
Proof. unfold clear_anon_var. approx_solve. Qed.

Lemma copy_array_with_mono (f f' : addr -> anon_nasl_var -> M store unit) a1 a2 named :
  (forall v u, approx (f v u) (f' v u)) ->
  approx (copy_array_with f k a1 a2 named) (copy_array_with f' k' a1 a2 named).
Proof.
  intros Hf. unfold copy_array_with, clear_array.
  assert (forall v, approx (dup_anon_var_with f v) (dup_anon_var_with f' v)).
  { intros. unfold dup_anon_var_with. approx_solve. }
  assert (forall l i, approx (copy_elements f a1 i l) (copy_elements f' a1 i l)).
  { induction l; intros; simpl; approx_solve. }
  assert (forall l h, approx (copy_chain f a1 h l) (copy_chain f' a1 h l)).
  { induction l; intros; simpl; unfold dup_named_var; approx_solve. }
  assert (forall t h, approx (copy_chains f a1 h t) (copy_chains f' a1 h t)).
  { induction t; intros; simpl; approx_solve. }
  approx_solve.
Qed.
End Variables.

Lemma copy_anon_var_mono k k' v u : (k <= k')%nat -> approx (copy_anon_var k v u) (copy_anon_var k' v u).
Proof.
  revert k' v u. induction k as [|k IH]; intros k' v u Hk; destruct k' as [|k']; try lia;
    destruct u; simpl; approx_solve.
  apply copy_array_with_mono; [lia|]. intros. apply IH. lia.
Qed.

Section Operations.
Context (k k' : nat) (Hk : (k <= k')%nat).

#[local] Hint Extern 0 (_ <= _)%nat => exact Hk : fuel.
#[local] Hint Resolve free_anon_var_mono free_array_mono clear_value_mono clear_anon_var_mono
  copy_anon_var_mono copy_array_with_mono : fuel.

Lemma copy_array_mono a1 a2 named : approx (copy_array k a1 a2 named) (copy_array k' a1 a2 named).
Proof. unfold copy_array. approx_solve. Qed.
#[local] Hint Resolve copy_array_mono : fuel.

Lemma copy_ref_array_mono c : approx (copy_ref_array k c) (copy_ref_array k' c).
Proof. unfold copy_ref_array. approx_solve. Qed.

Lemma get_variable_by_name_mono name :
  approx (get_variable_by_name k name) (get_variable_by_name k' name).
Proof. unfold get_variable_by_name. approx_solve. Qed.

Lemma affect_mono v c : approx (affect_to_anon_var k v c) (affect_to_anon_var k' v c).
Proof. unfold affect_to_anon_var. approx_solve. Qed.
#[local] Hint Resolve affect_mono : fuel.

Lemma nasl_affect_mono l r : approx (nasl_affect k l r) (nasl_affect k' l r).
Proof. unfold nasl_affect. approx_solve. Qed.

Lemma create_anon_var_mono c : approx (create_anon_var k c) (create_anon_var k' c).
Proof. unfold create_anon_var. approx_solve. Qed.
#[local] Hint Resolve create_anon_var_mono : fuel.

Lemma add_numbered_mono c n v : approx (add_numbered_var_to_ctxt k c n v) (add_numbered_var_to_ctxt k' c n v).
Proof. unfold add_numbered_var_to_ctxt. approx_solve. Qed.

Lemma add_named_mono c n v : approx (add_named_var_to_ctxt k c n v) (add_named_var_to_ctxt k' c n v).
Proof. unfold add_named_var_to_ctxt. approx_solve. Qed.
#[local] Hint Resolve add_named_mono : fuel.

Lemma decl_variables_mono c v : approx (decl_variables k c v) (decl_variables k' c v).
Proof. revert c. induction v; intros; simpl; approx_solve. Qed.
#[local] Hint Resolve decl_variables_mono : fuel.

Lemma decl_local_mono v : approx (decl_local_variables k v) (decl_local_variables k' v).
Proof. unfold decl_local_variables. approx_solve. Qed.

Lemma decl_global_mono v : approx (decl_global_variables k v) (decl_global_variables k' v).
Proof.
  intros s. unfold decl_global_variables. destruct (last (st_ctxts s)) as [c|]; [|done].
  pose proof (decl_variables_mono c v (st_store s)) as H.
  destruct (decl_variables k c v (st_store s)) as [[c' s']| |]; intros ?; by rewrite ?H.
Qed.

Lemma incr_mono c p v : approx (nasl_incr_variable k c p v) (nasl_incr_variable k' c p v).
Proof. unfold nasl_incr_variable. approx_solve. Qed.

End Operations.

(** ** The interpreter *)

Section Nodes.
Context (regexec : string -> string -> Z) (builtin : string -> M state tree_cell).
Context (exec exec' : tree_cell -> M state tree_cell).
Context (Hex : forall c, approx (exec c) (exec' c)).

#[local] Hint Extern 0 (approx (exec _) _) => apply Hex : fuel.

Lemma cell2bool_mono k k' c : (k <= k')%nat -> approx (cell2bool exec k c) (cell2bool exec' k' c).
Proof.
  revert k' c. induction k as [|k IH]; intros k' c Hk; destruct k' as [|k']; try lia;
    destruct c as [| |[] ? ? ? ? ? ?]; simpl; approx_solve; apply IH; lia.
Qed.

Lemma cell2int_mono k k' c : (k <= k')%nat -> approx (cell2int exec k c) (cell2int exec' k' c).
Proof.
  revert k' c. induction k as [|k IH]; intros k' c Hk; destruct k' as [|k']; try lia;
    destruct c as [| |[] ? ? ? ? ? ?]; simpl; approx_solve; apply IH; lia.
Qed.

Lemma cell2str_mono k k' c : (k <= k')%nat -> approx (cell2str exec k c) (cell2str exec' k' c).
Proof.
  revert k' c. induction k as [|k IH]; intros k' c Hk; destruct k' as [|k']; try lia;
    destruct c as [| |[] ? ? ? ? ? ?]; simpl; approx_solve; apply IH; lia.
Qed.

Lemma cell2atom_mono k k' c : (k <= k')%nat -> approx (cell2atom exec k c) (cell2atom exec' k' c).
Proof.
  revert k' c. induction k as [|k IH]; intros k' c Hk; destruct k' as [|k']; try lia;
    simpl; approx_solve; apply IH; lia.
Qed.

Lemma for_loop_mono n n' l1 l2 l3 : (n <= n')%nat ->
  approx (for_loop exec n l1 l2 l3) (for_loop exec' n' l1 l2 l3).
Proof.
  revert n'. induction n as [|n IH]; intros n' Hn; destruct n' as [|n']; try lia; simpl; approx_solve.
  - apply cell2bool_mono. lia.
  - apply IH. lia.
Qed.

Lemma while_loop_mono n n' l0 l1 : (n <= n')%nat ->
  approx (while_loop exec n l0 l1) (while_loop exec' n' l0 l1).
Proof.
  revert n'. induction n as [|n IH]; intros n' Hn; destruct n' as [|n']; try lia; simpl; approx_solve.
  - apply cell2bool_mono. lia.
  - apply IH. lia.
Qed.

Lemma repeat_loop_mono n n' l0 l1 : (n <= n')%nat ->
  approx (repeat_loop exec n l0 l1) (repeat_loop exec' n' l0 l1).
Proof.
  revert n'. induction n as [|n IH]; intros n' Hn; destruct n' as [|n']; try lia; simpl; approx_solve.
  - apply cell2bool_mono. lia.
  - apply IH. lia.
Qed.

Lemma foreach_loop_mono n n' v l1 ai : (n <= n')%nat ->
  approx (foreach_loop exec n v l1 ai) (foreach_loop exec' n' v l1 ai).
Proof.
  revert n' ai. induction n as [|n IH]; intros n' ai Hn; destruct n' as [|n']; try lia; simpl; approx_solve.
  - apply approx_lift, nasl_affect_mono. lia.
  - apply IH. lia.
Qed.

Lemma repeated_mono n n' i m l0 : (n <= n')%nat ->
  approx (repeated exec n i m l0) (repeated exec' n' i m l0).
Proof.
  revert n' i. induction n as [|n IH]; intros n' i Hn; destruct n' as [|n']; try lia; simpl; approx_solve.
  apply IH. lia.
Qed.

Context (k k' : nat) (Hk : (k <= k')%nat).
#[local] Hint Extern 0 (_ <= _)%nat => exact Hk : fuel.
#[local] Hint Resolve cell2bool_mono cell2int_mono cell2str_mono cell2atom_mono free_array_mono
  copy_ref_array_mono get_variable_by_name_mono nasl_affect_mono add_numbered_mono add_named_mono
  decl_local_mono decl_global_mono incr_mono : fuel.

Lemma text_of_mono c : approx (text_of exec k c) (text_of exec' k' c).
Proof. unfold text_of. approx_solve. Qed.
#[local] Hint Resolve text_of_mono : fuel.

Lemma cell_cmp_mono a b : approx (cell_cmp exec k a b) (cell_cmp exec' k' a b).
Proof. unfold cell_cmp. approx_solve. Qed.
#[local] Hint Resolve cell_cmp_mono : fuel.

Lemma bind_args_mono args n c : approx (bind_args exec k args n c) (bind_args exec' k' args n c).
Proof. revert n c. induction args; intros; simpl; approx_solve. Qed.
#[local] Hint Resolve bind_args_mono : fuel.

Lemma func_call_mono f args :
  approx (nasl_func_call builtin exec k f args) (nasl_func_call builtin exec' k' f args).
Proof. unfold nasl_func_call, free_lex_ctxt. approx_solve. Qed.
#[local] Hint Resolve func_call_mono : fuel.

#[local] Hint Resolve for_loop_mono while_loop_mono repeat_loop_mono foreach_loop_mono
  repeated_mono : fuel.

Lemma operators_mono type x l0 l1 :
  approx (operators regexec exec k type x l0 l1) (operators regexec exec' k' type x l0 l1).
Proof.
  unfold operators, exec_and, exec_or, exec_not, exec_incr, exec_plus, exec_minus, exec_arith,
    exec_unary, exec_match, exec_re_match, exec_comp.
  destruct type; approx_solve.
Qed.
#[local] Hint Resolve operators_mono : fuel.

Lemma exec_node_mono st :
  approx (exec_node regexec builtin exec k st) (exec_node regexec builtin exec' k' st).
Proof.
  unfold exec_node, exec_if, exec_block, exec_foreach, exec_fun_call, exec_repeated, exec_array_el,
    exec_aff, exec_op_eq, nasl_return.
  destruct st as [| |[] ? ? ? ? ? ?]; approx_solve.
Qed.

End Nodes.

Lemma nasl_exec_approx regexec builtin n n' st :
  (n <= n')%nat -> approx (nasl_exec regexec builtin n st) (nasl_exec regexec builtin n' st).
Proof.
  revert n' st. induction n as [|n IH]; intros n' st Hn; [apply approx_no_return|].
  destruct n' as [|n']; [lia|]. simpl. unfold enter. approx_solve.
  apply exec_node_mono; [|lia]. intros c. apply IH. lia.
Qed.

(** What has a result keeps it. *)
Lemma approx_Ret {S A} (m m' : M S A) s r : approx m m' -> m s = Ret r -> m' s = Ret r.
Proof. intros H E. rewrite H; [done|by rewrite E]. Qed.

(** A result of the interpreter, and that its behaviour is not defined, does
    not depend on the fuel: whatever fuel is enough for an execution to end, all
    greater ones give the same. *)
Theorem nasl_exec_fuel regexec builtin n n' st s :
  (n <= n')%nat -> nasl_exec regexec builtin n st s <> NoReturn ->
  nasl_exec regexec builtin n' st s = nasl_exec regexec builtin n st s.
Proof. intros Hn. by apply nasl_exec_approx. Qed.

Lemma nasl_exec_fuel_witness :
  nasl_exec (fun _ _ => 1) (fun _ => mret NULL) 7
    (Cell NODE_AFF 1 (x_str None) (Cell NODE_VAR 1 (x_str (Some "x"%string)) NULL NULL NULL NULL)
       (Cell CONST_INT 0 (x_int 5) NULL NULL NULL NULL) NULL NULL)
    (mk_state empty_store [init_empty_lex_ctxt])
  = nasl_exec (fun _ _ => 1) (fun _ => mret NULL) 4
    (Cell NODE_AFF 1 (x_str None) (Cell NODE_VAR 1 (x_str (Some "x"%string)) NULL NULL NULL NULL)
       (Cell CONST_INT 0 (x_int 5) NULL NULL NULL NULL) NULL NULL)
    (mk_state empty_store [init_empty_lex_ctxt]).
Proof. apply nasl_exec_fuel; [lia|]. vm_compute. discriminate. Defined.

End NaslFuel.
