(* ===== verification/NaslProg.v ===== *)
(** * What NASL programs mean

    A reference semantics of the programs over scalar variables: values with the
    operators on them, expressions by a function ([den]), instructions by a
    big-step relation ([run]) in which [break], [continue] and [return] are ways an
    instruction ends.  [expr_cell] and [instr_cell] are the trees the grammar
    ([nasl_grammar.y]) builds.  The interpreter implements the semantics with the
    flags of its context and the variables of its store. *)

From S2P Require Import Prelude Nasl NaslVar NaslExec NaslFuel.
From stdpp Require Import base gmap sets list strings.
From Stdlib Require Import Ascii ZArith Lia.
Local Open Scope Z_scope.

Module NaslProg.
Import Nasl NaslVar NaslExec NaslFuel.

(** ** Values *)

Inductive value := V_int (z : Z) | V_str (s : string) | V_data (s : string).

Definition v_int (v : value) : Z :=
  match v with
  | V_int z => z
  | V_str s | V_data s => MInt.wrap32 (fst (CStr.strtol 0 (cstr s)))
  end.
Definition v_text (v : value) : string :=
  match v with V_int z => CStr.dec z | V_str s | V_data s => s end.
Definition v_bool (v : value) : bool :=
  match v with V_int z => negb (z =? 0) | V_str s | V_data s => negb (CStr.slen s =? 0) end.

(** The order of the bytes of two texts; a prefix comes first. *)
Fixpoint text_compare (a b : string) : comparison :=
  match a, b with
  | EmptyString, EmptyString => Eq
  | EmptyString, _ => Lt
  | _, EmptyString => Gt
  | String c a, String d b =>
      match CStr.code c ?= CStr.code d with Eq => text_compare a b | r => r end
  end.

(** Two integers are compared as such if their difference is an [int]; an integer
    and a text are compared as texts. *)
Definition v_compare (a b : value) : option comparison :=
  match a, b with
  | V_int x, V_int y =>
      if (MInt.INT_MIN <=? x - y) && (x - y <=? MInt.INT_MAX) then Some (x ?= y) else None
  | _, _ => Some (text_compare (v_text a) (v_text b))
  end.

Definition v_join (f : Z -> Z -> Z) (g : string -> string -> string) (a b : value) : value :=
  match a, b with
  | V_data _, _ | _, V_data _ => V_data (g (v_text a) (v_text b))
  | V_str _, _ | _, V_str _ => V_str (g (v_text a) (v_text b))
  | V_int x, V_int y => V_int (MInt.wrap32 (f x y))
  end.

Definition v_of_bool (b : bool) : value := V_int (if b then 1 else 0).

Definition z_arith (op : node_type) (x y : Z) : option Z :=
  let shift (z : Z) := if (0 <=? y) && (y <? 32) then Some z else None in
  let quotient (z : Z) :=
    if y =? 0 then Some 0 else if (x =? MInt.INT_MIN) && (y =? -1) then None else Some z in
  match op with
  | EXPR_MULT => Some (MInt.wrap32 (x * y))
  | EXPR_DIV => quotient (Z.quot x y)
  | EXPR_MODULO => quotient (Z.rem x y)
  | EXPR_EXPO =>
      if (MInt.INT_MIN <=? x) && (x <=? MInt.INT_MAX)
      then Some (if y <? 0 then (if x =? 1 then 1 else 0) else MInt.wrap32 (x ^ y)) else None
  | EXPR_BIT_AND => Some (Z.land x y)
  | EXPR_BIT_OR => Some (Z.lor x y)
  | EXPR_BIT_XOR => Some (Z.lxor x y)
  | EXPR_L_SHIFT => shift (MInt.wrap32 (x * 2 ^ y))
  | EXPR_R_SHIFT => shift (x / 2 ^ y)
  | EXPR_R_USHIFT => shift (MInt.wrap32 ((x mod 2 ^ 32) / 2 ^ y))
  | _ => None
  end.

(** The strict operators. *)
Definition v_binary (op : node_type) (a b : value) : option value :=
  let compared (f : comparison -> bool) := (fun c => v_of_bool (f c)) <$> v_compare a b in
  match op with
  | EXPR_PLUS => Some (v_join Z.add (fun s t => s +:+ t) a b)
  | EXPR_MINUS => Some (v_join Z.sub str_minus a b)
  | COMP_MATCH => Some (v_of_bool (str_match (v_text a) (v_text b)))
  | COMP_NOMATCH => Some (v_of_bool (negb (str_match (v_text a) (v_text b))))
  | COMP_LT => compared (fun c => match c with Lt => true | _ => false end)
  | COMP_LE => compared (fun c => match c with Gt => false | _ => true end)
  | COMP_EQ => compared (fun c => match c with Eq => true | _ => false end)
  | COMP_NE => compared (fun c => match c with Eq => false | _ => true end)
  | COMP_GT => compared (fun c => match c with Gt => true | _ => false end)
  | COMP_GE => compared (fun c => match c with Lt => false | _ => true end)
  | _ => V_int <$> z_arith op (v_int a) (v_int b)
  end.

Definition v_unary (op : node_type) (a : value) : option value :=
  match op with
  | EXPR_NOT => Some (v_of_bool (negb (v_bool a)))
  | EXPR_BIT_NOT => Some (V_int (Z.lnot (v_int a)))
  | EXPR_U_MINUS => Some (V_int (MInt.wrap32 (- v_int a)))
  | _ => None
  end.

(** ** Expressions *)

Abbreviation env := (gmap string value).

(** [l] is the line of a node. *)
Inductive expr :=
| E_const (l : Z) (v : value)
| E_var (l : Z) (x : string)
| E_unary (l : Z) (op : node_type) (a : expr)
| E_binary (l : Z) (op : node_type) (a b : expr)
| E_and (l : Z) (a b : expr)
| E_or (l : Z) (a b : expr).

Definition value_cell (l : Z) (v : value) : tree_cell :=
  match v with
  | V_int z => Cell CONST_INT l (x_int z) NULL NULL NULL NULL
  | V_str s => Cell CONST_STR l (x_str (Some s)) NULL NULL NULL NULL
  | V_data s => Cell CONST_DATA l (x_str (Some s)) NULL NULL NULL NULL
  end.

Definition node (op : node_type) (l : Z) (a b : tree_cell) : tree_cell :=
  Cell op l (x_str None) a b NULL NULL.
Definition var_cell (l : Z) (x : string) : tree_cell :=
  Cell NODE_VAR l (x_str (Some x)) NULL NULL NULL NULL.

Fixpoint expr_cell (e : expr) : tree_cell :=
  match e with
  | E_const l v => value_cell l v
  | E_var l x => var_cell l x
  | E_unary l op a => node op l (expr_cell a) NULL
  | E_binary l op a b => node op l (expr_cell a) (expr_cell b)
  | E_and l a b => node EXPR_AND l (expr_cell a) (expr_cell b)
  | E_or l a b => node EXPR_OR l (expr_cell a) (expr_cell b)
  end.

(** No value for a variable without one, and where C leaves the result open. *)
Fixpoint den (ρ : env) (e : expr) : option value :=
  match e with
  | E_const _ v => Some v
  | E_var _ x => ρ !! x
  | E_unary _ op a => v ← den ρ a; v_unary op v
  | E_binary _ op a b => v ← den ρ a; w ← den ρ b; v_binary op v w
  | E_and _ a b => v ← den ρ a; if v_bool v then w ← den ρ b; Some (v_of_bool (v_bool w)) else Some (V_int 0)
  | E_or _ a b => v ← den ρ a; if v_bool v then Some (V_int 1) else w ← den ρ b; Some (v_of_bool (v_bool w))
  end.

(** ** Instructions *)

Inductive instr :=
| I_nop
| I_aff (l l' : Z) (x : string) (e : expr)
| I_op_eq (l l' : Z) (op : node_type) (x : string) (e : expr)
| I_seq (l : Z) (i j : instr)
| I_if (l : Z) (e : expr) (i j : instr)
| I_loop (l : Z) (lp : looping)
| I_for (l : Z) (start : instr) (e : expr) (step i : instr)
| I_break (l : Z)
| I_continue (l : Z)
| I_return (l : Z) (e : expr)
with looping :=
| L_while (e : expr) (i : instr)
| L_repeat (i : instr) (e : expr)
| L_for (e : expr) (step i : instr).   (* a [for] loop after its start *)

(** The node of an assignment operator. *)
Definition op_eq_node (op : node_type) : option node_type :=
  match op with
  | EXPR_PLUS => Some NODE_PLUS_EQ
  | EXPR_MINUS => Some NODE_MINUS_EQ
  | EXPR_MULT => Some NODE_MULT_EQ
  | EXPR_DIV => Some NODE_DIV_EQ
  | EXPR_MODULO => Some NODE_MODULO_EQ
  | EXPR_L_SHIFT => Some NODE_L_SHIFT_EQ
  | EXPR_R_SHIFT => Some NODE_R_SHIFT_EQ
  | EXPR_R_USHIFT => Some NODE_R_USHIFT_EQ
  | _ => None
  end.

Fixpoint instr_cell (i : instr) : tree_cell :=
  match i with
  | I_nop => NULL
  | I_aff l l' x e => node NODE_AFF l (var_cell l' x) (expr_cell e)
  | I_op_eq l l' op x e => node (default NODE_EMPTY (op_eq_node op)) l (var_cell l' x) (expr_cell e)
  | I_seq l i j => node NODE_INSTR_L l (instr_cell i) (instr_cell j)
  | I_if l e i j => Cell NODE_IF_ELSE l (x_str None) (expr_cell e) (instr_cell i) (instr_cell j) NULL
  | I_loop l (L_while e i) => node NODE_WHILE l (expr_cell e) (instr_cell i)
  | I_loop l (L_repeat i e) => node NODE_REPEAT_UNTIL l (instr_cell i) (expr_cell e)
  | I_loop l (L_for e step i) =>
      Cell NODE_FOR l (x_str None) NULL (expr_cell e) (instr_cell step) (instr_cell i)
  | I_for l start e step i =>
      Cell NODE_FOR l (x_str None) (instr_cell start) (expr_cell e) (instr_cell step) (instr_cell i)
  | I_break l => node NODE_BREAK l NULL NULL
  | I_continue l => node NODE_CONTINUE l NULL NULL
  | I_return l e => node NODE_RETURN l (expr_cell e) NULL
  end.

(** How an instruction ends. *)
Inductive ending := Normal | Break | Continue | Return (v : value).

(** Whether a loop goes on after its block, and how the loop ends if not. *)
Definition after_block (k : ending) : option ending :=
  match k with
  | Normal | Continue => None
  | Break => Some Normal
  | Return v => Some (Return v)
  end.

Inductive run : env -> instr -> ending -> env -> Prop :=
| run_nop ρ : run ρ I_nop Normal ρ
| run_aff ρ l l' x e v :
    den ρ e = Some v -> x <> _FCT_ANON_ARGS -> run ρ (I_aff l l' x e) Normal (<[x := v]> ρ)
| run_op_eq ρ l l' op x e u v w :
    is_Some (op_eq_node op) -> ρ !! x = Some u -> den ρ e = Some v -> v_binary op u v = Some w ->
    run ρ (I_op_eq l l' op x e) Normal (<[x := w]> ρ)
| run_seq ρ l i j k ρ1 ρ2 :
    run ρ i Normal ρ1 -> run ρ1 j k ρ2 -> run ρ (I_seq l i j) k ρ2
| run_seq_end ρ l i j k ρ1 :
    run ρ i k ρ1 -> k <> Normal -> run ρ (I_seq l i j) k ρ1
| run_if ρ l e i j v k ρ1 :
    den ρ e = Some v -> run ρ (if v_bool v then i else j) k ρ1 -> run ρ (I_if l e i j) k ρ1
| run_I_loop ρ l lp k ρ1 : run_loop ρ lp k ρ1 -> run ρ (I_loop l lp) k ρ1
| run_for ρ l start e step i k ρ1 ρ2 :
    run ρ start Normal ρ1 -> run_loop ρ1 (L_for e step i) k ρ2 -> run ρ (I_for l start e step i) k ρ2
| run_break ρ l : run ρ (I_break l) Break ρ
| run_continue ρ l : run ρ (I_continue l) Continue ρ
| run_return ρ l e v : den ρ e = Some v -> run ρ (I_return l e) (Return v) ρ
with run_loop : env -> looping -> ending -> env -> Prop :=
| while_false ρ e i v : den ρ e = Some v -> v_bool v = false -> run_loop ρ (L_while e i) Normal ρ
| while_end ρ e i v k k' ρ1 :
    den ρ e = Some v -> v_bool v = true -> run ρ i k ρ1 -> after_block k = Some k' ->
    run_loop ρ (L_while e i) k' ρ1
| while_next ρ e i v k k' ρ1 ρ2 :
    den ρ e = Some v -> v_bool v = true -> run ρ i k ρ1 -> after_block k = None ->
    run_loop ρ1 (L_while e i) k' ρ2 -> run_loop ρ (L_while e i) k' ρ2
| repeat_end ρ e i k k' ρ1 :
    run ρ i k ρ1 -> after_block k = Some k' -> run_loop ρ (L_repeat i e) k' ρ1
| repeat_true ρ e i k v ρ1 :
    run ρ i k ρ1 -> after_block k = None -> den ρ1 e = Some v -> v_bool v = true ->
    run_loop ρ (L_repeat i e) Normal ρ1
| repeat_next ρ e i k v k' ρ1 ρ2 :
    run ρ i k ρ1 -> after_block k = None -> den ρ1 e = Some v -> v_bool v = false ->
    run_loop ρ1 (L_repeat i e) k' ρ2 -> run_loop ρ (L_repeat i e) k' ρ2
| for_false ρ e step i v : den ρ e = Some v -> v_bool v = false -> run_loop ρ (L_for e step i) Normal ρ
| for_end ρ e step i v k k' ρ1 :
    den ρ e = Some v -> v_bool v = true -> run ρ i k ρ1 -> after_block k = Some k' ->
    run_loop ρ (L_for e step i) k' ρ1
| for_next ρ e step i v k k' ρ1 ρ2 ρ3 :
    den ρ e = Some v -> v_bool v = true -> run ρ i k ρ1 -> after_block k = None ->
    run ρ1 step Normal ρ2 -> run_loop ρ2 (L_for e step i) k' ρ3 -> run_loop ρ (L_for e step i) k' ρ3.

Scheme run_ind' := Minimality for run Sort Prop
  with run_loop_ind' := Minimality for run_loop Sort Prop.
Combined Scheme run_mutind from run_ind', run_loop_ind'.

End NaslProg.
