(* ===== verification/NaslProgSpec.v ===== *)
(** * The NASL interpreter implements the semantics of programs

    [expr_cell] of an expression with a value executes to that value and changes
    nothing but the current line; [instr_cell] of an instruction executes as the
    big-step semantics says, with its ending in the flags of the context. *)

From S2P Require Import Prelude Nasl NaslVar NaslExec NaslFuel NaslProg.
From stdpp Require Import base gmap sets list strings.
From Stdlib Require Import Ascii ZArith Lia.
Local Open Scope Z_scope.

Module NaslProgSpec.
Import Nasl NaslVar NaslExec NaslFuel NaslProg.

(** ** Operators *)

Lemma expo_pos_spec x y : MInt.int_range x -> expo_pos x y = MInt.wrap32 (x ^ Zpos y).
Proof.
  intros Hx. induction y as [y IH|y IH|]; simpl expo_pos.
  - rewrite IH, Pos2Z.inj_xI. apply MInt.wrap32_mod.
    replace (x ^ (2 * Zpos y + 1)) with (x * x ^ Zpos y * x ^ Zpos y)
      by (rewrite Z.pow_add_r, Z.pow_1_r, Z.pow_twice_r by lia; ring).
    rewrite Z.mul_mod, MInt.wrap32_modeq, <- Z.mul_mod by lia.
    rewrite Z.mul_mod, MInt.wrap32_modeq, <- Z.mul_mod by lia.
    rewrite <- Z.mul_assoc, (Z.mul_comm (MInt.wrap32 _)), Z.mul_assoc.
    rewrite Z.mul_mod, MInt.wrap32_modeq, <- Z.mul_mod by lia. done.
  - rewrite IH, Pos2Z.inj_xO. apply MInt.wrap32_mod.
    rewrite Z.pow_twice_r, Z.mul_mod, MInt.wrap32_modeq, <- Z.mul_mod by lia. done.
  - rewrite Z.pow_1_r. symmetry. by apply MInt.wrap32_id.
Qed.

Lemma expo_spec x y : MInt.int_range x ->
  expo x y = if y <? 0 then (if x =? 1 then 1 else 0) else MInt.wrap32 (x ^ y).
Proof.
  intros Hx. destruct y as [|y|y]; simpl; [done| |done].
  by apply expo_pos_spec.
Qed.

Lemma arith_spec op x y z : z_arith op x y = Some z -> arith op x y = Ret z.
Proof.
  unfold z_arith, arith. destruct op; try discriminate; try (by intros [= ->]).
  - destruct (y =? 0); [by intros [= ->]|]. destruct (_ && _); [done|by intros [= ->]].
  - destruct (y =? 0); [by intros [= ->]|]. destruct (_ && _); [done|by intros [= ->]].
  - destruct ((MInt.INT_MIN <=? x) && _) eqn:E; [|done]. intros [= <-]. f_equal.
    apply expo_spec. unfold MInt.int_range. lia.
  - destruct ((0 <=? y) && (y <? 32)) eqn:E; [|done]. intros [= <-].
    by rewrite Z.shiftl_mul_pow2 by lia.
  - destruct ((0 <=? y) && (y <? 32)) eqn:E; [|done]. intros [= <-].
    by rewrite Z.shiftr_div_pow2 by lia.
  - destruct ((0 <=? y) && (y <? 32)) eqn:E; [|done]. intros [= <-].
    by rewrite Z.shiftr_div_pow2 by lia.
Qed.

Definition sign_of (z : Z) : comparison := z ?= 0.

Lemma slen_zero s : CStr.slen s = 0 -> s = EmptyString.
Proof. destruct s as [|c s]; [done|]. simpl. pose proof (CStr.slen_nonneg s). lia. Qed.

Lemma bytes_cmp_cons c d a b :
  bytes_cmp (String c a) (String d b)
  = if CStr.code c =? CStr.code d then bytes_cmp a b else CStr.code c - CStr.code d.
Proof.
  unfold bytes_cmp. cbn [CStr.slen].
  pose proof (CStr.slen_nonneg a). pose proof (CStr.slen_nonneg b).
  replace (Z.to_nat (Z.min (1 + CStr.slen a) (1 + CStr.slen b)))
    with (S (Z.to_nat (Z.min (CStr.slen a) (CStr.slen b)))) by lia.
  cbn [mem_cmp]. destruct (CStr.code c =? CStr.code d) eqn:E.
  - by replace (1 + CStr.slen a - (1 + CStr.slen b)) with (CStr.slen a - CStr.slen b) by lia.
  - destruct (CStr.code c - CStr.code d =? 0) eqn:E2; [lia|done].
Qed.

(** [cell_cmp] on texts: the order of the bytes. *)
Lemma bytes_cmp_spec a b : sign_of (bytes_cmp a b) = text_compare a b.
Proof.
  unfold sign_of. revert b. induction a as [|c a IH]; intros [|d b].
  - done.
  - unfold bytes_cmp. cbn. pose proof (CStr.slen_nonneg b). apply Z.compare_lt_iff.
    destruct (Z.to_nat _); cbn; lia.
  - unfold bytes_cmp. cbn. pose proof (CStr.slen_nonneg a). apply Z.compare_gt_iff.
    destruct (Z.to_nat _); cbn; lia.
  - rewrite bytes_cmp_cons. cbn [text_compare].
    destruct (CStr.code c =? CStr.code d) eqn:E.
    + apply Z.eqb_eq in E. by rewrite E, Z.compare_refl, IH.
    + rewrite <- Z.compare_sub. destruct (CStr.code c ?= CStr.code d) eqn:E2; [|done|done].
      apply Z.compare_eq in E2. lia.
Qed.

(** ** States *)

Definition at_line (l : Z) (s : state) : state :=
  mk_state (st_store s)
    (match st_ctxts s with c :: up => set_line_nb l c :: up | [] => [] end).

(** Equal but for the current line. *)
Definition same (s s' : state) : Prop := at_line 0 s = at_line 0 s'.

Lemma at_line_at_line l l' s : at_line l (at_line l' s) = at_line l s.
Proof. unfold at_line. simpl. by destruct (st_ctxts s). Qed.

Lemma same_at_line l s : same s (at_line l s).
Proof. unfold same. by rewrite at_line_at_line. Qed.

#[export] Instance same_equiv : Equivalence same.
Proof. unfold same. split; red; intros; congruence. Qed.

Definition ended (k : ending) (c : lex_ctxt) : Prop :=
  break_flag c = (match k with Break => true | _ => false end)
  /\ cont_flag c = (match k with Continue => true | _ => false end)
  /\ match k with
     | Return v => exists l, ret_val c = value_cell l v
     | _ => ret_val c = NULL
     end.

(** The ending of an instruction, as the context of the state tells it. *)
Definition signals (k : ending) (s : state) : Prop :=
  match st_ctxts s with c :: _ => ended k c | [] => False end.

Lemma same_ctxts s s' : same s s' ->
  match st_ctxts s, st_ctxts s' with
  | [], [] => True
  | c :: up, c' :: up' =>
      up = up' /\ ret_val c = ret_val c' /\ fct_ctxt c = fct_ctxt c' /\ break_flag c = break_flag c'
      /\ cont_flag c = cont_flag c' /\ ctx_vars c = ctx_vars c' /\ functions c = functions c'
  | _, _ => False
  end.
Proof.
  unfold same, at_line. intros [= _ H].
  destruct (st_ctxts s) as [|c up], (st_ctxts s') as [|c' up']; try done.
  unfold set_line_nb in H. by injection H.
Qed.

Lemma signals_same k s s' : same s s' -> signals k s -> signals k s'.
Proof.
  unfold signals. intros H%same_ctxts.
  destruct (st_ctxts s) as [|c up], (st_ctxts s') as [|c' up']; try done.
  destruct H as (_ & Hr & _ & Hb & Hc & _). unfold ended. by rewrite Hr, Hb, Hc.
Qed.

Lemma store_same s s' : same s s' -> st_store s = st_store s'.
Proof. by intros [= ? ?]. Qed.

Lemma climb_same x s s' : same s s' -> climb_ctxts x (st_ctxts s) = climb_ctxts x (st_ctxts s').
Proof.
  intros H%same_ctxts. destruct (st_ctxts s) as [|c up], (st_ctxts s') as [|c' up']; try done.
  destruct H as (-> & _ & _ & _ & _ & Hv & _). simpl. unfold find_in_ctxt. by rewrite Hv.
Qed.

(** *** Variables *)

Definition to_var (v : value) : anon_nasl_var :=
  match v with
  | V_int z => VAR2_INT z
  | V_str s => VAR2_STRING (Some s)
  | V_data s => VAR2_DATA (Some s)
  end.

(** The visible variables are those of [μ], with its values, which are not arrays;
    the current context has a table of names; the next address is not in use. *)
Record rep (μ : gmap string anon_nasl_var) (s : state) : Prop := mk_rep
  { rep_var x u : μ !! x = Some u -> exists a,
      climb_ctxts x (st_ctxts s) = Some a /\ heap (st_store s) !! a = Some u;
    rep_dom x a : climb_ctxts x (st_ctxts s) = Some a -> is_Some (μ !! x);
    rep_inj x y a : climb_ctxts x (st_ctxts s) = Some a ->
      climb_ctxts y (st_ctxts s) = Some a -> x = y;
    rep_scalar x u : μ !! x = Some u -> forall a, u <> VAR2_ARRAY a;
    rep_table : exists c up t, st_ctxts s = c :: up /\ hash_elt (ctx_vars c) = Some t
      /\ length t = VAR_NAME_HASH;
    rep_fresh a : (next (st_store s) <= a)%positive -> heap (st_store s) !! a = None }.

Definition vars (ρ : env) : gmap string anon_nasl_var := to_var <$> ρ.

Lemma vars_insert ρ x v : vars (<[x := v]> ρ) = <[x := to_var v]> (vars ρ).
Proof. apply fmap_insert. Qed.

Lemma vars_lookup ρ x v : ρ !! x = Some v -> vars ρ !! x = Some (to_var v).
Proof. unfold vars. intros H. by rewrite lookup_fmap, H. Qed.

Lemma climb_eq x l l' : ctx_vars <$> l = ctx_vars <$> l' -> climb_ctxts x l = climb_ctxts x l'.
Proof.
  revert l'. induction l as [|c l IH]; intros [|c' l']; try done. intros [= Hv Hl]. simpl.
  rewrite (IH _ Hl). unfold find_in_ctxt. by rewrite Hv.
Qed.

(** Only the store and the variables of the contexts matter. *)
Lemma rep_eq μ s s' :
  st_store s = st_store s' -> ctx_vars <$> st_ctxts s = ctx_vars <$> st_ctxts s' ->
  rep μ s -> rep μ s'.
Proof.
  intros Hst Hv [H1 H2 H3 H4 (c & up & t & Hc & Ht) H6].
  pose proof (fun x => climb_eq x _ _ Hv) as Hcl.
  split; try done.
  - intros x v. rewrite <- Hcl, <- Hst. apply H1.
  - intros x a. rewrite <- Hcl. apply H2.
  - intros x y a. rewrite <- !Hcl. apply H3.
  - rewrite Hc in Hv. destruct (st_ctxts s') as [|c' up']; [done|]. injection Hv as Hv _.
    exists c', up', t. by rewrite <- Hv.
  - by rewrite <- Hst.
Qed.

Lemma rep_same μ s s' : same s s' -> rep μ s -> rep μ s'.
Proof.
  intros Hss. apply rep_eq; [by apply store_same|].
  apply same_ctxts in Hss. destruct (st_ctxts s) as [|c up], (st_ctxts s') as [|c' up']; try done.
  destruct Hss as (-> & _ & _ & _ & _ & Hv & _). simpl. by rewrite Hv.
Qed.

Lemma hash_str2_bound n s : (0 < n)%nat -> (hash_str2 s n < n)%nat.
Proof.
  intros Hn. destruct s as [s|]; simpl; [|done].
  pose proof (Z.mod_pos_bound (hash_from 0 (cstr s)) (Z.of_nat n) ltac:(lia)). lia.
Qed.

(** A variable that is put into a context is found there, and only it is new. *)
Lemma find_in_push y x a c t :
  hash_elt (ctx_vars c) = Some t -> length t = VAR_NAME_HASH ->
  find_in_ctxt y (push_var x a c) = if decide (y = x) then Some a else find_in_ctxt y c.
Proof.
  intros Ht Hl. unfold find_in_ctxt, push_var. rewrite Ht. cbn [default ctx_vars set_ctx_vars hash_elt set_hash_elt].
  assert (hash_str (Some x) < length t)%nat by (rewrite Hl; apply hash_str2_bound; unfold VAR_NAME_HASH; lia).
  unfold push_named, bucket. destruct (decide (hash_str (Some y) = hash_str (Some x))) as [Eh|Eh].
  - rewrite Eh, list_lookup_insert_eq by done. cbn. destruct (decide (y = x)) as [->|].
    + by rewrite decide_True.
    + rewrite decide_False by congruence. done.
  - rewrite list_lookup_insert_ne by done. case_decide; [by subst|done].
Qed.

(** A variable with a new name. *)
Lemma rep_create μ s x c up :
  rep μ s -> μ !! x = None -> st_ctxts s = c :: up ->
  rep (<[x := VAR2_UNDEF]> μ)
    (mk_state (mk_store (<[next (st_store s) := VAR2_UNDEF]> (heap (st_store s)))
                 (Pos.succ (next (st_store s))) (a2s_len (st_store s)))
       (push_var x (next (st_store s)) c :: up)).
Proof.
  intros [H1 H2 H3 H4 (c' & up' & t & Hc & Ht & Hl) H6] Hx Hs.
  rewrite Hs in Hc. injection Hc as <- <-. rewrite Hs in H1, H2, H3.
  set (a0 := next (st_store s)) in *.
  assert (Hcl : forall y, climb_ctxts y (push_var x a0 c :: up)
            = if decide (y = x) then Some a0 else climb_ctxts y (c :: up)).
  { intros y. simpl. rewrite (find_in_push y x a0 c t) by done. by case_decide. }
  assert (Hfresh : forall y, climb_ctxts y (c :: up) <> Some a0).
  { intros y Hy. destruct (H2 _ _ Hy) as [u Hu]. destruct (H1 _ _ Hu) as (b & Hb & Hh).
    rewrite Hy in Hb. injection Hb as <-. by rewrite H6 in Hh by (unfold a0; lia). }
  split; cbn [st_store st_ctxts heap next].
  - intros y u. rewrite Hcl. rewrite lookup_insert_Some. intros [[<- <-]|[Hne Hu]].
    + exists a0. rewrite decide_True by done. by rewrite lookup_insert_eq.
    + destruct (H1 _ _ Hu) as (b & Hb & Hh). exists b. rewrite decide_False by done. split; [done|].
      rewrite lookup_insert_ne; [done|]. intros <-. by eapply Hfresh.
  - intros y b. rewrite Hcl. case_decide as E; [subst|intros Hb].
    + intros _. by rewrite lookup_insert_eq.
    + rewrite lookup_insert_ne by done. by eapply H2.
  - intros y z b. rewrite !Hcl. repeat case_decide; subst; try done.
    + intros [= <-] Hz. by apply Hfresh in Hz.
    + intros Hy [= <-]. by apply Hfresh in Hy.
    + apply H3.
  - intros y u. rewrite lookup_insert_Some. intros [[_ <-]|[_ Hu]]; [done|by eapply H4].
  - exists (push_var x a0 c), up, (push_named (hash_str (Some x)) (Some x, a0) t).
    split; [done|]. unfold push_var. rewrite Ht. split; [done|].
    unfold push_named. by rewrite length_insert.
  - intros b Hb. rewrite lookup_insert_ne by lia. apply H6. lia.
Qed.

(** A variable that gets a value. *)
Lemma rep_write μ s x a u :
  rep μ s -> climb_ctxts x (st_ctxts s) = Some a -> (forall arr, u <> VAR2_ARRAY arr) ->
  rep (<[x := u]> μ)
    (mk_state (mk_store (<[a := u]> (heap (st_store s))) (next (st_store s)) (a2s_len (st_store s)))
       (st_ctxts s)).
Proof.
  intros [H1 H2 H3 H4 H5 H6] Ha Hu. split; cbn [st_store st_ctxts heap next]; try done.
  - intros y w. rewrite lookup_insert_Some. intros [[<- <-]|[Hne Hy]].
    + exists a. by rewrite lookup_insert_eq.
    + destruct (H1 _ _ Hy) as (b & Hb & Hh). exists b. split; [done|].
      rewrite lookup_insert_ne; [done|]. intros <-. apply Hne. by eapply H3.
  - intros y b Hb. destruct (decide (y = x)) as [->|]; [by rewrite lookup_insert_eq|].
    rewrite lookup_insert_ne by done. by eapply H2.
  - intros y w. rewrite lookup_insert_Some. intros [[_ <-]|[_ Hy]]; [done|by eapply H4].
  - intros b Hb. rewrite lookup_insert_ne; [by apply H6|]. intros <-.
    destruct (H2 _ _ Ha) as [w Hw]. destruct (H1 _ _ Hw) as (b & Hb' & Hh).
    rewrite Ha in Hb'. injection Hb' as <-. by rewrite H6 in Hh.
Qed.

(** ** Expressions *)

(** What the execution of an expression gives: a value, or a variable that has it. *)
Inductive is_result (s : state) (v : value) : tree_cell -> Prop :=
| result_value l : is_result s v (value_cell l v)
| result_var l a : heap (st_store s) !! a = Some (to_var v) ->
    is_result s v (Cell REF_VAR l (x_var (Some a)) NULL NULL NULL NULL).

Ltac step H := rewrite (bind_step _ _ _ _ _ H); cbv beta.

(** Conversions agree on what the atom of a cell is. *)
Lemma conversions exec k c s l v s' :
  cell2atom exec k c s = Ret (value_cell l v, s') ->
  cell2int exec k c s = Ret (v_int v, s')
  /\ cell2bool exec k c s = Ret (v_bool v, s')
  /\ cell2str exec k c s = Ret (Some (v_text v), s').
Proof.
  revert c s. induction k as [|k IH]; intros c s.
  - intros H. destruct c as [| |[] ? ? ? ? ? ?]; simpl in H; try discriminate H; injection H as ? ?; subst;
      destruct v; simplify_eq/=; done.
  - destruct (nasl_is_leaf c) eqn:Hl.
    + cbn [cell2atom]. rewrite Hl. intros [= -> ->]. by destruct v.
    + cbn [cell2atom]. rewrite Hl. intros (c2 & s2 & He & H)%bind_Ret.
      specialize (IH _ _ H) as (I1 & I2 & I3).
      destruct c as [| |[] ? ? ? ? ? ?]; try discriminate Hl; cbn [cell2int cell2bool cell2str];
        rewrite !(bind_step _ _ _ _ _ He); (split; [done|split; [done|]]);
        by rewrite (bind_step _ _ _ _ _ I3).
Qed.

Section Operators.
Context (regexec : string -> string -> Z) (exec : tree_cell -> M state tree_cell) (k : nat).

Lemma value_int l v s : cell2int exec k (value_cell l v) s = Ret (v_int v, s).
Proof. by destruct v, k. Qed.

Lemma value_text l v s : text_of exec k (value_cell l v) s = Ret (v_text v, s).
Proof. by destruct v, k. Qed.

Lemma v_compare_texts va vb c :
  is_int (cell_type (value_cell 0 va)) && is_int (cell_type (value_cell 0 vb)) = false ->
  v_compare va vb = Some c -> text_compare (v_text va) (v_text vb) = c.
Proof. intros Hi Hc. destruct va, vb; try discriminate Hi; by injection Hc as <-. Qed.

Lemma cell_cmp_spec a b s la lb va vb s1 s2 c :
  cell2atom exec k a s = Ret (value_cell la va, s1) ->
  cell2atom exec k b s1 = Ret (value_cell lb vb, s2) ->
  v_compare va vb = Some c ->
  exists f, cell_cmp exec k a b s = Ret (f, s2) /\ sign_of f = c.
Proof.
  intros Ha Hb Hc. unfold cell_cmp. step Ha. step Hb.
  destruct (is_int (cell_type (value_cell la va)) && is_int (cell_type (value_cell lb vb))) eqn:Hi.
  - destruct va as [x| |], vb as [y| |]; try discriminate Hi. cbn.
    step (value_int la (V_int x) s2). step (value_int lb (V_int y) s2). eexists; split; [done|].
    cbn in Hc. destruct (_ && _) eqn:E in Hc; [|done]. injection Hc as <-. cbn.
    rewrite MInt.wrap32_id by (unfold MInt.int_range; lia). symmetry. apply Z.compare_sub.
  - assert (compare_as (cell_type (value_cell la va)) (cell_type (value_cell lb vb)) = as_string) as ->
      by (by destruct va, vb).
    step (value_text la va s2). step (value_text lb vb s2). eexists; split; [done|].
    rewrite bytes_cmp_spec. apply v_compare_texts; [by destruct va, vb|done].
Qed.

Lemma binary_spec op x a b s la lb va vb s1 s2 w :
  cell2atom exec k a s = Ret (value_cell la va, s1) ->
  cell2atom exec k b s1 = Ret (value_cell lb vb, s2) ->
  v_binary op va vb = Some w ->
  operators regexec exec k op x a b s = Ret (value_cell 0 w, s2).
Proof.
  intros Ha Hb Hw.
  pose proof (conversions _ _ _ _ _ _ _ Ha) as (Ia & _). pose proof (conversions _ _ _ _ _ _ _ Hb) as (Ib & _).
  assert (Harith : V_int <$> z_arith op (v_int va) (v_int vb) = Some w ->
            exec_arith exec k op a b s = Ret (value_cell 0 w, s2)).
  { intros H. destruct (z_arith op _ _) as [z|] eqn:Ez; [|done]. injection H as <-.
    unfold exec_arith. step Ia. step Ib. apply arith_spec in Ez.
    unfold of_outcome, mbind, M_bind. by rewrite Ez. }
  assert (Hcomp : forall f g, (fun c => v_of_bool (f c)) <$> v_compare va vb = Some w ->
            (forall z, g z = f (sign_of z)) -> exec_comp exec k g a b s = Ret (value_cell 0 w, s2)).
  { intros f g H Hg. destruct (v_compare va vb) as [c|] eqn:Ec; [|done]. injection H as <-.
    destruct (cell_cmp_spec _ _ _ _ _ _ _ _ _ _ Ha Hb Ec) as (z & Hz & <-).
    unfold exec_comp. step Hz. by rewrite Hg. }
  assert (Hmatch : forall p, exec_match exec k p a b s
            = Ret (value_cell 0 (v_of_bool (Bool.eqb p (str_match (v_text va) (v_text vb)))), s2)).
  { intros p. unfold exec_match. step Ha. step Hb.
    step (value_text la va s2). step (value_text lb vb s2). done. }
  assert (Htext : forall f s3, (s1 ← text_of exec k (value_cell la va);
              s2 ← text_of exec k (value_cell lb vb); mret (f s1 s2)) s3
            = Ret (f (v_text va) (v_text vb), s3) :> outcome (tree_cell * state)).
  { intros f s3. step (value_text la va s3). by step (value_text lb vb s3). }
  destruct op; try discriminate Hw; cbn [operators v_binary] in *; auto.
  - injection Hw as <-. unfold exec_plus. step Ha. step Hb.
    destruct va as [x1| |], vb as [x2| |]; cbn -[text_of cell2int]; try apply Htext.
    pose proof (value_int lb (V_int x2) s2) as I2. cbn [value_cell v_int] in I2.
    rewrite bind_ret. by step I2.
  - injection Hw as <-. unfold exec_minus. step Ha. step Hb.
    destruct va as [x1| |], vb as [x2| |]; cbn -[text_of cell2int str_minus]; try apply Htext.
    pose proof (value_int la (V_int x1) s2) as I1. pose proof (value_int lb (V_int x2) s2) as I2.
    cbn [value_cell v_int] in I1, I2. step I1. by step I2.
  - injection Hw as <-. by rewrite Hmatch; destruct (str_match _ _).
  - injection Hw as <-. by rewrite Hmatch; destruct (str_match _ _).
  - apply (Hcomp _ _ Hw). intros z. unfold sign_of, Z.ltb. by destruct (z ?= 0).
  - apply (Hcomp _ _ Hw). intros z. unfold sign_of, Z.leb. by destruct (z ?= 0).
  - apply (Hcomp _ _ Hw). intros z. unfold sign_of. destruct (Z.compare_spec z 0); lia.
  - apply (Hcomp _ _ Hw). intros z. unfold sign_of. destruct (Z.compare_spec z 0); lia.
  - apply (Hcomp _ _ Hw). intros z. unfold sign_of. destruct (Z.compare_spec z 0); lia.
  - apply (Hcomp _ _ Hw). intros z. unfold sign_of. destruct (Z.compare_spec z 0); lia.
Qed.

Lemma unary_spec op x a s la va s1 w :
  cell2atom exec k a s = Ret (value_cell la va, s1) -> v_unary op va = Some w ->
  operators regexec exec k op x a NULL s = Ret (value_cell 0 w, s1).
Proof.
  intros Ha Hw. pose proof (conversions _ _ _ _ _ _ _ Ha) as (Ia & Ib & _).
  destruct op; try discriminate Hw; injection Hw as <-; cbn [operators].
  - unfold exec_not. by step Ib.
  - unfold exec_unary. by step Ia.
  - unfold exec_unary. by step Ia.
Qed.

End Operators.

Section Programs.
Context (regexec : string -> string -> Z) (builtin : string -> M state tree_cell).

Abbreviation E := (nasl_exec regexec builtin).

Lemma E_mono n n' c s r : (n <= n')%nat -> E n c s = Ret r -> E n' c s = Ret r.
Proof. intros. eapply approx_Ret; [by apply nasl_exec_approx|done]. Qed.

(** A cell is executed when nothing is pending. *)
Lemma E_step n ty l x a b c d s : signals Normal s ->
  E (S n) (Cell ty l x a b c d) s
  = exec_node regexec builtin (E n) n (Cell ty l x a b c d) (at_line l s).
Proof.
  unfold signals, at_line. destruct (st_ctxts s) as [|ct up] eqn:Hs; [done|].
  intros (Hb & Hc & Hr). cbn [nasl_exec]. unfold enter, mbind, M_bind, update_lexic, lexic. 
  rewrite Hs. cbn -[exec_node]. by rewrite Hb, Hc, Hr.
Qed.

Lemma E_leaf n l v s : signals Normal s -> E (S n) (value_cell l v) s = Ret (value_cell l v, at_line l s).
Proof. intros H. destruct v; cbn [value_cell]; by rewrite E_step. Qed.

Lemma E_read n l a v s : signals Normal s -> heap (st_store s) !! a = Some (to_var v) ->
  E (S n) (Cell REF_VAR l (x_var (Some a)) NULL NULL NULL NULL) s = Ret (value_cell l v, at_line l s).
Proof.
  intros H Ha. rewrite E_step by done. cbn [exec_node]. unfold lift, at_line. simpl.
  unfold mbind, M_bind, mret, M_ret, load. rewrite Ha. by destruct v.
Qed.

(** The atom of what an execution gives. *)
Lemma atom_of_result n k c v s : signals Normal s -> is_result s v c ->
  exists l s', cell2atom (E (S n)) (S k) c s = Ret (value_cell l v, s') /\ same s s'.
Proof.
  intros H [l|l a Ha].
  - exists l, s. split; [|done]. by destruct v.
  - exists l, (at_line l s). split; [|apply same_at_line].
    cbn [cell2atom nasl_is_leaf]. step (E_read n l a v s H Ha).
    destruct v, k; done.
Qed.

Definition executes (m : nat) (c : tree_cell) (s : state) (v : value) : Prop :=
  exists r s', E m c s = Ret (r, s') /\ is_result s' v r /\ same s s'.

Lemma executes_mono m m' c s v : (m <= m')%nat -> executes m c s v -> executes m' c s v.
Proof. intros Hm (r & s' & H & ?). exists r, s'. split; [by eapply E_mono|done]. Qed.

Lemma atom_of_executes n c v s : signals Normal s -> executes n c s v -> c <> NULL -> (2 <= n)%nat ->
  exists l s', cell2atom (E n) n c s = Ret (value_cell l v, s') /\ same s s'.
Proof.
  intros Hs (r & s' & He & Hr & Hss) Hc Hn. destruct n as [|[|n]]; try lia.
  assert (Hs' : signals Normal s') by (by eapply signals_same).
  destruct (nasl_is_leaf c) eqn:Hl.
  - assert (r = c /\ s' = s \/ exists l, r = c /\ s' = at_line l s) as Hx.
    { destruct c as [| |[] l ? ? ? ? ?]; try discriminate Hl; try done;
        try (rewrite E_step in He by done; injection He as <- <-; eauto). }
    assert (r = c) as -> by (destruct Hx as [[? ?]|(? & ? & ?)]; done).
    inversion Hr as [l Hv|l a ? Hv]; [|by rewrite <- Hv in Hl].
    exists l, s. split; [|done]. by destruct v.
  - destruct (atom_of_result (S n) n r v s' Hs' Hr) as (l & s2 & H2 & Hs2).
    exists l, s2. split; [|by transitivity s']. cbn [cell2atom]. rewrite Hl. by step He.
Qed.

(** [NODE_VAR]: the variable, which is created when there is none. *)
Lemma exec_var μ n l x s : rep μ s -> signals Normal s -> x <> _FCT_ANON_ARGS ->
  exists a s', E (S n) (var_cell l x) s = Ret (var2cell (Some a), s')
    /\ climb_ctxts x (st_ctxts s') = Some a /\ signals Normal s'
    /\ match μ !! x with
       | Some u => same s s' /\ heap (st_store s') !! a = Some u
       | None => rep (<[x := VAR2_UNDEF]> μ) s'
       end.
Proof.
  intros Hrep Hs Hx. unfold var_cell. rewrite E_step by done. cbn [exec_node cell_name].
  pose proof (same_at_line l s) as Hss.
  assert (Hrep' : rep μ (at_line l s)) by (by eapply rep_same).
  assert (Hs' : signals Normal (at_line l s)) by (by eapply signals_same).
  set (s1 := at_line l s) in *. clearbody s1.
  cbn [get_variable_by_name]. rewrite decide_False by done.
  unfold get_var_ref_by_name, mbind, M_bind.
  destruct (climb_ctxts x (st_ctxts s1)) as [a|] eqn:Ha.
  - destruct (rep_dom _ _ Hrep' _ _ Ha) as [u Hu].
    destruct (rep_var _ _ Hrep' _ _ Hu) as (b & Hb & Hh). rewrite Ha in Hb. injection Hb as <-.
    exists a, s1. rewrite Hu. done.
  - assert (μ !! x = None) as Hu.
    { destruct (μ !! x) as [u|] eqn:Hu; [|done]. by destruct (rep_var _ _ Hrep' _ _ Hu) as (b & Hb & _);
        rewrite Ha in Hb. }
    rewrite Hu. destruct (rep_table _ _ Hrep') as (c & up & t & Hc & Ht & Hl).
    pose proof (rep_create _ _ _ _ _ Hrep' Hu Hc) as Hnew.
    unfold lift, alloc, update_lexic, mret, M_ret. cbn [st_ctxts]. rewrite Hc.
    eexists _, _. split; [done|]. split; [|split; [|done]].
    + cbn [st_ctxts climb_ctxts]. by rewrite (find_in_push _ _ _ _ t), decide_True.
    + unfold signals in Hs' |- *. rewrite Hc in Hs'. done.
Qed.

Fixpoint depth (e : expr) : nat :=
  match e with
  | E_const _ _ | E_var _ _ => 2
  | E_unary _ _ a => S (depth a)
  | E_binary _ _ a b | E_and _ a b | E_or _ a b => S (Nat.max (depth a) (depth b))
  end.

Lemma depth_2 e : (2 <= depth e)%nat.
Proof. induction e; simpl; lia. Qed.

Lemma expr_cell_nonnull e : expr_cell e <> NULL.
Proof. destruct e as [? []| | | | |]; done. Qed.

Section Env.
Context (ρ : env) (μ : gmap string anon_nasl_var).
Context (Hρ : vars ρ ⊆ μ) (Hargs : ρ !! _FCT_ANON_ARGS = None).

(** The atom of an operand. *)
Lemma operand n e s v :
  rep μ s -> signals Normal s -> (depth e <= n)%nat -> executes (depth e) (expr_cell e) s v ->
  exists l s', cell2atom (E n) n (expr_cell e) s = Ret (value_cell l v, s') /\ same s s'
    /\ rep μ s' /\ signals Normal s'.
Proof.
  intros Hrep Hs Hn He. pose proof (depth_2 e).
  destruct (atom_of_executes n (expr_cell e) v s) as (l & s' & ? & ?);
    [done|by eapply executes_mono|apply expr_cell_nonnull|lia|].
  exists l, s'. split; [done|]. split; [done|]. split; [by eapply rep_same|by eapply signals_same].
Qed.

Lemma expr_executes e : forall v s, den ρ e = Some v -> rep μ s -> signals Normal s ->
  executes (depth e) (expr_cell e) s v.
Proof.
  assert (Hnode : forall op n l a b w s, signals Normal s ->
            (forall s1, same s s1 -> exists s2, exec_node regexec builtin (E n) n (node op l a b) s1
               = Ret (value_cell 0 w, s2) /\ same s1 s2) ->
            executes (S n) (node op l a b) s w).
  { intros op n l a b w s Hs H. destruct (H (at_line l s) (same_at_line l s)) as (s2 & H2 & Hss).
    exists (value_cell 0 w), s2. unfold node. rewrite E_step by done. split; [done|].
    split; [constructor|]. etransitivity; [apply (same_at_line l)|done]. }
  induction e as [l v'|l x|l op a IHa|l op a IHa b IHb|l a IHa b IHb|l a IHa b IHb];
    intros v s Hv Hrep Hs; cbn [den expr_cell depth] in *.
  - injection Hv as ->. exists (value_cell l v), (at_line l s).
    rewrite E_leaf by done. split; [done|]. split; [constructor|apply same_at_line].
  - assert (x <> _FCT_ANON_ARGS) by congruence.
    destruct (exec_var μ 1 l x s) as (a & s' & He & _ & _ & H'); [done..|].
    rewrite (lookup_weaken _ _ _ _ (vars_lookup _ _ _ Hv) Hρ) in H'. destruct H' as [Hss Hh].
    exists (var2cell (Some a)), s'. split; [done|]. split; [by constructor|done].
  - apply bind_Some in Hv as (va & Ha & Hv). apply Hnode; [done|]. intros s1 Hs1.
    destruct (operand (depth a) a s1 va) as (la & s2 & H2 & Hss2 & _);
      [by eapply rep_same|by eapply signals_same|done| |].
    { apply IHa; [done|by eapply rep_same|by eapply signals_same]. }
    exists s2. split; [|done]. rewrite <- (unary_spec regexec _ _ op (x_str None) _ _ _ _ _ _ H2 Hv).
    by destruct op; try discriminate Hv.
  - apply bind_Some in Hv as (va & Ha & Hv). apply bind_Some in Hv as (vb & Hb & Hv).
    apply Hnode; [done|]. intros s1 Hs1. set (n := Nat.max (depth a) (depth b)).
    destruct (operand n a s1 va) as (la & s2 & H2 & Hss2 & Hr2 & Hq2);
      [by eapply rep_same|by eapply signals_same|lia| |].
    { apply IHa; [done|by eapply rep_same|by eapply signals_same]. }
    destruct (operand n b s2 vb) as (lb & s3 & H3 & Hss3 & _); [done|done|lia|by apply IHb|].
    exists s3. split; [|by transitivity s2].
    rewrite <- (binary_spec regexec _ _ op (x_str None) _ _ _ _ _ _ _ _ _ _ H2 H3 Hv).
    by destruct op; try discriminate Hv.
  - apply bind_Some in Hv as (va & Ha & Hv). apply Hnode; [done|]. intros s1 Hs1.
    set (n := Nat.max (depth a) (depth b)).
    destruct (operand n a s1 va) as (la & s2 & H2 & Hss2 & Hr2 & Hq2);
      [by eapply rep_same|by eapply signals_same|lia| |].
    { apply IHa; [done|by eapply rep_same|by eapply signals_same]. }
    apply conversions in H2 as (_ & H2 & _). cbn [exec_node node operators]. unfold exec_and. step H2.
    destruct (v_bool va).
    + apply bind_Some in Hv as (vb & Hb & [= <-]).
      destruct (operand n b s2 vb) as (lb & s3 & H3 & Hss3 & _); [done|done|lia|by apply IHb|].
      apply conversions in H3 as (_ & H3 & _). step H3. exists s3. split; [done|by transitivity s2].
    + injection Hv as <-. by exists s2.
  - apply bind_Some in Hv as (va & Ha & Hv). apply Hnode; [done|]. intros s1 Hs1.
    set (n := Nat.max (depth a) (depth b)).
    destruct (operand n a s1 va) as (la & s2 & H2 & Hss2 & Hr2 & Hq2);
      [by eapply rep_same|by eapply signals_same|lia| |].
    { apply IHa; [done|by eapply rep_same|by eapply signals_same]. }
    apply conversions in H2 as (_ & H2 & _). cbn [exec_node node operators]. unfold exec_or. step H2.
    destruct (v_bool va).
    + injection Hv as <-. by exists s2.
    + apply bind_Some in Hv as (vb & Hb & [= <-]).
      destruct (operand n b s2 vb) as (lb & s3 & H3 & Hss3 & _); [done|done|lia|by apply IHb|].
      apply conversions in H3 as (_ & H3 & _). step H3. exists s3. split; [done|by transitivity s2].
Qed.

End Env.

(** ** Instructions *)

Lemma E_null n s : signals Normal s -> E (S n) NULL s = Ret (NULL, s).
Proof.
  unfold signals. destruct (st_ctxts s) as [|ct up] eqn:Hs; [done|].
  intros (Hb & Hc & Hr). cbn [nasl_exec]. unfold enter, mbind, M_bind, mret, M_ret, lexic.
  rewrite Hs. by rewrite Hb, Hc, Hr.
Qed.

(** While a [return] is pending nothing is executed. *)
Lemma E_pending n c v s : signals (Return v) s -> c <> FAKE_CELL ->
  exists l s', E (S n) c s = Ret (value_cell l v, s') /\ same s s'.
Proof.
  intros H Hc. pose proof H as H'. unfold signals in H.
  destruct (st_ctxts s) as [|ct up] eqn:Hs; [done|]. destruct H as (Hb & Hcf & l & Hr).
  assert (Hn : is_null (value_cell l v) = false) by (by destruct v).
  exists l. cbn [nasl_exec]. destruct c as [| |ty li x a b d e]; [|done|].
  - exists s. split; [|done]. unfold enter, mbind, M_bind, mret, M_ret, lexic. rewrite Hs, Hr. by rewrite Hn.
  - exists (at_line li s). split; [|apply same_at_line].
    unfold enter, mbind, M_bind, mret, M_ret, update_lexic, lexic, at_line. rewrite Hs.
    cbn [st_ctxts ret_val set_line_nb]. by rewrite Hr, Hn.
Qed.

Lemma instr_cell_real i : instr_cell i <> FAKE_CELL.
Proof. destruct i as [| | | | |? []| | | |]; done. Qed.

Definition loop_exec (n k : nat) (lp : looping) : M state tree_cell :=
  match lp with
  | L_while e i => while_loop (E n) k (expr_cell e) (instr_cell i)
  | L_repeat i e => repeat_loop (E n) k (instr_cell i) (expr_cell e)
  | L_for e step i => for_loop (E n) k (expr_cell e) (instr_cell step) (instr_cell i)
  end.

Lemma loop_exec_mono n n' k k' lp s r : (n <= n')%nat -> (k <= k')%nat ->
  loop_exec n k lp s = Ret r -> loop_exec n' k' lp s = Ret r.
Proof.
  intros Hn Hk. apply approx_Ret. pose proof (fun c => nasl_exec_approx regexec builtin n n' c Hn).
  destruct lp; [by apply while_loop_mono|by apply repeat_loop_mono|by apply for_loop_mono].
Qed.

(** The condition of a loop or of an [if]. *)
Lemma condition ρ e v s : ρ !! _FCT_ANON_ARGS = None ->
  den ρ e = Some v -> rep (vars ρ) s -> signals Normal s ->
  exists r s1 s2, (forall n, (depth e <= n)%nat -> E n (expr_cell e) s = Ret (r, s1)) /\ is_null r = false
    /\ (forall n k, (depth e <= n)%nat -> (1 <= k)%nat -> cell2bool (E n) k r s1 = Ret (v_bool v, s2))
    /\ rep (vars ρ) s2 /\ signals Normal s2.
Proof.
  intros Ha Hv Hrep Hs. pose proof (depth_2 e) as Hd.
  destruct (expr_executes ρ (vars ρ) ltac:(done) Ha e v s Hv Hrep Hs) as (r & s1 & He & Hr & Hss).
  assert (exists l s2, cell2atom (E (depth e)) 1 r s1 = Ret (value_cell l v, s2) /\ same s1 s2)
    as (l & s2 & H2 & Hss2).
  { destruct (depth e) as [|d]; [lia|]. apply atom_of_result; [by eapply signals_same|done]. }
  apply conversions in H2 as (_ & H2 & _).
  exists r, s1, s2. split_and!.
  - intros n Hn. by eapply E_mono.
  - by inversion Hr; [destruct v|].
  - intros n k Hn Hk. eapply approx_Ret; [|done].
    apply cell2bool_mono; [|done]. intros c. by apply nasl_exec_approx.
  - eapply rep_same; [|done]. by transitivity s1.
  - eapply signals_same; [|done]. by transitivity s1.
Qed.

(** After the block of a loop. *)
Lemma loop_continues_spec μ k s : rep μ s -> signals k s ->
  exists s', loop_continues s = Ret (match k with Break => false | _ => true end, s') /\ rep μ s'
    /\ signals (match k with Return v => Return v | _ => Normal end) s'.
Proof.
  intros Hrep Hs. unfold signals in Hs. destruct (st_ctxts s) as [|c up] eqn:Hc; [done|].
  destruct Hs as (Hb & Hcf & Hr).
  unfold loop_continues, mbind, M_bind, lexic, update_lexic. rewrite Hc, Hb.
  destruct k; rewrite Hc; eexists; (split; [done|]);
    (split; [apply (rep_eq _ s); [done|by rewrite Hc|done]|done]).
Qed.

(** Assignment to a scalar variable. *)
Lemma affect_spec k μ x a u r v s :
  rep μ s -> signals Normal s -> climb_ctxts x (st_ctxts s) = Some a ->
  heap (st_store s) !! a = Some u -> (forall arr, u <> VAR2_ARRAY arr) -> is_result s v r ->
  exists s', lift (nasl_affect k (var2cell (Some a)) r) s = Ret (FAKE_CELL, s')
    /\ rep (<[x := to_var v]> μ) s' /\ signals Normal s'.
Proof.
  intros Hrep Hs Hcl Hh Hu Hr.
  assert (Hclear : forall st, clear_value k u st = Ret (tt, st)) by (by destruct u; naive_solver).
  destruct s as [[h nx al] cs]. cbn [st_store st_ctxts heap next a2s_len] in *.
  assert (nasl_affect k (var2cell (Some a)) r (mk_store h nx al)
          = Ret (FAKE_CELL, mk_store (<[a := to_var v]> h) nx al)) as Haff.
  { set (st := mk_store h nx al). assert (Hl : load a st = Ret (u, st)) by (by apply load_Ret).
    assert (Hw : write a (to_var v) st = Ret (tt, mk_store (<[a := to_var v]> h) nx al))
      by (by apply (write_Ret _ u)).
    destruct Hr as [l|l b Hb]; cbn [st_store heap] in *.
    - destruct v; cbn [nasl_affect var2cell value_cell ref_of]; rewrite bind_ret;
        cbn [affect_to_anon_var]; step Hl; cbn [rvalue_of int_of str_of]; cbn [to_var] in *;
        unfold mbind, M_bind, mret, M_ret; rewrite Hw; by rewrite Hclear.
    - cbn [nasl_affect var2cell ref_of]. rewrite bind_ret. cbn [affect_to_anon_var]. step Hl.
      cbn [rvalue_of ref_of]. destruct (decide (b = a)) as [->|Hne].
      + rewrite Hh in Hb. injection Hb as ->. unfold mbind, M_bind, mret, M_ret. by rewrite decide_True, insert_id.
      + assert (Hl' : load b st = Ret (to_var v, st)) by (by apply load_Ret).
        unfold mbind, M_bind, mret, M_ret. rewrite decide_False, Hl' by done.
        destruct v; cbn [to_var] in *; rewrite Hw; by rewrite Hclear. }
  unfold lift. cbn [st_store]. rewrite Haff. eexists. split; [done|]. split; [|done].
  apply (rep_write _ _ _ _ _ Hrep Hcl). by destruct v.
Qed.

(** [implements i s k ρ']: with enough fuel [i] ends as [k] says with the variables [ρ']. *)
Definition ends_with (r : outcome (tree_cell * state)) (k : ending) (ρ : env) : Prop :=
  exists c s', r = Ret (c, s') /\ rep (vars ρ) s' /\ signals k s'.

Definition implements (i : instr) (s : state) (k : ending) (ρ : env) : Prop :=
  exists n, ends_with (E n (instr_cell i) s) k ρ.

Lemma implements_at i s k ρ : implements i s k ρ ->
  exists n, forall m, (n <= m)%nat -> exists c s', E m (instr_cell i) s = Ret (c, s')
    /\ rep (vars ρ) s' /\ signals k s'.
Proof.
  intros (n & c & s' & H & H'). exists n. intros m Hm. exists c, s'. split; [by eapply E_mono|done].
Qed.

Definition ready (ρ : env) (s : state) : Prop :=
  rep (vars ρ) s /\ signals Normal s /\ ρ !! _FCT_ANON_ARGS = None.

Lemma ready_line l ρ s : ready ρ s -> ready ρ (at_line l s).
Proof.
  intros (H1 & H2 & H3). pose proof (same_at_line l s).
  split; [by eapply rep_same|split; [by eapply signals_same|done]].
Qed.

Lemma aff_implements ρ l l' x e v s :
  den ρ e = Some v -> x <> _FCT_ANON_ARGS -> ready ρ s ->
  implements (I_aff l l' x e) s Normal (<[x := v]> ρ).
Proof.
  intros Hv Hx Hrd. pose proof (depth_2 e) as Hd. exists (S (depth e)).
  destruct (ready_line l _ _ Hrd) as (Hrep & Hs & Ha). cbn [instr_cell]. unfold node.
  rewrite E_step by apply Hrd. cbn [exec_node]. unfold exec_aff.
  set (s0 := at_line l s) in *. clearbody s0.
  assert (exists a u s1, E (depth e) (var_cell l' x) s0 = Ret (var2cell (Some a), s1)
    /\ climb_ctxts x (st_ctxts s1) = Some a /\ heap (st_store s1) !! a = Some u
    /\ (forall arr, u <> VAR2_ARRAY arr) /\ signals Normal s1
    /\ exists μ, vars ρ ⊆ μ /\ rep μ s1 /\ <[x := to_var v]> μ = vars (<[x := v]> ρ))
    as (a & u & s1 & He1 & Hcl & Hh & Hu & Hs1 & μ & Hsub & Hrep1 & Hμ).
  { destruct (depth e) as [|d]; [lia|].
    destruct (exec_var (vars ρ) d l' x s0) as (a & s1 & He & Hcl & Hs1 & H); [done..|].
    destruct (vars ρ !! x) as [u|] eqn:Hx'.
    - destruct H as [Hss Hh]. exists a, u, s1. split_and!; try done; [by eapply rep_scalar|].
      exists (vars ρ). split; [done|]. split; [by eapply rep_same|]. by rewrite vars_insert.
    - destruct (rep_var _ _ H x VAR2_UNDEF) as (a' & Hcl' & Hh); [apply lookup_insert_eq|].
      rewrite Hcl in Hcl'. injection Hcl' as <-. exists a, VAR2_UNDEF, s1. split_and!; try done.
      exists (<[x := VAR2_UNDEF]> (vars ρ)). split; [by apply insert_subseteq|]. split; [done|].
      by rewrite insert_insert_eq, vars_insert. }
  step He1.
  destruct (expr_executes ρ μ Hsub Ha e v s1 Hv Hrep1 Hs1) as (r & s2 & He2 & Hr & Hss).
  step He2.
  destruct (affect_spec (depth e) μ x a u r v s2) as (s3 & He3 & Hrep3 & Hs3); try done;
    [by eapply rep_same|by eapply signals_same|by rewrite <- (climb_same _ _ _ Hss)
    |by rewrite <- (store_same _ _ Hss)|].
  step He3. exists r, s3. rewrite <- Hμ. done.
Qed.

Lemma op_eq_implements ρ l l' op x e u v w s :
  is_Some (op_eq_node op) -> ρ !! x = Some u -> den ρ e = Some v -> v_binary op u v = Some w ->
  ready ρ s -> implements (I_op_eq l l' op x e) s Normal (<[x := w]> ρ).
Proof.
  intros Hop Hx Hv Hw Hrd. pose proof (depth_2 e) as Hd. exists (S (S (depth e))).
  destruct (ready_line l _ _ Hrd) as (Hrep & Hs & Ha). cbn [instr_cell]. unfold node.
  rewrite E_step by apply Hrd.
  assert (Hnode : forall k a b s, exec_node regexec builtin (E k) k
            (Cell (default NODE_EMPTY (op_eq_node op)) l (x_str None) a b NULL NULL) s
          = exec_op_eq (E k) k op a b s) by (destruct Hop as [? ?]; by destruct op).
  rewrite Hnode. unfold exec_op_eq. set (s0 := at_line l s) in *. clearbody s0.
  destruct (exec_var (vars ρ) (depth e) l' x s0) as (a & s1 & He1 & Hcl & Hs1 & H1); [done|done|congruence|].
  rewrite (vars_lookup _ _ _ Hx) in H1. destruct H1 as [Hss1 Hh]. step He1.
  assert (Hrep1 : rep (vars ρ) s1) by (by eapply rep_same).
  destruct (executes_mono (depth e) (S (depth e)) _ _ _ ltac:(lia)
              (expr_executes ρ (vars ρ) ltac:(done) Ha e v s1 Hv Hrep1 Hs1)) as (r & s2 & He2 & Hr & Hss2).
  step He2.
  assert (Hs2 : signals Normal s2) by (by eapply signals_same).
  assert (Hh2 : heap (st_store s2) !! a = Some (to_var u)) by (by rewrite <- (store_same _ _ Hss2)).
  assert (exists s3, E (S (depth e)) (Cell op 0 (x_str None) (var2cell (Some a)) r NULL NULL) s2
            = Ret (value_cell 0 w, s3) /\ same s2 s3) as (s3 & He3 & Hss3).
  { rewrite E_step by done. set (s2' := at_line 0 s2).
    assert (Hss2' : same s2 s2') by apply same_at_line.
    assert (signals Normal s2') by (by eapply signals_same).
    destruct (depth e) as [|d]; [lia|].
    destruct (atom_of_result d d (var2cell (Some a)) u s2') as (la & s3 & H3 & Hss3); [done|by constructor|].
    destruct (atom_of_result d d r v s3) as (lb & s4 & H4 & Hss4); [by eapply signals_same| |].
    { destruct Hr as [lr|lr b Hb]; constructor.
      by rewrite <- (store_same _ _ Hss3), <- (store_same _ _ Hss2'). }
    exists s4. split; [|by do 2 (etransitivity; [done|])].
    rewrite <- (binary_spec regexec _ _ op (x_str None) _ _ _ _ _ _ _ _ _ _ H3 H4 Hw).
    destruct Hop as [? ?]. by destruct op. }
  step He3. assert (Hss : same s1 s3) by (by transitivity s2).
  destruct (affect_spec (S (depth e)) (vars ρ) x a (to_var u) (value_cell 0 w) w s3)
    as (s4 & He4 & Hrep4 & Hs4); [by eapply rep_same|by eapply signals_same
    |by rewrite <- (climb_same _ _ _ Hss)|by rewrite <- (store_same _ _ Hss)|by destruct u|constructor|].
  step He4. exists (value_cell 0 w), s4. rewrite vars_insert. done.
Qed.

Lemma ready_same ρ s s' : same s s' -> ready ρ s -> ready ρ s'.
Proof.
  intros Hss (H1 & H2 & H3). split; [by eapply rep_same|split; [by eapply signals_same|done]].
Qed.

(** One turn of a loop: the block, then whether the loop goes on. *)
Lemma block_turn i s k ρ : implements i s k ρ -> ρ !! _FCT_ANON_ARGS = None ->
  exists n s', (forall m, (n <= m)%nat -> (E m (instr_cell i) ;; loop_continues) s
    = Ret (match k with Break => false | _ => true end, s'))
    /\ match after_block k with
       | None | Some Normal => ready ρ s'
       | Some k' => rep (vars ρ) s' /\ signals k' s'
       end.
Proof.
  intros (n & c & s1 & H1 & Hrep & Hs) Ha.
  destruct (loop_continues_spec _ _ _ Hrep Hs) as (s2 & H2 & Hrep2 & Hs2).
  exists n, s2. split; [|by destruct k]. intros m Hm. by step (E_mono _ _ _ _ _ Hm H1).
Qed.

Lemma bind_assoc {A B C} (m : M state A) (f : A -> M state B) (g : B -> M state C) s :
  ((m ≫= f) ≫= g) s = (m ≫= (fun a => f a ≫= g)) s.
Proof. unfold mbind, M_bind. by destruct (m s) as [[a s1]| |]. Qed.

Lemma turn_step {A} m i s b s' (f : bool -> M state A) :
  (E m (instr_cell i) ;; loop_continues) s = Ret (b, s') ->
  (E m (instr_cell i) ;; go ← loop_continues; f go) s = f b s'.
Proof.
  intros H. transitivity (((E m (instr_cell i);; loop_continues) ≫= f) s); [|by step H].
  symmetry. apply (bind_assoc (E m (instr_cell i)) (fun _ => loop_continues) f s).
Qed.

(** What the head of a loop sees. *)
Lemma not_returning {A} s (a : lex_ctxt -> M state A) (b : M state A) : signals Normal s ->
  (c ← lexic; if negb (is_null (ret_val c)) then a c else b) s = b s.
Proof.
  unfold signals, mbind, M_bind, lexic. destruct (st_ctxts s); [done|]. intros (_ & _ & Hr). by rewrite Hr.
Qed.

Lemma returning s v ρ (b : lex_ctxt -> M state tree_cell) : rep (vars ρ) s -> signals (Return v) s ->
  ends_with ((c ← lexic; if negb (is_null (ret_val c)) then mret (ret_val c) else b c) s) (Return v) ρ.
Proof.
  intros Hrep Hs. pose proof Hs as Hs'. unfold signals in Hs'. unfold mbind, M_bind, lexic.
  destruct (st_ctxts s) as [|c up]; [done|]. destruct Hs' as (_ & _ & l & Hr).
  exists (value_cell l v), s. rewrite Hr. split; [by destruct v|done].
Qed.

Definition loop_implements (lp : looping) (s : state) (k : ending) (ρ : env) : Prop :=
  exists n, ends_with (loop_exec n n lp s) k ρ.

(** A loop whose block returned ends at its next turn. *)
Lemma loop_returns n k lp v ρ s : rep (vars ρ) s -> signals (Return v) s ->
  ends_with (loop_exec n (S k) lp s) (Return v) ρ.
Proof.
  intros Hrep Hs. destruct lp; cbn [loop_exec while_loop repeat_loop for_loop];
    by apply (returning s v ρ (fun _ => _)).
Qed.

(** The two outcomes of a condition at the head of a loop. *)
Lemma head_condition ρ e v s : ready ρ s -> den ρ e = Some v ->
  exists s2, ready ρ s2 /\ forall n k (x y z : M state tree_cell), (depth e <= n)%nat -> (1 <= k)%nat ->
    (ret ← E n (expr_cell e);
     if is_null ret then z
     else flag ← cell2bool (E n) k ret; if (flag : bool) then x else y) s
    = (if v_bool v then x else y) s2.
Proof.
  intros (Hrep & Hs & Ha) Hv.
  destruct (condition ρ e v s) as (r & s1 & s2 & H1 & Hnn & H2 & Hrep2 & Hs2); try done.
  exists s2. split; [done|]. intros n k x' y' z' Hn Hk. step (H1 n Hn). rewrite Hnn.
  step (H2 n k Hn Hk). by destruct (v_bool v).
Qed.

(** [turn lp s k ρ]: the loop executes its block, which ends as [k] says, and what
    follows the block, and then goes on, or ends after a break, with [ρ]. *)
Definition turn (lp : looping) (s : state) (k : ending) (ρ : env) : Prop :=
  exists n s', (forall m m', (n <= m)%nat -> (1 <= m')%nat ->
      loop_exec m (S m') lp s = (match k with Break => mret FAKE_CELL | _ => loop_exec m m' lp end) s')
    /\ match after_block k with
       | None | Some Normal => ready ρ s'
       | Some k' => rep (vars ρ) s' /\ signals k' s'
       end.

Lemma turn_end lp s k k' ρ : turn lp s k ρ -> after_block k = Some k' -> loop_implements lp s k' ρ.
Proof.
  intros (n & s' & H & Hs') Hk. rewrite Hk in Hs'. exists (S (S n)). rewrite (H _ (S n)) by lia.
  destruct k; try discriminate Hk; injection Hk as <-.
  - eexists _, _. split; [done|]. by destruct Hs' as (? & ? & _).
  - by apply loop_returns; apply Hs'.
Qed.

Lemma turn_next lp s k k' ρ ρ' : turn lp s k ρ -> after_block k = None ->
  (forall s', ready ρ s' -> loop_implements lp s' k' ρ' /\ ρ' !! _FCT_ANON_ARGS = None) ->
  loop_implements lp s k' ρ' /\ ρ' !! _FCT_ANON_ARGS = None.
Proof.
  intros (n & s' & H & Hs') Hk IH. rewrite Hk in Hs'.
  destruct (IH s' Hs') as [(n2 & c & s2 & H2 & Hend) Ha]. split; [|done].
  exists (S (S (Nat.max n n2))). exists c, s2. split; [|done]. rewrite (H _ (S (Nat.max n n2))) by lia.
  destruct k; try discriminate Hk; by apply (loop_exec_mono n2 _ n2 _); [lia..|].
Qed.

(** *** [while] *)

Lemma while_false_implements ρ e i v s : ready ρ s -> den ρ e = Some v -> v_bool v = false ->
  loop_implements (L_while e i) s Normal ρ.
Proof.
  intros Hrd Hv Hb. destruct (head_condition ρ e v s Hrd Hv) as (s2 & Hrd2 & H).
  exists (S (S (depth e))), FAKE_CELL, s2. split; [|by destruct Hrd2 as (? & ? & _)].
  cbn [loop_exec while_loop]. rewrite (not_returning s (fun c => mret (ret_val c))), H, Hb by (apply Hrd || lia). done.
Qed.

Lemma while_turn ρ e i v s k ρ1 : ready ρ s -> den ρ e = Some v -> v_bool v = true ->
  (forall s, ready ρ s -> implements i s k ρ1 /\ ρ1 !! _FCT_ANON_ARGS = None) ->
  turn (L_while e i) s k ρ1.
Proof.
  intros Hrd Hv Hb Hi. destruct (head_condition ρ e v s Hrd Hv) as (s2 & Hrd2 & H).
  destruct (Hi s2 Hrd2) as [Hi2 Ha]. destruct (block_turn i s2 k ρ1 Hi2 Ha) as (n & s' & H' & Hs').
  exists (Nat.max n (depth e)), s'. split; [|done]. intros m m' Hm Hm'.
  cbn [loop_exec while_loop]. rewrite (not_returning s (fun c => mret (ret_val c))), H, Hb by (apply Hrd || lia).
  rewrite (turn_step _ _ _ _ _ _ (H' m ltac:(lia))). by destruct k.
Qed.

(** *** [repeat] *)

Lemma repeat_block e i s m m' n s1 k : signals Normal s ->
  (forall m, (n <= m)%nat -> (E m (instr_cell i);; loop_continues) s
     = Ret (match k with Break => false | _ => true end, s1)) -> (n <= m)%nat ->
  loop_exec m (S m') (L_repeat i e) s
  = (match k with
     | Break => mret FAKE_CELL
     | _ => ret ← E m (expr_cell e);
            flag ← cell2bool (E m) m' ret;
            if (flag : bool) then mret FAKE_CELL
            else repeat_loop (E m) m' (instr_cell i) (expr_cell e)
     end) s1.
Proof.
  intros Hs H Hm.
  cbn [loop_exec repeat_loop]. rewrite (not_returning s (fun c => mret (ret_val c))) by done.
  rewrite (turn_step _ _ _ _ _ _ (H m Hm)). by destruct k.
Qed.

(** The condition after the block. *)
Lemma repeat_condition ρ e v s : ready ρ s -> den ρ e = Some v ->
  exists s2, ready ρ s2 /\ forall n k (x y : M state tree_cell), (depth e <= n)%nat -> (1 <= k)%nat ->
    (ret ← E n (expr_cell e); flag ← cell2bool (E n) k ret; if (flag : bool) then x else y) s
    = (if v_bool v then x else y) s2.
Proof.
  intros (Hrep & Hs & Ha) Hv.
  destruct (condition ρ e v s) as (r & s1 & s2 & H1 & _ & H2 & Hrep2 & Hs2); try done.
  exists s2. split; [done|]. intros n k x y Hn Hk. step (H1 n Hn). step (H2 n k Hn Hk). by destruct (v_bool v).
Qed.

(** With a [return] pending the condition is its value. *)
Lemma repeat_returns n k e i v s ρ : rep (vars ρ) s -> signals (Return v) s ->
  ends_with ((ret ← E (S n) (expr_cell e);
    flag ← cell2bool (E (S n)) (S k) ret;
    if (flag : bool) then mret FAKE_CELL
    else repeat_loop (E (S n)) (S k) (instr_cell i) (expr_cell e)) s) (Return v) ρ.
Proof.
  intros Hrep Hs.
  destruct (E_pending n (expr_cell e) v s) as (l & s1 & H1 & Hss); [done| |].
  { by destruct e as [? []| | | | |]. }
  step H1. assert (H2 : cell2bool (E (S n)) (S k) (value_cell l v) s1 = Ret (v_bool v, s1)) by (by destruct v).
  step H2. assert (Hrep1 : rep (vars ρ) s1) by (by eapply rep_same).
  assert (Hs1 : signals (Return v) s1) by (by eapply signals_same).
  destruct (v_bool v); [by exists FAKE_CELL, s1|].
  by apply (loop_returns (S n) k (L_repeat i e)).
Qed.

Lemma repeat_end_implements ρ e i s k k' : signals Normal s -> implements i s k ρ ->
  ρ !! _FCT_ANON_ARGS = None -> after_block k = Some k' -> loop_implements (L_repeat i e) s k' ρ.
Proof.
  intros Hs Hi Ha Hk. destruct (block_turn i s k ρ Hi Ha) as (n & s1 & H & Hs1). rewrite Hk in Hs1.
  exists (S (S n)). rewrite (repeat_block e i s _ _ n s1 k) by (done || lia).
  destruct k; try discriminate Hk; injection Hk as <-.
  - eexists _, _. split; [done|]. by destruct Hs1 as (? & ? & _).
  - by apply repeat_returns; apply Hs1.
Qed.

Lemma repeat_true_implements ρ e i s k v : signals Normal s -> implements i s k ρ ->
  ρ !! _FCT_ANON_ARGS = None -> after_block k = None -> den ρ e = Some v -> v_bool v = true ->
  loop_implements (L_repeat i e) s Normal ρ.
Proof.
  intros Hs Hi Ha Hk Hv Hb. destruct (block_turn i s k ρ Hi Ha) as (n & s1 & H & Hs1). rewrite Hk in Hs1.
  destruct (repeat_condition ρ e v s1 Hs1 Hv) as (s2 & (Hrep2 & Hs2 & _) & H2).
  exists (S (S (Nat.max n (depth e)))), FAKE_CELL, s2. split; [|done].
  rewrite (repeat_block e i s _ _ n s1 k) by (done || lia).
  destruct k; try discriminate Hk; rewrite H2 by lia; by rewrite Hb.
Qed.

Lemma repeat_next_turn ρ e i s k v : signals Normal s -> implements i s k ρ ->
  ρ !! _FCT_ANON_ARGS = None -> after_block k = None -> den ρ e = Some v -> v_bool v = false ->
  turn (L_repeat i e) s k ρ.
Proof.
  intros Hs Hi Ha Hk Hv Hb. destruct (block_turn i s k ρ Hi Ha) as (n & s1 & H & Hs1). rewrite Hk in Hs1.
  destruct (repeat_condition ρ e v s1 Hs1 Hv) as (s2 & Hrd2 & H2).
  exists (Nat.max n (depth e)), s2. rewrite Hk. split; [|done]. intros m m' Hm Hm'.
  rewrite (repeat_block e i s _ _ n s1 k) by (done || lia).
  destruct k; try discriminate Hk; rewrite H2 by lia; by rewrite Hb.
Qed.

(** *** [for] *)

Lemma for_false_implements ρ e step i v s : ready ρ s -> den ρ e = Some v -> v_bool v = false ->
  loop_implements (L_for e step i) s Normal ρ.
Proof.
  intros Hrd Hv Hb. destruct (head_condition ρ e v s Hrd Hv) as (s2 & Hrd2 & H).
  exists (S (S (depth e))), FAKE_CELL, s2. split; [|by destruct Hrd2 as (? & ? & _)].
  cbn [loop_exec for_loop].
  rewrite (not_returning s (fun c => mret (ret_val c))), H, Hb by (apply Hrd || lia). done.
Qed.

Lemma for_block ρ e step i v s k ρ1 : ready ρ s -> den ρ e = Some v -> v_bool v = true ->
  (forall s, ready ρ s -> implements i s k ρ1 /\ ρ1 !! _FCT_ANON_ARGS = None) ->
  exists n s', (forall m m', (n <= m)%nat -> (1 <= m')%nat ->
      loop_exec m (S m') (L_for e step i) s
      = (match k with
         | Break => mret FAKE_CELL
         | _ => E m (instr_cell step);; loop_exec m m' (L_for e step i)
         end) s')
    /\ match after_block k with
       | None | Some Normal => ready ρ1 s'
       | Some k' => rep (vars ρ1) s' /\ signals k' s'
       end.
Proof.
  intros Hrd Hv Hb Hi. destruct (head_condition ρ e v s Hrd Hv) as (s2 & Hrd2 & H).
  destruct (Hi s2 Hrd2) as [Hi2 Ha]. destruct (block_turn i s2 k ρ1 Hi2 Ha) as (n & s' & H' & Hs').
  exists (Nat.max n (depth e)), s'. split; [|done]. intros m m' Hm Hm'. cbn [loop_exec for_loop].
  rewrite (not_returning s (fun c => mret (ret_val c))), H, Hb by (apply Hrd || lia).
  rewrite (turn_step _ _ _ _ _ _ (H' m ltac:(lia))). by destruct k.
Qed.

Lemma for_end_turn ρ e step i v s k k' ρ1 : ready ρ s -> den ρ e = Some v -> v_bool v = true ->
  (forall s, ready ρ s -> implements i s k ρ1 /\ ρ1 !! _FCT_ANON_ARGS = None) ->
  after_block k = Some k' -> turn (L_for e step i) s k ρ1.
Proof.
  intros Hrd Hv Hb Hi Hk. destruct (for_block ρ e step i v s k ρ1 Hrd Hv Hb Hi) as (n & s' & H & Hs').
  destruct k as [| | |w]; try discriminate Hk; [by exists n, s'|].
  destruct Hs' as [Hrep Hs'].
  assert (exists l s2, forall m, (1 <= m)%nat -> E m (instr_cell step) s' = Ret (value_cell l w, s2) /\ same s' s2)
    as (l & s2 & H2).
  { destruct (E_pending 0 (instr_cell step) w s') as (l & s2 & H2 & Hss); [done|apply instr_cell_real|].
    exists l, s2. intros m Hm. split; [by apply (E_mono 1)|done]. }
  exists (S n), s2. pose proof (H2 1%nat ltac:(lia)) as [_ Hss]. split.
  - intros m m' Hm Hm'. rewrite (H m m') by lia. by step (proj1 (H2 m ltac:(lia))).
  - split; [by eapply rep_same|by eapply signals_same].
Qed.

Lemma for_next_turn ρ e step i v s k ρ1 ρ2 : ready ρ s -> den ρ e = Some v -> v_bool v = true ->
  (forall s, ready ρ s -> implements i s k ρ1 /\ ρ1 !! _FCT_ANON_ARGS = None) ->
  after_block k = None ->
  (forall s, ready ρ1 s -> implements step s Normal ρ2 /\ ρ2 !! _FCT_ANON_ARGS = None) ->
  turn (L_for e step i) s k ρ2.
Proof.
  intros Hrd Hv Hb Hi Hk Hst. destruct (for_block ρ e step i v s k ρ1 Hrd Hv Hb Hi) as (n & s' & H & Hs').
  rewrite Hk in Hs'. destruct (Hst s' Hs') as [(n2 & c & s2 & H2 & Hrep2 & Hs2) Ha2].
  exists (Nat.max n n2), s2. rewrite Hk. split; [|done]. intros m m' Hm Hm'. rewrite (H m m') by lia.
  destruct k; try discriminate Hk; by step (E_mono n2 m _ _ _ ltac:(lia) H2).
Qed.

(** *** The other instructions *)

(** Whether a block goes on to its second part. *)
Lemma block_goes_on n s k (l1 ret : tree_cell) : signals k s ->
  (c ← lexic; if is_null l1 || break_flag c || cont_flag c then mret ret else E n l1) s
  = (if is_null l1 || match k with Break | Continue => true | _ => false end
     then mret ret else E n l1) s.
Proof.
  intros Hs. unfold signals in Hs. unfold mbind, M_bind, lexic.
  destruct (st_ctxts s) as [|ct up]; [done|]. destruct Hs as (Hb & Hc & _). rewrite Hb, Hc.
  by destruct k, (is_null l1).
Qed.

Lemma seq_implements ρ l i j k ρ1 ρ2 s : ready ρ s ->
  (forall s, ready ρ s -> implements i s Normal ρ1 /\ ρ1 !! _FCT_ANON_ARGS = None) ->
  (forall s, ready ρ1 s -> implements j s k ρ2 /\ ρ2 !! _FCT_ANON_ARGS = None) ->
  implements (I_seq l i j) s k ρ2 /\ ρ2 !! _FCT_ANON_ARGS = None.
Proof.
  intros Hrd IHi IHj.
  destruct (IHi (at_line l s) (ready_line _ _ _ Hrd)) as [(n1 & c1 & s1 & H1 & Hrep1 & Hs1) Ha1].
  destruct (IHj s1) as [(n2 & c2 & s2 & H2 & Hrep2 & Hs2) Ha2]; [done|]. split; [|done].
  exists (S (Nat.max n1 n2)). cbn [instr_cell]. unfold node. rewrite E_step by apply Hrd.
  cbn [exec_node]. unfold exec_block. step (E_mono n1 (Nat.max n1 n2) _ _ _ ltac:(lia) H1).
  rewrite (block_goes_on _ _ Normal) by done. rewrite orb_false_r.
  destruct (is_null (instr_cell j)) eqn:Hn.
  - destruct (instr_cell j); try discriminate Hn. destruct n2 as [|n2]; [discriminate H2|].
    rewrite E_null in H2 by done. injection H2 as <- <-. by exists c1, s1.
  - exists c2, s2. split; [|done]. by apply (E_mono n2); [lia|].
Qed.

Lemma seq_end_implements ρ l i j k ρ1 s : ready ρ s -> k <> Normal ->
  (forall s, ready ρ s -> implements i s k ρ1 /\ ρ1 !! _FCT_ANON_ARGS = None) ->
  implements (I_seq l i j) s k ρ1 /\ ρ1 !! _FCT_ANON_ARGS = None.
Proof.
  intros Hrd Hk IHi.
  destruct (IHi (at_line l s) (ready_line _ _ _ Hrd)) as [(n1 & c1 & s1 & H1 & Hrep1 & Hs1) Ha1].
  split; [|done]. exists (S (S n1)). cbn [instr_cell]. unfold node. rewrite E_step by apply Hrd.
  cbn [exec_node]. unfold exec_block. step (E_mono n1 (S n1) _ _ _ ltac:(lia) H1).
  rewrite (block_goes_on _ _ k) by done.
  destruct k as [| | |v]; [done|rewrite orb_true_r; by exists c1, s1..|].
  rewrite orb_false_r. destruct (is_null (instr_cell j)); [by exists c1, s1|].
  destruct (E_pending n1 (instr_cell j) v s1) as (l' & s2 & H2 & Hss); [done|apply instr_cell_real|].
  exists (value_cell l' v), s2. split; [done|]. split; [by eapply rep_same|by eapply signals_same].
Qed.

Lemma if_implements ρ l e i j v k ρ1 s : ready ρ s -> den ρ e = Some v ->
  (forall s, ready ρ s -> implements (if v_bool v then i else j) s k ρ1 /\ ρ1 !! _FCT_ANON_ARGS = None) ->
  implements (I_if l e i j) s k ρ1 /\ ρ1 !! _FCT_ANON_ARGS = None.
Proof.
  intros Hrd Hv IH. destruct (ready_line l _ _ Hrd) as (Hrep & Hs & Ha).
  destruct (condition ρ e v (at_line l s)) as (r & s1 & s2 & H1 & _ & H2 & Hrep2 & Hs2); try done.
  destruct (IH s2) as [(n & c & s3 & H3 & Hend) Ha']; [done|]. split; [|done].
  set (m := Nat.max n (depth e)). pose proof (depth_2 e).
  exists (S (S m)). cbn [instr_cell]. rewrite E_step by apply Hrd. cbn [exec_node]. unfold exec_if.
  step (H1 (S m) ltac:(lia)). step (H2 (S m) (S m) ltac:(lia) ltac:(lia)).
  apply (E_mono n (S m)) in H3; [|lia]. destruct (v_bool v); [by exists c, s3|].
  destruct (is_null (instr_cell j)) eqn:Hn; [|by exists c, s3].
  destruct (instr_cell j); try discriminate Hn.
  rewrite E_null in H3 by done. injection H3 as <- <-. by exists FAKE_CELL, s2.
Qed.

Lemma loop_instr_implements ρ l lp k ρ1 s : ready ρ s ->
  (forall s, ready ρ s -> loop_implements lp s k ρ1 /\ ρ1 !! _FCT_ANON_ARGS = None) ->
  implements (I_loop l lp) s k ρ1 /\ ρ1 !! _FCT_ANON_ARGS = None.
Proof.
  intros Hrd IH. destruct (IH _ (ready_line l _ _ Hrd)) as [(n & c & s1 & H1 & Hend) Ha].
  split; [|done]. exists (S (S n)), c, s1. split; [|done].
  apply (loop_exec_mono n (S n) n (S n)) in H1; [|lia..].
  destruct lp; cbn [instr_cell]; unfold node; rewrite E_step by apply Hrd; cbn [exec_node]; [done|done|].
  by step (E_null n _ (proj1 (proj2 (ready_line l _ _ Hrd)))).
Qed.

Lemma for_implements ρ l start e step i k ρ1 ρ2 s : ready ρ s ->
  (forall s, ready ρ s -> implements start s Normal ρ1 /\ ρ1 !! _FCT_ANON_ARGS = None) ->
  (forall s, ready ρ1 s -> loop_implements (L_for e step i) s k ρ2 /\ ρ2 !! _FCT_ANON_ARGS = None) ->
  implements (I_for l start e step i) s k ρ2 /\ ρ2 !! _FCT_ANON_ARGS = None.
Proof.
  intros Hrd IHs IH.
  destruct (IHs _ (ready_line l _ _ Hrd)) as [(n1 & c1 & s1 & H1 & Hrep1 & Hs1) Ha1].
  destruct (IH s1) as [(n & c & s2 & H2 & Hend) Ha]; [done|]. split; [|done].
  exists (S (Nat.max n1 n)), c, s2. split; [|done]. cbn [instr_cell]. rewrite E_step by apply Hrd.
  cbn [exec_node]. step (E_mono n1 (Nat.max n1 n) _ _ _ ltac:(lia) H1).
  by apply (loop_exec_mono n (Nat.max n1 n) n (Nat.max n1 n) (L_for e step i)); [lia..|].
Qed.

Lemma jump_implements ρ l s ty k (f : lex_ctxt -> lex_ctxt) : ready ρ s ->
  (forall n s, exec_node regexec builtin (E n) n (Cell ty l (x_str None) NULL NULL NULL NULL) s
     = (update_lexic f;; mret FAKE_CELL) s) ->
  (forall c, ctx_vars (f c) = ctx_vars c) -> (forall c, ended Normal c -> ended k (f c)) ->
  ends_with (E 1 (Cell ty l (x_str None) NULL NULL NULL NULL) s) k ρ.
Proof.
  intros Hrd Hn Hv He. rewrite E_step, Hn by apply Hrd. destruct (ready_line l _ _ Hrd) as (Hrep & Hs & _).
  unfold signals in Hs. unfold mbind, M_bind, mret, M_ret, update_lexic.
  destruct (st_ctxts (at_line l s)) as [|ct up] eqn:Hc; [done|]. eexists _, _. split; [done|]. split.
  - apply (rep_eq _ (at_line l s)); [done| |done]. rewrite Hc. cbn. by rewrite Hv.
  - by apply He.
Qed.

Lemma return_implements ρ l e v s : ready ρ s -> den ρ e = Some v ->
  implements (I_return l e) s (Return v) ρ.
Proof.
  intros Hrd Hv. pose proof (depth_2 e). destruct (ready_line l _ _ Hrd) as (Hrep & Hs & Ha).
  destruct (operand (vars ρ) (depth e) e (at_line l s) v)
    as (l' & s2 & H2 & Hss & Hrep2 & Hs2); [done|done|done|by eapply expr_executes|].
  exists (S (depth e)), FAKE_CELL. cbn [instr_cell]. unfold node. rewrite E_step by apply Hrd.
  cbn [exec_node]. unfold nasl_return. step H2.
  assert (forall k s, (match value_cell l' v with
           | NULL => mret FAKE_CELL
           | Cell REF_ARRAY _ _ _ _ _ _ => lift (copy_ref_array k (value_cell l' v))
           | _ => mret (value_cell l' v)
           end : M state tree_cell) s = Ret (value_cell l' v, s)) as Hm by (by destruct v).
  step (Hm (depth e) s2). eexists. split; [done|]. split.
  - apply (rep_eq _ s2); [done| |done]. cbn [st_ctxts]. generalize (st_ctxts s2). clear.
    induction l as [|c up IH]; [done|]. simpl. f_equal. by destruct (fct_ctxt c); [|apply IH].
  - unfold signals in *. cbn [st_ctxts]. destruct (st_ctxts s2) as [|c up]; [done|].
    destruct Hs2 as (? & ? & _). split_and!; [done|done|by exists l'].
Qed.

Lemma programs_run :
  (forall ρ i k ρ', run ρ i k ρ' -> forall s, ready ρ s ->
     implements i s k ρ' /\ ρ' !! _FCT_ANON_ARGS = None)
  /\ (forall ρ lp k ρ', run_loop ρ lp k ρ' -> forall s, ready ρ s ->
     loop_implements lp s k ρ' /\ ρ' !! _FCT_ANON_ARGS = None).
Proof.
  apply run_mutind.
  - intros ρ s (Hrep & Hs & Ha). split; [|done]. exists 1%nat, NULL, s. by rewrite E_null.
  - intros ρ l l' x e v Hv Hx s Hrd. split; [by apply aff_implements|].
    rewrite lookup_insert_ne by done. apply Hrd.
  - intros ρ l l' op x e u v w Hop Hx Hv Hw s Hrd. split; [by eapply op_eq_implements|].
    rewrite lookup_insert_ne; [apply Hrd|]. intros ->. destruct Hrd as (_ & _ & Ha). congruence.
  - intros. by eapply seq_implements.
  - intros. by eapply seq_end_implements.
  - intros. by eapply if_implements.
  - intros. by apply loop_instr_implements with ρ.
  - intros. by eapply for_implements.
  - intros ρ l s Hrd. split; [|apply Hrd]. exists 1%nat.
    by apply (jump_implements _ _ _ _ Break (set_break_flag true)); [| | |intros c (? & ? & ?)].
  - intros ρ l s Hrd. split; [|apply Hrd]. exists 1%nat.
    by apply (jump_implements _ _ _ _ Continue (set_cont_flag true)); [| | |intros c (? & ? & ?)].
  - intros ρ l e v Hv s Hrd. split; [by apply return_implements|apply Hrd].
  - intros ρ e i v Hv Hb s Hrd. split; [by eapply while_false_implements|apply Hrd].
  - intros ρ e i v k k' ρ1 Hv Hb _ IHi Hk s Hrd. split; [|by eapply IHi].
    eapply turn_end; [|done]. by eapply while_turn.
  - intros ρ e i v k k' ρ1 ρ2 Hv Hb _ IHi Hk _ IH s Hrd.
    eapply turn_next; [|done|done]. by eapply while_turn.
  - intros ρ e i k k' ρ1 _ IHi Hk s Hrd. destruct (IHi s Hrd) as [Hi Ha]. split; [|done].
    eapply repeat_end_implements; [apply Hrd|done..].
  - intros ρ e i k v ρ1 _ IHi Hk Hv Hb s Hrd. destruct (IHi s Hrd) as [Hi Ha]. split; [|done].
    eapply repeat_true_implements; [apply Hrd|done..].
  - intros ρ e i k v k' ρ1 ρ2 _ IHi Hk Hv Hb _ IH s Hrd. destruct (IHi s Hrd) as [Hi Ha].
    eapply turn_next; [|done|done]. eapply repeat_next_turn; [apply Hrd|done..].
  - intros ρ e step i v Hv Hb s Hrd. split; [by eapply for_false_implements|apply Hrd].
  - intros ρ e step i v k k' ρ1 Hv Hb _ IHi Hk s Hrd. split; [|by eapply IHi].
    eapply turn_end; [|done]. by eapply for_end_turn.
  - intros ρ e step i v k k' ρ1 ρ2 ρ3 Hv Hb _ IHi Hk _ IHst _ IH s Hrd.
    eapply turn_next; [|done|done]. by eapply for_next_turn.
Qed.

(** C7: an expression over scalar variables that has a value in the reference
    semantics executes to that value: the atom of its tree is the value's cell, and
    nothing changes but the current line.  The depth of the expression is fuel
    enough. *)
Theorem expression_value ρ e v s n :
  den ρ e = Some v -> ready ρ s -> (depth e <= n)%nat ->
  exists l s', cell2atom (E n) n (expr_cell e) s = Ret (value_cell l v, s') /\ same s s'.
Proof.
  intros Hv (Hrep & Hs & Ha) Hn.
  destruct (operand (vars ρ) n e s v) as (l & s' & H & Hss & _); try done; [by eapply expr_executes|].
  by exists l, s'.
Qed.

(** C4: a program over scalar variables that ends in the reference semantics ends in
    the interpreter, with enough fuel, and in the same way: the variables have
    the values of the semantics, the context is free of flags after a normal end,
    has the break or continue flag set, or holds the returned value. *)
Theorem program_correct ρ i k ρ' s :
  run ρ i k ρ' -> ready ρ s ->
  exists n, forall m, (n <= m)%nat ->
    exists c s', E m (instr_cell i) s = Ret (c, s') /\ rep (vars ρ') s' /\ signals k s'.
Proof. intros Hrun Hrd. by apply implements_at, (proj1 programs_run _ _ _ _ Hrun). Qed.

End Programs.

(** ** The start of a script *)

Definition start_state : state := mk_state empty_store [init_empty_lex_ctxt].

Lemma ready_start : ready ∅ start_state.
Proof.
  assert (Hf : forall x, climb_ctxts x (st_ctxts start_state) = None).
  { intros x. unfold start_state. cbn [climb_ctxts st_ctxts]. unfold find_in_ctxt. cbn [init_empty_lex_ctxt ctx_vars hash_elt].
    unfold bucket, empty_hash. destruct (replicate VAR_NAME_HASH [] !! hash_str (Some x)) as [l|] eqn:E; [|done].
    apply lookup_replicate in E as [-> _]. done. }
  split; [|done]. split.
  - intros x u. unfold vars. by rewrite lookup_fmap, lookup_empty.
  - intros x a. by rewrite Hf.
  - intros x y a. by rewrite Hf.
  - intros x u. unfold vars. by rewrite lookup_fmap, lookup_empty.
  - by eexists _, _, _.
  - done.
Qed.

Definition example_expr : expr :=
  E_binary 1 EXPR_PLUS (E_const 1 (V_data "n="))
    (E_binary 1 EXPR_EXPO (E_const 1 (V_int 2)) (E_const 1 (V_int 33))).

Lemma expression_value_witness :
  den ∅ example_expr = Some (V_data "n=0") /\
  exists l s', cell2atom (nasl_exec (fun _ _ => 1) (fun _ => mret NULL) 5) 5 (expr_cell example_expr) start_state
    = Ret (value_cell l (V_data "n=0"), s') /\ same start_state s'.
Proof.
  split; [vm_compute; reflexivity|].
  apply (expression_value (fun _ _ => 1) (fun _ => mret NULL) ∅);
    [vm_compute; reflexivity|apply ready_start|simpl; lia].
Defined.

(** [x = 0; while (x < 5) { x += 1; if (x == 2) break; }] *)
Definition example_program : instr :=
  I_seq 1 (I_aff 1 1 "x" (E_const 0 (V_int 0)))
    (I_loop 2 (L_while (E_binary 2 COMP_LT (E_var 2 "x") (E_const 0 (V_int 5)))
       (I_seq 3 (I_op_eq 3 3 EXPR_PLUS "x" (E_const 0 (V_int 1)))
          (I_if 4 (E_binary 4 COMP_EQ (E_var 4 "x") (E_const 0 (V_int 2))) (I_break 4) I_nop)))).

Lemma example_run : run ∅ example_program Normal (<["x" := V_int 2]> (<["x" := V_int 1]> (<["x" := V_int 0]> ∅))).
Proof.
  eapply run_seq; [by apply run_aff|].
  eapply run_I_loop, (while_next _ _ _ (V_int 1) Normal); [vm_compute; reflexivity|done| |done|].
  { eapply run_seq; [apply (run_op_eq _ _ _ _ _ _ (V_int 0) (V_int 1) (V_int 1));
      [by eexists|vm_compute; reflexivity..]|].
    apply (run_if _ _ _ _ _ (V_int 0)); [vm_compute; reflexivity|]. apply run_nop. }
  apply (while_end _ _ _ (V_int 1) Break); [vm_compute; reflexivity|done| |done].
  eapply run_seq; [apply (run_op_eq _ _ _ _ _ _ (V_int 1) (V_int 1) (V_int 2));
    [by eexists|vm_compute; reflexivity..]|].
  apply (run_if _ _ _ _ _ (V_int 1)); [vm_compute; reflexivity|]. apply run_break.
Qed.

Lemma program_correct_witness :
  exists n, forall m, (n <= m)%nat ->
    exists c s', nasl_exec (fun _ _ => 1) (fun _ => mret NULL) m (instr_cell example_program) start_state = Ret (c, s')
      /\ rep (vars (<["x" := V_int 2]> (<["x" := V_int 1]> (<["x" := V_int 0]> ∅)))) s' /\ signals Normal s'.
Proof.
  apply (program_correct (fun _ _ => 1) (fun _ => mret NULL) ∅); [apply example_run|apply ready_start].
Defined.

End NaslProgSpec.
