(* ===== verification/NaslCopy.v ===== *)
(** * Copies of NASL arrays

    The contents of a variable, read out of the store as a tree ([nval]); copying
    a variable makes new variables with the same contents, the chains of names
    reversed at every level, and leaves the ones it copies alone. *)

From S2P Require Import Prelude Nasl NaslVar.
From stdpp Require Import base gmap sets list strings.
From Stdlib Require Import Ascii ZArith Lia.
Local Open Scope Z_scope.

Module NaslCopy.
Import Nasl NaslVar.

#[warnings="-register-all"]
Inductive nval :=
| N_undef
| N_int (z : Z)
| N_string (s : option string)
| N_data (s : option string)
| N_array (num : list (option nval)) (named : option (list (list (option string * nval)))).

Section Read.
Context (read : anon_nasl_var -> option nval) (h : gmap addr anon_nasl_var).

Definition read_elem (v : option addr) : option (option nval) :=
  match v with
  | None => Some None
  | Some v => u ← h !! v; t ← read u; Some (Some t)
  end.
Definition read_named (p : named_nasl_var) : option (option string * nval) :=
  u ← h !! snd p; t ← read u; Some (fst p, t).
Definition read_table (t : list (list named_nasl_var)) : option (list (list (option string * nval))) :=
  if bool_decide (length t = VAR_NAME_HASH) then mapM (mapM read_named) t else None.
Definition read_array (a : nasl_array) : option nval :=
  num ← mapM read_elem (num_elt a);
  match hash_elt a with
  | None => Some (N_array num None)
  | Some t => named ← read_table t; Some (N_array num (Some named))
  end.
End Read.

(** The contents of a variable that is at most [k] arrays deep. *)
Fixpoint read (k : nat) (h : gmap addr anon_nasl_var) (v : anon_nasl_var) : option nval :=
  match v with
  | VAR2_UNDEF => Some N_undef
  | VAR2_INT z => Some (N_int z)
  | VAR2_STRING s => Some (N_string s)
  | VAR2_DATA s => Some (N_data s)
  | VAR2_ARRAY a =>
      match k with
      | O => None
      | S k => read_array (read k h) h a
      end
  end.

(** What a copy has. *)
Fixpoint copied (t : nval) : nval :=
  match t with
  | N_array num named =>
      N_array (List.map (option_map copied) num)
        (option_map (List.map (fun c => List.rev (List.map (fun p => (fst p, copied (snd p))) c))) named)
  | _ => t
  end.

(** ** Reading *)

Lemma mapM_mono {A B} (f g : A -> option B) l y :
  (forall x z, f x = Some z -> g x = Some z) -> mapM f l = Some y -> mapM g l = Some y.
Proof.
  intros Hfg. rewrite !mapM_Some. intros H. eapply Forall2_impl; [done|]. intros x z. by apply Hfg.
Qed.

Lemma read_mono k h h' v t : h ⊆ h' -> read k h v = Some t -> read k h' v = Some t.
Proof.
  intros Hh. revert v t. induction k as [|k IH]; intros v t; destruct v; simpl; try done.
  unfold read_array. intros H. apply bind_Some in H as (num & Hnum & H).
  assert (He : forall x z, read_elem (read k h) h x = Some z -> read_elem (read k h') h' x = Some z).
  { intros [x|] z; simpl; [|done]. intros (u & Hu & (w & Hw & [= <-])%bind_Some)%bind_Some.
    rewrite (lookup_weaken _ _ _ _ Hu Hh). simpl. by rewrite (IH _ _ Hw). }
  assert (Hn : forall x z, read_named (read k h) h x = Some z -> read_named (read k h') h' x = Some z).
  { intros [n x] z; simpl. unfold read_named; simpl.
    intros (u & Hu & (w & Hw & [= <-])%bind_Some)%bind_Some.
    rewrite (lookup_weaken _ _ _ _ Hu Hh). simpl. by rewrite (IH _ _ Hw). }
  rewrite (mapM_mono _ _ _ _ He Hnum). simpl. destruct (hash_elt v_arr) as [tb|]; [|done].
  apply bind_Some in H as (named & Hnamed & H). revert Hnamed. unfold read_table.
  case_bool_decide; [|done]. intros Hnamed.
  rewrite (mapM_mono (mapM (read_named (read k h) h)) (mapM (read_named (read k h') h')) _ named); [done| |done].
  intros x z. by apply mapM_mono.
Qed.

(** ** Steps that leave the rest of the store alone *)

Definition fresh (s : store) : Prop := forall a, (next s <= a)%positive -> heap s !! a = None.

(** Nothing is lost and only the variable [a1] has changed. *)
Record extends (a1 : addr) (s s' : store) : Prop := mk_extends
  { ext_next : (next s <= next s')%positive;
    ext_fresh : fresh s';
    ext_heap a : (a < next s)%positive -> a <> a1 -> heap s' !! a = heap s !! a }.

Lemma extends_refl a1 s : fresh s -> extends a1 s s.
Proof. done. Qed.

Lemma extends_trans a1 s s' s'' : extends a1 s s' -> extends a1 s' s'' -> extends a1 s s''.
Proof.
  intros [H1 H2 H3] [H4 H5 H6]. split; [lia|done|]. intros a Ha Hne.
  rewrite H6 by (done || lia). by apply H3.
Qed.

Lemma fresh_dom s a v : fresh s -> heap s !! a = Some v -> (a < next s)%positive.
Proof. intros Hf Ha. destruct (decide (next s <= a)%positive) as [Hle|]; [by rewrite Hf in Ha|lia]. Qed.

(** The variables from [n] on. *)
Definition above (n : positive) (h : gmap addr anon_nasl_var) : gmap addr anon_nasl_var :=
  filter (fun p => (n <= fst p)%positive) h.

Lemma above_lookup n h a v : above n h !! a = Some v <-> h !! a = Some v /\ (n <= a)%positive.
Proof. unfold above. by rewrite map_lookup_filter_Some. Qed.

Lemma above_extends n a1 s s' : fresh s -> extends a1 s s' -> (a1 < n)%positive ->
  above n (heap s) ⊆ above n (heap s').
Proof.
  intros Hf Hext Ha1. apply map_subseteq_spec. intros a v. rewrite !above_lookup. intros [Ha Hn].
  split; [|done]. rewrite (ext_heap _ _ _ Hext); [done|by eapply fresh_dom|lia].
Qed.

Lemma above_mono n n' h : (n <= n')%positive -> above n' h ⊆ above n h.
Proof.
  intros Hn. apply map_subseteq_spec. intros a v. rewrite !above_lookup. intros [? ?]. split; [done|lia].
Qed.

Lemma source_extends H a1 s s' : fresh s -> extends a1 s s' -> H ⊆ heap s -> H !! a1 = None ->
  H ⊆ heap s'.
Proof.
  intros Hf Hext Hs Ha1. apply map_subseteq_spec. intros a v Ha.
  pose proof (lookup_weaken _ _ _ _ Ha Hs) as Hv.
  rewrite (ext_heap _ _ _ Hext); [done|by eapply fresh_dom|congruence].
Qed.

Lemma write_extends a v w s : fresh s -> heap s !! a = Some w ->
  exists s', write a v s = Ret (tt, s') /\ extends a s s' /\ heap s' !! a = Some v /\ next s' = next s.
Proof.
  intros Hf Ha. rewrite (write_Ret _ w) by done. eexists. split; [done|].
  split; [|split; [cbn; by rewrite lookup_insert_eq|done]]. split; [done| |].
  - intros b Hb. cbn in *. rewrite lookup_insert_ne; [by apply Hf|]. intros <-. by rewrite Hf in Ha.
  - intros b Hb Hne. cbn. by rewrite lookup_insert_ne.
Qed.

Lemma alloc_extends v s : fresh s ->
  exists s', alloc v s = Ret (next s, s') /\ fresh s' /\ next s' = Pos.succ (next s)
    /\ heap s' = <[next s := v]> (heap s).
Proof.
  intros Hf. eexists. split; [done|]. split; [|done]. intros a Ha. cbn in *.
  rewrite lookup_insert_ne by lia. apply Hf. lia.
Qed.

(** ** The copy of one variable *)

Definition copies (f : addr -> anon_nasl_var -> M store unit) (k : nat) : Prop :=
  forall s v1 u w t, fresh s -> heap s !! v1 = Some w -> (forall a, w <> VAR2_ARRAY a) ->
    read k (delete v1 (heap s)) u = Some t ->
    exists s' v', f v1 u s = Ret (tt, s') /\ extends v1 s s' /\ heap s' !! v1 = Some v'
      /\ read k (above (next s) (heap s')) v' = Some (copied t).

Section Arrays.
Context (f : addr -> anon_nasl_var -> M store unit) (k : nat) (Hf : copies f k).
(** The store [H] that is copied from, the destination [a1], and what is new: all
    from [n] on. *)
Context (H : gmap addr anon_nasl_var) (a1 : addr) (n : positive).
Context (Ha1 : H !! a1 = None) (Hn : (a1 < n)%positive).

Lemma copy_new_var s v u t : fresh s -> H ⊆ heap s -> (n <= next s)%positive ->
  H !! v = Some u -> read k H u = Some t ->
  exists x s', (u ← load v; v1 ← alloc VAR2_UNDEF; f v1 u;; mret v1) s = Ret (x, s') /\ extends a1 s s'
    /\ heap s' !! a1 = heap s !! a1
    /\ exists v', above n (heap s') !! x = Some v' /\ read k (above n (heap s')) v' = Some (copied t).
Proof.
  intros Hs Hsub Hns Hv Ht.
  rewrite (bind_step _ _ _ _ _ (load_Ret v u s (lookup_weaken _ _ _ _ Hv Hsub))).
  destruct (alloc_extends VAR2_UNDEF s Hs) as (s1 & Halloc & Hs1 & Hnext & Hheap).
  rewrite (bind_step _ _ _ _ _ Halloc).
  assert (Hx : heap s1 !! next s = Some VAR2_UNDEF) by (by rewrite Hheap, lookup_insert_eq).
  destruct (Hf s1 (next s) u VAR2_UNDEF t Hs1 Hx) as (s2 & v' & He & Hext & Hv' & Hread); [done| |].
  { eapply read_mono; [|done]. apply map_subseteq_spec. intros a w Ha.
    pose proof (lookup_weaken _ _ _ _ Ha Hsub) as Hw.
    assert (a <> next s) by (apply (fresh_dom s) in Hw; [lia|done]).
    by rewrite lookup_delete_ne, Hheap, lookup_insert_ne by done. }
  exists (next s), s2. rewrite (bind_step _ _ _ _ _ He). split; [done|].
  pose proof (ext_next _ _ _ Hext). split; [|split; [|exists v'; split]].
  - split; [lia|apply Hext|]. intros a Ha _. rewrite (ext_heap _ _ _ Hext) by lia.
    by rewrite Hheap, lookup_insert_ne by lia.
  - rewrite (ext_heap _ _ _ Hext) by lia. by rewrite Hheap, lookup_insert_ne by lia.
  - apply above_lookup. split; [done|lia].
  - eapply read_mono; [|done]. apply above_mono. lia.
Qed.

Lemma dup_elem s v t : fresh s -> H ⊆ heap s -> (n <= next s)%positive ->
  read_elem (read k H) H v = Some t ->
  exists d s', dup_anon_var_with f v s = Ret (d, s') /\ extends a1 s s' /\ heap s' !! a1 = heap s !! a1
    /\ read_elem (read k (above n (heap s'))) (above n (heap s')) d = Some (option_map copied t).
Proof.
  intros Hs Hsub Hns Ht. destruct v as [v|]; simpl in Ht.
  - apply bind_Some in Ht as (u & Hu & (w & Hw & [= <-])%bind_Some).
    destruct (copy_new_var s v u w) as (x & s' & He & Hext & Hk & v' & Hv' & Hr); try done.
    exists (Some x), s'. split; [|split; [done|split; [done|]]].
    + apply bind_Ret in He as (u1 & s1 & H1 & He). apply bind_Ret in He as (x1 & s2 & H2 & He).
      apply bind_Ret in He as ([] & s3 & H3 & [= <- <-]). unfold dup_anon_var_with.
      rewrite (bind_step _ _ _ _ _ H1), (bind_step _ _ _ _ _ H2). by rewrite (bind_step _ _ _ _ _ H3).
    + simpl. rewrite Hv'. simpl. by rewrite Hr.
  - injection Ht as <-. by exists None, s.
Qed.

Lemma dup_named s p q : fresh s -> H ⊆ heap s -> (n <= next s)%positive ->
  read_named (read k H) H p = Some q ->
  exists d s', dup_named_var f p s = Ret (d, s') /\ extends a1 s s' /\ heap s' !! a1 = heap s !! a1
    /\ read_named (read k (above n (heap s'))) (above n (heap s')) d = Some (fst q, copied (snd q)).
Proof.
  intros Hs Hsub Hns Ht. destruct p as [nm v]. unfold read_named in Ht; simpl in Ht.
  apply bind_Some in Ht as (u & Hu & (w & Hw & [= <-])%bind_Some).
  destruct (copy_new_var s v u w) as (x & s' & He & Hext & Hk & v' & Hv' & Hr); try done.
  exists (nm, x), s'. split; [|split; [done|split; [done|]]].
  - apply bind_Ret in He as (u1 & s1 & H1 & He). apply bind_Ret in He as (x1 & s2 & H2 & He).
    apply bind_Ret in He as ([] & s3 & H3 & [= <- <-]). unfold dup_named_var. cbn [snd fst].
    rewrite (bind_step _ _ _ _ _ H1), (bind_step _ _ _ _ _ H2). by rewrite (bind_step _ _ _ _ _ H3).
  - unfold read_named. simpl. rewrite Hv'. simpl. by rewrite Hr.
Qed.

(** What has been read of the copies stays. *)
Lemma read_elem_extends s s' d t : fresh s -> extends a1 s s' ->
  read_elem (read k (above n (heap s))) (above n (heap s)) d = Some t ->
  read_elem (read k (above n (heap s'))) (above n (heap s')) d = Some t.
Proof.
  intros Hs Hext. pose proof (above_extends n a1 s s' Hs Hext Hn) as Hsub.
  destruct d as [d|]; simpl; [|done]. intros (u & Hu & (w & Hw & [= <-])%bind_Some)%bind_Some.
  rewrite (lookup_weaken _ _ _ _ Hu Hsub). simpl. by rewrite (read_mono _ _ _ _ _ Hsub Hw).
Qed.

Lemma read_named_extends s s' d t : fresh s -> extends a1 s s' ->
  read_named (read k (above n (heap s))) (above n (heap s)) d = Some t ->
  read_named (read k (above n (heap s'))) (above n (heap s')) d = Some t.
Proof.
  intros Hs Hext. pose proof (above_extends n a1 s s' Hs Hext Hn) as Hsub.
  destruct d as [nm d]. unfold read_named; simpl.
  intros (u & Hu & (w & Hw & [= <-])%bind_Some)%bind_Some.
  rewrite (lookup_weaken _ _ _ _ Hu Hsub). simpl. by rewrite (read_mono _ _ _ _ _ Hsub Hw).
Qed.

Lemma array_at_Ret a arr s : heap s !! a = Some (VAR2_ARRAY arr) -> array_at a s = Ret (arr, s).
Proof. intros Ha. unfold array_at. by rewrite (bind_step _ _ _ _ _ (load_Ret _ _ _ Ha)). Qed.

Lemma update_array_spec s arr g : fresh s -> heap s !! a1 = Some (VAR2_ARRAY arr) ->
  exists s', update_array a1 g s = Ret (tt, s') /\ extends a1 s s'
    /\ heap s' !! a1 = Some (VAR2_ARRAY (g arr)) /\ next s' = next s.
Proof.
  intros Hs Ha. unfold update_array. rewrite (bind_step _ _ _ _ _ (array_at_Ret _ _ _ Ha)).
  by apply (write_extends _ _ (VAR2_ARRAY arr)).
Qed.

Lemma copy_elements_spec l : forall ts pre s arr,
  fresh s -> H ⊆ heap s -> (n <= next s)%positive -> heap s !! a1 = Some (VAR2_ARRAY arr) ->
  num_elt arr = pre ++ replicate (length l) None ->
  mapM (read_elem (read k H) H) l = Some ts ->
  exists s' ds, copy_elements f a1 (Z.of_nat (length pre)) l s = Ret (tt, s') /\ extends a1 s s'
    /\ heap s' !! a1 = Some (VAR2_ARRAY (set_num (pre ++ ds) arr))
    /\ mapM (read_elem (read k (above n (heap s'))) (above n (heap s'))) ds
       = Some (List.map (option_map copied) ts).
Proof.
  induction l as [|v l IH]; intros ts pre s arr Hs Hsub Hns Harr Hnum Hts.
  - injection Hts as <-. exists s, []. split; [done|]. split; [done|].
    simpl in Hnum. rewrite <- Hnum. split; [|done]. rewrite Harr. by destruct arr.
  - simpl in Hts. apply bind_Some in Hts as (t & Ht & (ts' & Hts' & [= <-])%bind_Some).
    destruct (dup_elem s v t Hs Hsub Hns Ht) as (d & s1 & Hd & Hext1 & Hk & Hread1).
    assert (Hs1 : fresh s1) by apply Hext1.
    assert (Harr1 : heap s1 !! a1 = Some (VAR2_ARRAY arr)) by (by rewrite Hk).
    destruct (update_array_spec s1 arr (set_elt (Z.of_nat (length pre)) d) Hs1 Harr1)
      as (s2 & Hu & Hext2 & Harr2 & Hnext2).
    assert (Hext : extends a1 s s2) by (by eapply extends_trans).
    destruct (IH ts' (pre ++ [d]) s2 (set_elt (Z.of_nat (length pre)) d arr)) as (s3 & ds & Hc & Hext3 & Harr3 & Hread3);
      [apply Hext|by apply (source_extends H a1 s)|pose proof (ext_next _ _ _ Hext); lia|done| |done|].
    { unfold set_elt. rewrite Nat2Z.id, Hnum. cbn [num_elt set_num length replicate].
      rewrite <- app_assoc. by rewrite insert_app_r_alt, Nat.sub_diag by lia. }
    exists s3, (d :: ds). cbn [copy_elements].
    rewrite (bind_step _ _ _ _ _ Hd), (bind_step _ _ _ _ _ Hu).
    replace (Z.of_nat (length pre) + 1) with (Z.of_nat (length (pre ++ [d]))) by (rewrite length_app; simpl; lia).
    split; [done|]. split; [by eapply extends_trans|]. split.
    + rewrite Harr3, <- app_assoc. done.
    + simpl. rewrite (read_elem_extends s1 s3 d (option_map copied t) Hs1); [|by eapply extends_trans|done].
      simpl. by rewrite Hread3.
Qed.

Abbreviation copy_of q := (fst q, copied (snd q)).

Lemma push_named_at {pre : list (list named_nasl_var)} {b post} v :
  push_named (length pre) v (pre ++ b :: post) = pre ++ (v :: b) :: post.
Proof.
  unfold push_named, bucket. rewrite list_lookup_middle by done. simpl.
  by rewrite insert_app_r_alt, Nat.sub_diag by lia.
Qed.

Lemma copy_chain_spec chain : forall qs pre b post s arr,
  fresh s -> H ⊆ heap s -> (n <= next s)%positive -> heap s !! a1 = Some (VAR2_ARRAY arr) ->
  hash_elt arr = Some (pre ++ b :: post) ->
  mapM (read_named (read k H) H) chain = Some qs ->
  exists s' ds, copy_chain f a1 (length pre) chain s = Ret (tt, s') /\ extends a1 s s'
    /\ heap s' !! a1 = Some (VAR2_ARRAY (set_hash_elt (Some (pre ++ (reverse ds ++ b) :: post)) arr))
    /\ mapM (read_named (read k (above n (heap s'))) (above n (heap s'))) ds
       = Some (List.map (fun q => copy_of q) qs).
Proof.
  induction chain as [|p chain IH]; intros qs pre b post s arr Hs Hsub Hns Harr Hh Hqs.
  - injection Hqs as <-. exists s, []. split; [done|]. split; [done|]. split; [|done].
    simpl. rewrite <- Hh, Harr. by destruct arr.
  - simpl in Hqs. apply bind_Some in Hqs as (q & Hq & (qs' & Hqs' & [= <-])%bind_Some).
    destruct (dup_named s p q Hs Hsub Hns Hq) as (d & s1 & Hd & Hext1 & Hk & Hread1).
    assert (Hs1 : fresh s1) by apply Hext1.
    assert (Harr1 : heap s1 !! a1 = Some (VAR2_ARRAY arr)) by (by rewrite Hk).
    destruct (update_array_spec s1 arr
                (fun a => set_hash_elt (push_named (length pre) d <$> hash_elt a) a) Hs1 Harr1)
      as (s2 & Hu & Hext2 & Harr2 & Hnext2).
    assert (Hext : extends a1 s s2) by (by eapply extends_trans).
    destruct (IH qs' pre (d :: b) post s2 (set_hash_elt (push_named (length pre) d <$> hash_elt arr) arr))
      as (s3 & ds & Hc & Hext3 & Harr3 & Hread3);
      [apply Hext|by apply (source_extends H a1 s)|pose proof (ext_next _ _ _ Hext); lia|done| |done|].
    { cbn [hash_elt set_hash_elt]. rewrite Hh. simpl. by rewrite push_named_at. }
    exists s3, (d :: ds). cbn [copy_chain]. rewrite (bind_step _ _ _ _ _ Hd), (bind_step _ _ _ _ _ Hu).
    split; [done|]. split; [by eapply extends_trans|]. split.
    + rewrite Harr3, reverse_cons, <- app_assoc. done.
    + simpl. rewrite (read_named_extends s1 s3 d (copy_of q) Hs1); [|by eapply extends_trans|done].
      simpl. by rewrite Hread3.
Qed.

Lemma mapM_named_extends s s' ds qs : fresh s -> extends a1 s s' ->
  mapM (read_named (read k (above n (heap s))) (above n (heap s))) ds = Some qs ->
  mapM (read_named (read k (above n (heap s'))) (above n (heap s'))) ds = Some qs.
Proof. intros Hs Hext. apply mapM_mono. intros x z. by apply read_named_extends. Qed.

Lemma mapM_reverse {A B} (g : A -> option B) l y : mapM g l = Some y -> mapM g (reverse l) = Some (List.rev y).
Proof. rewrite !mapM_Some, rev_alt. apply Forall2_reverse. Qed.

Definition copied_chain (qs : list (option string * nval)) : list (option string * nval) :=
  List.rev (List.map (fun p => (fst p, copied (snd p))) qs).

Lemma copy_chains_spec t : forall qss pre s arr,
  fresh s -> H ⊆ heap s -> (n <= next s)%positive -> heap s !! a1 = Some (VAR2_ARRAY arr) ->
  hash_elt arr = Some (pre ++ replicate (length t) []) ->
  mapM (mapM (read_named (read k H) H)) t = Some qss ->
  exists s' dss, copy_chains f a1 (length pre) t s = Ret (tt, s') /\ extends a1 s s'
    /\ heap s' !! a1 = Some (VAR2_ARRAY (set_hash_elt (Some (pre ++ dss)) arr))
    /\ mapM (mapM (read_named (read k (above n (heap s'))) (above n (heap s')))) dss
       = Some (List.map copied_chain qss).
Proof.
  induction t as [|chain t IH]; intros qss pre s arr Hs Hsub Hns Harr Hh Hqs.
  - injection Hqs as <-. exists s, []. split; [done|]. split; [done|]. split; [|done].
    simpl in Hh. rewrite <- Hh, Harr. by destruct arr.
  - simpl in Hqs. apply bind_Some in Hqs as (qs & Hq & (qss' & Hqs' & [= <-])%bind_Some).
    destruct (copy_chain_spec chain qs pre [] (replicate (length t) []) s arr Hs Hsub Hns Harr Hh Hq)
      as (s1 & ds & Hc1 & Hext1 & Harr1 & Hread1).
    rewrite app_nil_r in Harr1. assert (Hs1 : fresh s1) by apply Hext1.
    destruct (IH qss' (pre ++ [reverse ds]) s1
                (set_hash_elt (Some (pre ++ reverse ds :: replicate (length t) [])) arr))
      as (s2 & dss & Hc2 & Hext2 & Harr2 & Hread2);
      [done|by apply (source_extends H a1 s)|pose proof (ext_next _ _ _ Hext1); lia|done| |done|].
    { cbn [hash_elt set_hash_elt]. by rewrite <- app_assoc. }
    exists s2, (reverse ds :: dss). cbn [copy_chains]. rewrite (bind_step _ _ _ _ _ Hc1).
    replace (S (length pre)) with (length (pre ++ [reverse ds])) by (rewrite length_app; simpl; lia).
    split; [done|]. split; [by eapply extends_trans|]. split.
    + rewrite Harr2, <- app_assoc. done.
    + simpl. pose proof (mapM_named_extends s1 s2 ds _ Hs1 Hext2 Hread1) as Hr.
      rewrite (mapM_reverse _ _ _ Hr). simpl. by rewrite Hread2.
Qed.

(** A whole array, into one that is empty. *)
Lemma copy_array_spec kf s a2 t :
  fresh s -> H ⊆ heap s -> (n <= next s)%positive -> heap s !! a1 = Some (VAR2_ARRAY empty_array) ->
  read_array (read k H) H a2 = Some t ->
  exists s' arr, copy_array_with f kf a1 a2 true s = Ret (tt, s') /\ extends a1 s s'
    /\ heap s' !! a1 = Some (VAR2_ARRAY arr)
    /\ read_array (read k (above n (heap s'))) (above n (heap s')) arr = Some (copied t).
Proof.
  intros Hs Hsub Hns Harr Ht. unfold read_array in Ht. apply bind_Some in Ht as (ts & Hts & Ht).
  unfold copy_array_with. rewrite (bind_step _ _ _ _ _ (array_at_Ret _ _ _ Harr)).
  change ((clear_array kf empty_array ≫= ?g) s) with (g tt s). cbv beta.
  set (arr0 := mk_array (replicate (length (num_elt a2)) None) None).
  destruct (write_extends a1 (VAR2_ARRAY arr0) _ s Hs Harr) as (s1 & Hw & Hext1 & Harr1 & Hnext1).
  rewrite (bind_step _ _ _ _ _ Hw).
  destruct (copy_elements_spec (num_elt a2) ts [] s1 arr0) as (s2 & ds & Hc & Hext2 & Harr2 & Hread2);
    [apply Hext1|by apply (source_extends H a1 s)|lia|done|done|done|].
  cbn [length] in Hc. rewrite (bind_step _ _ _ _ _ Hc).
  assert (Hext12 : extends a1 s s2) by (by eapply extends_trans). assert (Hs2 : fresh s2) by apply Hext2.
  cbn [app set_num arr0 hash_elt] in Harr2.
  destruct (hash_elt a2) as [tb|].
  - apply bind_Some in Ht as (qss & Hqss & [= <-]). revert Hqss. unfold read_table.
    case_bool_decide as Hlen; [|done]. intros Hqss.
    destruct (update_array_spec s2 _ (set_hash_elt (Some empty_hash)) Hs2 Harr2) as (s3 & Hu & Hext3 & Harr3 & Hnext3).
    rewrite (bind_step _ _ _ _ _ Hu).
    destruct (copy_chains_spec tb qss [] s3 (set_hash_elt (Some empty_hash) (mk_array ds None)))
      as (s4 & dss & Hc4 & Hext4 & Harr4 & Hread4);
      [apply Hext3| |pose proof (ext_next _ _ _ Hext12); lia|done|by rewrite Hlen|done|].
    { apply (source_extends H a1 s2); [done|done|by apply (source_extends H a1 s)|done]. }
    exists s4, (mk_array ds (Some dss)). split; [done|].
    assert (Hext24 : extends a1 s2 s4) by (by eapply extends_trans).
    split; [by eapply extends_trans|]. split; [done|]. unfold read_array. cbn [num_elt hash_elt].
    rewrite (mapM_mono _ (read_elem (read k (above n (heap s4))) (above n (heap s4))) _ _
               (fun x z => read_elem_extends s2 s4 x z Hs2 Hext24) Hread2).
    cbn [mbind option_bind]. unfold read_table.
    assert (length dss = VAR_NAME_HASH) as Hd.
    { apply mapM_Some, Forall2_length in Hread4, Hqss. rewrite length_map in Hread4. congruence. }
    rewrite bool_decide_true by done. by rewrite Hread4.
  - injection Ht as <-. exists s2, (mk_array ds None). split; [done|]. split; [done|]. split; [done|].
    unfold read_array. cbn [num_elt hash_elt]. by rewrite Hread2.
Qed.

End Arrays.

(** ** Variables *)

Lemma copy_anon_var_copies k : copies (copy_anon_var k) k.
Proof.
  induction k as [|k IH]; intros s v1 u w t Hs Hv1 Hw Ht.
  - destruct u; try discriminate Ht; injection Ht as <-;
      (edestruct (write_extends v1) as (s' & He & Hext & Hv' & _); [done..|]);
      eexists s', _; done.
  - destruct u as [|z|so|so|arr]; try (injection Ht as <-;
      (edestruct (write_extends v1) as (s' & He & Hext & Hv' & _); [done..|]); eexists s', _; done).
    cbn [copy_anon_var]. cbn [read] in Ht.
    destruct (write_extends v1 (VAR2_ARRAY empty_array) w s Hs Hv1) as (s1 & Hwr & Hext1 & Hv1' & Hnext).
    rewrite (bind_step _ _ _ _ _ Hwr).
    destruct (copy_array_spec (copy_anon_var k) k IH (delete v1 (heap s)) v1 (next s)
                (lookup_delete_eq _ _) (fresh_dom _ _ _ Hs Hv1) k s1 arr t)
      as (s2 & arr' & Hc & Hext2 & Harr & Hread); [apply Hext1| |lia|done|done|].
    { apply (source_extends _ v1 s); [done|done|apply delete_subseteq|apply lookup_delete_eq]. }
    exists s2, (VAR2_ARRAY arr'). split; [done|]. split; [by eapply extends_trans|]. by split.
Qed.

(** ** Elements by name *)

Fixpoint find_name {A} (s : string) (l : list (option string * A)) : option A :=
  match l with
  | [] => None
  | (nm, a) :: l' => if decide (nm = Some s) then Some a else find_name s l'
  end.

(** The element that a name leads to. *)
Definition named_elem (s : string) (t : nval) : option nval :=
  match t with
  | N_array _ (Some tb) => find_name s (default [] (tb !! hash_str (Some s)))
  | _ => None
  end.

Definition distinct_names (t : nval) : Prop :=
  match t with N_array _ (Some tb) => Forall (fun c => NoDup (List.map fst c)) tb | _ => True end.

Lemma find_name_app {A} s (l l' : list (option string * A)) :
  find_name s (l ++ l') = match find_name s l with Some a => Some a | None => find_name s l' end.
Proof. induction l as [|[nm a] l IH]; simpl; [done|]. by case_decide. Qed.

Lemma find_name_notin {A} s (l : list (option string * A)) :
  Some s ∉ List.map fst l -> find_name s l = None.
Proof.
  induction l as [|[nm a] l IH]; simpl; [done|]. rewrite not_elem_of_cons. intros [H1 H2].
  rewrite decide_False by congruence. auto.
Qed.

Lemma find_copied_chain s l : NoDup (List.map fst l) ->
  find_name s (copied_chain l) = option_map copied (find_name s l).
Proof.
  unfold copied_chain. induction l as [|[nm v] l IH]; simpl; [done|].
  intros [Hn Hl]%NoDup_cons. rewrite find_name_app, IH by done. simpl.
  destruct (decide (nm = Some s)) as [->|]; [by rewrite find_name_notin|by destruct (find_name s l)].
Qed.

Lemma named_elem_copied s t : distinct_names t -> named_elem s (copied t) = option_map copied (named_elem s t).
Proof.
  destruct t as [| | | |num [tb|]]; try done. unfold distinct_names, named_elem. cbn [copied option_map].
  intros Hd.
  change (List.map (fun c => List.rev (List.map (fun p => (p.1, copied p.2)) c)) tb) with (copied_chain <$> tb).
  rewrite list_lookup_fmap. destruct (tb !! hash_str (Some s)) as [c|] eqn:E; [|done].
  apply find_copied_chain. by eapply Forall_lookup in Hd.
Qed.

(** C23: assigning an array to a variable that is not an array yet, and that is neither
    the array's own nor one of those its elements lead to, makes a deep copy: the
    variable gets the contents of the array (the same element under every index
    and, if the names are distinct, under every name), nothing else in the store
    changes, and all the elements of the copy are new variables, so that what
    happens to the array later does not reach the copy.  The contents are read
    without the target ([delete x]), to the depth [S k]; addresses from [next s] on
    are unused.  A target that is an array has its old elements freed besides,
    which is not stated here. *)
Theorem assignment_copies k s x y u arr t :
  fresh s -> heap s !! x = Some u -> (forall a, u <> VAR2_ARRAY a) ->
  heap s !! y = Some (VAR2_ARRAY arr) -> y <> x ->
  read (S k) (delete x (heap s)) (VAR2_ARRAY arr) = Some t ->
  exists s' v', affect_to_anon_var k (Some x) (var2cell (Some y)) s = Ret (FAKE_CELL, s')
    /\ (forall a, (a < next s)%positive -> a <> x -> heap s' !! a = heap s !! a)
    /\ heap s' !! x = Some v'
    /\ (forall h, above (next s) (heap s') ⊆ h -> read (S k) h v' = Some (copied t))
    /\ (distinct_names t -> forall nm, named_elem nm (copied t) = option_map copied (named_elem nm t)).
Proof.
  intros Hs Hx Hu Hy Hne Ht.
  destruct (write_extends x (VAR2_ARRAY empty_array) u s Hs Hx) as (s1 & Hw & Hext1 & Hx1 & Hnext).
  assert (Hy1 : heap s1 !! y = Some (VAR2_ARRAY arr)).
  { rewrite (ext_heap _ _ _ Hext1); [done|by eapply fresh_dom|done]. }
  destruct (copy_array_spec (copy_anon_var k) k (copy_anon_var_copies k) (delete x (heap s)) x (next s)
              (lookup_delete_eq _ _) (fresh_dom _ _ _ Hs Hx) k s1 arr t)
    as (s2 & arr' & Hc & Hext2 & Harr & Hread); [apply Hext1| |lia|done|done|].
  { apply (source_extends _ x s); [done|done|apply delete_subseteq|apply lookup_delete_eq]. }
  assert (Hext : extends x s s2) by (by eapply extends_trans).
  exists s2, (VAR2_ARRAY arr'). split_and!.
  - unfold affect_to_anon_var, var2cell. rewrite (bind_step _ _ _ _ _ (load_Ret _ _ _ Hx)).
    assert (Hr : rvalue_of x REF_VAR (x_var (Some y)) s = Ret (rv_array (Some y), s)).
    { unfold rvalue_of, ref_of. rewrite bind_ret, decide_False by done.
      by rewrite (bind_step _ _ _ _ _ (load_Ret _ _ _ Hy)). }
    rewrite (bind_step _ _ _ _ _ Hr). unfold deref. rewrite bind_ret, (bind_step _ _ _ _ _ Hw).
    rewrite decide_False by done.
    assert (Hcp : (a2 ← array_at y; copy_array k x a2 true) s1 = Ret (tt, s2))
      by (by rewrite (bind_step _ _ _ _ _ (array_at_Ret _ _ _ Hy1))).
    rewrite (bind_step _ _ _ _ _ Hcp). by destruct u; naive_solver.
  - intros a Ha Hax. by apply (ext_heap _ _ _ Hext).
  - done.
  - intros h Hh. by apply (read_mono (S k) _ _ _ _ Hh).
  - intros Hd nm. by apply named_elem_copied.
Qed.

(** [x] undefined, [y] the array [[7, "k" => "v"]]. *)
Definition two_vars : store :=
  mk_store
    (<[1%positive := VAR2_UNDEF]>
     (<[2%positive := VAR2_ARRAY (mk_array [Some 3%positive]
          (Some (push_named (hash_str (Some "k"%string)) (Some "k"%string, 4%positive) empty_hash)))]>
     (<[3%positive := VAR2_INT 7]> (<[4%positive := VAR2_DATA (Some "v"%string)]> ∅))))
    5 0.

Lemma assignment_copies_witness :
  exists s' v', affect_to_anon_var 3 (Some 1%positive) (var2cell (Some 2%positive)) two_vars = Ret (FAKE_CELL, s')
    /\ (forall a, (a < 5)%positive -> a <> 1%positive -> heap s' !! a = heap two_vars !! a)
    /\ heap s' !! 1%positive = Some v'
    /\ (forall h, above 5 (heap s') ⊆ h -> read 4 h v' = Some (copied (N_array [Some (N_int 7)]
          (Some (<[5%nat := [(Some "k"%string, N_data (Some "v"%string))]]> (replicate 17 []))))))
    /\ (distinct_names (N_array [Some (N_int 7)]
          (Some (<[5%nat := [(Some "k"%string, N_data (Some "v"%string))]]> (replicate 17 [])))) ->
        forall nm, named_elem nm (copied (N_array [Some (N_int 7)]
          (Some (<[5%nat := [(Some "k"%string, N_data (Some "v"%string))]]> (replicate 17 [])))))
        = option_map copied (named_elem nm (N_array [Some (N_int 7)]
          (Some (<[5%nat := [(Some "k"%string, N_data (Some "v"%string))]]> (replicate 17 [])))))).
Proof.
  eapply (assignment_copies 3 two_vars 1 2 VAR2_UNDEF); [|done|done|done|done|vm_compute; reflexivity].
  intros a Ha. cbn in *. rewrite !lookup_insert_ne by lia. apply lookup_empty.
Defined.

End NaslCopy.
