(* ===== verification/NaslTypes.v ===== *)
(** * Types of NASL results, and what a call leaves alone

    A cell is a tagged union.  [wf] are the trees the parser builds: constants
    have the member their tag says, integers are [int]s, only instructions contain
    instructions.  Executing such a tree gives a result of that kind and keeps the
    state so; and an expression, whatever functions it calls, leaves every
    context as it was but for variables, the current line and what [exit] does: it
    gives every context the same integer to return. *)

From S2P Require Import Prelude Nasl NaslVar NaslExec.
From stdpp Require Import base gmap sets list strings.
From Stdlib Require Import Ascii ZArith Lia.
Local Open Scope Z_scope.

Module NaslTypes.
Import Nasl NaslVar NaslExec.

(** ** Well-typed cells, variables and trees *)

Definition int_ok (z : Z) : bool := (MInt.INT_MIN <=? z) && (z <=? MInt.INT_MAX).

Definition union_ok (t : node_type) (x : cell_x) : bool :=
  match t, x with
  | CONST_INT, x_int z => int_ok z
  | (CONST_STR | CONST_DATA), x_str _ => true
  | (REF_VAR | REF_ARRAY | DYN_ARRAY), x_var _ => true
  | _, _ => false
  end.

(** What an execution may give. *)
Definition ok_result (c : tree_cell) : bool :=
  match c with Cell t _ x _ _ _ _ => union_ok t x | _ => true end.
Definition ok_value (c : tree_cell) : bool := ok_result c && nasl_is_leaf c.

Definition ok_var (v : anon_nasl_var) : Prop :=
  match v with VAR2_INT z => int_ok z = true | _ => True end.
Definition ok_store (s : store) : Prop := map_Forall (fun _ => ok_var) (heap s).

(** The trees of the grammar: expressions, instructions (an expression is one) and
    lists of arguments. *)
Inductive syntax := Expression | Instruction | Arguments.

Fixpoint wf (k : syntax) (c : tree_cell) : bool :=
  let instr := match k with Instruction => true | _ => false end in
  match c with
  | NULL | FAKE_CELL => true
  | Cell NODE_ARG _ _ l0 l1 _ _ =>
      match k with Arguments => wf Expression l0 && wf Arguments l1 | _ => false end
  | Cell t _ x l0 l1 l2 l3 =>
      match k with Arguments => false | _ => true end &&
      match t with
      | CONST_INT | CONST_STR | CONST_DATA | REF_VAR | REF_ARRAY | DYN_ARRAY => union_ok t x
      | NODE_VAR => true
      | NODE_FUN_CALL => wf Arguments l0
      | NODE_ARRAY_EL | EXPR_NOT | EXPR_BIT_NOT | EXPR_U_MINUS | COMP_RE_MATCH
      | COMP_RE_NOMATCH => wf Expression l0
      | NODE_AFF | NODE_PLUS_EQ | NODE_MINUS_EQ | NODE_MULT_EQ | NODE_DIV_EQ
      | NODE_MODULO_EQ | NODE_L_SHIFT_EQ | NODE_R_SHIFT_EQ | NODE_R_USHIFT_EQ
      | EXPR_AND | EXPR_OR | EXPR_PLUS | EXPR_MINUS | EXPR_MULT | EXPR_DIV | EXPR_MODULO
      | EXPR_EXPO | EXPR_BIT_AND | EXPR_BIT_OR | EXPR_BIT_XOR | EXPR_INCR | EXPR_DECR
      | EXPR_L_SHIFT | EXPR_R_SHIFT | EXPR_R_USHIFT | COMP_MATCH | COMP_NOMATCH | COMP_LT
      | COMP_LE | COMP_EQ | COMP_NE | COMP_GT | COMP_GE => wf Expression l0 && wf Expression l1
      | NODE_IF_ELSE => instr && (wf Expression l0 && wf Instruction l1 && wf Instruction l2)
      | NODE_INSTR_L => instr && (wf Instruction l0 && wf Instruction l1)
      | NODE_FOR =>
          instr && (wf Instruction l0 && wf Expression l1 && wf Instruction l2 && wf Instruction l3)
      | NODE_WHILE | NODE_FOREACH => instr && (wf Expression l0 && wf Instruction l1)
      | NODE_REPEAT_UNTIL => instr && (wf Instruction l0 && wf Expression l1)
      | NODE_REPEATED => instr && (wf Expression l0 && wf Expression l1)
      | NODE_FUN_DEF => instr && wf Instruction l1
      | NODE_RETURN => instr && wf Expression l0
      | NODE_LOCAL | NODE_GLOBAL | NODE_BREAK | NODE_CONTINUE => instr
      | _ => false
      end
  end.

Definition ok_func (f : nasl_func) : Prop :=
  match fblock_of f with user_block b => wf Instruction b = true | internal_block _ => True end.

Definition ok_ctxt (c : lex_ctxt) : Prop :=
  ok_value (ret_val c) = true /\ Forall (Forall ok_func) (functions c).

(** All contexts but the last belong to a call. *)
Fixpoint well_stacked (l : list lex_ctxt) : Prop :=
  match l with
  | [] => True
  | c :: up => (up <> [] -> fct_ctxt c = true) /\ well_stacked up
  end.

Record ok_state (s : state) : Prop := mk_ok_state
  { ok_st : ok_store (st_store s);
    ok_ctxts : Forall ok_ctxt (st_ctxts s);
    ok_stack : well_stacked (st_ctxts s) }.

(** ** How the contexts change *)

Definition same_but_vars (c c' : lex_ctxt) : Prop := c' = set_ctx_vars (ctx_vars c') c.

(** Of the contexts of the callers, and of the current one. *)
Definition same_caller (c c' : lex_ctxt) : Prop :=
  c' = set_ret_val (ret_val c') (set_ctx_vars (ctx_vars c') c).
Definition same_frame (c c' : lex_ctxt) : Prop :=
  c' = set_ret_val (ret_val c') (set_line_nb (line_nb c') (set_ctx_vars (ctx_vars c') c)).

Abbreviation int_cell z := (Cell CONST_INT 0 (x_int z) NULL NULL NULL NULL).

(** The values to return stay, unless [exit] has given one and the same integer to
    every context, up to the script's own. *)
Definition exited (l : list lex_ctxt) : Prop :=
  exists z, int_ok z = true /\ Forall (fun c => ret_val c = int_cell z) l.
Definition ret_kept (l l' : list lex_ctxt) : Prop :=
  ret_val <$> l' = ret_val <$> l \/ exited l'.

(** By an expression. *)
Definition kept (l l' : list lex_ctxt) : Prop :=
  match l, l' with
  | [], [] => True
  | c :: up, c' :: up' =>
      same_frame c c' /\ Forall2 same_caller up up' /\ ret_kept (c :: up) (c' :: up')
  | _, _ => False
  end.

(** By an instruction: functions may be declared, flags and the value to return
    may be set, in the current context. *)
Definition same_kind (c c' : lex_ctxt) : Prop :=
  fct_ctxt c' = fct_ctxt c /\ recv_timeout c' = recv_timeout c
  /\ forall h, func_bucket h c `suffix_of` func_bucket h c'.

Definition changed (l l' : list lex_ctxt) : Prop :=
  match l, l' with
  | [], [] => True
  | c :: up, c' :: up' => same_kind c c' /\ Forall2 same_caller up up' /\ ret_kept up up'
  | _, _ => False
  end.

(** ** Triples *)

Definition spec {S A} (I : S -> Prop) (R : S -> S -> Prop) (m : M S A) (Q : A -> Prop) : Prop :=
  forall s a s', I s -> m s = Ret (a, s') -> I s' /\ R s s' /\ Q a.

Section Rules.
Context {S : Type} (I : S -> Prop) (R : S -> S -> Prop) `{!PreOrder R}.

Lemma spec_ret {A} (a : A) (Q : A -> Prop) : Q a -> spec I R (mret a) Q.
Proof. intros HQ s a' s' HI [= <- <-]. done. Qed.

Lemma spec_bind {A B} (m : M S A) (f : A -> M S B) Q Q' :
  spec I R m Q -> (forall a, Q a -> spec I R (f a) Q') -> spec I R (m ≫= f) Q'.
Proof.
  intros Hm Hf s b s' HI H. apply bind_Ret in H as (a & s1 & H1 & H2).
  destruct (Hm _ _ _ HI H1) as (HI1 & HR1 & Ha). destruct (Hf _ Ha _ _ _ HI1 H2) as (? & ? & ?).
  split_and!; [done|by etrans|done].
Qed.

Lemma spec_conseq {A} (m : M S A) (Q Q' : A -> Prop) :
  spec I R m Q -> (forall a, Q a -> Q' a) -> spec I R m Q'.
Proof. intros Hm HQ s a s' HI H. destruct (Hm _ _ _ HI H) as (? & ? & ?). auto. Qed.

Lemma spec_undef {A} (Q : A -> Prop) : spec I R undef Q.
Proof. by intros s a s' HI H. Qed.

Lemma spec_no_return {A} (Q : A -> Prop) : spec I R no_return Q.
Proof. by intros s a s' HI H. Qed.

Lemma spec_iterM {A} (f : A -> M S unit) l Q :
  (forall a, spec I R (f a) (fun _ => True)) -> Q tt -> spec I R (iterM f l) Q.
Proof.
  intros Hf HQ. induction l as [|x l IH]; simpl; [by apply spec_ret|].
  eapply spec_bind; [apply Hf|auto].
Qed.

Lemma spec_int_of x : spec I R (int_of x) (fun z => x = x_int z).
Proof. destruct x; try apply spec_undef. by apply spec_ret. Qed.
Lemma spec_str_of x : spec I R (str_of x) (fun s => x = x_str s).
Proof. destruct x; try apply spec_undef. by apply spec_ret. Qed.
Lemma spec_ref_of x : spec I R (ref_of x) (fun r => x = x_var r).
Proof. destruct x; try apply spec_undef. by apply spec_ret. Qed.
Lemma spec_deref o : spec I R (deref o) (fun a => o = Some a).
Proof. destruct o; [by apply spec_ret|apply spec_undef]. Qed.
End Rules.

(** *** Trees *)

(** Kept from being computed in proofs. *)
Record tree (k : syntax) (c : tree_cell) : Prop := mk_tree { tree_wf : wf k c = true }.

(** *** Integers *)

Lemma int_ok_range z : int_ok z = true <-> MInt.int_range z.
Proof. unfold int_ok, MInt.int_range. lia. Qed.

Lemma int_ok_wrap z : int_ok (MInt.wrap32 z) = true.
Proof. apply int_ok_range, MInt.wrap32_range. Qed.

Lemma int_range_high z : MInt.int_range z <-> Z.shiftr z 31 = 0 \/ Z.shiftr z 31 = -1.
Proof.
  unfold MInt.int_range, MInt.INT_MIN, MInt.INT_MAX. rewrite Z.shiftr_div_pow2 by lia.
  pose proof (Z.div_mod z (2 ^ 31) ltac:(lia)). pose proof (Z.mod_pos_bound z (2 ^ 31) ltac:(lia)). lia.
Qed.

Lemma bitwise_int_ok f x y :
  (forall a b, Z.shiftr (f a b) 31 = f (Z.shiftr a 31) (Z.shiftr b 31)) ->
  f 0 0 = 0 \/ f 0 0 = -1 -> f 0 (-1) = 0 \/ f 0 (-1) = -1 -> f (-1) 0 = 0 \/ f (-1) 0 = -1 ->
  f (-1) (-1) = 0 \/ f (-1) (-1) = -1 ->
  int_ok x = true -> int_ok y = true -> int_ok (f x y) = true.
Proof.
  intros Hf H1 H2 H3 H4. rewrite !int_ok_range, !int_range_high, Hf. intros [-> | ->] [-> | ->]; auto.
Qed.

Lemma quot_int_ok x y : int_ok x = true -> y <> 0 -> (x =? MInt.INT_MIN) && (y =? -1) = false ->
  int_ok (Z.quot x y) = true.
Proof.
  rewrite !int_ok_range. unfold MInt.int_range, MInt.INT_MIN, MInt.INT_MAX. intros Hx Hy Ht.
  destruct (decide (y = 1)) as [->|]; [by rewrite Z.quot_1_r|].
  destruct (decide (y = -1)) as [->|]; [change (-1) with (- (1)); rewrite Z.quot_opp_r, Z.quot_1_r by lia; lia|].
  pose proof (Z.quot_abs x y ltac:(lia)) as Ha.
  assert (Z.quot (Z.abs x) (Z.abs y) <= 2 ^ 30).
  { rewrite Z.quot_div_nonneg by lia. apply Z.div_le_upper_bound; nia. }
  lia.
Qed.

Lemma rem_int_ok x y : int_ok y = true -> y <> 0 -> int_ok (Z.rem x y) = true.
Proof.
  rewrite !int_ok_range. unfold MInt.int_range, MInt.INT_MIN, MInt.INT_MAX. intros Hy Hne.
  pose proof (Z.rem_bound_abs x y Hne). lia.
Qed.

Lemma shiftr_int_ok x y : int_ok x = true -> 0 <= y -> int_ok (Z.shiftr x y) = true.
Proof.
  rewrite !int_ok_range, !int_range_high, Z.shiftr_shiftr by lia. intros Hx Hy.
  rewrite Z.add_comm, <- Z.shiftr_shiftr by lia.
  destruct Hx as [-> | ->]; [left; apply Z.shiftr_0_l|right].
  rewrite Z.shiftr_div_pow2 by lia. pose proof (Z.pow_pos_nonneg 2 y). 
  symmetry. apply (Z.div_unique_pos _ _ _ (2 ^ y - 1)); lia.
Qed.

Lemma expo_int_ok x y : int_ok x = true -> int_ok (expo x y) = true.
Proof.
  intros Hx. destruct y as [|y|y]; simpl; [done| |by case_match].
  destruct y; simpl; [apply int_ok_wrap|apply int_ok_wrap|done].
Qed.

Lemma lnot_int_ok x : int_ok x = true -> int_ok (Z.lnot x) = true.
Proof. rewrite !int_ok_range. unfold MInt.int_range, MInt.INT_MIN, MInt.INT_MAX, Z.lnot. lia. Qed.

Lemma arith_int_ok op x y z : int_ok x = true -> int_ok y = true -> arith op x y = Ret z -> int_ok z = true.
Proof.
  intros Hx Hy. unfold arith. destruct op; try done; cbv zeta;
    repeat (case_match; try done); intros [= <-];
    auto using int_ok_wrap, rem_int_ok, expo_int_ok with lia.
  1: apply quot_int_ok; [done|lia|done].
  1-3: apply bitwise_int_ok; try done; auto using Z.shiftr_land, Z.shiftr_lor, Z.shiftr_lxor.
  apply shiftr_int_ok; [done|lia].
Qed.

(** ** Variables *)

Definition any_change {S} : S -> S -> Prop := fun _ _ => True.
#[global] Instance any_change_preorder {S} : PreOrder (@any_change S).
Proof. done. Qed.

Abbreviation keeps_types m Q := (spec ok_store any_change m Q).

Create HintDb types discriminated.
#[export] Hint Constants Opaque : types.
#[export] Hint Variables Opaque : types.
#[export] Hint Extern 0 (PreOrder _) => typeclasses eauto : types.
#[export] Hint Resolve spec_int_of spec_str_of spec_ref_of spec_deref : types.

Lemma load_types a : keeps_types (load a) ok_var.
Proof.
  intros s v s' Hs. unfold load. destruct (heap s !! a) as [u|] eqn:E; [|done].
  intros [= <- <-]. split_and!; [done|done|]. by apply (Hs a).
Qed.

Lemma alloc_types v : ok_var v -> keeps_types (alloc v) (fun _ => True).
Proof.
  intros Hv s a s' Hs [= <- <-]. split_and!; [|done|done].
  by apply map_Forall_insert_2.
Qed.

Lemma write_types a v : ok_var v -> keeps_types (write a v) (fun _ => True).
Proof.
  intros Hv s u s' Hs. unfold write. destruct (heap s !! a); [|done]. intros [= <- <-].
  split_and!; [|done|done]. by apply map_Forall_insert_2.
Qed.

Lemma free_types a : keeps_types (free a) (fun _ => True).
Proof.
  intros s u s' Hs. unfold free. destruct (heap s !! a); [|done]. intros [= <- <-].
  split_and!; [|done|done]. by apply map_Forall_delete.
Qed.
#[export] Hint Resolve load_types alloc_types write_types free_types : types.

(** What is known of a cell or a variable. *)
Ltac solve_ok :=
  cbv beta in *; subst; unfold ok_value, CStr.atoi in *; cbn in *; repeat case_match; try done;
  rewrite ?andb_true_r; auto using int_ok_wrap, lnot_int_ok.
#[export] Hint Extern 3 (ok_var _) => solve [solve_ok] : types.

(** One step of a function: the first call, a conditional, a result. *)
Ltac spec_step :=
  lazymatch goal with
  | |- spec _ _ (mret _) _ => apply spec_ret; [apply _|]
  | |- spec _ _ undef _ => apply spec_undef
  | |- spec _ _ no_return _ => apply spec_no_return
  | |- spec _ _ (_ ≫= _) _ =>
      first [ eapply spec_bind; [apply _|solve [eauto with types]|]
            | apply (spec_bind _ _ _ _ (fun z : Z => int_ok z = true))
            | apply (spec_bind _ _ _ _ (fun _ => True)) ]; [..|let H := fresh "H" in intros ? H; cbv beta in H]
  | |- spec _ _ (let _ := _ in _) _ => cbv zeta
  | |- spec _ _ (if ?b then _ else _) _ => destruct b eqn:?
  | |- spec _ _ (match ?x with _ => _ end) _ => destruct x eqn:?
  | |- spec _ _ _ (fun _ => True) => eapply spec_conseq; [solve [eauto with types]|done]
  | |- spec _ _ _ _ => solve [eauto with types]
  | |- _ => first [solve [solve_ok] | solve [eauto with types]]
  end.
Ltac spec_solve := repeat (spec_step; try done).

Lemma array_at_types a : keeps_types (array_at a) (fun _ => True).
Proof. unfold array_at. spec_solve. Qed.
#[export] Hint Resolve array_at_types : types.

Lemma resize_types size num l : keeps_types (resize size num l) (fun _ => True).
Proof. unfold resize. spec_solve. Qed.
#[export] Hint Resolve resize_types : types.

Lemma get_var_by_num_types a num create : keeps_types (nasl_get_var_by_num a num create) (fun _ => True).
Proof. unfold nasl_get_var_by_num. spec_solve. Qed.

Lemma get_var_by_name_types a s : keeps_types (get_var_by_name a s) (fun _ => True).
Proof. unfold get_var_by_name. spec_solve. Qed.
#[export] Hint Resolve get_var_by_num_types get_var_by_name_types : types.

Lemma free_anon_var_types k v : keeps_types (free_anon_var k v) (fun _ => True).
Proof.
  revert v. induction k as [|k IH]; intros v; simpl; unfold free_array_with, free_var_chain; spec_solve.
  all: apply spec_iterM; try done; intros; try apply IH.
  all: apply spec_iterM; try done; intros; apply IH.
Qed.

Lemma free_array_types k a : keeps_types (free_array k a) (fun _ => True).
Proof.
  unfold free_array, free_array_with, free_var_chain. spec_solve.
  all: apply spec_iterM; try done; intros; try apply free_anon_var_types.
  all: apply spec_iterM; try done; intros; apply free_anon_var_types.
Qed.
#[export] Hint Resolve free_anon_var_types free_array_types : types.

Lemma clear_value_types k v : keeps_types (clear_value k v) (fun _ => True).
Proof. unfold clear_value, clear_array. spec_solve. Qed.
#[export] Hint Resolve clear_value_types : types.

Lemma clear_anon_var_types k v : keeps_types (clear_anon_var k v) (fun _ => True).
Proof. unfold clear_anon_var. spec_solve. Qed.
#[export] Hint Resolve clear_anon_var_types : types.

(** *** Copies *)

Lemma copy_array_with_types f k a1 a2 named :
  (forall v u, ok_var u -> keeps_types (f v u) (fun _ => True)) ->
  keeps_types (copy_array_with f k a1 a2 named) (fun _ => True).
Proof.
  intros Hf.
  assert (Hu : forall g, keeps_types (update_array a1 g) (fun _ => True)).
  { intros g. unfold update_array. spec_solve. }
  assert (Hd : forall v, keeps_types (dup_anon_var_with f v) (fun _ => True)).
  { intros v. unfold dup_anon_var_with. spec_solve. }
  assert (Hn : forall v, keeps_types (dup_named_var f v) (fun _ => True)).
  { intros v. unfold dup_named_var. spec_solve. }
  assert (He : forall l i, keeps_types (copy_elements f a1 i l) (fun _ => True)).
  { induction l; intros; simpl; spec_solve. }
  assert (Hc : forall l h, keeps_types (copy_chain f a1 h l) (fun _ => True)).
  { induction l; intros; simpl; spec_solve. }
  assert (Ht : forall t h, keeps_types (copy_chains f a1 h t) (fun _ => True)).
  { induction t; intros; simpl; spec_solve. }
  unfold copy_array_with, clear_array. spec_solve.
Qed.

Lemma copy_anon_var_types k v u : ok_var u -> keeps_types (copy_anon_var k v u) (fun _ => True).
Proof.
  revert v u. induction k as [|k IH]; intros v u Hu; destruct u; simpl; spec_solve.
  exact (copy_array_with_types _ _ _ _ _ IH).
Qed.

Lemma copy_array_types k a1 a2 named : keeps_types (copy_array k a1 a2 named) (fun _ => True).
Proof. exact (copy_array_with_types _ _ _ _ _ (copy_anon_var_types k)). Qed.
#[export] Hint Resolve copy_anon_var_types copy_array_types : types.

Lemma copy_ref_array_types k c : keeps_types (copy_ref_array k c) (fun r => ok_value r = true).
Proof. unfold copy_ref_array. spec_solve. Qed.
#[export] Hint Resolve copy_ref_array_types : types.

(** *** Elements, assignment, reading *)

Definition ok_rvalue (r : rvalue) : Prop := match r with rv_value v => ok_var v | _ => True end.
#[export] Hint Extern 3 (ok_rvalue _) => solve [solve_ok] : types.

Lemma array_elem_types a t x create :
  keeps_types (array_elem a t x create) (fun r => ok_result (default NULL (fst r)) = true).
Proof. unfold array_elem. spec_solve. Qed.
#[export] Hint Resolve array_elem_types : types.

Lemma string_elem_types v line i : ok_result (string_elem v line i) = true.
Proof. unfold string_elem. repeat case_match; done. Qed.

Lemma elem_of_var_types u t line x : keeps_types (elem_of_var u t line x) (fun r => ok_result r = true).
Proof. unfold elem_of_var. spec_solve. all: by apply string_elem_types. Qed.

Lemma rvalue_of_types v1 t x : union_ok t x = true -> keeps_types (rvalue_of v1 t x) ok_rvalue.
Proof. intros Hx. unfold rvalue_of. spec_solve. Qed.

#[export] Hint Resolve rvalue_of_types : types.

Lemma affect_types k v c : ok_result c = true -> keeps_types (affect_to_anon_var k v c) (fun r => ok_result r = true).
Proof.
  intros Hc. destruct c as [| |t line x]; unfold affect_to_anon_var; spec_solve.
Qed.
#[export] Hint Resolve elem_of_var_types affect_types : types.

Lemma nasl_affect_types k l r : ok_result r = true -> keeps_types (nasl_affect k l r) (fun r => ok_result r = true).
Proof. intros Hr. unfold nasl_affect. spec_solve. Qed.

Lemma create_anon_var_types k c : ok_result c = true -> keeps_types (create_anon_var k c) (fun _ => True).
Proof. intros Hc. unfold create_anon_var. spec_solve. Qed.
#[export] Hint Resolve create_anon_var_types : types.

Lemma read_var_ref_types c : keeps_types (nasl_read_var_ref c) (fun r => ok_result r = true).
Proof. unfold nasl_read_var_ref. spec_solve. Qed.

Lemma incr_types k c pre val : keeps_types (nasl_incr_variable k c pre val) (fun r => ok_result r = true).
Proof. unfold nasl_incr_variable. spec_solve. Qed.
#[export] Hint Resolve nasl_affect_types read_var_ref_types incr_types : types.

Lemma array2str_types a : keeps_types (array2str a) (fun _ => True).
Proof.
  assert (Hm : forall A B (f : A -> M store B) l, (forall x, keeps_types (f x) (fun _ => True)) ->
            keeps_types (mapS f l) (fun _ => True)).
  { intros A B f l Hf. induction l; simpl; spec_solve. }
  assert (Hw : forall l l', keeps_types (with_buffer l l') (fun _ => True)).
  { intros l l' s r s' Hs. unfold with_buffer. by destruct (array2str_buffer _ _ _) as [[]| |]; intros [= <- <-]. }
  unfold array2str. spec_solve.
  all: apply Hm; intros; spec_solve.
Qed.
#[export] Hint Resolve array2str_types : types.

(** *** Variables of a context *)

Lemma same_vars_set a c : same_but_vars c (set_ctx_vars a c).
Proof. done. Qed.
Lemma same_vars_refl c : same_but_vars c c.
Proof. by destruct c. Qed.
Lemma same_vars_trans c c' c'' : same_but_vars c c' -> same_but_vars c' c'' -> same_but_vars c c''.
Proof. by unfold same_but_vars; intros -> ->. Qed.

#[export] Hint Extern 3 (same_but_vars _ _) =>
  solve [apply same_vars_refl | apply same_vars_set | eapply same_vars_trans; eauto using same_vars_set] : types.

Lemma add_numbered_types k c n v : ok_result v = true ->
  keeps_types (add_numbered_var_to_ctxt k c n v) (fun r => same_but_vars c (snd r)).
Proof. intros Hv. unfold add_numbered_var_to_ctxt. spec_solve. Qed.

Lemma add_named_types k c n v : ok_result v = true ->
  keeps_types (add_named_var_to_ctxt k c n v) (fun r => same_but_vars c (snd r)).
Proof. intros Hv. unfold add_named_var_to_ctxt, push_var. spec_solve. Qed.
#[export] Hint Resolve add_numbered_types add_named_types : types.

Lemma decl_variables_types k c vars : keeps_types (decl_variables k c vars) (same_but_vars c).
Proof.
  revert c. induction vars; intros c; simpl; spec_solve.
  eapply spec_conseq; [done|]. cbv beta in *. eauto using same_vars_trans.
Qed.
#[export] Hint Resolve decl_variables_types : types.

(** ** Contexts *)

Lemma same_frame_refl c : same_frame c c.
Proof. by destruct c. Qed.
Lemma same_vars_frame c c' : same_but_vars c c' -> same_frame c c'.
Proof. by unfold same_but_vars, same_frame; intros ->; destruct c. Qed.
Lemma same_vars_caller c c' : same_but_vars c c' -> same_caller c c'.
Proof. by unfold same_but_vars, same_caller; intros ->; destruct c. Qed.
Lemma same_vars_ret c c' : same_but_vars c c' -> ret_val c' = ret_val c.
Proof. by unfold same_but_vars; intros ->. Qed.
Lemma same_caller_frame c c' : same_caller c c' -> same_frame c c'.
Proof. by unfold same_caller, same_frame; intros ->; destruct c. Qed.
Lemma same_frame_trans c c' c'' : same_frame c c' -> same_frame c' c'' -> same_frame c c''.
Proof. by unfold same_frame; intros -> ->. Qed.
Lemma same_frame_kind c c' : same_frame c c' -> same_kind c c'.
Proof. unfold same_frame, same_kind. intros ->. split_and!; [done|done|]. intros h. done. Qed.
Lemma same_kind_trans c c' c'' : same_kind c c' -> same_kind c' c'' -> same_kind c c''.
Proof.
  intros (H1 & H2 & H3) (H4 & H5 & H6). split_and!; [congruence|congruence|].
  intros h. by transitivity (func_bucket h c').
Qed.

#[global] Instance same_but_vars_preorder : PreOrder same_but_vars.
Proof. split; red; eauto using same_vars_refl, same_vars_trans. Qed.
#[global] Instance same_caller_preorder : PreOrder same_caller.
Proof. split; red; [by intros []|]. by unfold same_caller; intros ??? -> ->. Qed.

#[global] Instance ret_kept_preorder : PreOrder ret_kept.
Proof.
  split; [by left|]. intros l l' l'' H1 [H2|H2]; [|by right].
  destruct H1 as [H1|(z & Hz & H1)]; [left; congruence|right]. exists z. split; [done|].
  assert (H : Forall (fun v => v = int_cell z) (ret_val <$> l'')) by (rewrite H2; by apply Forall_fmap).
  by apply Forall_fmap in H.
Qed.

Lemma ret_kept_up c up c' up' : ret_kept (c :: up) (c' :: up') -> ret_kept up up'.
Proof.
  intros [H|(z & Hz & H)]; [left; by injection H|right]. exists z. split; [done|]. by inversion H.
Qed.

Lemma ret_kept_same c up c' : ret_val c' = ret_val c -> ret_kept (c :: up) (c' :: up).
Proof. intros H. left. cbn. by rewrite H. Qed.

#[global] Instance kept_preorder : PreOrder kept.
Proof.
  split.
  - intros [|c l]; simpl; [done|]. split_and!; [apply same_frame_refl|reflexivity..].
  - intros [|c l] [|c' l'] [|c'' l'']; simpl; try done. intros (H1 & H2 & H3) (H4 & H5 & H6).
    split_and!; [by eapply same_frame_trans|by etrans..].
Qed.

#[global] Instance changed_preorder : PreOrder changed.
Proof.
  split.
  - intros [|c l]; simpl; [done|]. split_and!; [apply same_frame_kind, same_frame_refl|reflexivity..].
  - intros [|c l] [|c' l'] [|c'' l'']; simpl; try done. intros (H1 & H2 & H3) (H4 & H5 & H6).
    split_and!; [by eapply same_kind_trans|by etrans..].
Qed.

Lemma kept_changed l l' : kept l l' -> changed l l'.
Proof.
  destruct l, l'; simpl; try done. intros (H1 & H2 & H3).
  split_and!; [by apply same_frame_kind|done|by eapply ret_kept_up].
Qed.

Lemma callers_kept l l' : Forall2 same_caller l l' -> ret_kept l l' -> kept l l'.
Proof. intros H Hr. destruct H; simpl; [done|]. split_and!; [by apply same_caller_frame|done..]. Qed.

Lemma same_vars_kept l l' : Forall2 same_but_vars l l' -> kept l l'.
Proof.
  intros H. apply callers_kept; [eapply Forall2_impl; [exact H|apply same_vars_caller]|left].
  induction H as [|c c' l l' Hc _ IH]; cbn; [done|]. by rewrite IH, (same_vars_ret _ _ Hc).
Qed.

Lemma same_frame_funcs c c' : same_frame c c' -> functions c' = functions c.
Proof. by unfold same_frame; intros ->. Qed.

(** Contexts are well typed by their values to return and their functions. *)
Lemma ok_ctxts_parts l : Forall ok_ctxt l <->
  Forall (fun v => ok_value v = true) (ret_val <$> l) /\ Forall (Forall (Forall ok_func)) (functions <$> l).
Proof. rewrite !Forall_fmap. apply Forall_and. Qed.

Lemma ret_kept_ok l l' : ret_kept l l' ->
  Forall (fun v => ok_value v = true) (ret_val <$> l) -> Forall (fun v => ok_value v = true) (ret_val <$> l').
Proof.
  intros [->|(z & Hz & H)] Hl; [done|]. apply Forall_fmap. eapply Forall_impl; [exact H|].
  intros c Hc. cbn. rewrite Hc. unfold ok_value. cbn. by rewrite Hz.
Qed.

Lemma same_callers_funcs l l' : Forall2 same_caller l l' -> functions <$> l' = functions <$> l.
Proof.
  induction 1 as [|c c' l l' Hc Hl IH]; cbn; [done|].
  by rewrite IH, (same_frame_funcs c c') by by apply same_caller_frame.
Qed.

Lemma kept_ok l l' : kept l l' -> Forall ok_ctxt l -> Forall ok_ctxt l'.
Proof.
  destruct l as [|c l], l' as [|c' l']; simpl; try done. intros (H1 & H2 & H3).
  rewrite !ok_ctxts_parts. intros [Hv Hf]. split; [by eapply ret_kept_ok|].
  cbn in *. by rewrite (same_frame_funcs _ _ H1), (same_callers_funcs _ _ H2).
Qed.

Lemma same_callers_stack l l' : Forall2 same_caller l l' -> well_stacked l -> well_stacked l'.
Proof.
  induction 1 as [|c c' l l' Hc Hl IH]; simpl; [done|]. intros [H1 H2]. split; [|auto].
  intros Hne. rewrite Hc. apply H1. intros ->. by inversion Hl; subst.
Qed.

Lemma changed_stack l l' : changed l l' -> well_stacked l -> well_stacked l'.
Proof.
  destruct l as [|c l], l' as [|c' l']; simpl; try done. intros ((H1 & _) & H2 & _) [H3 H4].
  split; [|by eapply same_callers_stack]. rewrite H1. intros Hne. apply H3. intros ->. by inversion H2; subst.
Qed.

Definition kept_st (s s' : state) : Prop := kept (st_ctxts s) (st_ctxts s').
Definition changed_st (s s' : state) : Prop := changed (st_ctxts s) (st_ctxts s').

#[global] Instance kept_st_preorder : PreOrder kept_st.
Proof. unfold kept_st. split; red; intros; [done|by etrans]. Qed.
#[global] Instance changed_st_preorder : PreOrder changed_st.
Proof. unfold changed_st. split; red; intros; [done|by etrans]. Qed.

Abbreviation keeps m Q := (spec ok_state kept_st m Q).
Abbreviation changes m Q := (spec ok_state changed_st m Q).

(** It is enough to look at the store and at the change. *)
Lemma keeps_intro {A} (m : M state A) (Q : A -> Prop) :
  (forall s a s', ok_state s -> m s = Ret (a, s') ->
     ok_store (st_store s') /\ kept (st_ctxts s) (st_ctxts s') /\ Q a) -> keeps m Q.
Proof.
  intros H s a s' Hs Hm. destruct (H _ _ _ Hs Hm) as (H1 & H2 & H3). split_and!; [|done|done].
  split; [done|by eapply kept_ok, ok_ctxts|by eapply changed_stack, ok_stack; first apply kept_changed].
Qed.

Lemma keeps_changes {A} (m : M state A) (Q : A -> Prop) : keeps m Q -> changes m Q.
Proof.
  intros H s a s' Hs Hm. destruct (H _ _ _ Hs Hm) as (H1 & H2 & H3). split_and!; [done| |done].
  by apply kept_changed.
Qed.

Lemma lift_keeps {A} (m : M store A) Q : keeps_types m Q -> keeps (lift m) Q.
Proof.
  intros H. apply keeps_intro. intros s a s' Hs. unfold lift.
  destruct (m (st_store s)) as [[b st]| |] eqn:E; [|done|done]. intros [= <- <-]. cbn.
  destruct (H _ _ _ (ok_st _ Hs) E) as (? & _ & ?). split_and!; [done|reflexivity|done].
Qed.

Lemma lexic_keeps : keeps lexic ok_ctxt.
Proof.
  intros s c s' Hs. unfold lexic. destruct (st_ctxts s) as [|c0 up] eqn:E; [done|]. intros [= <- <-].
  split_and!; [done|reflexivity|]. pose proof (ok_ctxts _ Hs) as H. rewrite E in H. by inversion H.
Qed.

(** A change of variables or of the line. *)
Lemma update_lexic_keeps f : (forall c, same_frame c (f c) /\ ret_val (f c) = ret_val c) ->
  keeps (update_lexic f) (fun _ => True).
Proof.
  intros Hf. apply keeps_intro. intros s a s' Hs. unfold update_lexic.
  destruct (st_ctxts s) as [|c up] eqn:E; [done|]. intros [= <- <-]. cbn.
  split_and!; [apply Hs|apply Hf|reflexivity|apply ret_kept_same, Hf|done].
Qed.

Lemma update_lexic_changes f : (forall c, same_kind c (f c) /\ (ok_ctxt c -> ok_ctxt (f c))) ->
  changes (update_lexic f) (fun _ => True).
Proof.
  intros Hf s a s' Hs. unfold update_lexic.
  destruct (st_ctxts s) as [|c up] eqn:E; [done|]. intros [= <- <-]. destruct (Hf c) as [H1 H2].
  assert (Hch : changed (c :: up) (f c :: up)) by (simpl; by split_and!).
  pose proof (ok_ctxts _ Hs) as Hok. pose proof (ok_stack _ Hs) as Hst. rewrite E in Hok, Hst.
  split_and!; [split; [apply Hs| |]|unfold changed_st; by rewrite E|done].
  - cbn. inversion Hok; subst. constructor; auto.
  - by apply (changed_stack _ _ Hch).
Qed.

(** ** The operations on the state *)

#[export] Hint Resolve lift_keeps lexic_keeps : types.
#[export] Hint Extern 2 (same_frame _ _) =>
  solve [apply same_vars_frame; eauto with types | reflexivity] : types.
#[export] Hint Extern 2 (forall c, same_frame c _ /\ _) => intros; split; reflexivity : types.
#[export] Hint Resolve update_lexic_keeps : types.
#[export] Hint Extern 1 (ok_result _ = true) => solve [solve_ok] : types.

Lemma ok_value_result c : ok_value c = true -> ok_result c = true.
Proof. unfold ok_value. by intros [? ?]%andb_true_iff. Qed.

Lemma ok_result_wf c : ok_result c = true -> tree Expression c.
Proof. intros Hc. split. by destruct c as [| |[] ? []]. Qed.
Lemma wf_leaf c : nasl_is_leaf c = true -> tree Expression c -> ok_value c = true.
Proof. intros Hl [Hc]. unfold ok_value. by destruct c as [| |[] ? []]; simpl in *; rewrite ?andb_true_r. Qed.
#[export] Hint Resolve ok_value_result ok_result_wf : types.
Ltac tree_parts H :=
  destruct H as [H]; cbn [wf] in H; repeat match goal with H : _ && _ = true |- _ => apply andb_true_iff in H as [? ?] end;
  repeat match goal with H : wf _ _ = true |- _ => apply mk_tree in H end.

Lemma get_var_ref_keeps name climb : keeps (get_var_ref_by_name name climb) (fun _ => True).
Proof.
  intros s a s' Hs. unfold get_var_ref_by_name.
  assert (H : keeps (v ← lift (alloc VAR2_UNDEF); update_lexic (push_var name v);; mret v) (fun _ => True)).
  { spec_solve. }
  destruct (if climb then _ else _); [|by apply H]. intros [= <- <-]. split_and!; [done|reflexivity|done].
Qed.
#[export] Hint Resolve get_var_ref_keeps : types.

Lemma get_variable_keeps k name : keeps (get_variable_by_name k name) (fun r => ok_result r = true).
Proof. unfold get_variable_by_name. spec_solve. Qed.

(** A function of the state that is one of others. *)
Lemma keeps_when {A} (m : state -> M state A) (Q : A -> Prop) :
  (forall s, keeps (m s) Q) -> keeps (fun s => m s s) Q.
Proof. intros H s. apply (H s). Qed.

Lemma get_array_elem_keeps name idx : keeps (get_array_elem name idx) (fun r => ok_result r = true).
Proof.
  unfold get_array_elem. spec_solve.
  all: try (intros s r s' Hs; destruct (fake_array _); [|intros [= <- <-]; split_and!; [done|reflexivity|done]]).
  all: try done.
  all: match goal with |- ?m ?s = Ret _ -> _ => assert (Hm : keeps m (fun r => ok_result r = true)) by spec_solve end.
  all: by apply Hm.
Qed.

Lemma decl_local_keeps k vars : keeps (decl_local_variables k vars) (fun r => ok_result r = true).
Proof.
  apply keeps_intro. intros s r s' Hs H.
  apply bind_Ret in H as (c & s1 & H1 & H). unfold lexic in H1.
  destruct (st_ctxts s) as [|c0 up] eqn:E; [done|]. injection H1 as <- <-.
  apply bind_Ret in H as (c' & s2 & H2 & H). unfold lift in H2.
  destruct (decl_variables k c0 vars (st_store s)) as [[c1 st]| |] eqn:Ed; try done.
  injection H2 as <- <-. apply bind_Ret in H as ([] & s3 & H3 & H).
  unfold update_lexic in H3. cbn in H3. rewrite E in H3. injection H3 as <-. injection H as <- <-.
  destruct (decl_variables_types _ _ _ _ _ _ (ok_st _ Hs) Ed) as (Hst & _ & Hc).
  split; [done|]. split; [|done].
  split_and!; [by apply same_vars_frame|reflexivity|by apply ret_kept_same, same_vars_ret].
Qed.

Lemma decl_global_keeps k vars : keeps (decl_global_variables k vars) (fun r => ok_result r = true).
Proof.
  apply keeps_intro. intros s r s' Hs. unfold decl_global_variables.
  destruct (last (st_ctxts s)) as [c|] eqn:El; [|done].
  destruct (decl_variables k c vars (st_store s)) as [[c' st]| |] eqn:Ed; [|done|done].
  intros [= <- <-]. destruct (decl_variables_types _ _ _ _ _ _ (ok_st _ Hs) Ed) as (Hst & _ & Hc).
  split; [done|]. split; [|done]. apply same_vars_kept. cbn. rewrite last_lookup in El.
  apply Forall2_same_length_lookup. split; [by rewrite length_insert|]. intros i x y Hx Hy.
  destruct (decide (i = pred (length (st_ctxts s)))) as [->|Hne].
  - rewrite list_lookup_insert_eq in Hy by (by eapply lookup_lt_Some). naive_solver.
  - rewrite list_lookup_insert_ne in Hy by done. simplify_eq. reflexivity.
Qed.
#[export] Hint Resolve get_variable_keeps get_array_elem_keeps decl_local_keeps decl_global_keeps : types.

(** ** The interpreter *)

(** A call: whatever the function does to its own context is gone with it. *)
Lemma frame_keeps {A} c2 (m : M state tree_cell) (g : tree_cell -> lex_ctxt -> M state A) Q :
  fct_ctxt c2 = true -> ok_ctxt c2 -> changes m (fun r => ok_result r = true) ->
  (forall r c, ok_result r = true -> ok_ctxt c -> keeps (g r c) Q) ->
  keeps (push_ctxt c2;; r ← m; c ← pop_ctxt; g r c) Q.
Proof.
  intros Hfct Hc2 Hm Hg s a s' Hs H.
  apply bind_Ret in H as ([] & s1 & [= <-] & H). apply bind_Ret in H as (r & s2 & H2 & H).
  apply bind_Ret in H as (c & s3 & H3 & H).
  assert (Hs1 : ok_state (mk_state (st_store s) (c2 :: st_ctxts s))).
  { destruct Hs. split; [done|by constructor|by split]. }
  destruct (Hm _ _ _ Hs1 H2) as ([Hst2 Hok2 Hstack2] & Hch & Hr).
  unfold pop_ctxt in H3. destruct (st_ctxts s2) as [|c' up'] eqn:E2; [done|]. injection H3 as <- <-.
  unfold changed_st in Hch. rewrite E2 in Hch. destruct Hch as (_ & Hup & Hret). inversion Hok2; subst.
  assert (Hs3 : ok_state (mk_state (st_store s2) up')) by (split; [done|done|apply Hstack2]).
  destruct (Hg r c' Hr ltac:(done) _ _ _ Hs3 H) as (? & Hk & ?). split_and!; [done| |done].
  transitivity (mk_state (st_store s2) up'); [by apply callers_kept|exact Hk].
Qed.

Section Exec.
Context (regexec : string -> string -> Z) (builtin : string -> M state tree_cell).
Context (exec : tree_cell -> M state tree_cell).
Context (Hbuiltin : forall g, keeps (builtin g) (fun r => ok_result r = true)).
Context (Hexpr : forall c, tree Expression c -> keeps (exec c) (fun r => ok_result r = true)).
Context (Hinstr : forall c, tree Instruction c -> changes (exec c) (fun r => ok_result r = true)).

#[local] Hint Extern 1 (keeps (exec _) _) => apply Hexpr : types.
#[local] Hint Extern 1 (changes (exec _) _) => apply Hinstr : types.
#[local] Hint Extern 2 (tree _ _) => assumption : types.

Lemma cell2bool_keeps k c : tree Expression c -> keeps (cell2bool exec k c) (fun _ => True).
Proof.
  revert c. induction k as [|k IH]; intros [| |[] ? ? ? ? ? ?] Hc; simpl; spec_solve.
  all: apply IH; eauto with types.
Qed.

Lemma cell2int_keeps k c : tree Expression c -> keeps (cell2int exec k c) (fun z => int_ok z = true).
Proof.
  revert c. induction k as [|k IH]; intros [| |[] ? ? ? ? ? ?] Hc; simpl; spec_solve.
  all: eapply spec_conseq; [apply spec_int_of, _|by intros ? ->; destruct Hc].
Qed.

Lemma cell2str_keeps k c : tree Expression c -> keeps (cell2str exec k c) (fun _ => True).
Proof.
  assert (Ha : forall a, keeps_types (arr ← array_at a; array2str arr) (fun _ => True)) by (intros; spec_solve).
  revert c. induction k as [|k IH]; intros [| |[] ? ? ? ? ? ?] Hc; simpl; spec_solve.
  all: apply IH; eauto with types.
Qed.

Lemma cell2atom_keeps k c : tree Expression c -> keeps (cell2atom exec k c) (fun r => ok_value r = true).
Proof.
  revert c. induction k as [|k IH]; intros c Hc; simpl; spec_solve;
    eauto using wf_leaf with types.
Qed.
#[local] Hint Resolve cell2bool_keeps cell2int_keeps cell2str_keeps cell2atom_keeps : types.

Lemma text_of_keeps k c : tree Expression c -> keeps (text_of exec k c) (fun _ => True).
Proof. intros Hc. unfold text_of. spec_solve. Qed.
#[local] Hint Resolve text_of_keeps : types.

Lemma cell_cmp_keeps k c1 c2 : tree Expression c1 -> tree Expression c2 ->
  keeps (cell_cmp exec k c1 c2) (fun _ => True).
Proof. intros H1 H2. unfold cell_cmp. spec_solve. Qed.
#[local] Hint Resolve cell_cmp_keeps : types.

(** *** Calls *)

Lemma bind_args_keeps k args : forall n c, tree Arguments args ->
  keeps (bind_args exec k args n c) (fun r => same_but_vars c (snd r)).
Proof.
  induction args as [| |t ? x l0 IH0 l1 IH1 l2 IH2 l3 IH3]; intros n c Hc; simpl; [spec_solve..|].
  destruct t; try (by tree_parts Hc). tree_parts Hc. spec_solve.
  all: eapply spec_conseq; [by apply IH1|]; cbv beta; eauto using same_vars_trans.
Qed.
#[local] Hint Resolve bind_args_keeps : types.

Lemma new_ctxt_ok c : ok_ctxt (func_ctxt c).
Proof. split; [done|]. apply (Forall_replicate (Forall ok_func) FUNC_NAME_HASH []). constructor. Qed.

Lemma call_result_ok r c : ok_result r = true -> ok_ctxt c -> ok_result (call_result r c) = true.
Proof. intros Hr [Hc _]. unfold call_result. case_match; eauto with types. Qed.

Lemma get_func_ok name h l f : Forall ok_ctxt l -> get_func name h l = Some f -> ok_func f.
Proof.
  induction 1 as [|c up [_ Hc] Hup IH]; simpl; [done|]. intros H.
  destruct (List.find _ _) as [g|] eqn:E; [|auto]. injection H as ->.
  apply find_some in E as [Hin _]. unfold func_bucket in Hin.
  destruct (functions c !! h) as [b|] eqn:Eb; [|done]. simpl in Hin.
  eapply Forall_lookup in Hc; [|done]. eapply List.Forall_forall in Hc; done.
Qed.

Lemma get_func_ref_keeps name :
  keeps (get_func_ref_by_name name) (fun f => match f with Some f => ok_func f | None => True end).
Proof.
  intros s f s' Hs [= <- <-]. split_and!; [done|reflexivity|].
  case_match eqn:E; [|done]. eapply get_func_ok; [by apply ok_ctxts|done].
Qed.

Lemma nasl_func_call_keeps k f args : ok_func f -> tree Arguments args ->
  keeps (nasl_func_call builtin exec k f args) (fun r => ok_result r = true).
Proof.
  intros Hf Hargs. unfold nasl_func_call, free_lex_ctxt.
  eapply spec_bind; [apply _|apply lexic_keeps|]. intros c0 _. destruct (compat f); [spec_solve|].
  eapply spec_bind; [apply _|by apply bind_args_keeps|]. intros [ok c2] Hc2. cbn [fst snd] in *.
  destruct ok; [|spec_solve].
  apply frame_keeps.
  - by rewrite Hc2.
  - rewrite Hc2. apply new_ctxt_ok.
  - unfold ok_func in Hf. destruct (fblock_of f) as [block|g]; [|by apply keeps_changes].
    eapply spec_bind; [apply _|apply Hinstr; by split|]. intros r Hr. by apply spec_ret; [apply _|].
  - intros r c Hr Hc. spec_solve. by apply call_result_ok.
Qed.
#[local] Hint Resolve get_func_ref_keeps nasl_func_call_keeps : types.

Lemma exec_fun_call_keeps k name args : tree Arguments args ->
  keeps (exec_fun_call builtin exec k name args) (fun r => ok_result r = true).
Proof. intros Hargs. unfold exec_fun_call. spec_solve. Qed.

(** *** Operators *)

Lemma result_type_cases t1 t2 :
  result_type t1 t2 = None \/ result_type t1 t2 = Some CONST_INT \/ result_type t1 t2 = Some CONST_STR
  \/ result_type t1 t2 = Some CONST_DATA.
Proof. destruct t1 as [[]|], t2 as [[]|]; simpl; auto. Qed.

Lemma exec_plus_keeps k l0 l1 : tree Expression l0 -> tree Expression l1 ->
  keeps (exec_plus exec k l0 l1) (fun r => ok_result r = true).
Proof.
  intros H0 H1. unfold exec_plus.
  eapply spec_bind; [apply _|by apply cell2atom_keeps|]. intros tc1 Htc1.
  eapply spec_bind; [apply _|by apply cell2atom_keeps|]. intros tc2 Htc2. cbv beta in *.
  apply ok_value_result in Htc1, Htc2.
  destruct tc2; [by apply spec_ret; [apply _|]..|]. destruct tc1; [by apply spec_ret; [apply _|]..|].
  edestruct result_type_cases as [->|[->|[->| ->]]]; spec_solve.
Qed.

Lemma exec_minus_keeps k l0 l1 : tree Expression l0 -> tree Expression l1 ->
  keeps (exec_minus exec k l0 l1) (fun r => ok_result r = true).
Proof.
  intros H0 H1. unfold exec_minus.
  eapply spec_bind; [apply _|by apply cell2atom_keeps|]. intros tc1 Htc1.
  eapply spec_bind; [apply _|by apply cell2atom_keeps|]. intros tc2 Htc2. cbv beta in *.
  apply ok_value_result in Htc1, Htc2. destruct (no_cell tc2); [by apply spec_ret; [apply _|]|].
  destruct (no_cell tc1).
  - destruct tc2 as [| |[] ? ? ? ? ? ?]; spec_solve.
  - edestruct result_type_cases as [->|[->|[->| ->]]]; spec_solve.
Qed.
#[local] Hint Resolve exec_plus_keeps exec_minus_keeps : types.

Lemma arith_keeps op x y : int_ok x = true -> int_ok y = true ->
  keeps (of_outcome (arith op x y)) (fun z => int_ok z = true).
Proof.
  intros Hx Hy s z s' Hs. unfold of_outcome. destruct (arith op x y) eqn:E; intros [= <- <-].
  split; [done|]. split; [reflexivity|]. by eapply arith_int_ok in E.
Qed.

Lemma exec_incr_keeps k val l0 l1 : tree Expression l0 -> tree Expression l1 ->
  keeps (exec_incr exec k val l0 l1) (fun r => ok_result r = true).
Proof. intros H0 H1. unfold exec_incr. destruct (is_null l0); spec_solve. Qed.
#[local] Hint Resolve arith_keeps exec_incr_keeps : types.

Lemma operators_keep k t l x l0 l1 l2 l3 : tree Expression (Cell t l x l0 l1 l2 l3) ->
  keeps (operators regexec exec k t x l0 l1) (fun r => ok_result r = true).
Proof.
  intros Hc. destruct t; cbn [operators]; try apply spec_undef; tree_parts Hc;
    unfold exec_and, exec_or, exec_not, exec_arith, exec_unary,
      exec_match, exec_re_match, exec_comp; spec_solve.
Qed.
#[local] Hint Resolve operators_keep exec_fun_call_keeps : types.

(** *** Instructions *)

#[local] Hint Resolve keeps_changes : types.

Ltac flag_change :=
  apply update_lexic_changes; intros c;
  split; [split; [done|split; [done|intros h; reflexivity]]|exact (fun H => H)].

Lemma break_changes b : changes (update_lexic (set_break_flag b)) (fun _ => True).
Proof. flag_change. Qed.
Lemma cont_changes b : changes (update_lexic (set_cont_flag b)) (fun _ => True).
Proof. flag_change. Qed.
#[local] Hint Resolve break_changes cont_changes : types.

Lemma loop_continues_changes : changes loop_continues (fun _ => True).
Proof. unfold loop_continues. spec_solve. Qed.
#[local] Hint Resolve loop_continues_changes : types.

Lemma ret_val_ok c : ok_ctxt c -> ok_result (ret_val c) = true.
Proof. intros [? _]. eauto with types. Qed.
#[local] Hint Resolve ret_val_ok : types.

Lemma for_loop_changes k l1 l2 l3 : tree Expression l1 -> tree Instruction l2 -> tree Instruction l3 ->
  changes (for_loop exec k l1 l2 l3) (fun r => ok_result r = true).
Proof. intros H1 H2 H3. induction k as [|k IH]; simpl; spec_solve. Qed.

Lemma while_loop_changes k l0 l1 : tree Expression l0 -> tree Instruction l1 ->
  changes (while_loop exec k l0 l1) (fun r => ok_result r = true).
Proof. intros H1 H2. induction k as [|k IH]; simpl; spec_solve. Qed.

Lemma repeat_loop_changes k l0 l1 : tree Instruction l0 -> tree Expression l1 ->
  changes (repeat_loop exec k l0 l1) (fun r => ok_result r = true).
Proof. intros H1 H2. induction k as [|k IH]; simpl; spec_solve. Qed.

Lemma iterate_keeps ai : keeps (lift (nasl_iterate_array ai)) (fun _ => True).
Proof.
  assert (Hf : forall l, keeps_types (first_defined l) (fun _ => True)).
  { induction l; simpl; spec_solve. }
  assert (Hn : forall t h, keeps_types (next_chains h t) (fun _ => True)).
  { induction t; intros; simpl; spec_solve. }
  assert (Ha : forall v l, keeps_types (after_var v l) (fun _ => True)).
  { induction l; simpl; spec_solve. }
  apply lift_keeps. unfold nasl_iterate_array. spec_solve.
Qed.

Lemma iterator_keeps c : keeps (lift (nasl_array_iterator c)) (fun _ => True).
Proof. apply lift_keeps. unfold nasl_array_iterator. spec_solve. Qed.
#[local] Hint Resolve iterate_keeps iterator_keeps : types.

Lemma foreach_loop_changes k v l1 ai : tree Instruction l1 ->
  changes (foreach_loop exec k v l1 ai) (fun r => ok_result r = true).
Proof. intros H1. revert ai. induction k as [|k IH]; intros ai; simpl; spec_solve. Qed.

Lemma repeated_keeps k i n l0 : tree Expression l0 ->
  keeps (repeated exec k i n l0) (fun r => ok_result r = true).
Proof. intros H1. revert i. induction k as [|k IH]; intros i; simpl; spec_solve. Qed.
#[local] Hint Resolve for_loop_changes while_loop_changes repeat_loop_changes foreach_loop_changes
  repeated_keeps : types.

Lemma set_ret_changes r : ok_value r = true -> changes (set_ret r) (fun _ => True).
Proof.
  intros Hr s [] s' Hs [= <-]. destruct Hs as [Hst Hok Hstack]. unfold changed_st. cbn.
  destruct (st_ctxts s) as [|c up]; [done|]. inversion Hok as [|? ? [Hc1 Hc2] Hup]; subst.
  assert (E : (if fct_ctxt c then up else set_ret_vals r up) = up).
  { destruct Hstack as [H _]. destruct up as [|c' up]; [by destruct (fct_ctxt c)|]. by rewrite H. }
  simpl. rewrite E. split; [split; [done|by constructor|done]|]. split; [|done].
  split_and!; [|reflexivity..]. by repeat split.
Qed.

Lemma return_changes k c : tree Expression c ->
  changes (nasl_return exec k c) (fun r => ok_result r = true).
Proof.
  intros Hc. unfold nasl_return.
  eapply spec_bind; [apply _|by apply keeps_changes, cell2atom_keeps|]. intros v Hv.
  apply (spec_bind _ _ _ _ (fun r => ok_value r = true)).
  - destruct v as [| |[] ? ? ? ? ? ?]; spec_solve.
  - intros r Hr. eapply spec_bind; [apply _|by apply set_ret_changes|]. intros _ _. spec_solve.
Qed.

Lemma insert_func_kind f c : same_kind c (insert_func f c).
Proof.
  split; [done|split; [done|]]. intros h. unfold insert_func. cbn.
  set (n := func_hash (func_name f)). unfold func_bucket. cbn.
  destruct (decide (h = n)) as [->|Hne]; [|by rewrite list_lookup_insert_ne].
  destruct (decide (n < length (functions c))%nat) as [Hn|Hn].
  - rewrite list_lookup_insert_eq by done. cbn. by exists [f].
  - by rewrite (list_insert_ge (functions c) n) by (clear -Hn; lia).
Qed.

Lemma insert_func_ok f c : ok_func f -> ok_ctxt c -> ok_ctxt (insert_func f c).
Proof.
  intros Hf [H1 H2]. split; [done|]. cbn. apply Forall_insert; [done|]. constructor; [done|].
  unfold func_bucket. destruct (functions c !! _) eqn:E; [by eapply Forall_lookup in H2|constructor].
Qed.

Lemma decl_func_changes l x l0 l1 l2 l3 : tree Instruction l1 ->
  changes (decl_nasl_func (Cell NODE_FUN_DEF l x l0 l1 l2 l3)) (fun r => ok_result r = true).
Proof.
  intros [H1]. unfold decl_nasl_func, insert_nasl_func.
  assert (Hi : forall f, ok_func f -> changes (update_lexic (insert_func f)) (fun _ => True)).
  { intros f Hf. apply update_lexic_changes. intros c. split; [apply insert_func_kind|].
    by apply insert_func_ok. }
  spec_solve. all: by apply Hi.
Qed.
#[local] Hint Resolve return_changes decl_func_changes : types.

Lemma aff_keeps k l0 l1 : tree Expression l0 -> tree Expression l1 ->
  keeps (exec_aff exec k l0 l1) (fun r => ok_result r = true).
Proof. intros H0 H1. unfold exec_aff. spec_solve. Qed.

Lemma op_eq_keeps k op l0 l1 : tree Expression l0 -> tree Expression l1 ->
  (forall c1 c2, ok_result c1 = true -> ok_result c2 = true ->
     tree Expression (Cell op 0 (x_str None) c1 c2 NULL NULL)) ->
  keeps (exec_op_eq exec k op l0 l1) (fun r => ok_result r = true).
Proof. intros H0 H1 Hop. unfold exec_op_eq. spec_solve. Qed.

Lemma op_eq_tree op c1 c2 :
  op ∈ [EXPR_PLUS; EXPR_MINUS; EXPR_MULT; EXPR_DIV; EXPR_MODULO; EXPR_L_SHIFT; EXPR_R_SHIFT; EXPR_R_USHIFT] ->
  ok_result c1 = true -> ok_result c2 = true -> tree Expression (Cell op 0 (x_str None) c1 c2 NULL NULL).
Proof.
  intros Hop [H1]%ok_result_wf [H2]%ok_result_wf. split. cbn [wf].
  repeat (apply elem_of_cons in Hop as [->|Hop]; [by rewrite H1, H2|]). by apply elem_of_nil in Hop.
Qed.

Lemma foreach_changes k name l0 l1 : tree Expression l0 -> tree Instruction l1 ->
  changes (exec_foreach exec k name l0 l1) (fun r => ok_result r = true).
Proof. intros H0 H1. unfold exec_foreach. spec_solve. Qed.
#[local] Hint Resolve aff_keeps foreach_changes : types.

Lemma exec_node_keeps k st : tree Expression st ->
  keeps (exec_node regexec builtin exec k st) (fun r => ok_result r = true).
Proof.
  intros Hst. destruct st as [| |t l x l0 l1 l2 l3]; cbn [exec_node]; [spec_solve..|].
  destruct t; try (by eapply operators_keep); tree_parts Hst; try done.
  all: unfold exec_array_el; try apply op_eq_keeps; try done; spec_solve.
  all: try (intros; apply op_eq_tree; [set_solver|done..]).
Qed.

Lemma exec_node_changes k st : tree Instruction st ->
  changes (exec_node regexec builtin exec k st) (fun r => ok_result r = true).
Proof.
  intros Hst. destruct st as [| |t l x l0 l1 l2 l3]; [cbn [exec_node]; spec_solve..|].
  destruct t; try (apply keeps_changes, exec_node_keeps; destruct Hst as [Hst]; split; exact Hst).
  all: cbn [exec_node]; tree_parts Hst; unfold exec_if, exec_block, exec_repeated; spec_solve.
Qed.

End Exec.

(** ** The theorems *)

Lemma enter_spec st (body : M state tree_cell) R `{!PreOrder R} :
  (forall A (m : M state A) Q, keeps m Q -> spec ok_state R m Q) ->
  spec ok_state R body (fun r => ok_result r = true) ->
  spec ok_state R (enter st body) (fun r => ok_result r = true).
Proof.
  intros HR Hbody. unfold enter.
  apply (spec_bind _ _ _ _ (fun _ => True)).
  - apply HR. destruct st; spec_solve.
  - intros _ _. eapply spec_bind; [apply _|by apply HR, lexic_keeps|]. intros c Hc. spec_solve.
    by apply ret_val_ok.
Qed.

Lemma nasl_exec_spec regexec builtin n :
  (forall g, keeps (builtin g) (fun r => ok_result r = true)) ->
  (forall c, tree Expression c -> keeps (nasl_exec regexec builtin n c) (fun r => ok_result r = true)) /\
  (forall c, tree Instruction c -> changes (nasl_exec regexec builtin n c) (fun r => ok_result r = true)).
Proof.
  intros Hb. induction n as [|n [IH1 IH2]]; [by split; intros c _; apply spec_no_return|].
  split; intros c Hc; simpl; (apply enter_spec; [apply _| |]).
  - done.
  - by apply exec_node_keeps.
  - intros. by apply keeps_changes.
  - by apply exec_node_changes.
Qed.

(** C9: executing a tree of the grammar from a well-typed state gives no result, a
    constant or a reference whose union has the member its tag says and whose
    integer is an [int], and a well-typed state: the variables hold [int]s, what is
    to be returned is a value, the functions have bodies of the grammar, all
    contexts but the last belong to calls.  The functions in C are assumed to do
    so and to leave the contexts alone but for variables, lines and, as [exit] does,
    one integer that all contexts are given to return; for the 30 functions that
    are modelled this is [functions_keep_types]. *)
Theorem results_typed regexec builtin n st s r s' :
  (forall g, keeps (builtin g) (fun r => ok_result r = true)) ->
  ok_state s -> wf Instruction st = true -> nasl_exec regexec builtin n st s = Ret (r, s') ->
  ok_result r = true /\ ok_state s'.
Proof.
  intros Hb Hs Hst H. destruct (nasl_exec_spec regexec builtin n Hb) as [_ Hi].
  destruct (Hi st (mk_tree _ _ Hst) _ _ _ Hs H) as (? & _ & ?). done.
Qed.

(** C11: an expression, whatever functions it calls and whatever these do with
    [return], [break], [continue] and declarations of functions, leaves every
    context with its flags, its functions and its timeout: only variables, the line
    of the current context and the values to return may change, and these either
    all stay or are, after [exit], one and the same integer in every context.  Of
    an instruction, only the current context may show more than this.  The
    functions in C are assumed to do so, as the 30 that are modelled do, [exit]
    among them ([functions_keep_types]). *)
Theorem calls_isolated regexec builtin n st s r s' :
  (forall g, keeps (builtin g) (fun r => ok_result r = true)) ->
  ok_state s -> nasl_exec regexec builtin n st s = Ret (r, s') ->
  (wf Expression st = true -> kept (st_ctxts s) (st_ctxts s')) /\
  (wf Instruction st = true -> changed (st_ctxts s) (st_ctxts s')).
Proof.
  intros Hb Hs H. destruct (nasl_exec_spec regexec builtin n Hb) as [He Hi]. split; intros Hst.
  - by destruct (He st (mk_tree _ _ Hst) _ _ _ Hs H) as (_ & ? & _).
  - by destruct (Hi st (mk_tree _ _ Hst) _ _ _ Hs H) as (_ & ? & _).
Qed.

(** *** An example *)

(** [while (1) break; return 21 + x;] *)
Definition example_block : tree_cell :=
  Cell NODE_INSTR_L 1 (x_str None)
    (Cell NODE_WHILE 1 (x_str None) (int_cell 1)
       (Cell NODE_BREAK 2 (x_str None) NULL NULL NULL NULL) NULL NULL)
    (Cell NODE_RETURN 3 (x_str None)
       (Cell EXPR_PLUS 3 (x_str None) (int_cell 21)
          (Cell NODE_VAR 3 (x_str (Some "x"%string)) NULL NULL NULL NULL) NULL NULL)
       NULL NULL NULL) NULL NULL.

Definition example_state : state :=
  mk_state empty_store [insert_func (mk_func "f" false 9999 ["x"%string] (user_block example_block)) init_empty_lex_ctxt].

(** [y = f (x: 4)] *)
Definition example_call : tree_cell :=
  Cell NODE_AFF 5 (x_str None) (Cell NODE_VAR 5 (x_str (Some "y"%string)) NULL NULL NULL NULL)
    (Cell NODE_FUN_CALL 5 (x_str (Some "f"%string))
       (Cell NODE_ARG 5 (x_str (Some "x"%string)) (int_cell 4) NULL NULL NULL) NULL NULL NULL)
    NULL NULL.

Lemma example_ok : ok_state example_state.
Proof.
  split.
  - apply map_Forall_empty.
  - constructor; [|constructor]. apply insert_func_ok; [done|].
    split; [done|]. apply (Forall_replicate (Forall ok_func) FUNC_NAME_HASH []). constructor.
  - done.
Qed.

Lemma no_builtin (g : string) : keeps (mret NULL) (fun r => ok_result r = true).
Proof. by apply spec_ret; [apply _|]. Qed.

Lemma results_typed_witness :
  exists r s', nasl_exec (fun _ _ => 1) (fun _ => mret NULL) 20 example_call example_state = Ret (r, s')
    /\ ok_result r = true /\ ok_state s'.
Proof.
  eexists _, _. split; [vm_compute; reflexivity|].
  eapply (results_typed (fun _ _ => 1) (fun _ => mret NULL) 20 example_call example_state);
    [exact no_builtin|exact example_ok|reflexivity|vm_compute; reflexivity].
Defined.

End NaslTypes.
