(* ===== verification/NaslLimits.v ===== *)
(** * Limits of the NASL interpreter

    Where the machine shows through: the comparison of integers by their
    difference, the room [array2str] takes for an element, an array as an integer,
    an assignment whose right side removes what its left side names. *)

From S2P Require Import Prelude Nasl NaslVar NaslExec.
From stdpp Require Import base gmap sets list strings.
From Stdlib Require Import Ascii ZArith Lia.
Local Open Scope Z_scope.

Module NaslLimits.
Import Nasl NaslVar NaslExec.

(** ** Executing without a pending return, break or continue *)

Definition running (s : state) : Prop :=
  match st_ctxts s with
  | c :: _ => ret_val c = NULL /\ break_flag c = false /\ cont_flag c = false
  | [] => False
  end.

(** The state when the node of line [l] is entered. *)
Definition entered (l : Z) (s : state) : state :=
  mk_state (st_store s) (match st_ctxts s with c :: up => set_line_nb l c :: up | [] => [] end).

Lemma running_entered l s : running s -> running (entered l s).
Proof. unfold running, entered. by destruct s as [st [|c up]]. Qed.

Lemma enter_running ty l x l0 l1 l2 l3 body s : running s ->
  enter (Cell ty l x l0 l1 l2 l3) body s = body (entered l s).
Proof.
  unfold running, entered. destruct s as [st [|c up]]; [done|]. simpl. intros (H1 & H2 & H3).
  unfold enter, mbind, M_bind, update_lexic, lexic. simpl. by rewrite H1, H2, H3.
Qed.

(** ** Comparison of integers *)

Abbreviation int_const z := (Cell CONST_INT 0 (x_int z) NULL NULL NULL NULL).

(** C35: [x < y] on two [int]s is computed from the sign of their difference, and
    the answer is right exactly when the difference is an [int]: for all others it
    is wrong. *)
Theorem int_comparison_limits regexec builtin n l x y s :
  running s -> MInt.int_range x -> MInt.int_range y ->
  exists b, nasl_exec regexec builtin (S n) (Cell COMP_LT l (x_str None) (int_const x) (int_const y) NULL NULL) s
      = Ret (bool2cell b, entered l s)
    /\ (b = (x <? y) <-> MInt.int_range (x - y)).
Proof.
  intros Hs Hx Hy. exists (MInt.wrap32 (x - y) <? 0). split.
  - cbn [nasl_exec]. rewrite enter_running by done. by destruct n.
  - unfold MInt.int_range, MInt.INT_MIN, MInt.INT_MAX in *. split.
    + intros H. destruct (decide (- 2 ^ 31 <= x - y <= 2 ^ 31 - 1)) as [|Hn]; [done|].
      exfalso. destruct (MInt.wrap32_congr (x - y)) as [k E]. pose proof (MInt.wrap32_range (x - y)) as Hr.
      unfold MInt.int_range, MInt.INT_MIN, MInt.INT_MAX in Hr. lia.
    + intros H. rewrite MInt.wrap32_id by done. lia.
Qed.

Lemma start_running : running (mk_state empty_store [init_empty_lex_ctxt]).
Proof. done. Qed.

Lemma int_comparison_limits_witness :
  exists b, nasl_exec (fun _ _ => 1) (fun _ => mret NULL) 1
      (Cell COMP_LT 1 (x_str None) (int_const (- 2 ^ 31)) (int_const 1) NULL NULL)
      (mk_state empty_store [init_empty_lex_ctxt])
      = Ret (bool2cell b, entered 1 (mk_state empty_store [init_empty_lex_ctxt]))
    /\ (b = (- 2 ^ 31 <? 1) <-> MInt.int_range (- 2 ^ 31 - 1)).
Proof.
  apply (int_comparison_limits (fun _ _ => 1) (fun _ => mret NULL) 0 1 (- 2 ^ 31) 1);
    [exact start_running|by vm_compute..].
Defined.

(** ** An array as an integer *)

Definition array_const (l : Z) (a : addr) : tree_cell :=
  Cell DYN_ARRAY l (x_var (Some a)) NULL NULL NULL NULL.

Lemma cell2int_array regexec builtin n k l a : forall s, running s ->
  cell2int (nasl_exec regexec builtin n) k (array_const l a) s = NoReturn.
Proof.
  induction k as [|k IH]; intros s Hs; [done|]. cbn [cell2int array_const].
  destruct n as [|n]; [done|].
  rewrite (bind_step _ _ _ (array_const l a) (entered l s)).
  - by apply IH, running_entered.
  - unfold array_const. cbn [nasl_exec]. by rewrite enter_running.
Qed.

(** A constant array as an operand of an arithmetic operator is executed again
    and again: no fuel is enough. *)
Theorem array_as_int_diverges regexec builtin n op l l' a r s :
  op ∈ [EXPR_MULT; EXPR_DIV; EXPR_MODULO; EXPR_EXPO; EXPR_BIT_AND; EXPR_BIT_OR; EXPR_BIT_XOR;
        EXPR_L_SHIFT; EXPR_R_SHIFT; EXPR_R_USHIFT] -> running s ->
  nasl_exec regexec builtin n (Cell op l (x_str None) (array_const l' a) r NULL NULL) s = NoReturn.
Proof.
  intros Hop Hs. destruct n as [|n]; [done|]. cbn [nasl_exec]. rewrite enter_running by done.
  assert (He : exec_node regexec builtin (nasl_exec regexec builtin n) n
                 (Cell op l (x_str None) (array_const l' a) r NULL NULL) (entered l s)
               = exec_arith (nasl_exec regexec builtin n) n op (array_const l' a) r (entered l s)).
  { repeat (apply elem_of_cons in Hop as [->|Hop]; [done|]). by apply elem_of_nil in Hop. }
  rewrite He. unfold exec_arith, mbind, M_bind.
  by rewrite cell2int_array by by apply running_entered.
Qed.

Lemma array_as_int_diverges_witness :
  nasl_exec (fun _ _ => 1) (fun _ => mret NULL) 50
    (Cell EXPR_MULT 1 (x_str None) (array_const 1 1) (int_const 2) NULL NULL)
    (mk_state (mk_store {[1%positive := VAR2_ARRAY empty_array]} 2 0) [init_empty_lex_ctxt]) = NoReturn.
Proof. apply array_as_int_diverges; [by left|done]. Defined.

(** ** An assignment that removes its own left side *)

Definition var_at (x : string) : tree_cell := Cell NODE_VAR 1 (x_str (Some x)) NULL NULL NULL NULL.
Definition elem_at (x : string) (i : Z) : tree_cell :=
  Cell NODE_ARRAY_EL 1 (x_str (Some x)) (int_const i) NULL NULL NULL.
Definition assign (l r : tree_cell) : tree_cell := Cell NODE_AFF 1 (x_str None) l r NULL NULL.

(** [a[0] = u; a[0] = (a = v);] *)
Definition self_removing (u v : Z) : tree_cell :=
  Cell NODE_INSTR_L 1 (x_str None) (assign (elem_at "a" 0) (int_const u))
    (assign (elem_at "a" 0) (assign (var_at "a") (int_const v))) NULL NULL.

(** The left side of an assignment is evaluated first.  When the right side
    assigns to the array it is an element of, that element is freed and then
    assigned to: the behaviour is not defined, whatever the values, the functions
    in C and the fuel from [6] on. *)
Theorem assignment_use_after_free regexec builtin n u v :
  nasl_exec regexec builtin (6 + n) (self_removing u v) (mk_state empty_store [init_empty_lex_ctxt]) = Undef.
Proof. by destruct n. Qed.

(** ** The room of [array2str] *)

Lemma dec_pos_len d fuel : forall z acc, z < 10 ^ Z.of_nat d -> (1 <= d)%nat ->
  CStr.slen (CStr.dec_pos fuel z acc) <= Z.of_nat d + CStr.slen acc.
Proof.
  revert d. induction fuel as [|fuel IH]; intros d z acc Hz Hd; simpl; [lia|].
  destruct (z <? 10) eqn:E; simpl; [lia|]. destruct d as [|[|d]]; [lia|simpl in Hz; lia|].
  assert (z / 10 < 10 ^ Z.of_nat (S d)).
  { apply Z.div_lt_upper_bound; [lia|]. rewrite <- Z.pow_succ_r by lia. by rewrite <- Nat2Z.inj_succ. }
  specialize (IH (S d) (z / 10) (String (CStr.digit_char (z mod 10)) acc)). simpl in IH. lia.
Qed.

Lemma dec_len z : MInt.int_range z -> CStr.slen (CStr.dec z) <= 11.
Proof.
  unfold MInt.int_range, MInt.INT_MIN, MInt.INT_MAX, CStr.dec. intros Hz.
  destruct (z <? 0) eqn:E; cbn [CStr.slen].
  - pose proof (dec_pos_len 10 64 (- z) EmptyString ltac:(lia) ltac:(lia)) as H. cbn [CStr.slen] in H. lia.
  - pose proof (dec_pos_len 10 64 z EmptyString ltac:(lia) ltac:(lia)) as H. cbn [CStr.slen] in H. lia.
Qed.

(** The text and its zero byte are within the buffer; at its start it has room
    for the brackets. *)
Definition fits (b : a2s) : Prop := 0 <= a_n b /\ a_n b + 1 <= a_len b /\ 80 <= a_len b.

Lemma put_fits w adv b : fits b -> CStr.slen w <= adv -> a_n b + adv + 1 <= a_len b ->
  exists b', put w adv b = Ret b' /\ fits b' /\ a_n b' = a_n b + adv /\ a_len b' = a_len b.
Proof.
  intros (H1 & H2 & H3) Hw Hadv. unfold put. rewrite (proj2 (Z.ltb_ge _ _)) by lia.
  eexists. split; [done|]. pose proof (CStr.slen_nonneg w). unfold fits. simpl. lia.
Qed.

(** What has been cut to the room left fits in any case. *)
Lemma cut_fits size text b : fits b -> 0 < size -> size < 2 ^ 64 -> a_n b + size <= a_len b ->
  exists b', snprintf_cut size text b = Ret b' /\ fits b' /\ a_n b' <= a_n b + (size - 1)
    /\ a_n b <= a_n b' /\ a_len b' = a_len b.
Proof.
  intros Hb H0 H1 H2. unfold snprintf_cut, MInt.uwrap64. rewrite Z.mod_small by lia.
  rewrite (proj2 (Z.eqb_neq _ _)) by lia. pose proof (CStr.slen_nonneg text).
  set (w := CStr.take_str _ _).
  assert (Hw : CStr.slen w <= size - 1) by (subst w; rewrite CStr.slen_take; lia).
  pose proof (CStr.slen_nonneg w).
  destruct (put_fits w (CStr.slen w) b Hb) as (b' & -> & ? & ? & ?); [lia|lia|].
  eexists. split; [done|]. split; [done|]. lia.
Qed.

Lemma sprintf_fits text b : fits b -> a_n b + CStr.slen text + 1 <= a_len b ->
  exists b', sprintf text b = Ret b' /\ fits b' /\ a_n b' = a_n b + CStr.slen text /\ a_len b' = a_len b.
Proof. intros Hb H. by apply put_fits. Qed.

Lemma grow_fits room b : fits b -> 80 <= room ->
  fits (grow room b) /\ a_n (grow room b) = a_n b /\ a_n b + 81 <= a_len (grow room b).
Proof.
  unfold fits, grow. intros (H1 & H2 & H3) Hr.
  destruct (a_len b <=? a_n b + 80) eqn:E; simpl; lia.
Qed.

Lemma separator_fits b : fits b -> a_n b + 81 <= a_len b ->
  exists b', separator b = Ret b' /\ fits b' /\ a_n b' + 79 <= a_len b'.
Proof.
  intros Hb Hr. unfold separator. destruct (a_n1 b).
  - destruct (sprintf_fits ", " b Hb) as (b1 & -> & (?&?&?) & Hn & Hl); [simpl; lia|].
    eexists. split; [done|]. simpl in Hn. unfold fits. simpl. lia.
  - eexists. split; [done|]. unfold fits in *. simpl. lia.
Qed.

Definition shown_ok (u : anon_nasl_var) : Prop :=
  match u with VAR2_INT z => MInt.int_range z | _ => True end.

(** An element takes 79 bytes, if it has no name or one of at most five. *)
Lemma show_value_fits named label l u b : fits b -> a_n b + 79 <= a_len b -> a_len b < 2 ^ 63 ->
  shown_ok u -> 0 <= l <= 5 -> (named = true -> CStr.slen label <= 5) ->
  exists b', show_value named label l u b = Ret b' /\ fits b' /\ a_len b' = a_len b.
Proof.
  intros Hb Hr Hlen Hu Hl Hlabel. destruct Hb as (Hb1 & Hb2 & Hb3).
  assert (Hb : fits b) by (unfold fits; lia).
  assert (Hcut : forall text, exists b', snprintf_cut (a_len b - a_n b) text b = Ret b' /\ fits b' /\ a_len b' = a_len b).
  { intros text. destruct (cut_fits (a_len b - a_n b) text b Hb) as (b' & ? & ? & ? & ? & ?); [lia..|]. by exists b'. }
  assert (Hstr : forall s, exists b',
    (if slen_opt s <? 64
     then snprintf_cut (a_len b - a_n b) (label +:+ ": '" +:+ shown s +:+ "'") b
     else then_ (snprintf_cut (70 + l) (label +:+ ": '" +:+ shown s) b) (sprintf "'...")) = Ret b'
    /\ fits b' /\ a_len b' = a_len b).
  { intros s. destruct (slen_opt s <? 64); [apply Hcut|].
    destruct (cut_fits (70 + l) (label +:+ ": '" +:+ shown s) b Hb) as (b1 & -> & Hb1' & ? & ? & ?); [lia..|].
    cbn [then_]. destruct (sprintf_fits "'..." b1 Hb1') as (b2 & -> & ? & ? & ?); [simpl; lia|].
    exists b2. split; [done|]. split; [done|lia]. }
  destruct u as [|z|s|s|arr]; cbn [show_value]; try apply Hcut; try apply Hstr.
  destruct named; [|apply Hcut]. unfold snprintf_full, MInt.uwrap64.
  rewrite Z.mod_small by lia. rewrite (proj2 (Z.eqb_neq _ _)) by lia.
  set (text := label +:+ ": " +:+ CStr.dec z).
  assert (Ht : CStr.slen text <= 18).
  { subst text. rewrite !CStr.slen_app. pose proof (dec_len z Hu). specialize (Hlabel eq_refl). simpl. lia. }
  pose proof (CStr.slen_nonneg text).
  destruct (put_fits (CStr.take_str (Z.to_nat (Z.min (a_len b - a_n b - 1) (CStr.slen text))) text) (CStr.slen text) b Hb)
    as (b' & -> & ? & ? & ?); [rewrite CStr.slen_take; lia|lia|]. by exists b'.
Qed.

Lemma element_fits named label room l u b : fits b -> 80 <= room -> a_len b + room < 2 ^ 63 ->
  shown_ok u -> 0 <= l <= 5 -> (named = true -> CStr.slen label <= 5) ->
  exists b', then_ (separator (grow room b)) (show_value named label l u) = Ret b' /\ fits b'
    /\ a_len b' <= a_len b + room.
Proof.
  intros Hb Hroom Hlen Hu Hl Hlabel. destruct (grow_fits room b Hb Hroom) as (Hg & Hn & Hr).
  assert (Hgl : a_len (grow room b) <= a_len b + room) by (unfold grow; case_match; simpl; lia).
  destruct (separator_fits _ Hg) as (b1 & Hs & Hb1 & Hr1); [lia|].
  assert (Hl1 : a_len b1 = a_len (grow room b)).
  { revert Hs. unfold separator, sprintf, put. destruct (a_n1 (grow room b)); simpl; [|by intros [= <-]].
    case_match; simpl; [done|]. by intros [= <-]. }
  rewrite Hs. cbn [then_].
  destruct (show_value_fits named label l u b1 Hb1) as (b2 & -> & Hb2 & Hl2); [lia|lia|done..|].
  exists b2. split; [done|]. split; [done|lia].
Qed.

Lemma show_elements_fits l : forall i b, fits b ->
  Forall (fun u => match u with Some u => shown_ok u | None => True end) l ->
  a_len b + 85 * Z.of_nat (length l) < 2 ^ 63 ->
  exists b', show_elements i l b = Ret b' /\ fits b' /\ a_len b' <= a_len b + 85 * Z.of_nat (length l).
Proof.
  induction l as [|u l IH]; intros i b Hb Hl Hlen; [exists b; split; [done|split; [done|simpl; lia]]|].
  inversion Hl as [|? ? Hu Hl']; subst. cbn [length] in *.
  assert (Hskip : exists b', show_elements (i + 1) l b = Ret b' /\ fits b'
            /\ a_len b' <= a_len b + 85 * Z.of_nat (S (length l))).
  { destruct (IH (i + 1) b Hb Hl') as (b' & ? & ? & ?); [lia|]. exists b'. split; [done|split; [done|lia]]. }
  assert (Hshow : forall v, shown_ok v -> exists b',
    then_ (then_ (separator (grow 80 b)) (show_value false (CStr.dec i) 0 v)) (show_elements (i + 1) l) = Ret b'
    /\ fits b' /\ a_len b' <= a_len b + 85 * Z.of_nat (S (length l))).
  { intros v Hv. destruct (element_fits false (CStr.dec i) 80 0 v b Hb) as (b1 & -> & Hb1 & Hl1); [lia|lia|done|lia|done|].
    cbn [then_]. destruct (IH (i + 1) b1 Hb1 Hl') as (b' & ? & ? & ?); [lia|]. exists b'. split; [done|split; [done|lia]]. }
  cbn [show_elements]. destruct u as [[]|]; auto.
Qed.

(** A name of at most [n] characters. *)
Definition short_name (n : Z) (p : option string * anon_nasl_var) : Prop :=
  match fst p with Some s => CStr.slen s <= n | None => False end /\ shown_ok (snd p).

Lemma show_named_fits l : forall b, fits b -> Forall (short_name 5) l ->
  a_len b + 85 * Z.of_nat (length l) < 2 ^ 63 ->
  exists b', show_named l b = Ret b' /\ fits b' /\ a_len b' <= a_len b + 85 * Z.of_nat (length l).
Proof.
  induction l as [|[nm u] l IH]; intros b Hb Hl Hlen; [exists b; split; [done|split; [done|simpl; lia]]|].
  inversion Hl as [|? ? [Hnm Hu] Hl']; subst. simpl in Hnm, Hu. destruct nm as [nm|]; [|done].
  pose proof (CStr.slen_nonneg nm). cbn [length] in *.
  assert (Hshow : exists b',
    then_ (then_ (separator (grow (80 + CStr.slen nm) b)) (show_value true nm (CStr.slen nm) u)) (show_named l) = Ret b'
    /\ fits b' /\ a_len b' <= a_len b + 85 * Z.of_nat (S (length l))).
  { destruct (element_fits true nm (80 + CStr.slen nm) (CStr.slen nm) u b Hb) as (b1 & -> & Hb1 & Hl1); [lia|lia|done|lia|done|].
    cbn [then_]. destruct (IH b1 Hb1 Hl') as (b' & ? & ? & ?); [lia|]. exists b'. split; [done|split; [done|lia]]. }
  cbn [show_named]. destruct u; [|exact Hshow..].
  destruct (IH b Hb Hl') as (b' & ? & ? & ?); [lia|]. exists b'. split; [done|split; [done|lia]].
Qed.

Fixpoint repeat_char (n : nat) : string :=
  match n with O => EmptyString | S n => String "a" (repeat_char n) end.

(** C36: [array2str] writes within its buffer, whatever the buffer's length and the
    number of elements (as long as its length stays an [int]), if no name of an
    element has more than five characters.  Five is the limit: an array with a
    name of six makes it write past the end. *)
Theorem array2str_room len elts named :
  (len = 0 \/ 80 <= len) -> Forall (fun u => match u with Some u => shown_ok u | None => True end) elts ->
  Forall (short_name 5) named ->
  len + 85 * Z.of_nat (length elts + length named) + 160 <= MInt.INT_MAX ->
  (exists text len', array2str_buffer len elts named = Ret (text, len') /\ 80 <= len')
  /\ exists elts' named', Forall (short_name 6) named' /\ array2str_buffer 0 elts' named' = Undef.
Proof.
  intros Hlen Helts Hnamed Hmax. unfold MInt.INT_MAX in Hmax. split.
  - unfold array2str_buffer. set (len0 := if len =? 0 then 80 else len).
    assert (Hlen0 : 80 <= len0 <= len + 80) by (subst len0; destruct (len =? 0) eqn:E; lia).
    destruct (show_elements_fits elts 0 (mk_a2s "[ " false 2 len0 false)) as (b1 & -> & Hb1 & Hl1);
      [unfold fits; simpl; lia|done|simpl; lia|]. simpl in Hl1.
    cbn [then_]. destruct (show_named_fits named b1 Hb1 Hnamed) as (b2 & -> & Hb2 & Hl2); [lia|].
    cbn [then_]. set (b3 := if a_len b2 <=? a_n b2 + 2 then _ else b2).
    assert (Hb3 : fits b3 /\ a_n b3 + 3 <= a_len b3).
    { subst b3. unfold fits in *. destruct (a_len b2 <=? a_n b2 + 2) eqn:E; simpl; lia. }
    destruct (put_fits " ]" 2 b3) as (b4 & -> & (?&?&?) & ?); [apply Hb3|simpl; lia|lia|].
    by exists (a_text b4), (a_len b4).
  - exists [Some (VAR2_STRING (Some (repeat_char 33))); Some (VAR2_STRING (Some (repeat_char 32)))],
      [(Some "length"%string, VAR2_STRING (Some (repeat_char 70)))].
    split; [|by vm_compute]. repeat constructor; by vm_compute.
Qed.

Lemma array2str_room_witness :
  (exists text len', array2str_buffer 0 [Some (VAR2_INT 7); None] [(Some "k"%string, VAR2_INT (-1))] = Ret (text, len')
     /\ 80 <= len')
  /\ exists elts' named', Forall (short_name 6) named' /\ array2str_buffer 0 elts' named' = Undef.
Proof.
  apply (array2str_room 0 [Some (VAR2_INT 7); None] [(Some "k"%string, VAR2_INT (-1))]).
  - by left.
  - repeat constructor; by vm_compute.
  - repeat constructor; by vm_compute.
  - by vm_compute.
Defined.

End NaslLimits.
