(* ===== verification/NaslLex.v ===== *)
(** * The lexical analyser of NASL ([nasl_grammar.tab.c], [mylex])

    A script is a text that is read character by character.  [mylex] is a state
    machine; the characters of a token are gathered in a buffer that grows by
    eighty bytes when it is full.  Where the machine reads one character too many
    it puts it back. *)

From S2P Require Import Prelude Nasl NaslVar.
From stdpp Require Import base gmap sets list strings.
From Stdlib Require Import Ascii ZArith Lia.
Local Open Scope Z_scope.

Module NaslLex.
Import Nasl.

(** ** Tokens *)

Definition YYEOF := 0.
Definition IF := 258.
Definition ELSE := 259.
Definition EQ := 260.
Definition NEQ := 261.
Definition SUPEQ := 262.
Definition INFEQ := 263.
Definition OR := 264.
Definition AND := 265.
Definition MATCH := 266.
Definition NOMATCH := 267.
Definition REP := 268.
Definition FOR := 269.
Definition REPEAT := 270.
Definition UNTIL := 271.
Definition FOREACH := 272.
Definition WHILE := 273.
Definition BREAK := 274.
Definition CONTINUE := 275.
Definition FUNCTION := 276.
Definition RETURN := 277.
Definition INCLUDE := 278.
Definition LOCAL := 279.
Definition GLOBAL := 280.
Definition PLUS_PLUS := 281.
Definition MINUS_MINUS := 282.
Definition L_SHIFT := 283.
Definition R_SHIFT := 284.
Definition R_USHIFT := 285.
Definition EXPO := 286.
Definition PLUS_EQ := 287.
Definition MINUS_EQ := 288.
Definition MULT_EQ := 289.
Definition DIV_EQ := 290.
Definition MODULO_EQ := 291.
Definition L_SHIFT_EQ := 292.
Definition R_SHIFT_EQ := 293.
Definition R_USHIFT_EQ := 294.
Definition RE_MATCH := 295.
Definition RE_NOMATCH := 296.
Definition ARROW := 297.
Definition IDENT := 298.
Definition STRING1 := 299.
Definition STRING2 := 300.
Definition INTEGER := 301.

(** The union of semantic values; [no_value] is its content before it is written. *)
Inductive yystype :=
| no_value
| num (n : Z)
| str (s : string)
| data (s : string)
| node (c : tree_cell).

(** What the analyser answers: a token with its value, or [abort ()]. *)
Inductive lexed :=
| Token (yychar : Z) (lval : yystype)
| Abort.

(** ** Input *)

(** [naslctxt]: what is left of the file, the current line, the buffer's size. *)
Record lexer := mk_lexer { line_no : Z; fp : string; maxlen : Z }.

Definition NL : ascii := "010".
Definition is_char (n : Z) (c : ascii) : bool := CStr.code c =? n.
Definition is_nl (c : ascii) : bool := is_char 10 c.
Definition line_of (c : ascii) : Z := if is_nl c then 1 else 0.

Definition getc : M lexer (option ascii) := fun l =>
  match fp l with
  | String c rest => Ret (Some c, mk_lexer (line_no l) rest (maxlen l))
  | EmptyString => Ret (None, l)
  end.

Definition ungetc (c : ascii) : M lexer unit := fun l =>
  Ret (tt, mk_lexer (line_no l) (String c (fp l)) (maxlen l)).

Definition add_lines (n : Z) : M lexer unit := fun l =>
  Ret (tt, mk_lexer (line_no l + n) (fp l) (maxlen l)).

(** [ungetc (c, fp); if (c == '\n') ctx->line_nb --;] *)
Definition unread (c : ascii) : M lexer unit := ungetc c ;; add_lines (- line_of c).

(** The buffer, its last character first, with [len]. *)
Record text := mk_text { rev : string; len : Z }.
Definition no_text : text := mk_text EmptyString 0.

(** [*p++ = c; len ++;] *)
Definition put (c : ascii) (b : text) : M lexer text := fun l =>
  if len b <? maxlen l then Ret (mk_text (String c (rev b)) (len b + 1), l) else Undef.

(** [if (len >= ctx->maxlen)] ...: the buffer grows. *)
Definition grow_buffer (b : text) : M lexer unit := fun l =>
  Ret (tt, mk_lexer (line_no l) (fp l) (if maxlen l <=? len b then maxlen l + 80 else maxlen l)).

(** [ctx->buffer[len] = '\0'], then what the buffer holds. *)
Definition finish (b : text) : M lexer string := fun l =>
  if len b <? maxlen l then Ret (CStr.rev_str EmptyString (rev b), l) else Undef.

(** ** The machine *)

Inductive lex_state :=
| ST_START | ST_SPACE | ST_IDENT | ST_ZERO | ST_ZEROX | ST_OCT | ST_DEC | ST_HEX
| ST_COMMENT | ST_SUP | ST_INF | ST_SUP_EXCL | ST_STRING1 | ST_STRING1_ESC
| ST_STRING2 | ST_PLUS | ST_MINUS | ST_MULT | ST_DIV | ST_MODULO | ST_R_SHIFT
| ST_R_USHIFT | ST_L_SHIFT | ST_NOT | ST_EQ | ST_AND | ST_OR.

(** The end of an iteration: the next one, [goto exit_loop], [return]. *)
Inductive step_end :=
| Next (st : lex_state) (b : text)
| Exit (b : text)
| Return (tok : Z).

Definition isword (c : ascii) : bool := CStr.isalnum c || is_char 95 c.

Definition start_state (c : ascii) : option lex_state :=
  if is_char 35 c then Some ST_COMMENT
  else if CStr.isalpha c || is_char 95 c then Some ST_IDENT
  else if CStr.isspace c then Some ST_SPACE
  else if is_char 48 c then Some ST_ZERO
  else if CStr.isdigit c then Some ST_DEC
  else if is_char 39 c then Some ST_STRING1
  else if is_char 34 c then Some ST_STRING2
  else if is_char 43 c then Some ST_PLUS
  else if is_char 45 c then Some ST_MINUS
  else if is_char 42 c then Some ST_MULT
  else if is_char 47 c then Some ST_DIV
  else if is_char 37 c then Some ST_MODULO
  else if is_char 62 c then Some ST_SUP
  else if is_char 60 c then Some ST_INF
  else if is_char 61 c then Some ST_EQ
  else if is_char 124 c then Some ST_OR
  else if is_char 33 c then Some ST_NOT
  else if is_char 38 c then Some ST_AND
  else None.

Definition lex_start (b : text) (c : ascii) : M lexer step_end :=
  match start_state c with
  | Some st =>
      match st with
      | ST_IDENT | ST_DEC => b' ← put c b; mret (Next st b')
      | _ => mret (Next st b)
      end
  | None => mret (Return (CStr.code c))
  end.

(** The (at most two) digits of [\x]: the value, or [None] at the end of the file. *)
Fixpoint hex_escape (i : nat) (x : Z) : M lexer (option Z) :=
  match i with
  | O => mret (Some x)
  | S i' =>
      o ← getc;
      match o with
      | None => mret None
      | Some c0 =>
          add_lines (line_of c0) ;;
          let c := CStr.tolower c0 in
          if CStr.isdigit c then hex_escape i' (x * 16 + (CStr.code c - 48))
          else if (97 <=? CStr.code c) && (CStr.code c <=? 102)
          then hex_escape i' (x * 16 + 10 + (CStr.code c - 97))
          else unread c ;; mret (Some x)
      end
  end.

Definition char_of (x : Z) : ascii := ascii_of_N (Z.to_N x).

(** The character an escape stands for; [None] for an unknown one. *)
Definition simple_escape (c : ascii) : option Z :=
  if is_char 92 c then Some 92
  else if is_char 110 c then Some 10
  else if is_char 102 c then Some 12
  else if is_char 116 c then Some 9
  else if is_char 114 c then Some 13
  else if is_char 118 c then Some 11
  else if is_char 34 c then Some 34
  else if is_char 48 c then Some 0
  else if is_char 39 c then Some 39
  else None.

Definition lex_escape (b : text) : M lexer step_end :=
  o ← getc;
  match o with
  | None => mret (Exit b)
  | Some c =>
      if is_nl c then add_lines 1 ;; mret (Next ST_STRING1 b)
      else if is_char 120 c then
        x ← hex_escape 2 0;
        match x with
        | None => mret (Exit b)
        | Some x => b' ← put (char_of x) b; mret (Next ST_STRING1 b')
        end
      else b' ← put (match simple_escape c with Some x => char_of x | None => c end) b;
           mret (Next ST_STRING1 b')
  end.

Definition lex_string1 (b : text) (c : ascii) : M lexer step_end :=
  if is_char 39 c then mret (Exit b)
  else if is_char 92 c then lex_escape b
  else b' ← put c b; mret (Next ST_STRING1 b').

(** One more character of a token, or the end of it. *)
Definition lex_more (st : lex_state) (b : text) (c : ascii) : M lexer step_end :=
  b' ← put c b; mret (Next st b').
Definition lex_end (b : text) (c : ascii) : M lexer step_end := unread c ;; mret (Exit b).
(** An operator that ends before [c]. *)
Definition lex_op (tok : Z) (c : ascii) : M lexer step_end := unread c ;; mret (Return tok).

Definition isoct (c : ascii) : bool := (48 <=? CStr.code c) && (CStr.code c <=? 55).

Definition lex_step (st : lex_state) (b : text) (c : ascii) : M lexer step_end :=
  match st with
  | ST_START => lex_start b c
  | ST_STRING2 => if is_char 34 c then mret (Exit b) else lex_more ST_STRING2 b c
  | ST_STRING1 => lex_string1 b c
  | ST_IDENT => if isword c then lex_more ST_IDENT b c else lex_end b c
  | ST_ZERO =>
      if is_char 120 c || is_char 88 c then mret (Next ST_ZEROX b)
      else if CStr.isdigit c then lex_more (if isoct c then ST_OCT else ST_DEC) b c
      else lex_end b c
  | ST_ZEROX => if CStr.isxdigit c then lex_more ST_HEX b c else lex_end b c
  | ST_OCT =>
      if isoct c then lex_more ST_OCT b c
      else if CStr.isdigit c then lex_more ST_DEC b c
      else lex_end b c
  | ST_DEC => if CStr.isdigit c then lex_more ST_DEC b c else lex_end b c
  | ST_HEX => if CStr.isxdigit c then lex_more ST_HEX b c else lex_end b c
  | ST_SPACE =>
      if CStr.isspace c then mret (Next ST_SPACE b) else unread c ;; mret (Next ST_START b)
  | ST_COMMENT => mret (Next (if is_nl c then ST_START else ST_COMMENT) b)
  | ST_SUP_EXCL => if is_char 60 c then mret (Return NOMATCH) else lex_op NOMATCH c
  | ST_SUP =>
      if is_char 61 c then mret (Return SUPEQ)
      else if is_char 60 c then mret (Return MATCH)
      else if is_char 62 c then mret (Next ST_R_SHIFT b)
      else if is_char 33 c then mret (Next ST_SUP_EXCL b)
      else lex_op 62 c
  | ST_INF =>
      if is_char 61 c then mret (Return INFEQ)
      else if is_char 60 c then mret (Next ST_L_SHIFT b)
      else lex_op 60 c
  | ST_R_SHIFT =>
      if is_char 61 c then mret (Return R_SHIFT_EQ)
      else if is_char 62 c then mret (Next ST_R_USHIFT b)
      else lex_op R_SHIFT c
  | ST_R_USHIFT => if is_char 61 c then mret (Return R_USHIFT_EQ) else lex_op R_USHIFT c
  | ST_L_SHIFT => if is_char 61 c then mret (Return L_SHIFT_EQ) else lex_op L_SHIFT c
  | ST_AND => if is_char 38 c then mret (Return AND) else lex_op 38 c
  | ST_OR => if is_char 124 c then mret (Return OR) else lex_op 124 c
  | ST_NOT =>
      if is_char 61 c then mret (Return NEQ)
      else if is_char 126 c then mret (Return RE_NOMATCH)
      else lex_op 33 c
  | ST_EQ =>
      if is_char 61 c then mret (Return EQ)
      else if is_char 126 c then mret (Return RE_MATCH)
      else if is_char 62 c then mret (Return ARROW)
      else lex_op 61 c
  | ST_PLUS =>
      if is_char 43 c then mret (Return PLUS_PLUS)
      else if is_char 61 c then mret (Return PLUS_EQ)
      else lex_op 43 c
  | ST_MINUS =>
      if is_char 45 c then mret (Return MINUS_MINUS)
      else if is_char 61 c then mret (Return MINUS_EQ)
      else lex_op 45 c
  | ST_MULT =>
      if is_char 61 c then mret (Return MULT_EQ)
      else if is_char 42 c then mret (Return EXPO)
      else lex_op 42 c
  | ST_DIV => if is_char 61 c then mret (Return DIV_EQ) else lex_op 47 c
  | ST_MODULO => if is_char 61 c then mret (Return MODULO_EQ) else lex_op 37 c
  | ST_STRING1_ESC => mret (Next st b)
  end.

(** ** Values *)

Definition ULONG_MAX : Z := 2 ^ 64 - 1.
(** [strtoul] on the digits of a token. *)
Definition strtoul (base : Z) (s : string) : Z := Z.min ULONG_MAX (fst (CStr.digits base 0 s)).

Definition keywords : list (string * Z) :=
  [("if", IF); ("else", ELSE); ("for", FOR); ("while", WHILE); ("repeat", REPEAT);
   ("until", UNTIL); ("foreach", FOREACH); ("function", FUNCTION); ("return", RETURN);
   ("x", REP); ("include", INCLUDE); ("break", BREAK); ("continue", CONTINUE);
   ("local_var", LOCAL); ("global_var", GLOBAL)]%string.

Fixpoint keyword (s : string) (l : list (string * Z)) : option Z :=
  match l with
  | [] => None
  | (k, r) :: l' => if decide (s = k) then Some r else keyword s l'
  end.

(** [exit_loop]; the result of [strtoul] is stored in an [int]. *)
Definition exit_loop (st : lex_state) (b : text) : M lexer lexed :=
  buffer ← finish b;
  mret match st with
       | ST_START | ST_COMMENT | ST_SPACE => Token YYEOF no_value
       | ST_STRING2 => Token STRING2 (str (NaslVar.cstr buffer))
       | ST_STRING1 => Token STRING1 (data buffer)
       | ST_IDENT =>
           match keyword buffer keywords with
           | Some r => Token r no_value
           | None => Token IDENT (str buffer)
           end
       | ST_DEC => Token INTEGER (num (MInt.wrap32 (strtoul 10 buffer)))
       | ST_OCT => Token INTEGER (num (MInt.wrap32 (strtoul 8 buffer)))
       | ST_HEX => Token INTEGER (num (MInt.wrap32 (strtoul 16 buffer)))
       | ST_ZEROX | ST_ZERO => Token INTEGER (num 0)
       | _ => Abort
       end.

(** ** The loop *)

Fixpoint lex_loop (fuel : nat) (st : lex_state) (b : text) : M lexer lexed :=
  match fuel with
  | O => no_return
  | S n =>
      o ← getc;
      match o with
      | None => exit_loop st b
      | Some c =>
          add_lines (line_of c) ;;
          r ← lex_step st b c;
          match r with
          | Next st' b' => grow_buffer b' ;; lex_loop n st' b'
          | Exit b' => exit_loop st b'
          | Return tok => mret (Token tok no_value)
          end
      end
  end.

(** Each character is read once, and once more when it ends white space. *)
Definition lex_fuel (s : string) : nat := 2 * String.length s + 2.

Definition mylex : M lexer lexed := fun l => lex_loop (lex_fuel (fp l)) ST_START no_text l.

(** The context [init_nasl_ctx] sets up for a file. *)
Definition new_lexer (file : string) : lexer := mk_lexer 1 file 80.

(** ** The analyser always answers *)

Fixpoint newlines (s : string) : Z :=
  match s with EmptyString => 0 | String c s' => line_of c + newlines s' end.

(** The lines read and those left. *)
Definition lines (l : lexer) : Z := line_no l + newlines (fp l).

(** The steps that may follow: two for each character, one to leave white space. *)
Definition steps_left (st : lex_state) (l : lexer) : nat :=
  2 * String.length (fp l) + match st with ST_SPACE => 1 | _ => 0 end.

(** The characters of the token that will not be put back. *)
Definition consumed (st : lex_state) : nat :=
  match st with ST_START | ST_SPACE | ST_COMMENT => 0 | _ => 1 end.

Definition fits (b : text) (l : lexer) : Prop := 0 <= len b < maxlen l.

(** What a piece of code does to the input, at most [n] characters put back. *)
Record reads (n : nat) (l l' : lexer) : Prop := mk_reads
  { reads_maxlen : maxlen l' = maxlen l;
    reads_lines : lines l' = lines l;
    reads_length : (String.length (fp l') <= n + String.length (fp l))%nat }.

Lemma reads_refl n l : reads n l l.
Proof. split; [done|done|lia]. Qed.
#[local] Hint Resolve reads_refl : core.

Lemma reads_trans n m l l1 l2 : reads n l l1 -> reads m l1 l2 -> reads (n + m) l l2.
Proof. intros [? ? ?] [? ? ?]. split; [congruence|congruence|lia]. Qed.

Lemma wp_put c b Q l : fits b l -> Q (mk_text (String c (rev b)) (len b + 1)) l -> wp (put c b) Q l.
Proof. unfold fits, wp, put. intros Hb HQ. by rewrite (proj2 (Z.ltb_lt _ _)) by lia. Qed.

Lemma wp_unread c Q l :
  (forall l', reads 1 l l' -> String.length (fp l') = S (String.length (fp l)) -> Q tt l') ->
  wp (unread c) Q l.
Proof.
  intros HQ. apply HQ; [|done]. split; [done| |done].
  unfold lines. cbn. lia.
Qed.

Lemma line_of_tolower c : line_of (CStr.tolower c) = line_of c.
Proof. destruct c as [[] [] [] [] [] [] [] []]; vm_compute; reflexivity. Qed.

(** Reading a character, with the line it may end. *)
Lemma hex_escape_ok i x l : wp (hex_escape i x) (fun _ l' => reads 0 l l') l.
Proof.
  revert x l. induction i as [|i IH]; intros x l; [by apply wp_ret|]. cbn [hex_escape].
  apply wp_bind. unfold wp at 1, getc. destruct (fp l) as [|c s] eqn:Hf; [by apply wp_ret|].
  apply wp_bind. unfold wp at 1, add_lines. cbn [line_no fp maxlen]. cbv zeta.
  set (l1 := mk_lexer (line_no l + line_of c) s (maxlen l)).
  assert (Hl1 : reads 0 l l1).
  { split; [done| |rewrite Hf; cbn; lia]. unfold lines, l1. rewrite Hf. cbn. lia. }
  assert (Hn : forall y, wp (hex_escape i y) (fun _ l' => reads 0 l l') l1).
  { intros y. eapply wp_mono; [apply IH|]. intros ? l' H. exact (reads_trans 0 0 _ _ _ Hl1 H). }
  destruct (CStr.isdigit _); [apply Hn|]. destruct (_ && _); [apply Hn|].
  apply wp_bind. unfold wp at 1, unread, ungetc, add_lines, mbind, M_bind. apply wp_ret.
  split; [done| |rewrite Hf; cbn; lia].
  unfold lines. rewrite Hf. cbn. rewrite line_of_tolower. lia.
Qed.

(** The states in which the end of a token is a token. *)
Definition token_state (st : lex_state) : bool :=
  match st with
  | ST_IDENT | ST_ZERO | ST_ZEROX | ST_OCT | ST_DEC | ST_HEX | ST_STRING1 | ST_STRING2 => true
  | _ => false
  end.

(** The values that come with a token. *)
Definition token_ok (yychar : Z) (v : yystype) : bool :=
  (0 <=? yychar) && (yychar <=? INTEGER) &&
  match v with
  | no_value => yychar <? IDENT
  | str _ => (yychar =? IDENT) || (yychar =? STRING2)
  | data _ => yychar =? STRING1
  | num n => (yychar =? INTEGER) && (MInt.INT_MIN <=? n) && (n <=? MInt.INT_MAX)
  | node _ => false
  end.

(** What an iteration that started in [st] leaves. *)
Definition step_post (st : lex_state) (l : lexer) (r : step_end) (l' : lexer) : Prop :=
  reads 1 l l' /\
  match r with
  | Next st' b' =>
      0 <= len b' <= maxlen l /\
      (steps_left st' l' <= S (2 * String.length (fp l) + match st with ST_SPACE => 1 | _ => 0 end))%nat /\
      (String.length (fp l') + consumed st' <= S (String.length (fp l)) + consumed st)%nat
  | Exit b' => fits b' l' /\ token_state st = true
  | Return tok =>
      (String.length (fp l') <= String.length (fp l) + consumed st)%nat /\ token_ok tok no_value = true
  end.

Lemma reads_weaken l l' : reads 0 l l' -> reads 1 l l'.
Proof. intros [? ? ?]. split; [done|done|lia]. Qed.

Lemma code_valueless c : token_ok (CStr.code c) no_value = true.
Proof. destruct c as [[] [] [] [] [] [] [] []]; vm_compute; reflexivity. Qed.

Lemma lex_escape_ok b l : fits b l -> wp (lex_escape b) (step_post ST_STRING1 l) l.
Proof.
  intros Hb. unfold fits in Hb. apply wp_bind. unfold wp at 1, getc.
  destruct (fp l) as [|c s] eqn:Hf.
  { apply wp_ret. split; [done|]. done. }
  assert (Hpost : forall b' l', 0 <= len b' <= maxlen l -> reads 0 l l' -> (String.length (fp l') <= String.length s)%nat ->
            step_post ST_STRING1 l (Next ST_STRING1 b') l').
  { intros b' l' Hb' Hr Hs. split; [by apply reads_weaken|]. unfold steps_left. rewrite Hf. cbn. lia. }
  set (l1 := mk_lexer (line_no l) s (maxlen l)).
  destruct (is_nl c) eqn:Hc.
  { apply wp_bind. unfold wp at 1, add_lines. apply wp_ret, Hpost; [lia| |done].
    split; [done| |rewrite Hf; cbn; lia]. unfold lines. rewrite Hf. cbn. unfold line_of. rewrite Hc. lia. }
  assert (Hl1 : reads 0 l l1).
  { split; [done| |rewrite Hf; cbn; lia]. unfold lines, l1. rewrite Hf. cbn. unfold line_of. rewrite Hc. lia. }
  destruct (is_char 120 c).
  - apply wp_bind. eapply wp_mono; [apply hex_escape_ok|]. intros [x|] l' Hr; cbn.
    + apply wp_bind, wp_put, wp_ret, Hpost.
      all: destruct (reads_trans _ _ _ _ _ Hl1 Hr), Hr; cbn in *; unfold fits; try lia.
      by split.
    + apply wp_ret. destruct (reads_trans _ _ _ _ _ Hl1 Hr). split; [by apply reads_weaken|].
      unfold fits. split; [lia|done].
  - apply wp_bind, wp_put, wp_ret, Hpost; cbn; [done|lia|done|done].
Qed.

Lemma lex_step_ok st b c l : fits b l -> wp (lex_step st b c) (step_post st l) l.
Proof.
  intros Hb. unfold fits in Hb.
  assert (Hmore : forall st' d, consumed st = 1%nat \/ st = ST_START -> consumed st' = 1%nat ->
            wp (lex_more st' b d) (step_post st l) l).
  { intros st' d Hc Hc'. apply wp_bind, wp_put, wp_ret; [done|]. split; [done|]. cbn.
    unfold steps_left. split_and!; cbn; destruct Hc as [?| ->]; destruct st'; try done; cbn in *; lia. }
  assert (Hend : token_state st = true -> wp (lex_end b c) (step_post st l) l).
  { intros Ht. apply wp_bind, wp_unread. intros l' Hr Hl. apply wp_ret. split; [done|].
    destruct Hr. unfold fits. split; [lia|done]. }
  assert (Hop : forall tok, consumed st = 1%nat -> token_ok tok no_value = true ->
            wp (lex_op tok c) (step_post st l) l).
  { intros tok Hc Ht. apply wp_bind, wp_unread. intros l' Hr Hl. apply wp_ret. split; [done|].
    split; [lia|done]. }
  assert (Hret : forall tok, token_ok tok no_value = true -> wp (mret (Return tok)) (step_post st l) l).
  { intros tok Ht. apply wp_ret. split; [done|]. split; [lia|done]. }
  assert (Hnext : forall st', consumed st = 1%nat \/ st = ST_START \/ consumed st' = 0%nat ->
            wp (mret (Next st' b)) (step_post st l) l).
  { intros st' Hc. apply wp_ret. split; [done|]. unfold steps_left.
    split_and!; [lia|lia|destruct st'; lia|destruct Hc as [?|[->|?]]; destruct st'; cbn in *; lia]. }
  assert (Hexit : token_state st = true -> wp (mret (Exit b)) (step_post st l) l) by (intros; by apply wp_ret).
  destruct st; cbn [lex_step];
    try (repeat case_match; first [by auto | by apply Hmore; auto | by apply Hop | by apply Hret | by apply Hnext; auto]).
  - unfold lex_start. destruct (start_state c) as [st'|]; [|apply Hret, code_valueless].
    destruct st'; first [by apply Hnext; auto | by apply (Hmore _ c); auto].
  - case_match; [by apply Hnext; auto|]. apply wp_bind, wp_unread. intros l' Hr Hl. apply wp_ret.
    split; [done|]. destruct Hr. unfold steps_left. cbn. lia.
  - unfold lex_string1. repeat case_match; [by apply Hexit| |by apply Hmore; auto].
    by apply lex_escape_ok.
Qed.


(** An answer to the input [l], with what is left. *)
Record answer (n : nat) (l : lexer) (r : lexed) (l' : lexer) : Prop := mk_answer
  { answer_room : maxlen l <= maxlen l';
    answer_lines : lines l' = lines l;
    answer_length : (String.length (fp l') <= n)%nat;
    answer_token : match r with
                   | Token t v => token_ok t v = true
                                  /\ (t <> YYEOF -> (String.length (fp l') < n)%nat)
                   | Abort => fp l' = EmptyString
                   end }.

Lemma keyword_valueless s l r :
  Forall (fun kr => (0 <=? snd kr) && (snd kr <? IDENT) = true) l ->
  keyword s l = Some r -> token_ok r no_value = true.
Proof.
  unfold token_ok. induction 1 as [|[k r'] l Hr Hl IH]; cbn; [done|].
  case_decide; [|done]. intros [= <-]. cbn [snd] in Hr. unfold IDENT, INTEGER in *. lia.
Qed.

Lemma integer_token z : token_ok INTEGER (num (MInt.wrap32 z)) = true.
Proof.
  unfold token_ok. pose proof (MInt.wrap32_range z) as H. unfold MInt.int_range in H.
  unfold INTEGER in *. lia.
Qed.

Lemma exit_loop_ok st b n l :
  fits b l -> (String.length (fp l) + consumed st <= n)%nat ->
  token_state st = true \/ fp l = EmptyString ->
  wp (exit_loop st b) (answer n l) l.
Proof.
  intros Hb Hn Hst. apply wp_bind. unfold wp at 1, finish. unfold fits in Hb.
  rewrite (proj2 (Z.ltb_lt _ _)) by lia. set (s := CStr.rev_str _ _). apply wp_ret.
  split; [lia|done|lia|].
  destruct st; try (destruct Hst; [done|]); try done; cbn in Hn; try (split; [done|intros; lia]);
    try (split; [apply integer_token|intros; lia]).
  destruct (keyword s keywords) as [r|] eqn:Hk; (split; [|intros; lia]); [|done].
  eapply keyword_valueless; [|exact Hk]. by repeat constructor.
Qed.

Lemma lex_loop_ok fuel n st b l :
  (steps_left st l < fuel)%nat -> fits b l -> (String.length (fp l) + consumed st <= n)%nat ->
  wp (lex_loop fuel st b) (answer n l) l.
Proof.
  revert st b l. induction fuel as [|fuel IH]; intros st b l Hf Hb Hn; [lia|]. cbn [lex_loop].
  apply wp_bind. unfold wp at 1, getc. destruct (fp l) as [|c s] eqn:Hfp.
  { apply exit_loop_ok; [done| |by right]. by rewrite Hfp. }
  apply wp_bind. unfold wp at 1, add_lines. cbn [line_no fp maxlen].
  set (l1 := mk_lexer (line_no l + line_of c) s (maxlen l)).
  assert (Hl1 : lines l1 = lines l) by (unfold lines, l1; rewrite Hfp; cbn; lia).
  unfold steps_left in Hf. rewrite Hfp in Hf. cbn in Hf, Hn.
  apply wp_bind. eapply wp_mono; [by apply lex_step_ok|].
  intros r l2 [[Hm Hl Hs] Hr]. cbn in Hm, Hs.
  assert (Hl2 : lines l2 = lines l) by congruence.
  destruct r as [st' b'|b'|tok].
  - destruct Hr as (Hb' & Hs1 & Hc). cbn in Hs1, Hc, Hb'.
    apply wp_bind. unfold wp at 1, grow_buffer.
    set (l3 := mk_lexer _ _ _). eapply wp_mono; [apply (IH st' b' l3)|].
    + unfold steps_left in *. cbn. lia.
    + unfold fits, l3. cbn. destruct (maxlen l2 <=? len b') eqn:?; lia.
    + cbn. lia.
    + intros r l' [H1 H2 H3 H4]. split; [|by rewrite H2|done|done].
      unfold l3 in H1. cbn in H1. destruct (maxlen l2 <=? len b'); lia.
  - destruct Hr as [Hb' Hst]. eapply wp_mono; [apply (exit_loop_ok st b' n l2)|].
    + done.
    + lia.
    + by left.
    + intros r l' [H1 H2 H3 H4]. split; [lia|congruence|lia|done].
  - destruct Hr as [Hr Htok]. apply wp_ret. cbn in Hr. split; [lia|done|lia|]. split; [done|intros; lia].
Qed.

Lemma mylex_ok l : 0 < maxlen l -> wp mylex (answer (String.length (fp l)) l) l.
Proof.
  intros Hl. unfold mylex, wp. apply (lex_loop_ok _ _ ST_START no_text l).
  - unfold steps_left, lex_fuel. lia.
  - unfold fits. cbn. lia.
  - cbn. lia.
Qed.

End NaslLex.
