(* ===== verification/NaslGrammar.v ===== *)
(** * The LALR automaton of NASL ([nasl_grammar.tab.c])

    The tables of the parser and how they are read: what to do in a state with a
    token ahead, where to go after a reduction, and the rules of the grammar they
    come from.  States, tokens, symbols and rules are numbers, as in the code. *)

From S2P Require Import Prelude.
From stdpp Require Import base list.
From Stdlib Require Import ZArith Lia.
Local Open Scope Z_scope.

Module NaslGrammar.

(** ** Tables

    A C array of constants, as a binary tree on the bits of the index plus one. *)

Inductive table := Empty | Row (v : Z) (t0 t1 : table).

Fixpoint set_row (i : positive) (v : Z) (t : table) : table :=
  match i, t with
  | xH, Empty => Row v Empty Empty
  | xH, Row _ t0 t1 => Row v t0 t1
  | xO j, Empty => Row 0 (set_row j v Empty) Empty
  | xO j, Row w t0 t1 => Row w (set_row j v t0) t1
  | xI j, Empty => Row 0 Empty (set_row j v Empty)
  | xI j, Row w t0 t1 => Row w t0 (set_row j v t1)
  end.

Fixpoint table_from (i : positive) (l : list Z) (t : table) : table :=
  match l with [] => t | v :: l' => table_from (Pos.succ i) l' (set_row i v t) end.
Definition table_of (l : list Z) : table := table_from 1 l Empty.

Fixpoint row (i : positive) (t : table) : option Z :=
  match t with
  | Empty => None
  | Row v t0 t1 => match i with xH => Some v | xO j => row j t0 | xI j => row j t1 end
  end.

(** [t[i]]; outside of the array the behaviour is undefined. *)
Definition get (t : table) (i : Z) : outcome Z :=
  match i with
  | Z0 => match row 1 t with Some v => Ret v | None => Undef end
  | Zpos p => match row (Pos.succ p) t with Some v => Ret v | None => Undef end
  | Zneg _ => Undef
  end.

#[export] Instance outcome_ret : MRet outcome := fun A => Ret.
#[export] Instance outcome_bind : MBind outcome := fun A B k m =>
  match m with Ret a => k a | NoReturn => NoReturn | Undef => Undef end.

Definition YYFINAL := 78.
Definition YYLAST := 1029.
Definition YYNTOKENS := 73.
Definition YYNNTS := 43.
Definition YYNRULES := 126.
Definition YYNSTATES := 227.
Definition YYUNDEFTOK := 2.
Definition YYMAXUTOK := 304.
Definition YYPACT_NINF := -91.
Definition YYTABLE_NINF := -69.
Definition YYTERROR := 1.
Definition YYINITDEPTH := 200.
Definition YYMAXDEPTH := 10000.

Definition yytranslate : table := Eval vm_compute in table_of [
  0; 2; 2; 2; 2; 2; 2; 2; 2; 2; 2; 2; 2; 2; 2; 2; 2; 2; 2; 2; 2; 2; 2; 2; 2; 2; 2; 2; 2; 2; 2; 2;
  2; 70; 2; 2; 2; 57; 52; 2; 61; 62; 55; 53; 63; 54; 72; 56; 2; 2; 2; 2; 2; 2; 2; 2; 2; 2; 67; 66;
  48; 47; 49; 2; 2; 2; 2; 2; 2; 2; 2; 2; 2; 2; 2; 2; 2; 2; 2; 2; 2; 2; 2; 2; 2; 2; 2; 2; 2; 2; 2;
  68; 2; 69; 51; 2; 2; 2; 2; 2; 2; 2; 2; 2; 2; 2; 2; 2; 2; 2; 2; 2; 2; 2; 2; 2; 2; 2; 2; 2; 2; 2;
  2; 64; 50; 65; 71; 2; 2; 2; 2; 2; 2; 2; 2; 2; 2; 2; 2; 2; 2; 2; 2; 2; 2; 2; 2; 2; 2; 2; 2; 2; 2;
  2; 2; 2; 2; 2; 2; 2; 2; 2; 2; 2; 2; 2; 2; 2; 2; 2; 2; 2; 2; 2; 2; 2; 2; 2; 2; 2; 2; 2; 2; 2; 2;
  2; 2; 2; 2; 2; 2; 2; 2; 2; 2; 2; 2; 2; 2; 2; 2; 2; 2; 2; 2; 2; 2; 2; 2; 2; 2; 2; 2; 2; 2; 2; 2;
  2; 2; 2; 2; 2; 2; 2; 2; 2; 2; 2; 2; 2; 2; 2; 2; 2; 2; 2; 2; 2; 2; 2; 2; 2; 2; 2; 2; 2; 2; 2; 2;
  2; 2; 2; 2; 2; 2; 2; 1; 2; 3; 4; 5; 6; 7; 8; 9; 10; 11; 12; 13; 14; 15; 16; 17; 18; 19; 20; 21;
  22; 23; 24; 25; 26; 27; 28; 29; 30; 31; 32; 33; 34; 35; 36; 37; 38; 39; 40; 41; 42; 43; 44; 45;
  46; 58; 59; 60].

Definition yyprhs : table := Eval vm_compute in table_of [
  0; 0; 3; 5; 7; 10; 12; 14; 21; 22; 24; 26; 30; 34; 37; 39; 42; 45; 47; 49; 51; 53; 55; 57; 59;
  61; 63; 65; 67; 69; 71; 72; 75; 77; 83; 91; 93; 95; 97; 99; 109; 115; 121; 128; 130; 132; 134;
  135; 139; 141; 143; 148; 153; 155; 156; 158; 162; 164; 168; 172; 176; 180; 184; 188; 192; 196;
  200; 204; 206; 208; 210; 212; 217; 219; 222; 225; 228; 231; 235; 239; 242; 246; 250; 254; 257;
  260; 264; 268; 272; 276; 280; 284; 288; 292; 296; 300; 302; 306; 310; 314; 318; 322; 326; 330;
  334; 338; 342; 344; 346; 348; 350; 352; 356; 358; 362; 364; 368; 370; 372; 374; 376; 378; 380;
  382; 384; 392; 395].

Definition yyrhs : table := Eval vm_compute in table_of [
  74; 0; -1; 75; -1; 76; -1; 76; 75; -1; 82; -1; 77; -1; 21; 101; 61; 78; 62; 80; -1; -1; 79; -1;
  101; -1; 101; 63; 79; -1; 64; 81; 65; -1; 64; 65; -1; 82; -1; 82; 81; -1; 83; 66; -1; 80; -1;
  85; -1; 86; -1; 99; -1; 104; -1; 92; -1; 95; -1; 84; -1; 94; -1; 114; -1; 115; -1; 19; -1; 20;
  -1; -1; 22; 105; -1; 22; -1; 3; 61; 105; 62; 82; -1; 3; 61; 105; 62; 82; 4; 82; -1; 87; -1; 88;
  -1; 89; -1; 90; -1; 14; 61; 91; 66; 105; 66; 91; 62; 82; -1; 18; 61; 105; 62; 82; -1; 15; 82;
  16; 105; 66; -1; 17; 101; 61; 105; 62; 82; -1; 99; -1; 104; -1; 95; -1; -1; 95; 13; 105; -1; 44;
  -1; 45; -1; 23; 61; 93; 62; -1; 101; 61; 96; 62; -1; 97; -1; -1; 98; -1; 98; 63; 97; -1; 105;
  -1; 101; 67; 105; -1; 100; 47; 105; -1; 100; 32; 105; -1; 100; 33; 105; -1; 100; 34; 105; -1;
  100; 35; 105; -1; 100; 36; 105; -1; 100; 38; 105; -1; 100; 39; 105; -1; 100; 37; 105; -1; 101;
  -1; 102; -1; 43; -1; 13; -1; 101; 68; 103; 69; -1; 105; -1; 26; 100; -1; 27; 100; -1; 100; 26;
  -1; 100; 27; -1; 61; 105; 62; -1; 105; 10; 105; -1; 70; 105; -1; 105; 9; 105; -1; 105; 53; 105;
  -1; 105; 54; 105; -1; 54; 105; -1; 71; 105; -1; 105; 55; 105; -1; 105; 31; 105; -1; 105; 56;
  105; -1; 105; 57; 105; -1; 105; 52; 105; -1; 105; 51; 105; -1; 105; 50; 105; -1; 105; 29; 105;
  -1; 105; 30; 105; -1; 105; 28; 105; -1; 104; -1; 105; 11; 105; -1; 105; 12; 105; -1; 105; 40;
  93; -1; 105; 41; 93; -1; 105; 48; 105; -1; 105; 49; 105; -1; 105; 5; 105; -1; 105; 6; 105; -1;
  105; 7; 105; -1; 105; 8; 105; -1; 111; -1; 99; -1; 113; -1; 109; -1; 106; -1; 68; 107; 69; -1;
  108; -1; 108; 63; 107; -1; 110; -1; 93; 42; 110; -1; 46; -1; 45; -1; 44; -1; 109; -1; 112; -1;
  102; -1; 95; -1; 101; -1; 46; 72; 46; 72; 46; 72; 46; -1; 24; 78; -1; 25; 78; -1].

Definition yyr1 : table := Eval vm_compute in table_of [
  0; 73; 74; 75; 75; 76; 76; 77; 78; 78; 79; 79; 80; 80; 81; 81; 82; 82; 82; 82; 83; 83; 83; 83;
  83; 83; 83; 83; 83; 83; 83; 84; 84; 85; 85; 86; 86; 86; 86; 87; 88; 89; 90; 91; 91; 91; 91; 92;
  93; 93; 94; 95; 96; 96; 97; 97; 98; 98; 99; 99; 99; 99; 99; 99; 99; 99; 99; 100; 100; 101; 101;
  102; 103; 104; 104; 104; 104; 105; 105; 105; 105; 105; 105; 105; 105; 105; 105; 105; 105; 105;
  105; 105; 105; 105; 105; 105; 105; 105; 105; 105; 105; 105; 105; 105; 105; 105; 105; 105; 105;
  105; 105; 106; 107; 107; 108; 108; 109; 109; 109; 110; 111; 111; 111; 112; 113; 114; 115].

Definition yyr2 : table := Eval vm_compute in table_of [
  0; 2; 1; 1; 2; 1; 1; 6; 0; 1; 1; 3; 3; 2; 1; 2; 2; 1; 1; 1; 1; 1; 1; 1; 1; 1; 1; 1; 1; 1; 0; 2;
  1; 5; 7; 1; 1; 1; 1; 9; 5; 5; 6; 1; 1; 1; 0; 3; 1; 1; 4; 4; 1; 0; 1; 3; 1; 3; 3; 3; 3; 3; 3; 3;
  3; 3; 3; 1; 1; 1; 1; 4; 1; 2; 2; 2; 2; 3; 3; 2; 3; 3; 3; 2; 2; 3; 3; 3; 3; 3; 3; 3; 3; 3; 3; 1;
  3; 3; 3; 3; 3; 3; 3; 3; 3; 3; 1; 1; 1; 1; 1; 3; 1; 3; 1; 3; 1; 1; 1; 1; 1; 1; 1; 1; 7; 2; 2].

Definition yydefact : table := Eval vm_compute in table_of [
  30; 0; 70; 0; 30; 0; 0; 28; 29; 0; 32; 0; 8; 8; 0; 0; 69; 30; 0; 2; 3; 6; 17; 5; 0; 24; 18; 19;
  35; 36; 37; 38; 22; 25; 23; 20; 0; 67; 68; 21; 26; 27; 0; 46; 0; 0; 0; 0; 118; 117; 116; 0; 0;
  0; 0; 0; 122; 107; 123; 121; 95; 31; 110; 109; 106; 120; 108; 0; 125; 9; 10; 126; 73; 67; 74;
  13; 0; 14; 1; 4; 16; 0; 75; 76; 0; 0; 0; 0; 0; 0; 0; 0; 0; 53; 0; 0; 0; 45; 43; 44; 0; 0; 0; 8;
  0; 83; 0; 118; 117; 116; 0; 0; 112; 119; 114; 79; 84; 0; 0; 0; 0; 0; 0; 0; 0; 0; 0; 0; 0; 0; 0;
  0; 0; 0; 0; 0; 0; 0; 0; 0; 0; 48; 49; 0; 0; 12; 15; 47; 59; 60; 61; 62; 63; 66; 64; 65; 58; 0;
  52; 54; 123; 56; 0; 72; 30; 0; 0; 0; 30; 0; 0; 77; 0; 111; 0; 102; 103; 104; 105; 80; 78; 96;
  97; 94; 92; 93; 86; 98; 99; 100; 101; 91; 90; 89; 81; 82; 85; 87; 88; 50; 11; 51; 0; 0; 71; 33;
  0; 41; 30; 40; 0; 0; 115; 113; 55; 57; 30; 46; 42; 7; 0; 34; 0; 0; 30; 124; 39].

Definition yydefgoto : table := Eval vm_compute in table_of [
  -1; 18; 19; 20; 21; 68; 69; 22; 76; 23; 24; 25; 26; 27; 28; 29; 30; 31; 96; 32; 110; 33; 56;
  157; 158; 159; 57; 36; 58; 59; 162; 60; 161; 62; 111; 112; 63; 114; 64; 65; 66; 40; 41].

Definition yypact : table := Eval vm_compute in table_of [
  464; -53; -91; -50; 491; -6; -42; -91; -91; -6; 499; -40; -6; -6; -6; -6; -91; 259; 25; -91; 91;
  -91; -91; -91; -39; -91; -91; -91; -91; -91; -91; -91; -91; -91; 23; -91; 553; -13; -91; -91;
  -91; -91; 499; 26; 29; -30; 499; -21; -91; -91; -18; 499; 499; 13; 499; 499; -91; -91; 961; 611;
  -91; 798; -91; -91; -91; -91; -91; 19; -91; -91; -12; -91; -91; -26; -91; -91; -9; 123; -91;
  -91; -91; 499; -91; -91; 499; 499; 499; 499; 499; 499; 499; 499; 499; 499; 499; 566; -4; -91;
  -91; -91; 499; 499; 624; -6; 14; 37; 682; 39; 40; -91; 42; 7; 22; -91; -91; 37; 37; 499; 499;
  499; 499; 499; 499; 499; 499; 499; 499; 499; 499; 19; 19; 499; 499; 499; 499; 499; 499; 499;
  499; 499; 499; -91; -91; 28; -6; -91; -91; 798; 798; 798; 798; 798; 798; 798; 798; 798; 798; 35;
  -91; 33; 945; 798; 17; 798; 491; 499; 347; 740; 491; 36; 16; -91; 34; -91; 13; 882; 882; 882;
  882; 851; 913; 882; 882; 398; 398; 398; 37; -91; -91; 882; 882; 354; 337; 415; 15; 15; 37; 37;
  37; -91; -91; -91; 499; 499; -91; 83; 409; -91; 491; -91; 27; 53; -91; -91; -91; 798; 491; 26;
  -91; -91; 47; -91; 38; 56; 491; -91; -91].

Definition yypgoto : table := Eval vm_compute in table_of [
  -91; -91; 101; -91; -91; -11; -20; -87; 48; 12; -91; -91; -91; -91; -91; -91; -91; -91; -90;
  -91; -64; -91; 6; -91; -74; -91; 24; 60; 0; 18; -91; 30; 209; -91; -45; -91; -52; -41; -91; -91;
  -91; -91; -91].

Definition yytable : table := Eval vm_compute in table_of [
  37; 113; 71; 143; 37; 45; 34; 2; 42; 47; 34; 43; 70; 70; 73; 73; 44; 37; 38; 46; 37; 67; 38; 34;
  35; 78; 34; 80; 35; 77; 39; 101; 38; 38; 39; 38; 81; 16; 38; 2; 103; 35; 94; 37; 35; 100; 128;
  39; 93; 97; 39; 144; 14; 15; 104; 94; 145; 107; 108; 109; 170; 38; 165; 141; 142; 187; 188; 98;
  128; 16; 138; 139; 140; 99; 72; 74; 173; 37; 48; 49; 109; -48; -49; 34; 172; 174; 204; 216; 211;
  77; 199; 17; 169; 160; 1; 38; 202; 201; 210; 220; 224; 35; 225; 70; 2; 3; 4; 39; 5; 6; 7; 8; 9;
  10; 11; 12; 13; 14; 15; 223; 113; 79; 113; 219; 200; 146; 1; 222; 214; 213; 0; 212; 0; 0; 16; 0;
  2; 3; 4; 0; 5; 6; 7; 8; 70; 10; 11; 12; 13; 14; 15; 0; 0; 0; 0; 17; 0; -30; 0; 0; 0; 0; 0; 0;
  37; 0; 16; 0; 37; 0; 34; 0; 0; 0; 34; 0; 205; 0; 0; 0; 209; 0; 38; 0; 0; 0; 38; 17; 35; -30; 0;
  0; 35; 0; 39; 0; 0; 0; 39; 0; 0; 0; 160; 0; 0; 0; 0; 0; 37; 0; 0; 0; 0; 0; 34; 0; 37; 37; 0; 61;
  218; 0; 34; 97; 37; 0; 38; 0; 221; 0; 34; 0; 35; 0; 38; 38; 226; 0; 39; 0; 35; 98; 38; 0; 0; 0;
  39; 99; 35; 0; 0; 95; 0; 0; 39; 102; 0; 0; 0; 0; 105; 106; 1; 115; 116; 0; 0; 0; 0; 0; 0; 0; 2;
  3; 4; 0; 5; 6; 7; 8; 0; 10; 11; 12; 13; 14; 15; 0; 0; 0; 147; 0; 0; 148; 149; 150; 151; 152;
  153; 154; 155; 156; 16; 163; 0; 0; 0; 0; 0; 166; 167; 0; 0; 0; 0; 0; 0; 0; 0; 0; 0; 0; 0; 17;
  75; 0; 175; 176; 177; 178; 179; 180; 181; 182; 183; 184; 185; 186; 0; 0; 189; 190; 191; 192;
  193; 194; 195; 196; 197; 198; 0; 0; 117; 118; 119; 120; 121; 122; 123; 124; 0; 0; 0; 0; 0; 125;
  126; 127; 128; 0; 0; 0; 0; 0; 206; 125; 126; 127; 128; 0; 0; 0; 125; 126; 127; 128; 0; 129; 130;
  135; 136; 137; 138; 139; 140; 131; 132; 133; 134; 135; 136; 137; 138; 139; 140; 134; 135; 136;
  137; 138; 139; 140; 215; 207; 117; 118; 119; 120; 121; 122; 123; 124; 0; 0; 0; 0; -69; -69; -69;
  128; 0; 0; 0; 0; 0; 0; 0; 125; 126; 127; 128; 0; 0; 125; 126; 127; 128; 0; 0; 129; 130; 136;
  137; 138; 139; 140; 0; 131; 132; 133; 134; 135; 136; 137; 138; 139; 140; 1; 136; 137; 138; 139;
  140; 0; 0; 217; 0; 2; 3; 4; 0; 5; 6; 7; 8; 9; 10; 11; 12; 13; 14; 15; 0; 0; 1; 0; 0; 0; 0; 0; 0;
  0; 0; 0; 2; 3; 4; 16; 5; 6; 7; 8; 2; 10; 11; 12; 13; 14; 15; 0; 0; 0; 0; 0; 0; 14; 15; 0; 17; 0;
  0; 0; 0; 0; 16; 0; 0; 0; 0; 0; 0; 0; 16; 48; 49; 50; 0; 0; 0; 0; 0; 0; 0; 51; 0; 17; 0; 0; 0; 0;
  52; 0; 0; 0; 0; 0; 0; 53; 0; 54; 55; 117; 118; 119; 120; 121; 122; 123; 124; 82; 83; 0; 0; 0; 0;
  84; 85; 86; 87; 88; 89; 90; 91; 0; 125; 126; 127; 128; 0; 0; 92; 0; 0; 0; 0; 0; 129; 130; 0; 0;
  0; 0; 0; 0; 131; 132; 133; 134; 135; 136; 137; 138; 139; 140; 0; 0; 0; 0; 164; 117; 118; 119;
  120; 121; 122; 123; 124; -68; -68; 0; 0; 0; 0; -68; -68; -68; -68; -68; -68; -68; -68; 0; 125;
  126; 127; 128; 0; 0; -68; 0; 0; 0; 0; 0; 129; 130; 0; 0; 0; 0; 0; 0; 131; 132; 133; 134; 135;
  136; 137; 138; 139; 140; 0; 0; 0; 0; 168; 117; 118; 119; 120; 121; 122; 123; 124; 0; 0; 0; 0; 0;
  0; 0; 0; 0; 0; 0; 0; 0; 0; 0; 125; 126; 127; 128; 0; 0; 0; 0; 0; 0; 0; 0; 129; 130; 0; 0; 0; 0;
  0; 0; 131; 132; 133; 134; 135; 136; 137; 138; 139; 140; 0; 0; 0; 0; 171; 117; 118; 119; 120;
  121; 122; 123; 124; 0; 0; 0; 0; 0; 0; 0; 0; 0; 0; 0; 0; 0; 0; 0; 125; 126; 127; 128; 0; 0; 0; 0;
  0; 0; 0; 0; 129; 130; 0; 0; 0; 0; 0; 0; 131; 132; 133; 134; 135; 136; 137; 138; 139; 140; 0; 0;
  0; 0; 208; 117; 118; 119; 120; 121; 122; 123; 124; 0; 0; 0; 0; 0; 0; 0; 0; 0; 0; 0; 0; 0; 0; 0;
  125; 126; 127; 128; 0; 0; 0; 0; 0; 0; 0; 0; 129; 130; 0; 0; 0; 0; 0; 0; 131; 132; 133; 134; 135;
  136; 137; 138; 139; 140; 117; 118; 119; 120; 0; 122; 123; 124; 0; 0; 0; 0; 0; 0; 0; 0; 0; 0; 0;
  0; 0; 0; 0; 125; 126; 127; 128; 0; 0; 0; 0; -69; -69; -69; -69; 129; 130; -69; -69; 0; 0; 0; 0;
  131; 132; 133; 134; 135; 136; 137; 138; 139; 140; 0; 125; 126; 127; 128; 0; 0; 0; 0; 117; 118;
  119; 120; -69; -69; 123; 124; 0; 0; 0; 0; -69; -69; 133; 134; 135; 136; 137; 138; 139; 140; 0;
  125; 126; 127; 128; 0; 0; 0; 0; 0; 0; 0; 0; 129; 130; 0; 0; 0; 0; 0; 0; 131; 132; 133; 134; 135;
  136; 137; 138; 139; 140; -67; -67; 0; 0; 0; 0; -67; -67; -67; -67; -67; -67; -67; -67; 0; 0;
  -67; -67; 0; 0; 0; -67; -67; -67; -67; -67; -67; -67; -67; -67; 0; 0; 0; 0; 0; 93; 0; -67; 0; 0;
  0; 203; 94; 0; 0; 0; 0; 0; 0; 0; 0; 93; 0; 0; 0; 0; 0; 0; 94].

Definition yycheck : table := Eval vm_compute in table_of [
  0; 53; 13; 67; 4; 5; 0; 13; 61; 9; 4; 61; 12; 13; 14; 15; 4; 17; 0; 61; 20; 61; 4; 17; 0; 0; 20;
  66; 4; 17; 0; 61; 14; 15; 4; 17; 13; 43; 20; 13; 61; 17; 68; 43; 20; 16; 31; 17; 61; 43; 20; 63;
  26; 27; 72; 68; 65; 44; 45; 46; 46; 43; 66; 44; 45; 129; 130; 43; 31; 43; 55; 56; 57; 43; 14;
  15; 69; 77; 44; 45; 46; 42; 42; 77; 42; 63; 69; 4; 72; 77; 62; 64; 103; 93; 3; 77; 63; 62; 62;
  46; 62; 77; 46; 103; 13; 14; 15; 77; 17; 18; 19; 20; 21; 22; 23; 24; 25; 26; 27; 72; 172; 20;
  174; 210; 144; 77; 3; 217; 202; 174; -1; 172; -1; -1; 43; -1; 13; 14; 15; -1; 17; 18; 19; 20;
  144; 22; 23; 24; 25; 26; 27; -1; -1; -1; -1; 64; -1; 66; -1; -1; -1; -1; -1; -1; 164; -1; 43;
  -1; 168; -1; 164; -1; -1; -1; 168; -1; 164; -1; -1; -1; 168; -1; 164; -1; -1; -1; 168; 64; 164;
  66; -1; -1; 168; -1; 164; -1; -1; -1; 168; -1; -1; -1; 202; -1; -1; -1; -1; -1; 208; -1; -1; -1;
  -1; -1; 208; -1; 216; 217; -1; 10; 208; -1; 216; 217; 224; -1; 208; -1; 216; -1; 224; -1; 208;
  -1; 216; 217; 224; -1; 208; -1; 216; 217; 224; -1; -1; -1; 216; 217; 224; -1; -1; 42; -1; -1;
  224; 46; -1; -1; -1; -1; 51; 52; 3; 54; 55; -1; -1; -1; -1; -1; -1; -1; 13; 14; 15; -1; 17; 18;
  19; 20; -1; 22; 23; 24; 25; 26; 27; -1; -1; -1; 81; -1; -1; 84; 85; 86; 87; 88; 89; 90; 91; 92;
  43; 94; -1; -1; -1; -1; -1; 100; 101; -1; -1; -1; -1; -1; -1; -1; -1; -1; -1; -1; -1; 64; 65;
  -1; 117; 118; 119; 120; 121; 122; 123; 124; 125; 126; 127; 128; -1; -1; 131; 132; 133; 134; 135;
  136; 137; 138; 139; 140; -1; -1; 5; 6; 7; 8; 9; 10; 11; 12; -1; -1; -1; -1; -1; 28; 29; 30; 31;
  -1; -1; -1; -1; -1; 165; 28; 29; 30; 31; -1; -1; -1; 28; 29; 30; 31; -1; 40; 41; 52; 53; 54; 55;
  56; 57; 48; 49; 50; 51; 52; 53; 54; 55; 56; 57; 51; 52; 53; 54; 55; 56; 57; 203; 66; 5; 6; 7; 8;
  9; 10; 11; 12; -1; -1; -1; -1; 28; 29; 30; 31; -1; -1; -1; -1; -1; -1; -1; 28; 29; 30; 31; -1;
  -1; 28; 29; 30; 31; -1; -1; 40; 41; 53; 54; 55; 56; 57; -1; 48; 49; 50; 51; 52; 53; 54; 55; 56;
  57; 3; 53; 54; 55; 56; 57; -1; -1; 66; -1; 13; 14; 15; -1; 17; 18; 19; 20; 21; 22; 23; 24; 25;
  26; 27; -1; -1; 3; -1; -1; -1; -1; -1; -1; -1; -1; -1; 13; 14; 15; 43; 17; 18; 19; 20; 13; 22;
  23; 24; 25; 26; 27; -1; -1; -1; -1; -1; -1; 26; 27; -1; 64; -1; -1; -1; -1; -1; 43; -1; -1; -1;
  -1; -1; -1; -1; 43; 44; 45; 46; -1; -1; -1; -1; -1; -1; -1; 54; -1; 64; -1; -1; -1; -1; 61; -1;
  -1; -1; -1; -1; -1; 68; -1; 70; 71; 5; 6; 7; 8; 9; 10; 11; 12; 26; 27; -1; -1; -1; -1; 32; 33;
  34; 35; 36; 37; 38; 39; -1; 28; 29; 30; 31; -1; -1; 47; -1; -1; -1; -1; -1; 40; 41; -1; -1; -1;
  -1; -1; -1; 48; 49; 50; 51; 52; 53; 54; 55; 56; 57; -1; -1; -1; -1; 62; 5; 6; 7; 8; 9; 10; 11;
  12; 26; 27; -1; -1; -1; -1; 32; 33; 34; 35; 36; 37; 38; 39; -1; 28; 29; 30; 31; -1; -1; 47; -1;
  -1; -1; -1; -1; 40; 41; -1; -1; -1; -1; -1; -1; 48; 49; 50; 51; 52; 53; 54; 55; 56; 57; -1; -1;
  -1; -1; 62; 5; 6; 7; 8; 9; 10; 11; 12; -1; -1; -1; -1; -1; -1; -1; -1; -1; -1; -1; -1; -1; -1;
  -1; 28; 29; 30; 31; -1; -1; -1; -1; -1; -1; -1; -1; 40; 41; -1; -1; -1; -1; -1; -1; 48; 49; 50;
  51; 52; 53; 54; 55; 56; 57; -1; -1; -1; -1; 62; 5; 6; 7; 8; 9; 10; 11; 12; -1; -1; -1; -1; -1;
  -1; -1; -1; -1; -1; -1; -1; -1; -1; -1; 28; 29; 30; 31; -1; -1; -1; -1; -1; -1; -1; -1; 40; 41;
  -1; -1; -1; -1; -1; -1; 48; 49; 50; 51; 52; 53; 54; 55; 56; 57; -1; -1; -1; -1; 62; 5; 6; 7; 8;
  9; 10; 11; 12; -1; -1; -1; -1; -1; -1; -1; -1; -1; -1; -1; -1; -1; -1; -1; 28; 29; 30; 31; -1;
  -1; -1; -1; -1; -1; -1; -1; 40; 41; -1; -1; -1; -1; -1; -1; 48; 49; 50; 51; 52; 53; 54; 55; 56;
  57; 5; 6; 7; 8; -1; 10; 11; 12; -1; -1; -1; -1; -1; -1; -1; -1; -1; -1; -1; -1; -1; -1; -1; 28;
  29; 30; 31; -1; -1; -1; -1; 5; 6; 7; 8; 40; 41; 11; 12; -1; -1; -1; -1; 48; 49; 50; 51; 52; 53;
  54; 55; 56; 57; -1; 28; 29; 30; 31; -1; -1; -1; -1; 5; 6; 7; 8; 40; 41; 11; 12; -1; -1; -1; -1;
  48; 49; 50; 51; 52; 53; 54; 55; 56; 57; -1; 28; 29; 30; 31; -1; -1; -1; -1; -1; -1; -1; -1; 40;
  41; -1; -1; -1; -1; -1; -1; 48; 49; 50; 51; 52; 53; 54; 55; 56; 57; 26; 27; -1; -1; -1; -1; 32;
  33; 34; 35; 36; 37; 38; 39; -1; -1; 26; 27; -1; -1; -1; 47; 32; 33; 34; 35; 36; 37; 38; 39; -1;
  -1; -1; -1; -1; 61; -1; 47; -1; -1; -1; 67; 68; -1; -1; -1; -1; -1; -1; -1; -1; 61; -1; -1; -1;
  -1; -1; -1; 68].

Definition yystos : table := Eval vm_compute in table_of [
  0; 3; 13; 14; 15; 17; 18; 19; 20; 21; 22; 23; 24; 25; 26; 27; 43; 64; 74; 75; 76; 77; 80; 82;
  83; 84; 85; 86; 87; 88; 89; 90; 92; 94; 95; 99; 100; 101; 102; 104; 114; 115; 61; 61; 82; 101;
  61; 101; 44; 45; 46; 54; 61; 68; 70; 71; 95; 99; 101; 102; 104; 105; 106; 109; 111; 112; 113;
  61; 78; 79; 101; 78; 100; 101; 100; 65; 81; 82; 0; 75; 66; 13; 26; 27; 32; 33; 34; 35; 36; 37;
  38; 39; 47; 61; 68; 105; 91; 95; 99; 104; 16; 61; 105; 61; 72; 105; 105; 44; 45; 46; 93; 107;
  108; 109; 110; 105; 105; 5; 6; 7; 8; 9; 10; 11; 12; 28; 29; 30; 31; 40; 41; 48; 49; 50; 51; 52;
  53; 54; 55; 56; 57; 44; 45; 93; 63; 65; 81; 105; 105; 105; 105; 105; 105; 105; 105; 105; 105;
  96; 97; 98; 101; 105; 103; 105; 62; 66; 105; 105; 62; 78; 46; 62; 42; 69; 63; 105; 105; 105;
  105; 105; 105; 105; 105; 105; 105; 105; 105; 93; 93; 105; 105; 105; 105; 105; 105; 105; 105;
  105; 105; 62; 79; 62; 63; 67; 69; 82; 105; 66; 62; 82; 62; 72; 110; 107; 97; 105; 4; 66; 82; 80;
  46; 82; 91; 72; 62; 46; 82].

(** ** Reading the tables *)

(** [YYTRANSLATE]: the symbol of a token. *)
Definition YYTRANSLATE (yychar : Z) : outcome Z :=
  if MInt.uwrap32 yychar <=? YYMAXUTOK then get yytranslate (MInt.uwrap32 yychar) else Ret YYUNDEFTOK.

Inductive decision :=
| Shift (state : Z)
| Reduce (rule : Z)
| SyntaxError.

(** [yydefault] *)
Definition yydefault (yystate : Z) : outcome decision :=
  yyn ← get yydefact yystate;
  mret (if yyn =? 0 then SyntaxError else Reduce yyn).

(** Whether the state decides without the next token. *)
Definition decided (yystate : Z) : outcome bool :=
  yyn ← get yypact yystate;
  mret (yyn =? YYPACT_NINF).

(** The rest of [yybackup], with the symbol of the token ahead. *)
Definition yybackup (yystate yytoken : Z) : outcome decision :=
  yyp ← get yypact yystate;
  let yyn := yyp + yytoken in
  if (yyn <? 0) || (YYLAST <? yyn) then yydefault yystate
  else
    c ← get yycheck yyn;
    if negb (c =? yytoken) then yydefault yystate
    else
      t ← get yytable yyn;
      mret (if t <=? 0 then
              if (t =? 0) || (t =? YYTABLE_NINF) then SyntaxError else Reduce (- t)
            else Shift t).

(** The state after a reduction to the symbol [sym], above [yystate]. *)
Definition yygoto (yystate sym : Z) : outcome Z :=
  g ← get yypgoto (sym - YYNTOKENS);
  let yyn := g + yystate in
  if (0 <=? yyn) && (yyn <=? YYLAST) then
    c ← get yycheck yyn;
    if c =? yystate then get yytable yyn else get yydefgoto (sym - YYNTOKENS)
  else get yydefgoto (sym - YYNTOKENS).

(** Whether a state can go on after an error: [YYTERROR] can be shifted. *)
Definition error_shift (yystate : Z) : outcome bool :=
  yyp ← get yypact yystate;
  if yyp =? YYPACT_NINF then mret false
  else
    let yyn := yyp + YYTERROR in
    if (0 <=? yyn) && (yyn <=? YYLAST) then
      c ← get yycheck yyn;
      if c =? YYTERROR then t ← get yytable yyn; mret (0 <? t) else mret false
    else mret false.

(** The right-hand side of a rule, in the [-1]-separated list [yyrhs]. *)
Fixpoint rhs_from (n : nat) (i : Z) : outcome (list Z) :=
  match n with
  | O => NoReturn
  | S n' =>
      x ← get yyrhs i;
      if x <? 0 then mret [] else l ← rhs_from n' (i + 1); mret (x :: l)
  end.
Definition rhs (rule : Z) : outcome (list Z) := i ← get yyprhs rule; rhs_from 10 i.

End NaslGrammar.
