(* ===== verification/NaslParse.v ===== *)
(** * The parser of NASL ([nasl_grammar.tab.c], [nasl_tree.c])

    [naslparse] (the code's [yyparse]) reads tokens and builds a tree.  It is an
    automaton with a stack of states and one of values; a reduction runs the action
    of its rule.  The actions build cells, put constant arrays into the store, and
    parse included files.

    The state that outlives a parse is a [world]: the interpreter's store and the
    directories for includes.  Opening files, signatures and regular expressions are
    parameters; [fopen] is told how many files of the parser are open. *)

From S2P Require Import Prelude Nasl NaslVar NaslLex NaslGrammar.
From stdpp Require Import base gmap sets list strings.
From Stdlib Require Import Ascii ZArith Lia.
Local Open Scope Z_scope.

Module NaslParse.
Import Nasl NaslVar NaslLex NaslGrammar.

(** ** Cells *)

(** A new cell has type 0 until the caller sets it. *)
Definition alloc_tree_cell (t : node_type) (lnb : Z) (s : option string)
    (l0 l1 l2 l3 : tree_cell) : tree_cell := Cell t lnb (x_str s) l0 l1 l2 l3.
Definition alloc_typed_cell (t : node_type) (x : cell_x) (l0 : tree_cell) : tree_cell :=
  Cell t 0 x l0 NULL NULL NULL.
Definition alloc_expr_cell (lnb : Z) (t : node_type) (l r : tree_cell) : tree_cell :=
  Cell t lnb (x_str None) l r NULL NULL.

(** [c->link[1] = l] *)
Definition set_link1 (c l : tree_cell) : outcome tree_cell :=
  match c with
  | Cell t n x l0 _ l2 l3 => Ret (Cell t n x l0 l l2 l3)
  | _ => Undef
  end.

(** ** Contexts *)

Record world := mk_world { w_store : store; inc_dirs : list string }.

(** What a call of the parser works with: [naslctxt], the stacks (top first) with
    their size, the token ahead ([None] is [YYEMPTY]). *)
Record parser := mk_parser
  { ctx : lexer;
    tree : tree_cell;
    yyss : list Z;
    yyvs : list yystype;
    yystacksize : Z;
    ahead : option (Z * yystype) }.

(** How a call ends: the value it returns, or [abort ()]. *)
Inductive ended :=
| Returned (yyresult : Z)
| Aborted.

Section Parser.
Variable fopen : nat -> string -> option string.
Variable g_build_filename : string -> string -> string.
Variable nasl_verify_signature : string -> Z.
Variable regcomp : string -> bool.
Variable always_authenticated : bool.

(** [alloc_RE_cell] *)
Definition alloc_RE_cell (lnb : Z) (t : node_type) (l : tree_cell) (re_str : string) : tree_cell :=
  Cell t lnb (if regcomp (cstr re_str) then x_re (Some (cstr re_str)) else x_re None)
    l FAKE_CELL NULL NULL.

(** The first directory of the list in which the file can be opened. *)
Fixpoint find_file (depth : nat) (dirs : list string) (name : string) : option (string * string) :=
  match dirs with
  | [] => None
  | d :: dirs' =>
      match fopen depth (g_build_filename d name) with
      | Some file => Some (g_build_filename d name, file)
      | None => find_file depth dirs' name
      end
  end.

(** The list is read before the empty directory is put into an empty list. *)
Definition init_nasl_ctx (depth : nat) (name : string) : M world (option lexer) := fun w =>
  let dirs := match inc_dirs w with [] => [EmptyString] | l => l end in
  let w' := mk_world (w_store w) dirs in
  match find_file depth (inc_dirs w) name with
  | None => Ret (None, w')
  | Some (full_name, file) =>
      if negb always_authenticated && negb (nasl_verify_signature full_name =? 0)
      then Ret (None, w')
      else Ret (Some (new_lexer file), w')
  end.

Definition new_parser (l : lexer) : parser := mk_parser l NULL [] [] YYINITDEPTH None.

(** ** Actions *)

Definition on_store {A} (m : M store A) : M world A := fun w =>
  match m (w_store w) with
  | Ret (a, s) => Ret (a, mk_world s (inc_dirs w))
  | NoReturn => NoReturn
  | Undef => Undef
  end.
Definition checked {S A} (m : outcome A) : M S A := fun s =>
  match m with Ret a => Ret (a, s) | NoReturn => NoReturn | Undef => Undef end.

(** The members of the union. *)
Definition node_of (v : yystype) : outcome tree_cell :=
  match v with node c => Ret c | _ => Undef end.
Definition text_of (v : yystype) : outcome string :=
  match v with str s => Ret s | _ => Undef end.
Definition num_of (v : yystype) : outcome Z :=
  match v with num n => Ret n | _ => Undef end.
Definition data_of (v : yystype) : outcome string :=
  match v with data s => Ret s | _ => Undef end.

(** Rules whose action is [alloc_expr_cell (LNB, T, $1, $3)]. *)
Definition binary_node (rule : Z) : option node_type :=
  match rule with
  | 58 => Some NODE_AFF | 59 => Some NODE_PLUS_EQ | 60 => Some NODE_MINUS_EQ
  | 61 => Some NODE_MULT_EQ | 62 => Some NODE_DIV_EQ | 63 => Some NODE_MODULO_EQ
  | 64 => Some NODE_R_SHIFT_EQ | 65 => Some NODE_R_USHIFT_EQ | 66 => Some NODE_L_SHIFT_EQ
  | 78 => Some EXPR_AND | 80 => Some EXPR_OR | 81 => Some EXPR_PLUS | 82 => Some EXPR_MINUS
  | 85 => Some EXPR_MULT | 86 => Some EXPR_EXPO | 87 => Some EXPR_DIV | 88 => Some EXPR_MODULO
  | 89 => Some EXPR_BIT_AND | 90 => Some EXPR_BIT_XOR | 91 => Some EXPR_BIT_OR
  | 92 => Some EXPR_R_SHIFT | 93 => Some EXPR_R_USHIFT | 94 => Some EXPR_L_SHIFT
  | 96 => Some COMP_MATCH | 97 => Some COMP_NOMATCH | 100 => Some COMP_LT
  | 101 => Some COMP_GT | 102 => Some COMP_EQ | 103 => Some COMP_NE | 104 => Some COMP_GE
  | 105 => Some COMP_LE
  | _ => None
  end.

(** [snprintf (s, 44, "%d.%d.%d.%d", ...)]; four [int]s take at most 47 characters. *)
Definition ip_text (a b c d : Z) : string :=
  CStr.take_str 43 (String.concat "." [CStr.dec a; CStr.dec b; CStr.dec c; CStr.dec d]).

(** What an action does beside setting [yyval]: rule 2 sets the tree of the context,
    the action of [inc] may leave the parser with -2. *)
Inductive act :=
| Value (yyval : yystype)
| Tree (c : tree_cell)
| Leave (code : Z)
| Died.

(** [parse_file], the call of the parser for an included file; [depth], the files
    open; [lnb], the current line; [v], the values of the right-hand side. *)
Section Actions.
Variable parse_file : lexer -> M world (ended * parser).
Variable depth : nat.

Definition include_file (name : string) : M world act :=
  x ← init_nasl_ctx depth (cstr name);
  match x with
  | None => mret (Leave (-2))
  | Some l =>
      r ← parse_file l;
      mret match r with
           | (Returned code, p) => Value (node (if code =? 0 then tree p else NULL))
           | (Aborted, _) => Died
           end
  end.

(** The cells the actions build; [d i] is [$i]. *)
Definition action_node (rule lnb : Z) (d : nat -> yystype) : outcome tree_cell :=
  let N i := node_of (d i) in
  let S i := text_of (d i) in
  match rule with
  | 3 => a ← N 1%nat; mret (alloc_tree_cell NODE_INSTR_L lnb None a NULL NULL NULL)
  | 4 => a ← N 1%nat; b ← N 2%nat; mret (alloc_tree_cell NODE_INSTR_L lnb None a b NULL NULL)
  | 7 => s ← S 2%nat; a ← N 4%nat; b ← N 6%nat;
         mret (alloc_tree_cell NODE_FUN_DEF lnb (Some s) a b NULL NULL)
  | 8 | 13 | 30 | 46 | 53 => mret NULL
  | 9 => N 1%nat
  | 10 => s ← S 1%nat; mret (alloc_tree_cell NODE_DECL lnb (Some s) NULL NULL NULL NULL)
  | 11 => s ← S 1%nat; a ← N 3%nat; mret (alloc_tree_cell NODE_DECL lnb (Some s) a NULL NULL NULL)
  | 12 => N 2%nat
  | 15 => a ← N 1%nat; b ← N 2%nat;
          mret (if is_null a then b else alloc_tree_cell NODE_INSTR_L lnb None a b NULL NULL)
  | 16 => N 1%nat
  | 28 => mret (alloc_tree_cell NODE_BREAK lnb None NULL NULL NULL NULL)
  | 29 => mret (alloc_tree_cell NODE_CONTINUE lnb None NULL NULL NULL NULL)
  | 31 => a ← N 2%nat; mret (alloc_tree_cell NODE_RETURN lnb None a NULL NULL NULL)
  | 32 => mret (alloc_tree_cell NODE_RETURN lnb None NULL NULL NULL NULL)
  | 33 => a ← N 3%nat; b ← N 5%nat; mret (alloc_tree_cell NODE_IF_ELSE lnb None a b NULL NULL)
  | 34 => a ← N 3%nat; b ← N 5%nat; c ← N 7%nat;
          mret (alloc_tree_cell NODE_IF_ELSE lnb None a b c NULL)
  | 39 => a ← N 3%nat; b ← N 5%nat; c ← N 7%nat; e ← N 9%nat;
          mret (alloc_tree_cell NODE_FOR lnb None a b c e)
  | 40 => a ← N 3%nat; b ← N 5%nat; mret (alloc_tree_cell NODE_WHILE lnb None a b NULL NULL)
  | 41 => a ← N 2%nat; b ← N 4%nat;
          mret (alloc_tree_cell NODE_REPEAT_UNTIL lnb None a b NULL NULL)
  | 42 => s ← S 2%nat; a ← N 4%nat; b ← N 6%nat;
          mret (alloc_tree_cell NODE_FOREACH lnb (Some s) a b NULL NULL)
  | 47 => a ← N 1%nat; b ← N 3%nat; mret (alloc_tree_cell NODE_REPEATED lnb None a b NULL NULL)
  | 51 => s ← S 1%nat; a ← N 3%nat;
          mret (alloc_tree_cell NODE_FUN_CALL lnb (Some s) a NULL NULL NULL)
  | 55 | 113 => a ← N 1%nat; b ← N 3%nat; set_link1 a b
  | 56 => a ← N 1%nat; mret (alloc_tree_cell NODE_ARG lnb None a NULL NULL NULL)
  | 57 => s ← S 1%nat; a ← N 3%nat; mret (alloc_tree_cell NODE_ARG lnb (Some s) a NULL NULL NULL)
  | 67 | 120 => s ← S 1%nat; mret (alloc_tree_cell NODE_VAR lnb (Some s) NULL NULL NULL NULL)
  | 71 => s ← S 1%nat; a ← N 3%nat;
          mret (alloc_tree_cell NODE_ARRAY_EL lnb (Some s) a NULL NULL NULL)
  | 73 => a ← N 2%nat; mret (alloc_expr_cell lnb EXPR_INCR NULL a)
  | 74 => a ← N 2%nat; mret (alloc_expr_cell lnb EXPR_DECR NULL a)
  | 75 => a ← N 1%nat; mret (alloc_expr_cell lnb EXPR_INCR a NULL)
  | 76 => a ← N 1%nat; mret (alloc_expr_cell lnb EXPR_DECR a NULL)
  | 77 => N 2%nat
  | 79 => a ← N 2%nat; mret (alloc_expr_cell lnb EXPR_NOT a NULL)
  | 83 => a ← N 2%nat; mret (alloc_expr_cell lnb EXPR_U_MINUS a NULL)
  | 84 => a ← N 2%nat; mret (alloc_expr_cell lnb EXPR_BIT_NOT a NULL)
  | 98 => a ← N 1%nat; s ← S 3%nat; mret (alloc_RE_cell lnb COMP_RE_MATCH a s)
  | 99 => a ← N 1%nat; s ← S 3%nat; mret (alloc_RE_cell lnb COMP_RE_NOMATCH a s)
  | 112 => N 1%nat
  | 114 => a ← N 1%nat; mret (alloc_typed_cell ARRAY_ELEM (x_str None) a)
  | 115 => s ← S 1%nat; a ← N 3%nat; mret (alloc_typed_cell ARRAY_ELEM (x_str (Some s)) a)
  | 116 => n ← num_of (d 1%nat); mret (alloc_typed_cell CONST_INT (x_int n) NULL)
  | 117 => s ← S 1%nat; mret (alloc_typed_cell CONST_STR (x_str (Some (cstr s))) NULL)
  | 118 => s ← data_of (d 1%nat); mret (alloc_typed_cell CONST_DATA (x_str (Some s)) NULL)
  | 124 => a ← num_of (d 1%nat); b ← num_of (d 3%nat); c ← num_of (d 5%nat); e ← num_of (d 7%nat);
           mret (alloc_tree_cell CONST_STR lnb (Some (ip_text a b c e)) NULL NULL NULL NULL)
  | 125 => a ← N 2%nat; mret (alloc_tree_cell NODE_LOCAL lnb None a NULL NULL NULL)
  | 126 => a ← N 2%nat; mret (alloc_tree_cell NODE_GLOBAL lnb None a NULL NULL NULL)
  | _ =>
      match binary_node rule with
      | Some t => a ← N 1%nat; b ← N 3%nat; mret (alloc_expr_cell lnb t a b)
      | None => Undef
      end
  end.

(** The rules without an action keep the default, [$$ = $1]. *)
Definition has_action (rule : Z) : bool :=
  match rule with
  | 5 | 6 | 14 | 17 | 18 | 19 | 20 | 21 | 22 | 23 | 24 | 25 | 26 | 27 | 35 | 36 | 37 | 38
  | 43 | 44 | 45 | 49 | 52 | 54 | 68 | 69 | 72 | 95 | 106 | 107 | 108 | 109 | 110 | 119
  | 121 | 122 | 123 => false
  | _ => true
  end.

(** [copy_fuel] bounds the copy of an array's elements, which are constants. *)
Definition copy_fuel : nat := 1.

Definition action (rule lnb : Z) (v : list yystype) : M world act :=
  let d i := nth (i - 1) v no_value in
  match rule with
  | 2 => c ← checked (node_of (d 1%nat)); mret (Tree c)
  | 48 => s ← checked (data_of (d 1%nat)); mret (Value (str s))
  | 50 => s ← checked (text_of (d 3%nat)); include_file s
  | 70 => mret (Value (str "x"))
  | 111 =>
      a ← checked (node_of (d 2%nat));
      c ← on_store (make_array_from_elems copy_fuel a);
      mret (Value (node c))
  | _ =>
      if has_action rule then c ← checked (action_node rule lnb d); mret (Value (node c))
      else mret (Value (d 1%nat))
  end.

(** ** The automaton *)

Definition with_stacks (ss : list Z) (vs : list yystype) (p : parser) : parser :=
  mk_parser (ctx p) (tree p) ss vs (yystacksize p) (ahead p).
Definition with_tree (c : tree_cell) (p : parser) : parser :=
  mk_parser (ctx p) c (yyss p) (yyvs p) (yystacksize p) (ahead p).
Definition with_ahead (t : option (Z * yystype)) (l : lexer) (p : parser) : parser :=
  mk_parser l (tree p) (yyss p) (yyvs p) (yystacksize p) t.

(** The start of [yysetstate]: the size of stacks that hold [depth] states, or what
    the parser returns when they may not grow any more. *)
Definition extend (depth size : Z) : Z + Z :=
  if size <=? depth then
    if YYMAXDEPTH <=? size then inl 2
    else let size' := Z.min YYMAXDEPTH (2 * size) in if size' <=? depth then inl 1 else inr size'
  else inr size.

(** [yyreduce] *)
Definition yyreduce (rule : Z) (p : parser) : M world (ended * parser + parser) :=
  n ← checked (get yyr2 rule);
  let k := Z.to_nat n in
  if (length (yyvs p) <? k)%nat then undef
  else
    r ← action rule (line_no (ctx p)) (reverse (take k (yyvs p)));
    match r with
    | Leave code => mret (inl (Returned code, p))
    | Died => mret (inl (Aborted, p))
    | _ =>
        let ss := drop k (yyss p) in
        let '(v, p1) := match r with
                        | Tree c => (node c, with_tree c p)
                        | Value v => (v, p)
                        | _ => (no_value, p)
                        end in
        match ss with
        | [] => undef
        | top :: _ =>
            sym ← checked (get yyr1 rule);
            st ← checked (yygoto top sym);
            mret (inr (with_stacks (st :: ss) (v :: drop k (yyvs p)) p1))
        end
    end.

(** [yyerrlab1]: whether a state of the stack can shift the error token.  None can
    (the grammar has no error rule), so that the states are popped to the last. *)
Fixpoint yyerrlab1 (ss : list Z) : outcome bool :=
  match ss with
  | [] => Ret false
  | st :: ss' => b ← error_shift st; if b : bool then mret true else yyerrlab1 ss'
  end.

(** Recovery, which would follow [true], is not modelled. *)
Definition yyerrlab (p : parser) : M world (ended * parser + parser) :=
  b ← checked (yyerrlab1 (yyss p));
  if b : bool then undef else mret (inl (Returned 1, p)).

Definition perform (d : decision) (p : parser) : M world (ended * parser + parser) :=
  match d with
  | Shift st =>
      match ahead p with
      | Some (_, v) => mret (inr (with_ahead None (ctx p) (with_stacks (st :: yyss p) (v :: yyvs p) p)))
      | None => undef
      end
  | Reduce rule => yyreduce rule p
  | SyntaxError => yyerrlab p
  end.

(** [yychar = YYLEX] when there is no token ahead. *)
Definition read_token (p : parser) : M world (option parser) :=
  match ahead p with
  | Some _ => mret (Some p)
  | None =>
      r ← checked (mylex (ctx p));
      mret match r with
           | (Token t v, l) => Some (with_ahead (Some (t, v)) l p)
           | (Abort, _) => None
           end
  end.

(** One round, from [yysetstate] with the state already pushed. *)
Definition round (p : parser) : M world (ended * parser + parser) :=
  match yyss p with
  | [] => undef
  | st :: _ =>
      match extend (Z.of_nat (length (yyss p))) (yystacksize p) with
      | inl code => mret (inl (Returned code, p))
      | inr size =>
          let p := mk_parser (ctx p) (tree p) (yyss p) (yyvs p) size (ahead p) in
          if st =? YYFINAL then mret (inl (Returned 0, p))
          else
            b ← checked (decided st);
            if b : bool then d ← checked (yydefault st); perform d p
            else
              r ← read_token p;
              match r with
              | None => mret (inl (Aborted, p))
              | Some p =>
                  match ahead p with
                  | None => undef
                  | Some (yychar, _) =>
                      yytoken ← checked (if yychar <=? YYEOF then Ret YYEOF else YYTRANSLATE yychar);
                      d ← checked (yybackup st yytoken);
                      perform d p
                  end
              end
      end
  end.
End Actions.

Fixpoint parse_loop (fuel : nat) (depth : nat) (p : parser) : M world (ended * parser) :=
  match fuel with
  | O => no_return
  | S n =>
      r ← round (fun l => parse_loop n (S depth) (with_stacks [0] [] (new_parser l))) (S depth) p;
      match r with
      | inl e => mret e
      | inr p' => parse_loop n depth p'
      end
  end.

(** [naslparse (&ctx)], the first file. *)
Definition naslparse (fuel : nat) (l : lexer) : M world (ended * parser) :=
  parse_loop fuel 0 (with_stacks [0] [] (new_parser l)).

End Parser.

End NaslParse.
