(* ===== verification/NaslAutomaton.v ===== *)
(** * The automaton of the parser is right for its grammar

    The tables of [NaslGrammar] are checked by computation.  Certificates say which
    states can lie below a state of the stack and which rules a state reduces; the
    check goes once through the table entries and the paths of each reduction.  It
    gives: the states of the stack form a path, so that a reduction finds the
    right-hand side of its rule on top of the stack; nothing is read outside of the
    tables; every reduction lowers a weight of the stack, so that there are finitely
    many between two tokens; and no state recovers from an error. *)

From S2P Require Import Prelude NaslGrammar.
From stdpp Require Import base list.
From Stdlib Require Import ZArith Lia.
Local Open Scope Z_scope.

Module NaslAutomaton.
Import NaslGrammar.

(** ** Certificates *)

(** The states that can be below each state. *)
Definition pred_rows : list (list Z) := [
  []; [0; 4; 17; 20; 77; 164; 168; 208; 216; 224]; [0; 4; 5; 9; 10; 12; 13; 14; 15; 17; 20; 42;
  43; 46; 51; 52; 54; 55; 77; 81; 84; 85; 86; 87; 88; 89; 90; 91; 92; 93; 94; 100; 101; 103; 117;
  118; 119; 120; 121; 122; 123; 124; 125; 126; 127; 128; 131; 132; 133; 134; 135; 136; 137; 138;
  139; 140; 144; 164; 165; 168; 202; 203; 208; 216; 217; 224]; [0; 4; 17; 20; 77; 164; 168; 208;
  216; 224]; [0; 4; 17; 20; 77; 164; 168; 208; 216; 224]; [0; 4; 17; 20; 77; 164; 168; 208; 216;
  224]; [0; 4; 17; 20; 77; 164; 168; 208; 216; 224]; [0; 4; 17; 20; 77; 164; 168; 208; 216; 224];
  [0; 4; 17; 20; 77; 164; 168; 208; 216; 224]; [0; 20]; [0; 4; 17; 20; 77; 164; 168; 208; 216;
  224]; [0; 4; 17; 20; 77; 164; 168; 208; 216; 224]; [0; 4; 17; 20; 77; 164; 168; 208; 216; 224];
  [0; 4; 17; 20; 77; 164; 168; 208; 216; 224]; [0; 4; 10; 17; 20; 42; 43; 46; 51; 52; 54; 55; 77;
  81; 84; 85; 86; 87; 88; 89; 90; 91; 92; 93; 94; 100; 101; 117; 118; 119; 120; 121; 122; 123;
  124; 125; 126; 127; 128; 131; 132; 133; 134; 135; 136; 137; 138; 139; 140; 164; 165; 168; 202;
  203; 208; 216; 217; 224]; [0; 4; 10; 17; 20; 42; 43; 46; 51; 52; 54; 55; 77; 81; 84; 85; 86; 87;
  88; 89; 90; 91; 92; 93; 94; 100; 101; 117; 118; 119; 120; 121; 122; 123; 124; 125; 126; 127;
  128; 131; 132; 133; 134; 135; 136; 137; 138; 139; 140; 164; 165; 168; 202; 203; 208; 216; 217;
  224]; [0; 4; 5; 9; 10; 12; 13; 14; 15; 17; 20; 42; 43; 46; 51; 52; 54; 55; 77; 81; 84; 85; 86;
  87; 88; 89; 90; 91; 92; 93; 94; 100; 101; 103; 117; 118; 119; 120; 121; 122; 123; 124; 125; 126;
  127; 128; 131; 132; 133; 134; 135; 136; 137; 138; 139; 140; 144; 164; 165; 168; 202; 203; 208;
  216; 217; 224]; [0; 4; 17; 20; 77; 164; 168; 208; 210; 216; 224]; [0]; [0]; [0; 20]; [0; 20];
  [0; 4; 17; 20; 77; 164; 168; 208; 216; 224]; [0; 20]; [0; 4; 17; 20; 77; 164; 168; 208; 216;
  224]; [0; 4; 17; 20; 77; 164; 168; 208; 216; 224]; [0; 4; 17; 20; 77; 164; 168; 208; 216; 224];
  [0; 4; 17; 20; 77; 164; 168; 208; 216; 224]; [0; 4; 17; 20; 77; 164; 168; 208; 216; 224]; [0; 4;
  17; 20; 77; 164; 168; 208; 216; 224]; [0; 4; 17; 20; 77; 164; 168; 208; 216; 224]; [0; 4; 17;
  20; 77; 164; 168; 208; 216; 224]; [0; 4; 17; 20; 77; 164; 168; 208; 216; 224]; [0; 4; 17; 20;
  77; 164; 168; 208; 216; 224]; [0; 4; 17; 20; 77; 164; 168; 208; 216; 224]; [0; 4; 17; 20; 77;
  164; 168; 208; 216; 224]; [0; 4; 10; 17; 20; 42; 43; 46; 51; 52; 54; 55; 77; 81; 84; 85; 86; 87;
  88; 89; 90; 91; 92; 93; 94; 100; 101; 117; 118; 119; 120; 121; 122; 123; 124; 125; 126; 127;
  128; 131; 132; 133; 134; 135; 136; 137; 138; 139; 140; 164; 165; 168; 202; 203; 208; 216; 217;
  224]; [0; 4; 17; 20; 43; 77; 164; 168; 208; 216; 217; 224]; [0; 4; 14; 15; 17; 20; 43; 77; 164;
  168; 208; 216; 217; 224]; [0; 4; 17; 20; 77; 164; 168; 208; 216; 224]; [0; 4; 17; 20; 77; 164;
  168; 208; 216; 224]; [0; 4; 17; 20; 77; 164; 168; 208; 216; 224]; [1]; [3]; [4]; [5]; [6]; [9];
  [10; 42; 46; 51; 52; 54; 55; 81; 84; 85; 86; 87; 88; 89; 90; 91; 92; 93; 94; 100; 101; 117; 118;
  119; 120; 121; 122; 123; 124; 125; 126; 127; 128; 131; 132; 133; 134; 135; 136; 137; 138; 139;
  140; 165; 172; 202; 203]; [10; 42; 46; 51; 52; 54; 55; 81; 84; 85; 86; 87; 88; 89; 90; 91; 92;
  93; 94; 100; 101; 117; 118; 119; 120; 121; 122; 123; 124; 125; 126; 127; 128; 131; 132; 133;
  134; 135; 136; 137; 138; 139; 140; 165; 172; 202; 203]; [10; 42; 46; 51; 52; 54; 55; 81; 84; 85;
  86; 87; 88; 89; 90; 91; 92; 93; 94; 100; 101; 117; 118; 119; 120; 121; 122; 123; 124; 125; 126;
  127; 128; 131; 132; 133; 134; 135; 136; 137; 138; 139; 140; 165; 202; 203]; [10; 42; 46; 51; 52;
  54; 55; 81; 84; 85; 86; 87; 88; 89; 90; 91; 92; 93; 94; 100; 101; 117; 118; 119; 120; 121; 122;
  123; 124; 125; 126; 127; 128; 131; 132; 133; 134; 135; 136; 137; 138; 139; 140; 165; 202; 203];
  [10; 42; 46; 51; 52; 54; 55; 81; 84; 85; 86; 87; 88; 89; 90; 91; 92; 93; 94; 100; 101; 117; 118;
  119; 120; 121; 122; 123; 124; 125; 126; 127; 128; 131; 132; 133; 134; 135; 136; 137; 138; 139;
  140; 165; 202; 203]; [10; 42; 46; 51; 52; 54; 55; 81; 84; 85; 86; 87; 88; 89; 90; 91; 92; 93;
  94; 100; 101; 117; 118; 119; 120; 121; 122; 123; 124; 125; 126; 127; 128; 131; 132; 133; 134;
  135; 136; 137; 138; 139; 140; 165; 202; 203]; [10; 42; 46; 51; 52; 54; 55; 81; 84; 85; 86; 87;
  88; 89; 90; 91; 92; 93; 94; 100; 101; 117; 118; 119; 120; 121; 122; 123; 124; 125; 126; 127;
  128; 131; 132; 133; 134; 135; 136; 137; 138; 139; 140; 165; 202; 203]; [10; 42; 46; 51; 52; 54;
  55; 81; 84; 85; 86; 87; 88; 89; 90; 91; 92; 93; 94; 100; 101; 117; 118; 119; 120; 121; 122; 123;
  124; 125; 126; 127; 128; 131; 132; 133; 134; 135; 136; 137; 138; 139; 140; 165; 202; 203]; [10;
  42; 46; 51; 52; 54; 55; 81; 84; 85; 86; 87; 88; 89; 90; 91; 92; 93; 94; 100; 101; 117; 118; 119;
  120; 121; 122; 123; 124; 125; 126; 127; 128; 131; 132; 133; 134; 135; 136; 137; 138; 139; 140;
  165; 202; 203]; [10; 42; 46; 51; 52; 54; 55; 81; 84; 85; 86; 87; 88; 89; 90; 91; 92; 93; 94;
  100; 101; 117; 118; 119; 120; 121; 122; 123; 124; 125; 126; 127; 128; 131; 132; 133; 134; 135;
  136; 137; 138; 139; 140; 165; 202; 203]; [10; 42; 46; 51; 52; 54; 55; 81; 84; 85; 86; 87; 88;
  89; 90; 91; 92; 94; 100; 101; 117; 118; 119; 120; 121; 122; 123; 124; 125; 126; 127; 128; 131;
  132; 133; 134; 135; 136; 137; 138; 139; 140; 165; 203]; [10; 42; 46; 51; 52; 54; 55; 81; 84; 85;
  86; 87; 88; 89; 90; 91; 92; 93; 94; 100; 101; 117; 118; 119; 120; 121; 122; 123; 124; 125; 126;
  127; 128; 131; 132; 133; 134; 135; 136; 137; 138; 139; 140; 165; 202; 203]; [10; 42; 46; 51; 52;
  54; 55; 81; 84; 85; 86; 87; 88; 89; 90; 91; 92; 93; 94; 100; 101; 117; 118; 119; 120; 121; 122;
  123; 124; 125; 126; 127; 128; 131; 132; 133; 134; 135; 136; 137; 138; 139; 140; 165; 202; 203];
  [10]; [10; 42; 46; 51; 52; 54; 55; 81; 84; 85; 86; 87; 88; 89; 90; 91; 92; 93; 94; 100; 101;
  117; 118; 119; 120; 121; 122; 123; 124; 125; 126; 127; 128; 131; 132; 133; 134; 135; 136; 137;
  138; 139; 140; 165; 202; 203]; [10; 42; 46; 51; 52; 54; 55; 81; 84; 85; 86; 87; 88; 89; 90; 91;
  92; 93; 94; 100; 101; 117; 118; 119; 120; 121; 122; 123; 124; 125; 126; 127; 128; 131; 132; 133;
  134; 135; 136; 137; 138; 139; 140; 165; 202; 203]; [10; 42; 46; 51; 52; 54; 55; 81; 84; 85; 86;
  87; 88; 89; 90; 91; 92; 93; 94; 100; 101; 117; 118; 119; 120; 121; 122; 123; 124; 125; 126; 127;
  128; 131; 132; 133; 134; 135; 136; 137; 138; 139; 140; 165; 202; 203]; [10; 42; 46; 51; 52; 54;
  55; 81; 84; 85; 86; 87; 88; 89; 90; 91; 92; 93; 94; 100; 101; 117; 118; 119; 120; 121; 122; 123;
  124; 125; 126; 127; 128; 131; 132; 133; 134; 135; 136; 137; 138; 139; 140; 165; 202; 203]; [10;
  42; 46; 51; 52; 54; 55; 81; 84; 85; 86; 87; 88; 89; 90; 91; 92; 93; 94; 100; 101; 117; 118; 119;
  120; 121; 122; 123; 124; 125; 126; 127; 128; 131; 132; 133; 134; 135; 136; 137; 138; 139; 140;
  165; 202; 203]; [11]; [12]; [12; 13; 103]; [12; 13; 103; 144]; [13]; [14]; [14; 15]; [15]; [17];
  [17]; [17; 77]; [18]; [20]; [24]; [34]; [36]; [36]; [36]; [36]; [36]; [36]; [36]; [36]; [36];
  [36]; [36]; [37; 58; 160]; [37; 58; 73; 160]; [42]; [43]; [43; 217]; [43; 217]; [43; 217]; [44];
  [45]; [46]; [47]; [50]; [51]; [52]; [53; 174]; [53; 174]; [53; 172; 174]; [53; 174]; [53]; [53;
  174]; [53; 172; 174]; [53; 174]; [54]; [55]; [61; 95; 102; 106; 147; 148; 149; 150; 151; 152;
  153; 154; 155; 156; 161; 163; 166; 167; 179; 180; 206; 215]; [61; 95; 102; 106; 147; 148; 149;
  150; 151; 152; 153; 154; 155; 156; 161; 163; 166; 167; 179; 180; 206; 215]; [61; 95; 102; 106;
  147; 148; 149; 150; 151; 152; 153; 154; 155; 156; 161; 163; 166; 167; 179; 180; 206; 215]; [61;
  95; 102; 106; 147; 148; 149; 150; 151; 152; 153; 154; 155; 156; 161; 163; 166; 167; 179; 180;
  206; 215]; [61; 95; 102; 106; 147; 148; 149; 150; 151; 152; 153; 154; 155; 156; 161; 163; 166;
  167; 206; 215]; [61; 95; 102; 106; 147; 148; 149; 150; 151; 152; 153; 154; 155; 156; 161; 163;
  166; 167; 179; 206; 215]; [61; 95; 102; 106; 147; 148; 149; 150; 151; 152; 153; 154; 155; 156;
  161; 163; 166; 167; 179; 180; 206; 215]; [61; 95; 102; 106; 147; 148; 149; 150; 151; 152; 153;
  154; 155; 156; 161; 163; 166; 167; 179; 180; 206; 215]; [61; 95; 102; 106; 147; 148; 149; 150;
  151; 152; 153; 154; 155; 156; 161; 163; 166; 167; 175; 176; 177; 178; 179; 180; 181; 182; 189;
  190; 191; 192; 193; 206; 215]; [61; 95; 102; 106; 147; 148; 149; 150; 151; 152; 153; 154; 155;
  156; 161; 163; 166; 167; 175; 176; 177; 178; 179; 180; 181; 182; 189; 190; 191; 192; 193; 206;
  215]; [61; 95; 102; 106; 147; 148; 149; 150; 151; 152; 153; 154; 155; 156; 161; 163; 166; 167;
  175; 176; 177; 178; 179; 180; 181; 182; 189; 190; 191; 192; 193; 206; 215]; [61; 95; 102; 105;
  106; 115; 116; 147; 148; 149; 150; 151; 152; 153; 154; 155; 156; 161; 163; 166; 167; 175; 176;
  177; 178; 179; 180; 181; 182; 183; 184; 185; 186; 189; 190; 191; 192; 193; 194; 195; 196; 197;
  198; 206; 215]; [61; 95; 102; 106; 147; 148; 149; 150; 151; 152; 153; 154; 155; 156; 161; 163;
  166; 167; 179; 180; 206; 215]; [61; 95; 102; 106; 147; 148; 149; 150; 151; 152; 153; 154; 155;
  156; 161; 163; 166; 167; 179; 180; 206; 215]; [61; 95; 102; 106; 147; 148; 149; 150; 151; 152;
  153; 154; 155; 156; 161; 163; 166; 167; 179; 180; 206; 215]; [61; 95; 102; 106; 147; 148; 149;
  150; 151; 152; 153; 154; 155; 156; 161; 163; 166; 167; 179; 180; 206; 215]; [61; 95; 102; 106;
  147; 148; 149; 150; 151; 152; 153; 154; 155; 156; 161; 163; 166; 167; 175; 176; 177; 178; 179;
  180; 181; 182; 189; 190; 206; 215]; [61; 95; 102; 106; 147; 148; 149; 150; 151; 152; 153; 154;
  155; 156; 161; 163; 166; 167; 175; 176; 177; 178; 179; 180; 181; 182; 189; 190; 191; 206; 215];
  [61; 95; 102; 106; 147; 148; 149; 150; 151; 152; 153; 154; 155; 156; 161; 163; 166; 167; 175;
  176; 177; 178; 179; 180; 181; 182; 189; 190; 191; 192; 206; 215]; [61; 95; 102; 106; 147; 148;
  149; 150; 151; 152; 153; 154; 155; 156; 161; 163; 166; 167; 175; 176; 177; 178; 179; 180; 181;
  182; 183; 184; 185; 189; 190; 191; 192; 193; 206; 215]; [61; 95; 102; 106; 147; 148; 149; 150;
  151; 152; 153; 154; 155; 156; 161; 163; 166; 167; 175; 176; 177; 178; 179; 180; 181; 182; 183;
  184; 185; 189; 190; 191; 192; 193; 206; 215]; [61; 95; 102; 106; 147; 148; 149; 150; 151; 152;
  153; 154; 155; 156; 161; 163; 166; 167; 175; 176; 177; 178; 179; 180; 181; 182; 183; 184; 185;
  189; 190; 191; 192; 193; 194; 195; 206; 215]; [61; 95; 102; 106; 147; 148; 149; 150; 151; 152;
  153; 154; 155; 156; 161; 163; 166; 167; 175; 176; 177; 178; 179; 180; 181; 182; 183; 184; 185;
  189; 190; 191; 192; 193; 194; 195; 206; 215]; [61; 95; 102; 106; 147; 148; 149; 150; 151; 152;
  153; 154; 155; 156; 161; 163; 166; 167; 175; 176; 177; 178; 179; 180; 181; 182; 183; 184; 185;
  189; 190; 191; 192; 193; 194; 195; 206; 215]; [67; 129; 130]; [67; 129; 130]; [67]; [70]; [76];
  [77]; [81]; [84]; [85]; [86]; [87]; [88]; [89]; [90]; [91]; [92]; [93]; [93]; [93; 202]; [93;
  202]; [93; 202]; [94]; [94]; [95]; [96]; [100]; [101]; [102]; [103]; [104]; [106]; [110]; [111];
  [112]; [117]; [118]; [119]; [120]; [121]; [122]; [123]; [124]; [125]; [126]; [127]; [128];
  [129]; [130]; [131]; [132]; [133]; [134]; [135]; [136]; [137]; [138]; [139]; [140]; [143];
  [144]; [157]; [159]; [160]; [162]; [164]; [165]; [166]; [167]; [168]; [169]; [170]; [172];
  [174]; [202]; [203]; [205]; [206]; [208]; [210]; [211]; [216]; [217]; [220]; [222]; [223]; [224]].

(** The rules each state reduces. *)
Definition reduction_rows : list (list Z) := [
  [30]; []; [70]; []; [30]; []; []; [28]; [29]; []; [32]; []; [8]; [8]; []; []; [69]; [30]; [];
  [2]; [3; 30]; [6]; [17]; [5]; []; [24]; [18]; [19]; [35]; [36]; [37]; [38]; [22]; [25]; [23];
  [20]; []; [67]; [68]; [21]; [26]; [27]; []; [46]; []; []; []; []; [118]; [117]; [116]; []; [];
  []; []; []; [122]; [107]; [67; 123]; [68; 121]; [95]; [31]; [110]; [109]; [106]; [120]; [108];
  []; [125]; [9]; [10]; [126]; [73]; [67]; [74]; [13]; []; [14; 30]; []; [4]; [16]; []; [75];
  [76]; []; []; []; []; []; []; []; []; []; [53]; []; []; []; [45]; [43]; [44]; []; []; []; [8];
  []; [83]; []; [48; 118]; [49; 117]; [116]; []; []; [112]; [119]; [114]; [79]; [84]; []; []; [];
  []; []; []; []; []; []; []; []; []; []; []; []; []; []; []; []; []; []; []; []; []; [48]; [49];
  []; []; [12]; [15]; [47]; [59]; [60]; [61]; [62]; [63]; [66]; [64]; [65]; [58]; []; [52]; [54];
  [67; 123]; [56]; []; [72]; [30]; []; []; []; [30]; []; []; [77]; []; [111]; []; [102]; [103];
  [104]; [105]; [80]; [78]; [96]; [97]; [94]; [92]; [93]; [86]; [98]; [99]; [100]; [101]; [91];
  [90]; [89]; [81]; [82]; [85]; [87]; [88]; [50]; [11]; [51]; []; []; [71]; [33]; []; [41]; [30];
  [40]; []; []; [115]; [113]; [55]; [57]; [30]; [46]; [42]; [7]; []; [34]; []; []; [30]; [124];
  [39]].

(** Weights of the symbols. *)
Definition weight_rows : list Z := [
  8; 8; 8; 8; 8; 8; 8; 8; 8; 8; 8; 8; 8; 8; 8; 8; 8; 8; 8; 8; 8; 8; 8; 8; 8; 8; 8; 8; 8; 8; 8; 8;
  8; 8; 8; 8; 8; 8; 8; 8; 8; 8; 8; 8; 8; 8; 8; 8; 8; 8; 8; 8; 8; 8; 8; 8; 8; 8; 8; 8; 8; 8; 8; 8;
  8; 8; 8; 8; 8; 8; 8; 8; 8; 0; 0; 1; 1; 3; 0; 1; 5; 0; 3; 0; 1; 5; 5; 6; 6; 6; 6; 0; 1; 0; 1; 5;
  0; 1; 2; 4; 0; 6; 5; 0; 4; 3; 4; 0; 1; 4; 2; 4; 5; 4; 1; 1].

(** The states that reduce an empty right-hand side. *)
Definition pending_states : list Z := [
  0; 4; 12; 13; 17; 20; 43; 77; 93; 103; 164; 168; 208; 216; 217; 224].

Definition mem (x : Z) (l : list Z) : bool := existsb (Z.eqb x) l.
Definition preds (q : Z) : list Z := nth (Z.to_nat q) pred_rows [].
Definition reductions (q : Z) : list Z := nth (Z.to_nat q) reduction_rows [].
Definition weight (sym : Z) : Z := nth (Z.to_nat sym) weight_rows 0.
Definition pending (q : Z) : Z := if mem q pending_states then 1 else 0.

Definition states : list Z := seqZ 0 YYNSTATES.
Definition terminals : list Z := seqZ 0 YYNTOKENS.

(** ** Checks *)

Definition is_state (q : Z) : bool := (0 <=? q) && (q <? YYNSTATES).
Definition reaches (p q sym : Z) : bool :=
  is_state q && mem p (preds q) && match get yystos q with Ret s => s =? sym | _ => false end.

(** What a state may decide on the terminal [t] ([None]: without one). *)
Definition decision_ok (q : Z) (t : option Z) (d : outcome decision) : bool :=
  match d with
  | Ret (Shift q') =>
      match t with
      | Some t => reaches q q' t && ((negb (t =? 0)) || (q' =? YYFINAL))
      | None => false
      end
  | Ret (Reduce r) => mem r (reductions q)
  | Ret SyntaxError => true
  | _ => false
  end.

Definition state_ok (q : Z) : bool :=
  (q =? YYFINAL) ||
  match decided q with
  | Ret true => decision_ok q None (yydefault q)
  | Ret false => forallb (fun t => decision_ok q (Some t) (yybackup q t)) terminals
  | _ => false
  end.

(** The end of a reduction to [sym] above [p]; the stack weighed [w] more. *)
Definition arrives (sym w p : Z) : bool :=
  match yygoto p sym with
  | Ret q => reaches p q sym && (weight sym + pending q <? w)
  | _ => false
  end.

(** The states below a right-hand side (its last symbol first) on top of which [q]
    is. *)
Fixpoint walk (f : Z -> bool) (q : Z) (syms : list Z) : bool :=
  match syms with
  | [] => f q
  | x :: syms' =>
      match get yystos q with
      | Ret s => (s =? x) && forallb (fun p => walk f p syms') (preds q)
      | _ => false
      end
  end.

Definition total_weight (syms : list Z) : Z := foldr (fun x w => weight x + w) 0 syms.

Definition reduction_ok (q r : Z) : bool :=
  (2 <=? r) && (r <=? YYNRULES) &&
  match rhs r, get yyr2 r, get yyr1 r with
  | Ret l, Ret n, Ret sym =>
      (n =? Z.of_nat (length l)) && (YYNTOKENS <=? sym) && forallb (Z.ltb 0) l
      && walk (arrives sym (total_weight l + pending q)) q (reverse l)
  | _, _, _ => false
  end.

Definition automaton_ok : bool :=
  forallb (fun q => state_ok q && forallb (reduction_ok q) (reductions q)
             && match error_shift q with Ret false => true | _ => false end) states.

Lemma automaton_checked : automaton_ok = true.
Proof. vm_compute. reflexivity. Qed.

(** ** Paths

    The states of the stack with the symbols they were entered by, top first. *)

Inductive path : list Z -> list Z -> Prop :=
| path_start : path [0] []
| path_step p q x ss xs :
    path (p :: ss) xs -> reaches p q x = true -> path (q :: p :: ss) (x :: xs).

Lemma mem_spec x l : mem x l = true <-> x ∈ l.
Proof.
  unfold mem. rewrite existsb_exists, list_elem_of_In. split.
  - intros (y & Hy & ->%Z.eqb_eq). done.
  - intros. exists x. split; [done|lia].
Qed.

Lemma path_state q ss xs : path (q :: ss) xs -> q ∈ states.
Proof.
  intros H. apply elem_of_seqZ. inversion H as [|p' q' x ss' xs' _ Hr]; subst; [done|].
  unfold reaches, is_state, YYNSTATES in *. lia.
Qed.

Lemma checked_state q : q ∈ states ->
  state_ok q = true /\ forallb (reduction_ok q) (reductions q) = true /\ error_shift q = Ret false.
Proof.
  intros Hq. pose proof automaton_checked as H. unfold automaton_ok in H.
  rewrite forallb_forall in H. apply list_elem_of_In in Hq. specialize (H q Hq).
  rewrite !andb_true_iff in H. destruct H as [[? ?] H]. split_and!; [done|done|].
  destruct (error_shift q) as [[]| |]; done.
Qed.

(** What a state decides fits the stack. *)
Definition fits_stack (q : Z) (t : option Z) (d : decision) : Prop :=
  match d with
  | Shift q' => exists x, t = Some x /\ reaches q q' x = true /\ (x = 0 -> q' = YYFINAL)
  | Reduce r => r ∈ reductions q
  | SyntaxError => True
  end.

Lemma decision_fits q t d : decision_ok q t d = true -> exists d', d = Ret d' /\ fits_stack q t d'.
Proof.
  unfold decision_ok. destruct d as [[q'|r|]| |]; try done.
  - destruct t as [t|]; [|done]. intros [H1 H2]%andb_true_iff. eexists; split; [done|].
    exists t. split_and!; [done|done|]. intros ->. by apply Z.eqb_eq in H2.
  - intros H. eexists; split; [done|]. by apply mem_spec.
  - intros _. by eexists.
Qed.

Lemma decisions_fit q : q ∈ states -> q <> YYFINAL ->
  exists b, decided q = Ret b /\
    if b : bool then exists d, yydefault q = Ret d /\ fits_stack q None d
    else forall t, 0 <= t < YYNTOKENS -> exists d, yybackup q t = Ret d /\ fits_stack q (Some t) d.
Proof.
  intros Hq Hf. destruct (checked_state q Hq) as [H _]. unfold state_ok in H.
  destruct (Z.eqb_spec q YYFINAL) as [|_]; [done|]. cbn [orb] in H.
  destruct (decided q) as [[]| |]; try done; eexists; (split; [done|]).
  - by apply decision_fits.
  - intros t Ht. apply decision_fits. rewrite forallb_forall in H. apply H, list_elem_of_In, elem_of_seqZ. lia.
Qed.

Lemma walk_sound f syms : forallb (Z.ltb 0) syms = true -> forall q ss xs,
  path (q :: ss) xs -> walk f q syms = true ->
  exists p ss' xs', drop (length syms) (q :: ss) = p :: ss' /\ path (p :: ss') xs'
    /\ xs = syms ++ xs' /\ f p = true.
Proof.
  induction syms as [|x syms IH]; intros Hpos q ss xs Hp Hw; cbn [walk] in Hw.
  { by exists q, ss, xs. }
  cbn in Hpos. apply andb_true_iff in Hpos as [Hx Hpos].
  destruct (get yystos q) as [s| |] eqn:Hs; try done. apply andb_true_iff in Hw as [Hsx Hw].
  apply Z.eqb_eq in Hsx as ->. inversion Hp as [|p q' y ss' xs' Hp' Hr]; subst.
  { cbv in Hs. injection Hs as <-. lia. }
  unfold reaches in Hr. rewrite Hs, !andb_true_iff in Hr. destruct Hr as [[_ Hm] Hy].
  apply Z.eqb_eq in Hy as ->. rewrite forallb_forall in Hw.
  destruct (IH Hpos p ss' xs' Hp') as (p1 & ss1 & xs1 & H1 & H2 & -> & H4).
  { apply Hw, list_elem_of_In, mem_spec, Hm. }
  by exists p1, ss1, xs1.
Qed.

Lemma forallb_reverse (f : Z -> bool) l : forallb f (reverse l) = forallb f l.
Proof.
  induction l as [|x l IH]; [done|]. rewrite reverse_cons, forallb_app, IH. cbn.
  by rewrite andb_true_r, andb_comm.
Qed.

(** The weight of a stack: at least that of an action that can follow. *)
Definition stack_weight (ss xs : list Z) : Z :=
  total_weight xs + match ss with q :: _ => pending q | [] => 0 end.

Lemma total_weight_app l l' : total_weight (l ++ l') = total_weight l + total_weight l'.
Proof. unfold total_weight. induction l; cbn in *; lia. Qed.

Lemma total_weight_cons x l : total_weight (x :: l) = weight x + total_weight l.
Proof. done. Qed.

Lemma total_weight_reverse l : total_weight (reverse l) = total_weight l.
Proof.
  induction l as [|x l IH]; [done|]. rewrite reverse_cons, total_weight_app, IH. unfold total_weight. cbn. lia.
Qed.

(** A reduction. *)
Lemma reduction_fits q ss xs r : path (q :: ss) xs -> r ∈ reductions q ->
  2 <= r <= YYNRULES /\ exists l sym p ss' xs' q',
    rhs r = Ret l /\ get yyr2 r = Ret (Z.of_nat (length l)) /\ get yyr1 r = Ret sym /\ YYNTOKENS <= sym
    /\ drop (length l) (q :: ss) = p :: ss' /\ xs = reverse l ++ xs' /\ yygoto p sym = Ret q'
    /\ path (q' :: p :: ss') (sym :: xs')
    /\ stack_weight (q' :: p :: ss') (sym :: xs') < stack_weight (q :: ss) xs.
Proof.
  intros Hp Hr. destruct (checked_state q (path_state _ _ _ Hp)) as (_ & H & _).
  rewrite forallb_forall in H. apply list_elem_of_In, H in Hr. clear H. unfold reduction_ok in Hr.
  apply andb_true_iff in Hr as [Hb Hr]. split; [lia|].
  destruct (rhs r) as [l| |]; try done. destruct (get yyr2 r) as [n| |]; try done.
  destruct (get yyr1 r) as [sym| |]; try done. rewrite !andb_true_iff in Hr.
  destruct Hr as [[[Hn Hsym] Hl] Hw]. apply Z.eqb_eq in Hn as ->. rewrite <- forallb_reverse in Hl.
  destruct (walk_sound _ _ Hl _ _ _ Hp Hw) as (p & ss' & xs' & Hd & Hp' & -> & Ha).
  rewrite length_reverse in Hd. unfold arrives in Ha. destruct (yygoto p sym) as [q'| |] eqn:Hg; try done.
  apply andb_true_iff in Ha as [Hr Hlt].
  exists l, sym, p, ss', xs', q'. split_and!; try done; [lia|by apply path_step|].
  unfold stack_weight. rewrite total_weight_app, total_weight_reverse, total_weight_cons. lia.
Qed.

(** A shift adds a bounded weight. *)
Lemma shift_fits q q' ss xs x : path (q :: ss) xs -> reaches q q' x = true ->
  path (q' :: q :: ss) (x :: xs) /\
  stack_weight (q' :: q :: ss) (x :: xs) <= stack_weight (q :: ss) xs + weight x + 1.
Proof.
  intros Hp Hr. split; [by apply path_step|]. unfold stack_weight, pending. rewrite total_weight_cons.
  repeat case_match; lia.
Qed.

Lemma stack_weight_nonneg q ss xs : path (q :: ss) xs -> 0 <= stack_weight (q :: ss) xs.
Proof.
  intros _. assert (forall l, 0 <= total_weight l) as H.
  { assert (forall x, 0 <= weight x) as Hx.
    { intros x. unfold weight. destruct (nth_in_or_default (Z.to_nat x) weight_rows 0) as [Hin| ->]; [|done].
      assert (forallb (Z.leb 0) weight_rows = true) as Hw by done.
      rewrite forallb_forall in Hw. by apply Z.leb_le, Hw. }
    induction l as [|x l IH]; [done|]. rewrite total_weight_cons. specialize (Hx x). lia. }
  specialize (H xs). unfold stack_weight, pending. case_match; lia.
Qed.

Lemma terminal_weight x : 0 <= x < YYNTOKENS -> weight x = 8.
Proof.
  intros Hx. assert (forallb (fun y => weight y =? 8) terminals = true) as H by done.
  rewrite forallb_forall in H. apply Z.eqb_eq, H, list_elem_of_In, elem_of_seqZ. lia.
Qed.

(** No state recovers from an error. *)
Lemma no_error_shift q ss xs : path (q :: ss) xs -> error_shift q = Ret false.
Proof. intros Hp. by apply checked_state, (path_state _ _ _ Hp). Qed.

End NaslAutomaton.
