(* ===== verification/NaslParseSpec.v ===== *)
(** * What the parser returns

    The parser always returns (or the process aborts): the weight of its stack falls
    with every reduction, the input with every shift, and the files that can be open
    at once bound the depth of includes.  What it builds has the types [NaslTypes]
    asks of a script.  What it accepts is a sentence of the grammar, and the tree is
    what the rules' actions make of it. *)

From S2P Require Import Prelude Nasl NaslVar NaslTypes NaslLex NaslGrammar NaslAutomaton NaslParse.
From stdpp Require Import base gmap sets list strings.
From Stdlib Require Import Ascii ZArith Lia.
Local Open Scope Z_scope.

Module NaslParseSpec.
Import Nasl NaslVar NaslTypes NaslLex NaslGrammar NaslAutomaton NaslParse.

Lemma wp_checked {S A} (m : outcome A) (a : A) Q (s : S) : m = Ret a -> Q a s -> wp (checked m) Q s.
Proof. by intros ->. Qed.

(** ** The values of symbols

    [room] bounds the elements of a list under construction: a list that is still to
    be closed has used the stack. *)

Inductive class :=
| Lexical | Text | Bytes | Number | Decl | Args1 | Elem | Elems | Atom
| Syntax (k : syntax).

Definition classes : list class :=
  replicate 43 Lexical ++ [Text; Bytes; Text; Number] ++ replicate 27 Lexical ++
  [Syntax Instruction; Syntax Instruction; Syntax Instruction; Syntax Instruction; Decl; Decl;
   Syntax Instruction; Syntax Instruction; Syntax Instruction; Syntax Instruction;
   Syntax Instruction; Syntax Instruction; Syntax Instruction; Syntax Instruction;
   Syntax Instruction; Syntax Instruction; Syntax Instruction; Syntax Instruction;
   Syntax Instruction; Text; Syntax Instruction; Syntax Expression; Syntax Arguments; Args1;
   Args1; Syntax Expression; Syntax Expression; Text; Syntax Expression; Syntax Expression;
   Syntax Expression; Syntax Expression; Syntax Expression; Elems; Elem; Atom; Atom;
   Syntax Expression; Text; Syntax Expression; Syntax Instruction; Syntax Instruction].

Definition class_of (sym : Z) : class := nth (Z.to_nat sym) classes Lexical.

Definition atom (c : tree_cell) : bool :=
  match c with
  | Cell (CONST_INT | CONST_STR | CONST_DATA) _ _ _ _ _ _ => ok_result c
  | _ => false
  end.

(** The elements of a constant array. *)
Fixpoint elements (c : tree_cell) : bool :=
  match c with
  | NULL => true
  | Cell ARRAY_ELEM _ (x_str _) l0 l1 _ _ => atom l0 && elements l1
  | _ => false
  end.

Definition value_ok (room : Z) (k : class) (v : yystype) : Prop :=
  match k, v with
  | Lexical, _ | Text, str _ | Bytes, data _ | Decl, node _ => True
  | Number, num n => int_ok n = true
  | Syntax k, node c => wf k c = true
  | Args1, node c => wf Arguments c = true /\ no_cell c = false
  | Elem, node c => elements c = true /\ count_elems c = 1%nat
  | Elems, node c =>
      elements c = true /\ (1 <= count_elems c)%nat /\ Z.of_nat (count_elems c) <= room
  | Atom, node c => atom c = true
  | _, _ => False
  end.

(** The values of symbols from the height [h] on. *)
Fixpoint values_ok (h : Z) (l : list Z) (vs : list yystype) : Prop :=
  match l, vs with
  | [], [] => True
  | x :: l', v :: vs' => value_ok (YYMAXDEPTH - h) (class_of x) v /\ values_ok (h + 1) l' vs'
  | _, _ => False
  end.

(** The stack, top first. *)
Fixpoint stack_ok (xs : list Z) (vs : list yystype) : Prop :=
  match xs, vs with
  | [], [] => True
  | x :: xs', v :: vs' =>
      value_ok (YYMAXDEPTH - Z.of_nat (length xs)) (class_of x) v /\ stack_ok xs' vs'
  | _, _ => False
  end.

Lemma stack_ok_length xs vs : stack_ok xs vs -> length vs = length xs.
Proof.
  revert vs. induction xs as [|x xs IH]; intros [|v vs]; cbn; try done. intros [_ H]. by rewrite (IH vs).
Qed.

Lemma values_ok_length h l vs : values_ok h l vs -> length vs = length l.
Proof.
  revert h vs. induction l as [|x l IH]; intros h [|v vs]; cbn; try done. intros [_ H]. by erewrite IH.
Qed.

Lemma stack_ok_split l xs vs : stack_ok (reverse l ++ xs) vs ->
  exists vs1 vs2, vs = reverse vs1 ++ vs2 /\ values_ok (Z.of_nat (length xs) + 1) l vs1 /\ stack_ok xs vs2.
Proof.
  revert xs vs. induction l as [|x l IH]; intros xs vs; [by exists [], vs|].
  rewrite reverse_cons, <- app_assoc. intros (vs1 & vs2 & -> & H1 & H2)%IH.
  destruct vs2 as [|v vs2]; [done|]. destruct H2 as [Hv H2]. exists (v :: vs1), vs2.
  rewrite reverse_cons, <- app_assoc. split; [done|]. cbn [app length] in *. split; [|done].
  split; [by replace (Z.of_nat (length xs) + 1) with (Z.of_nat (S (length xs))) by lia|].
  by replace (Z.of_nat (length xs) + 1 + 1) with (Z.of_nat (S (length xs)) + 1) by lia.
Qed.

(** ** Actions *)

Lemma wf_instruction c : wf Expression c = true -> wf Instruction c = true.
Proof.
  destruct c as [| |t line x l0 l1 l2 l3]; [done|done|]. destruct t; cbn [wf]; done.
Qed.

(** *** Constant arrays *)

(** No element of the list at [n] or after it. *)
Definition free_from (n : Z) (a : nasl_array) : Prop := forall i, n <= i -> elt a i = None.

Definition constant (u : anon_nasl_var) : bool :=
  match u with VAR2_INT z => int_ok z | VAR2_STRING _ | VAR2_DATA _ => true | _ => false end.

Lemma wp_elem_value c v (Q : option anon_nasl_var -> store -> Prop) s :
  atom c = true -> (forall u, constant u = true -> Q (Some u) s) -> wp (elem_value c v) Q s.
Proof.
  intros Ha HQ. destruct c as [| |[] line x l0 l1 l2 l3]; try done; destruct x; try done; by apply HQ.
Qed.

(** A new variable with a constant. *)
Lemma wp_new_constant k u (f : addr -> Z * nasl_array) (Q : Z * nasl_array -> store -> Prop) s :
  ok_store s -> constant u = true -> (forall v s', ok_store s' -> Q (f v) s') ->
  wp (v2 ← alloc VAR2_UNDEF; copy_anon_var k v2 u;; mret (f v2)) Q s.
Proof.
  intros Hs Hu HQ. apply wp_bind. unfold wp at 1, alloc. apply wp_bind.
  assert (ok_var u) as Huo by by destruct u.
  assert (forall t, heap t !! next s = Some VAR2_UNDEF -> ok_store t ->
            wp (write (next s) u) (fun _ => wp (mret (f (next s))) Q) t) as Hw.
  { intros t Ht Hok. unfold wp at 1, write. rewrite Ht. apply wp_ret, HQ.
    by apply map_Forall_insert_2. }
  assert (ok_store (mk_store (<[next s:=VAR2_UNDEF]> (heap s)) (Pos.succ (next s)) (a2s_len s))) as Hok
    by by apply map_Forall_insert_2.
  destruct k as [|k], u; try done; (apply Hw; [apply lookup_insert_eq|exact Hok]).
Qed.

Lemma resize_room n l s : 0 <= n <= YYMAXDEPTH ->
  resize 8 n l s = Ret (l ++ replicate (Z.to_nat (n + 1) - length l) None, s).
Proof.
  unfold resize, YYMAXDEPTH, MInt.INT_MAX. intros Hn. rewrite (proj2 (Z.leb_gt _ _)) by lia.
  rewrite MInt.wrap32_id by (unfold MInt.int_range, MInt.INT_MIN, MInt.INT_MAX; lia).
  by rewrite (proj2 (Z.ltb_ge _ _)) by lia.
Qed.

Lemma elt_replicate m i : default None (replicate m (None : option addr) !! i) = None.
Proof.
  destruct (_ !! _) as [o|] eqn:E; [|done]. by apply lookup_replicate in E as [-> _].
Qed.

Lemma elt_grown a n i m : free_from n a -> 0 <= n <= i ->
  elt (set_num (num_elt a ++ replicate m None) a) i = None.
Proof.
  intros Ha Hi. specialize (Ha i ltac:(lia)). unfold elt in *. cbn.
  destruct (decide (Z.to_nat i < length (num_elt a))%nat).
  - by rewrite lookup_app_l.
  - rewrite lookup_app_r by lia. apply elt_replicate.
Qed.

Lemma free_from_set n v a : 0 <= n -> (forall i, n + 1 <= i -> elt a i = None) ->
  free_from (n + 1) (set_elt n v a).
Proof.
  intros Hn Ha i Hi. specialize (Ha i Hi). unfold elt, set_elt in *. cbn.
  by rewrite list_lookup_insert_ne by lia.
Qed.

Lemma wp_add_var_to_list k a n u (Q : Z * nasl_array -> store -> Prop) s :
  ok_store s -> constant u = true -> free_from n a -> 0 <= n <= YYMAXDEPTH ->
  (forall r a' s', ok_store s' -> free_from (n + 1) a' -> Q (r, a') s') ->
  wp (add_var_to_list k a n (Some u)) Q s.
Proof.
  intros Hs Hu Ha Hn HQ. unfold add_var_to_list. rewrite (proj2 (Z.ltb_ge _ _)) by lia.
  assert (forall m, wp (let a := set_num (num_elt a ++ replicate m None) a in
            free_anon_var k (elt a n);;
            v2 ← alloc VAR2_UNDEF; copy_anon_var k v2 u;; mret (1, set_elt n (Some v2) a)) Q s) as H.
  { intros m. cbv zeta. rewrite (elt_grown a n) by (done || lia).
    destruct k; cbn [free_anon_var]; apply wp_bind, wp_ret, wp_new_constant; try done;
      intros v s' Hs'; apply HQ; try done; apply free_from_set; try lia;
      intros i Hi; apply (elt_grown a n); (done || lia). }
  apply wp_bind. destruct (_ <=? _).
  - unfold wp at 1. rewrite resize_room by lia. apply H.
  - apply wp_ret. specialize (H 0%nat). cbn [replicate] in H. by rewrite app_nil_r in H.
Qed.

Lemma wp_add_elems k el : forall n v a s,
  elements el = true -> ok_store s -> free_from n a -> 0 <= n -> n + Z.of_nat (count_elems el) <= YYMAXDEPTH ->
  wp (add_elems k el n v a) (fun _ s' => ok_store s') s.
Proof.
  induction el as [| |t line x c _ l1 IH l2 _ l3 _]; intros n v a s Hel Hs Ha Hn Hc; [by apply wp_ret|done|].
  cbn [elements] in Hel. destruct t; try done. destruct x as [name| | |]; try done.
  apply andb_true_iff in Hel as [Hat Hel]. cbn [count_elems] in Hc. cbn [add_elems].
  apply wp_bind, wp_ret. apply wp_bind, wp_elem_value; [done|]. intros u Hu.
  destruct name as [name|]; apply wp_bind.
  - unfold add_var_to_array. cbv zeta.
    apply (wp_new_constant k u (fun v2 => (0, set_hash_elt _ a))); [done|done|].
    intros v2 s' Hs'. apply IH; try done. lia.
  - apply wp_add_var_to_list; try done; [lia|]. intros r a' s' Hs' Ha'. apply IH; try done; lia.
Qed.

Lemma wp_make_array k el s : elements el = true -> (1 <= count_elems el)%nat ->
  Z.of_nat (count_elems el) <= YYMAXDEPTH -> ok_store s ->
  wp (make_array_from_elems k el) (fun c s' => ok_store s' /\ wf Expression c = true) s.
Proof.
  intros Hel H1 Hc Hs. destruct el as [| |t line x c l1 l2 l3]; [cbn in H1; lia|done|].
  pose proof Hel as Hel'. cbn [elements] in Hel'. destruct t; try done. destruct x as [name| | |]; try done.
  unfold make_array_from_elems. apply wp_bind, wp_ret. cbv zeta. apply wp_bind.
  eapply wp_mono; [apply wp_add_elems; try done|].
  - intros i Hi. unfold elt. destruct name; cbn [num_elt]; [done|].
    apply elt_replicate.
  - intros a s' Hs'. apply wp_bind. unfold wp at 1, alloc. apply wp_ret. split; [|done].
    by apply map_Forall_insert_2.
Qed.

(** Rules whose action is to build a cell. *)
Definition plain (r : Z) : bool := has_action r && negb (mem r [2; 48; 50; 70; 111]).

(** The classes of the symbols of a rule; the values of its right-hand side. *)
Ltac eval_classes :=
  repeat match goal with
  | H : context [class_of ?x] |- _ =>
      let k := eval vm_compute in (class_of x) in change (class_of x) with k in H
  | |- context [class_of ?x] =>
      let k := eval vm_compute in (class_of x) in change (class_of x) with k
  end.
Ltac open_values :=
  cbn [values_ok] in *;
  repeat match goal with
  | H : match ?vs with [] => _ | _ :: _ => _ end |- _ => destruct vs; try contradiction
  | H : _ /\ _ |- _ => destruct H
  | H : True |- _ => clear H
  end.

Lemma args1_inv c : wf Arguments c = true -> no_cell c = false ->
  exists line x l0 l1 l2 l3, c = Cell NODE_ARG line x l0 l1 l2 l3 /\ wf Expression l0 = true.
Proof.
  destruct c as [| |t line x l0 l1 l2 l3]; [done|done|]. intros H _.
  destruct t; cbn [wf andb] in H; try (by destruct (diff_false_true H)).
  apply andb_true_iff in H as [H _]. exists line, x, l0, l1, l2, l3. split; [reflexivity|exact H].
Qed.

Lemma elem_inv c : elements c = true -> (1 <= count_elems c)%nat ->
  exists line n l0 l1 l2 l3, c = Cell ARRAY_ELEM line (x_str n) l0 l1 l2 l3 /\ atom l0 = true.
Proof.
  destruct c as [| |t line x l0 l1 l2 l3]; cbn [count_elems]; [lia|lia|]. destruct t; try discriminate.
  destruct x as [n| | |]; try discriminate. cbn [elements]. intros [H _]%andb_true_iff _.
  by exists line, n, l0, l1, l2, l3.
Qed.

Lemma atom_wf c : atom c = true -> wf Expression c = true.
Proof.
  destruct c as [| |t line x l0 l1 l2 l3]; [discriminate|discriminate|]. intros H.
  destruct t; cbn [atom] in H; try (by destruct (diff_false_true H)); cbn [wf andb]; exact H.
Qed.

Lemma wp_on_store {A} (m : M store A) Q w :
  wp m Q (w_store w) -> wp (on_store m) (fun a w' => Q a (w_store w')) w.
Proof. unfold wp, on_store. by destruct (m (w_store w)) as [[a s]| |]. Qed.

(** What a call of the parser ensures. *)
Record parsed (r : ended * parser) (w : world) : Prop := mk_parsed
  { parsed_store : ok_store (w_store w);
    parsed_result : fst r ∈ [Returned 0; Returned 1; Returned 2; Returned (-2); Aborted];
    parsed_tree : fst r = Returned 0 -> wf Instruction (tree (snd r)) = true }.

Section Actions.
Variable fopen : nat -> string -> option string.
Variable g_build_filename : string -> string -> string.
Variable nasl_verify_signature : string -> Z.
Variable regcomp : string -> bool.
Variable always_authenticated : bool.
Variable parse_file : lexer -> M world (ended * parser).
Variable depth : nat.

Lemma action_node_ok r l sym h vs lnb :
  2 <= r <= YYNRULES -> plain r = true -> rhs r = Ret l -> get yyr1 r = Ret sym ->
  values_ok h l vs -> h + 1 <= YYMAXDEPTH ->
  exists c, action_node regcomp r lnb (fun i => nth (i - 1) vs no_value) = Ret c
    /\ value_ok (YYMAXDEPTH - h) (class_of sym) (node c).
Proof.
  intros Hr. assert (r ∈ seqZ 2 125) as Hin by (apply elem_of_seqZ; unfold YYNRULES in Hr; lia).
  clear Hr. revert r Hin l sym h vs lnb.
  refine (proj1 (list.Forall_forall _ _) _).
  let l := eval vm_compute in (seqZ 2 125) in change (seqZ 2 125) with l.
  repeat (apply list.Forall_cons_2; [|]); [..|apply list.Forall_nil_2].
  all: intros l sym h vs lnb Hp; try discriminate Hp; clear Hp;
    let H := fresh in intros H; vm_compute in H; injection H as <-;
    let H := fresh in intros H; vm_compute in H; injection H as <-.
  all: intros Hv Hh; open_values; eval_classes.
  all: repeat match goal with H : value_ok _ Lexical _ |- _ => clear H end.
  all: repeat match goal with H : value_ok _ _ ?v |- _ => destruct v; cbn [value_ok] in H; try contradiction end.
  all: try (eexists; split; [reflexivity|]; cbn [value_ok wf alloc_tree_cell alloc_expr_cell alloc_RE_cell]).
  all: repeat match goal with H : _ /\ _ |- _ => destruct H end.
  all: try done.
  all: repeat match goal with H : wf _ _ = true |- _ => rewrite H end.
  all: try done.
  - destruct (is_null c0); [exact H0|]. cbn [alloc_tree_cell wf andb]. by rewrite H, H0.
  - destruct (args1_inv c0) as (line & x & l0 & l1 & l2 & l3 & -> & Hl0); [assumption|assumption|].
    eexists; split; [reflexivity|]. cbn [value_ok wf]. rewrite Hl0. split; [assumption|reflexivity].
  - split_and!; [assumption|lia|lia].
  - destruct (elem_inv c0) as (line & n & l0 & l1 & l2 & l3 & -> & Hl0); [assumption|lia|].
    eexists; split; [reflexivity|]. cbn [value_ok elements count_elems]. rewrite Hl0.
    split_and!; [assumption|lia|lia].
  - cbn [alloc_typed_cell elements count_elems]. rewrite andb_true_r. split; [assumption|reflexivity].
  - cbn [alloc_typed_cell elements count_elems]. rewrite andb_true_r. split; [assumption|reflexivity].
Qed.

Hypothesis parse_file_ok : forall name file w,
  fopen depth name = Some file -> ok_store (w_store w) ->
  wp (parse_file (new_lexer file)) parsed w.

Lemma find_file_opens dirs name full file :
  find_file fopen g_build_filename depth dirs name = Some (full, file) -> fopen depth full = Some file.
Proof.
  induction dirs as [|d dirs IH]; cbn; [done|].
  destruct (fopen depth (g_build_filename d name)) eqn:E; [|done]. by intros [= <- <-].
Qed.

Lemma wp_include name w (Q : act -> world -> Prop) :
  ok_store (w_store w) ->
  (forall a w', ok_store (w_store w') ->
     match a with Value (node c) => wf Instruction c = true | Leave code => code = -2 | Died => True | _ => False end ->
     Q a w') ->
  wp (include_file fopen g_build_filename nasl_verify_signature always_authenticated parse_file depth name) Q w.
Proof.
  intros Hw HQ. apply wp_bind. unfold wp at 1, init_nasl_ctx.
  destruct (find_file _ _ _ _ _) as [[full file]|] eqn:Hf; [|by apply wp_ret, HQ].
  destruct (_ && _); [by apply wp_ret, HQ|]. apply find_file_opens in Hf.
  apply wp_bind. eapply wp_mono; [by eapply parse_file_ok|]. intros [[code|] p] w' [Hw' _ Hp]; apply wp_ret, HQ; try done.
  destruct (Z.eqb_spec code 0) as [->|]; [by apply Hp|done].
Qed.

Lemma action_ok r l sym h vs lnb w :
  2 <= r <= YYNRULES -> rhs r = Ret l -> get yyr1 r = Ret sym ->
  values_ok h l vs -> 1 <= h -> h + 1 <= YYMAXDEPTH -> ok_store (w_store w) ->
  wp (action fopen g_build_filename nasl_verify_signature regcomp always_authenticated
        parse_file depth r lnb vs)
    (fun a w' => ok_store (w_store w') /\
       match a with
       | Value v => value_ok (YYMAXDEPTH - h) (class_of sym) v
       | Tree c => wf Instruction c = true /\ value_ok (YYMAXDEPTH - h) (class_of sym) (node c)
       | Leave code => code = -2
       | Died => True
       end) w.
Proof.
  intros Hr Hl Hs Hv Hh1 Hh Hw.
  destruct (plain r) eqn:Hp.
  - destruct (action_node_ok r l sym h vs lnb) as (c & Hc & Hok); try done.
    unfold plain in Hp. apply andb_true_iff in Hp as [Ha Hp].
    replace (action _ _ _ _ _ _ _ r lnb vs)
      with (c ← checked (action_node regcomp r lnb (fun i => nth (i - 1) vs no_value)); mret (Value (node c)) : M world act).
    + apply wp_bind. eapply wp_checked; [exact Hc|]. by apply wp_ret.
    + unfold action. rewrite Ha. repeat case_match; try reflexivity; discriminate Hp.
  - assert (r ∈ filter (fun r => plain r = false) (seqZ 2 125)) as Hin.
    { apply list_elem_of_filter. split; [done|]. apply elem_of_seqZ. unfold YYNRULES in Hr. lia. }
    let l := eval vm_compute in (filter (fun r => plain r = false) (seqZ 2 125)) in
      change (filter (fun r => plain r = false) (seqZ 2 125)) with l in Hin.
    clear Hr Hp. revert r Hin l sym vs Hl Hs Hv. refine (proj1 (list.Forall_forall _ _) _).
    repeat (apply list.Forall_cons_2; [|]); [..|apply list.Forall_nil_2].
    all: intros l sym vs;
      let H := fresh in intros H; vm_compute in H; injection H as <-;
      let H := fresh in intros H; vm_compute in H; injection H as <-.
    all: intros Hv; open_values; eval_classes.
    all: repeat match goal with H : value_ok _ Lexical _ |- _ => clear H end.
    all: try (apply wp_ret; split; [exact Hw|assumption]).
    all: try match goal with H : value_ok _ _ ?v |- _ => destruct v; cbn [value_ok] in H; try contradiction end.
    all: try (apply wp_ret; split; [exact Hw|]; cbn [value_ok]; try exact I).
    all: try (by apply wf_instruction).
    + split; assumption.
    + apply wp_include; [exact Hw|]. intros [v|c|code|] w' Hw' Ha; try contradiction.
      * split; [exact Hw'|]. destruct v; try contradiction. exact Ha.
      * split; [exact Hw'|exact Ha].
      * split; [exact Hw'|exact I].
    + destruct H. assumption.
    + by apply atom_wf.
    + match goal with H : elements c = true /\ _ |- _ => destruct H as (He & H1 & Hc) end.
      apply wp_bind. eapply wp_checked; [reflexivity|]. apply wp_bind.
      eapply wp_mono; [apply (wp_on_store _ (fun c s => ok_store s /\ wf Expression c = true))|].
      * apply wp_make_array; [exact He|exact H1|lia|exact Hw].
      * intros a w' [Hs Ha]. apply wp_ret. split; [exact Hs|exact Ha].
Qed.
End Actions.

(** ** Rounds of the automaton *)

(** The token ahead, read when it was needed. *)
Record looked (p p' : parser) : Prop := mk_looked
  { looked_tree : tree p' = tree p;
    looked_ss : yyss p' = yyss p;
    looked_vs : yyvs p' = yyvs p;
    looked_size : yystacksize p <= YYMAXDEPTH -> yystacksize p' <= YYMAXDEPTH;
    looked_ahead : ahead p' = ahead p /\ ctx p' = ctx p
                   \/ ahead p = None /\ exists t v, ahead p' = Some (t, v)
                      /\ mylex (ctx p) = Ret (Token t v, ctx p') }.

(** The input is in order. *)
Record ready (p : parser) : Prop := mk_ready
  { ready_room : 0 < maxlen (ctx p);
    ready_size : yystacksize p <= YYMAXDEPTH;
    ready_ahead : match ahead p with Some (t, v) => token_ok t v = true | None => True end }.

(** What is left of it: characters, and a token that is not the end. *)
Definition input_left (p : parser) : Z :=
  CStr.slen (fp (ctx p)) + match ahead p with Some (t, _) => if t =? 0 then 0 else 1 | None => 0 end.

Lemma looked_ready p p' : ready p -> looked p p' -> ready p' /\ input_left p' <= input_left p.
Proof.
  intros [Hr Hs Ha] [_ _ _ Hs' [[H1 H2]|(H1 & t & v & H2 & H3)]].
  - unfold input_left. rewrite H1, H2. split; [|lia]. split; [by rewrite H2|auto|by rewrite H1].
  - pose proof (mylex_ok _ Hr) as Hm. unfold wp in Hm. rewrite H3 in Hm.
    destruct Hm as [Hm1 _ Hm2 [Ht Hm3]]. split; [split; [lia|auto|by rewrite H2]|].
    unfold input_left. rewrite H1, H2, !CStr.slen_length. unfold YYEOF in Hm3.
    destruct (Z.eqb_spec t 0); lia.
Qed.

(** The symbols of the tokens. *)
Definition token_class_ok (t : Z) : bool :=
  match YYTRANSLATE t with
  | Ret x => (0 <=? x) && (x <? YYNTOKENS) && Bool.eqb (x =? 0) (t =? 0)
  | _ => false
  end.

Lemma token_symbol t v : token_ok t v = true ->
  exists x, (if t <=? YYEOF then Ret YYEOF else YYTRANSLATE t) = Ret x
    /\ YYTRANSLATE t = Ret x /\ 0 <= x < YYNTOKENS /\ (x = 0 <-> t = 0).
Proof.
  intros Ht. unfold token_ok in Ht.
  assert (forallb token_class_ok (seqZ 0 302) = true) as H by (vm_compute; reflexivity).
  rewrite forallb_forall in H. specialize (H t). unfold token_class_ok in H.
  destruct (YYTRANSLATE t) as [x| |] eqn:E.
  - assert (((0 <=? x) && (x <? YYNTOKENS) && Bool.eqb (x =? 0) (t =? 0)) = true) as H'.
    { apply H, list_elem_of_In, elem_of_seqZ. unfold INTEGER in Ht. destruct v; lia. }
    rewrite !andb_true_iff, eqb_true_iff in H'. exists x. split_and!; try done; try lia.
    unfold YYEOF. destruct (Z.leb_spec t 0); [|done].
    assert (t = 0) as -> by (destruct v; lia). f_equal. lia.
  - discriminate H. apply list_elem_of_In, elem_of_seqZ. unfold INTEGER in Ht. destruct v; lia.
  - discriminate H. apply list_elem_of_In, elem_of_seqZ. unfold INTEGER in Ht. destruct v; lia.
Qed.

Section Rounds.
Variable fopen : nat -> string -> option string.
Variable g_build_filename : string -> string -> string.
Variable nasl_verify_signature : string -> Z.
Variable regcomp : string -> bool.
Variable always_authenticated : bool.

Abbreviation round := (round fopen g_build_filename nasl_verify_signature regcomp always_authenticated).
Abbreviation yyreduce := (yyreduce fopen g_build_filename nasl_verify_signature regcomp always_authenticated).
Abbreviation action := (action fopen g_build_filename nasl_verify_signature regcomp always_authenticated).

Section OneRound.
Variable parse_file : lexer -> M world (ended * parser).
Variable depth : nat.

Lemma yyerrlab1_none ss xs : path ss xs -> yyerrlab1 ss = Ret false.
Proof.
  induction 1 as [|p q x ss xs Hp IH Hr]; [done|]. cbn [yyerrlab1].
  rewrite (no_error_shift q (p :: ss) (x :: xs)) by by apply path_step. exact IH.
Qed.

(** A round: the end, a shift or a reduction. *)
Lemma wp_round p q ss xs w (Q : ended * parser + parser -> world -> Prop) :
  yyss p = q :: ss -> path (q :: ss) xs -> length (yyvs p) = length xs -> ready p ->
  (forall e p', e = Returned 1 \/ e = Returned 2 \/ e = Aborted -> Q (inl (e, p')) w) ->
  (q = YYFINAL -> forall p', looked p p' -> Q (inl (Returned 0, p')) w) ->
  (forall p' t v x q', q <> YYFINAL -> looked p p' -> ready p' -> ahead p' = Some (t, v) ->
     YYTRANSLATE t = Ret x -> 0 <= x < YYNTOKENS -> (x = 0 <-> t = 0) -> token_ok t v = true ->
     reaches q q' x = true -> (x = 0 -> q' = YYFINAL) ->
     Q (inr (with_ahead None (ctx p') (with_stacks (q' :: q :: ss) (v :: yyvs p) p'))) w) ->
  (forall p' r, q <> YYFINAL -> looked p p' -> ready p' -> Z.of_nat (length (q :: ss)) < YYMAXDEPTH ->
     r ∈ reductions q -> wp (yyreduce parse_file depth r p') Q w) ->
  wp (round parse_file depth p) Q w.
Proof.
  intros Hss Hp Hlen Hready Hend Hfin Hshift Hred. unfold NaslParse.round. rewrite Hss.
  pose proof (ready_size _ Hready) as Hsz.
  destruct (extend _ _) as [code|size] eqn:Hsize.
  { apply wp_ret, Hend. unfold extend in Hsize. repeat case_match; simplify_eq; auto. }
  assert (Z.of_nat (length (q :: ss)) < size /\ size <= YYMAXDEPTH) as [Hdepth Hsize'].
  { unfold extend in Hsize. repeat case_match; simplify_eq; lia. }
  set (p0 := mk_parser _ _ _ _ _ _).
  assert (looked p p0) as Hp0 by (split; auto).
  destruct (Z.eqb_spec q YYFINAL) as [|Hq]; [by apply wp_ret, Hfin|].
  assert (forall p' t, looked p p' -> ready p' -> forall d, fits_stack q t d ->
    match t with
    | Some x => exists tok v, ahead p' = Some (tok, v) /\ YYTRANSLATE tok = Ret x
                  /\ 0 <= x < YYNTOKENS /\ (x = 0 <-> tok = 0) /\ token_ok tok v = true
    | None => True end ->
    wp (perform fopen g_build_filename nasl_verify_signature regcomp always_authenticated parse_file depth d p') Q w) as Hperform.
  { intros p' t Hl Hr d Hd Ht. destruct d as [q'|r|]; cbn [perform].
    - destruct Hd as (x & -> & Hq' & Hx). destruct Ht as (tok & v & Ha & H1 & H2 & H3 & H4). rewrite Ha.
      apply wp_ret. destruct Hl as [? Hs Hv ? ?]. rewrite Hs, Hv, Hss. by eapply Hshift.
    - apply Hred; try done. lia.
    - apply wp_bind. eapply (wp_checked _ false); [|apply wp_ret, Hend; auto].
      destruct Hl as [? -> ? ? ?]. rewrite Hss. by eapply yyerrlab1_none. }
  destruct (decisions_fit q (path_state _ _ _ Hp) Hq) as (b & Hb & Hd).
  apply wp_bind. eapply wp_checked; [exact Hb|]. destruct b.
  - destruct Hd as (d & Hd & Hf). apply wp_bind. eapply wp_checked; [exact Hd|].
    apply (Hperform p0 None); [done|by apply (looked_ready p)|done|done].
  - apply wp_bind. unfold read_token.
    assert (forall p' t v, looked p p' -> ahead p' = Some (t, v) -> token_ok t v = true ->
      wp (yytoken ← checked (if t <=? YYEOF then Ret YYEOF else YYTRANSLATE t);
          d ← checked (yybackup q yytoken);
          perform fopen g_build_filename nasl_verify_signature regcomp always_authenticated parse_file depth d p') Q w) as Hgo.
    { intros p' t v Hl Ha Ht. destruct (token_symbol t v Ht) as (x & Hx & Hx' & Hx0 & Hx1).
      apply wp_bind. eapply wp_checked; [exact Hx|]. destruct (Hd x Hx0) as (d & Hd' & Hf).
      apply wp_bind. eapply wp_checked; [exact Hd'|].
      apply (Hperform p' (Some x)); [done|by apply (looked_ready p)|done|]. by exists t, v. }
    unfold p0 at 1. cbn [ahead]. destruct (ahead p) as [[t v]|] eqn:Ha.
    + apply wp_ret. apply (Hgo p0 t v); [done|done|].
      destruct Hready as [_ _ H]. by rewrite Ha in H.
    + apply wp_bind. destruct (wp_Ret _ _ _ (mylex_ok (ctx p) (ready_room _ Hready))) as (r & l & Hm & [_ _ _ Hans]).
      eapply wp_checked; [exact Hm|]. apply wp_ret. destruct r as [t v|]; [|by apply wp_ret, Hend; auto].
      apply (Hgo _ t v); [|done|by apply Hans]. split; try done. right. split; [done|]. by exists t, v.
Qed.

(** A reduction pops the values of its right-hand side. *)
Lemma wp_yyreduce p r (l : list Z) sym top ss q vs1 vs2 w (Q : ended * parser + parser -> world -> Prop) :
  get yyr2 r = Ret (Z.of_nat (length l)) -> get yyr1 r = Ret sym ->
  drop (length l) (yyss p) = top :: ss -> yygoto top sym = Ret q ->
  yyvs p = reverse vs1 ++ vs2 -> length vs1 = length l ->
  wp (action parse_file depth r (line_no (ctx p)) vs1)
    (fun a w' => match a with
                 | Leave code => Q (inl (Returned code, p)) w'
                 | Died => Q (inl (Aborted, p)) w'
                 | Value v => Q (inr (with_stacks (q :: top :: ss) (v :: vs2) p)) w'
                 | Tree c => Q (inr (with_stacks (q :: top :: ss) (node c :: vs2) (with_tree c p))) w'
                 end) w ->
  wp (yyreduce parse_file depth r p) Q w.
Proof.
  intros Hr2 Hr1 Hd Hg Hv Hl Hw. unfold NaslParse.yyreduce.
  apply wp_bind. eapply wp_checked; [exact Hr2|]. cbv zeta. rewrite Nat2Z.id, Hv, <- Hl.
  rewrite <- (length_reverse vs1), take_app_length, drop_app_length, reverse_involutive.
  rewrite (proj2 (Nat.ltb_ge _ _)) by (rewrite length_app; lia).
  apply wp_bind. eapply wp_mono; [exact Hw|]. intros a w' Ha.
  rewrite length_reverse, Hl, Hd.
  destruct a; try (apply wp_ret; exact Ha);
    (apply wp_bind; eapply wp_checked; [exact Hr1|]; apply wp_bind; eapply wp_checked; [exact Hg|];
     apply wp_ret; exact Ha).
Qed.
End OneRound.

(** ** The parser returns *)

Record running (p : parser) (xs : list Z) : Prop := mk_running
  { run_path : path (yyss p) xs;
    run_values : stack_ok xs (yyvs p);
    run_ready : ready p;
    run_tree : wf Instruction (tree p) = true }.

(** The rounds that may follow. *)
Definition rank (p : parser) (xs : list Z) : Z :=
  match yyss p with
  | q :: _ => if q =? YYFINAL then 0 else 10 * input_left p + stack_weight (yyss p) xs + 1
  | [] => 0
  end.

Lemma path_length ss xs : path ss xs -> length ss = S (length xs).
Proof. induction 1; cbn in *; lia. Qed.

Lemma input_left_nonneg p : 0 <= input_left p.
Proof.
  unfold input_left. pose proof (CStr.slen_nonneg (fp (ctx p))). repeat case_match; lia.
Qed.

Lemma rank_nonneg p xs : path (yyss p) xs -> 0 <= rank p xs.
Proof.
  intros Hp. unfold rank. destruct (yyss p) as [|q ss]; [done|].
  pose proof (stack_weight_nonneg _ _ _ Hp). pose proof (input_left_nonneg p). case_match; lia.
Qed.

(** The values of tokens fit their symbols. *)
Definition token_value_ok (t : Z) : bool :=
  match YYTRANSLATE t with
  | Ret x =>
      match class_of x with
      | Lexical => t <? IDENT
      | Text => (t =? IDENT) || (t =? STRING2)
      | Bytes => t =? STRING1
      | Number => t =? INTEGER
      | _ => false
      end
  | _ => false
  end.

Lemma token_value room t v x : token_ok t v = true -> YYTRANSLATE t = Ret x -> value_ok room (class_of x) v.
Proof.
  intros Ht Hx. unfold token_ok in Ht.
  assert (forallb token_value_ok (seqZ 0 302) = true) as H by (vm_compute; reflexivity).
  rewrite forallb_forall in H. specialize (H t). unfold token_value_ok in H. rewrite Hx in H.
  lapply H; [clear H; intros H|apply list_elem_of_In, elem_of_seqZ; unfold INTEGER in Ht; destruct v; lia].
  unfold IDENT, STRING1, STRING2, INTEGER in *.
  destruct (class_of x), v; try done; cbn [value_ok]; unfold int_ok; lia.
Qed.

(** A step of the automaton. *)
Inductive moved (parse_file : lexer -> M world (ended * parser)) (depth : nat) (p : parser) (xs : list Z) (w : world)
  : parser -> list Z -> world -> Prop :=
| moved_shift p' t v x ss :
    looked p p' -> ahead p' = Some (t, v) -> YYTRANSLATE t = Ret x -> 0 <= x < YYNTOKENS ->
    moved parse_file depth p xs w
      (with_ahead None (ctx p') (with_stacks ss (v :: yyvs p) p')) (x :: xs) w
| moved_reduce p' q ss0 r l sym xs' ss vs1 vs2 a v c w' :
    looked p p' -> yyss p = q :: ss0 -> r ∈ reductions q -> 2 <= r <= YYNRULES -> rhs r = Ret l -> get yyr1 r = Ret sym ->
    xs = reverse l ++ xs' -> yyvs p = reverse vs1 ++ vs2 -> length vs1 = length l ->
    action parse_file depth r (line_no (ctx p')) vs1 w = Ret (a, w') ->
    (a = Value v /\ c = tree p \/ a = Tree c /\ v = node c) ->
    moved parse_file depth p xs w (with_stacks ss (v :: vs2) (with_tree c p')) (sym :: xs') w'.

Lemma wp_self {S A} (m : M S A) Q s : wp m Q s -> wp m (fun a s' => m s = Ret (a, s') /\ Q a s') s.
Proof. unfold wp. destruct (m s) as [[a s']| |]; auto. Qed.

Lemma round_ok parse_file depth p xs w :
  (forall name file w, fopen depth name = Some file -> ok_store (w_store w) ->
     wp (parse_file (new_lexer file)) parsed w) ->
  running p xs -> ok_store (w_store w) ->
  wp (round parse_file depth p)
    (fun r w' => match r with
                 | inl e =>
                     parsed e w' /\
                     (fst e = Returned 0 -> w' = w /\ looked p (snd e) /\ exists ss, yyss p = YYFINAL :: ss)
                 | inr p' =>
                     ok_store (w_store w') /\
                     exists xs', running p' xs' /\ rank p' xs' < rank p xs
                                 /\ moved parse_file depth p xs w p' xs' w'
                 end) w.
Proof.
  intros Hsub [Hp Hv Hr Ht] Hw. destruct (yyss p) as [|q ss] eqn:Hss; [by inversion Hp|].
  eapply wp_round; [exact Hss|exact Hp|by apply stack_ok_length|exact Hr|..].
  - intros e p' He. split; [|cbn; naive_solver].
    split; [done| |]; cbn; [|naive_solver]. destruct He as [-> |[-> | ->]]; set_solver.
  - intros -> p' Hl. split; [|intros _; split_and!; [done|done|by exists ss]].
    split; [done|set_solver|]. intros _. cbn. by rewrite (looked_tree _ _ Hl).
  - intros p' t v x q' Hq Hl Hr' Ha Hx Hx0 Hxt Htok Hreach Hfin. split; [done|]. exists (x :: xs).
    destruct (shift_fits _ _ _ _ _ Hp Hreach) as [Hp' Hwt]. split_and!; [| |by eapply moved_shift].
    + split; [exact Hp'| | |by rewrite <- Ht, <- (looked_tree _ _ Hl)].
      * split; [by eapply token_value|done].
      * destruct Hr' as [H1 H2 H3]. by split.
    + unfold rank at 2. rewrite Hss. destruct (Z.eqb_spec q YYFINAL) as [|_]; [done|].
      unfold rank. cbn [yyss with_ahead with_stacks]. destruct (Z.eqb_spec q' YYFINAL) as [_|Hq'].
      { pose proof (input_left_nonneg p). pose proof (stack_weight_nonneg _ _ _ Hp). lia. }
      destruct (looked_ready _ _ Hr Hl) as [_ Hin]. rewrite (terminal_weight x Hx0) in Hwt.
      assert (input_left (with_ahead None (ctx p') (with_stacks (q' :: q :: ss) (v :: yyvs p) p')) + 1
              = input_left p') as Heq.
      { unfold input_left. rewrite Ha. cbn [ctx ahead with_ahead]. destruct (Z.eqb_spec t 0); [|lia]. naive_solver. }
      lia.
  - intros p' r Hq Hl Hr' Hdepth Hred.
    destruct (reduction_fits _ _ _ _ Hp Hred) as (Hb & l & sym & top & ss' & xs' & q' & H1 & H2 & H3 & H4 & H5 & -> & H7 & H8 & H9).
    destruct (stack_ok_split _ _ _ Hv) as (vs1 & vs2 & Hvs & Hv1 & Hv2).
    destruct Hl as [Hlt Hls Hlv Hlsz Hla] eqn:Hl0. pose proof (mk_looked _ _ Hlt Hls Hlv Hlsz Hla) as Hl'.
    destruct (looked_ready _ _ Hr Hl') as [_ Hin].
    eapply wp_yyreduce; [exact H2|exact H3|by rewrite Hls, Hss|exact H7|by rewrite Hlv| |].
    { exact (values_ok_length _ _ _ Hv1). }
    pose proof (path_length _ _ Hp) as Hpl. rewrite length_app, length_reverse in Hpl.
    assert (forall v c a w', ok_store (w_store w') -> value_ok (YYMAXDEPTH - (Z.of_nat (length xs') + 1)) (class_of sym) v ->
      wf Instruction c = true ->
      action parse_file depth r (line_no (ctx p')) vs1 w = Ret (a, w') ->
      (a = Value v /\ c = tree p \/ a = Tree c /\ v = node c) ->
      ok_store (w_store w') /\ exists xs0, running (with_stacks (q' :: top :: ss') (v :: vs2) (with_tree c p')) xs0
         /\ rank (with_stacks (q' :: top :: ss') (v :: vs2) (with_tree c p')) xs0 < rank p (reverse l ++ xs')
         /\ moved parse_file depth p (reverse l ++ xs') w
              (with_stacks (q' :: top :: ss') (v :: vs2) (with_tree c p')) xs0 w') as Hnext.
    { intros v c a w' Hw' Hvv Hc Ha Hac. split; [done|]. exists (sym :: xs').
      split_and!; [| |by eapply moved_reduce, Hac; try done; eapply values_ok_length].
      - split; [exact H8| |by destruct Hr'; split|exact Hc].
        split; [|exact Hv2]. cbn [length]. by replace (Z.of_nat (S (length xs'))) with (Z.of_nat (length xs') + 1) by lia.
      - unfold rank. rewrite Hss. cbn [yyss with_stacks]. destruct (Z.eqb_spec q YYFINAL) as [|_]; [done|].
        pose proof (input_left_nonneg p). pose proof (stack_weight_nonneg _ _ _ Hp).
        change (input_left (with_stacks _ _ _)) with (input_left p'). case_match; lia. }
    eapply wp_mono; [apply wp_self, (action_ok fopen _ _ _ _ parse_file depth Hsub r l sym (Z.of_nat (length xs') + 1)); try done; lia|].
    intros a w' (Hrun & Hw' & Ha). destruct a as [v|c|code|].
    + rewrite <- Hlt in Ht. apply (Hnext v (tree p') (Value v)); [done|done|done|done|]. left. by rewrite Hlt.
    + destruct Ha. apply (Hnext _ _ (Tree c)); auto.
    + subst. split; [|done]. split; [done|set_solver|done].
    + split; [|done]. split; [done|set_solver|done].
Qed.

(** At most [files] files can be open, none has more than [size] characters. *)
Record bounded_files (files : nat) (size : Z) : Prop := mk_bounded
  { bounded_open : forall d name file, fopen d name = Some file -> (d < files)%nat;
    bounded_size : forall d name file, fopen d name = Some file -> CStr.slen file <= size }.

Abbreviation parse_loop := (parse_loop fopen g_build_filename nasl_verify_signature regcomp always_authenticated).
Abbreviation naslparse := (naslparse fopen g_build_filename nasl_verify_signature regcomp always_authenticated).

Definition start (l : lexer) : parser := with_stacks [0] [] (new_parser l).

Lemma new_parser_running file : running (start (new_lexer file)) [].
Proof. split; [apply path_start|done| |done]. by split. Qed.

Lemma start_rank file : rank (start (new_lexer file)) [] = 10 * CStr.slen file + 2.
Proof.
  unfold rank, input_left. cbn [yyss start with_stacks new_parser ctx ahead new_lexer fp].
  unfold stack_weight. change (total_weight [] + pending 0) with 1.
  change (0 =? YYFINAL) with false. cbn iota. lia.
Qed.

Section Bounded.
Context (files : nat) (size : Z) (Hfiles : bounded_files files size) (Hsize : 0 <= size).

(** What holds of the steps of a call holds at its end. *)
Definition kept_by_steps (depth : nat) (J : parser -> list Z -> world -> Prop) : Prop :=
  forall n p xs w p' xs' w', running p xs -> J p xs w ->
    moved (fun l => parse_loop n (S depth) (start l)) (S depth) p xs w p' xs' w' -> J p' xs' w'.

Definition ends_in (J : parser -> list Z -> world -> Prop) (r : ended * parser) (w : world) : Prop :=
  parsed r w /\
  (fst r = Returned 0 -> exists p xs ss,
     J p xs w /\ running p xs /\ yyss p = YYFINAL :: ss /\ looked p (snd r)).

Lemma parse_loop_ok fuel depth J p xs w :
  kept_by_steps depth J -> J p xs w ->
  running p xs -> ok_store (w_store w) ->
  rank p xs + Z.of_nat (files - depth) * (10 * size + 3) < Z.of_nat fuel ->
  wp (parse_loop fuel depth p) (ends_in J) w.
Proof.
  revert depth J p xs w. induction fuel as [|fuel IH]; intros depth J p xs w HJ Hj Hr Hw Hf.
  { pose proof (rank_nonneg p xs (run_path _ _ Hr)). nia. }
  cbn [NaslParse.parse_loop]. apply wp_bind. eapply wp_mono.
  - apply (round_ok (fun l => parse_loop fuel (S depth) (start l)) (S depth) p xs w); [|exact Hr|exact Hw].
    intros name file w' Hopen Hw'. destruct Hfiles as [Ho Hs]. specialize (Ho _ _ _ Hopen). specialize (Hs _ _ _ Hopen).
    eapply wp_mono; [apply (IH (S depth) (fun _ _ _ => True) _ [] w'); try done; [apply new_parser_running|]|by intros ? ? []].
    rewrite start_rank. pose proof (rank_nonneg p xs (run_path _ _ Hr)).
    replace (files - depth)%nat with (S (files - S depth)) in Hf by lia. nia.
  - intros [e|p'] w' H.
    + apply wp_ret. destruct H as [H He]. split; [exact H|]. intros He0.
      destruct (He He0) as (-> & Hl & ss & Hss). by exists p, xs, ss.
    + destruct H as (Hw' & xs' & Hr' & Hlt & Hm).
      apply (IH depth J p' xs' w'); [exact HJ|by eapply HJ, Hm|exact Hr'|exact Hw'|lia].
Qed.

(** Enough rounds for a file, whatever it includes. *)
Definition parse_fuel : nat := Z.to_nat ((Z.of_nat files + 1) * (10 * size + 3)).

Lemma naslparse_ok J file w :
  kept_by_steps 0 J -> J (start (new_lexer file)) [] w ->
  CStr.slen file <= size -> ok_store (w_store w) ->
  wp (naslparse parse_fuel (new_lexer file)) (ends_in J) w.
Proof.
  intros HJ Hj Hl Hw. unfold NaslParse.naslparse. apply (parse_loop_ok _ _ J _ []).
  - exact HJ.
  - exact Hj.
  - apply new_parser_running.
  - exact Hw.
  - fold (start (new_lexer file)). rewrite start_rank. unfold parse_fuel. nia.
Qed.

(** ** Sentences of the grammar

    [derives sym ts w v w']: the symbol derives the tokens [ts]; the actions of the
    rules used, from left to right, take the world [w] to [w'] and give [v]. *)

Inductive derives : Z -> list (Z * yystype) -> world -> yystype -> world -> Prop :=
| derives_token t v x w : YYTRANSLATE t = Ret x -> 0 <= x < YYNTOKENS -> derives x [(t, v)] w v w
| derives_rule r l sym ts n lnb vs w1 w2 a v w3 :
    2 <= r <= YYNRULES -> rhs r = Ret l -> get yyr1 r = Ret sym ->
    derives_list l ts w1 vs w2 ->
    action (fun f => parse_loop n 1 (start f)) 1 r lnb vs w2 = Ret (a, w3) ->
    (a = Value v \/ exists c, a = Tree c /\ v = node c) ->
    derives sym ts w1 v w3
with derives_list : list Z -> list (Z * yystype) -> world -> list yystype -> world -> Prop :=
| derives_nil w : derives_list [] [] w [] w
| derives_cons x l ts ts' w1 v w2 vs w3 :
    derives x ts w1 v w2 -> derives_list l ts' w2 vs w3 ->
    derives_list (x :: l) (ts ++ ts') w1 (v :: vs) w3.

Lemma derives_list_app l1 l2 ts1 ts2 w1 w2 w3 vs1 vs2 :
  derives_list l1 ts1 w1 vs1 w2 -> derives_list l2 ts2 w2 vs2 w3 ->
  derives_list (l1 ++ l2) (ts1 ++ ts2) w1 (vs1 ++ vs2) w3.
Proof.
  intros H H2. revert ts1 w1 vs1 H. induction l1 as [|x l1 IH]; intros ts1 w1 vs1 H; inversion H; subst; [done|].
  rewrite <- app_assoc. cbn. eapply derives_cons; [eassumption|]. by apply IH.
Qed.

Lemma derives_list_app_inv l1 l2 ts w1 w3 vs1 vs2 : length vs1 = length l1 ->
  derives_list (l1 ++ l2) ts w1 (vs1 ++ vs2) w3 ->
  exists ts1 ts2 w2, ts = ts1 ++ ts2 /\ derives_list l1 ts1 w1 vs1 w2 /\ derives_list l2 ts2 w2 vs2 w3.
Proof.
  revert l1 ts w1. induction vs1 as [|v vs1 IH]; intros [|x l1] ts w1 Hl H; try done.
  - exists [], ts, w1. split_and!; [done|apply derives_nil|done].
  - cbn in H. inversion H as [|x' l' t1 t2 wa v' wb vs' wc Hx Hr]; subst. cbn in Hl.
    destruct (IH l1 _ _ ltac:(lia) Hr) as (ta & tb & w2 & -> & Ha & Hb).
    exists (t1 ++ ta), tb, w2. split_and!; [by rewrite app_assoc|by eapply derives_cons|done].
Qed.

Lemma derives_one x ts w v w' : derives x ts w v w' -> derives_list [x] ts w [v] w'.
Proof. intros H. rewrite <- (app_nil_r ts). eapply derives_cons; [exact H|apply derives_nil]. Qed.

(** The tokens of an input. *)
Inductive lexed_to : lexer -> list (Z * yystype) -> lexer -> Prop :=
| lexed_none l : lexed_to l [] l
| lexed_more l l1 l2 t v ts :
    lexed_to l ts l1 -> mylex l1 = Ret (Token t v, l2) -> lexed_to l (ts ++ [(t, v)]) l2.

(** What has been read is what the stack derives, and the token ahead. *)
Record derivation (l0 : lexer) (w0 : world) (p : parser) (xs : list Z) (w : world) : Prop := mk_derivation
  { der_stack : exists ts, lexed_to l0 (ts ++ opt_list (ahead p)) (ctx p)
                  /\ derives_list (reverse xs) ts w0 (reverse (yyvs p)) w;
    der_tree : list.last xs = Some 74 -> list.last (yyvs p) = Some (node (tree p)) }.

Lemma looked_lexed l0 p p' ts : looked p p' ->
  lexed_to l0 (ts ++ opt_list (ahead p)) (ctx p) -> lexed_to l0 (ts ++ opt_list (ahead p')) (ctx p').
Proof.
  intros [_ _ _ _ [[-> ->]|(H1 & t & v & H2 & H3)]]; [done|]. rewrite H1, H2. cbn. rewrite app_nil_r.
  intros H. by eapply lexed_more.
Qed.

(** Only the rule of the start symbol sets the tree. *)
Definition start_rule_ok (r : Z) : bool :=
  match get yyr1 r with Ret sym => Bool.eqb (sym =? 74) (r =? 2) | _ => false end.

Lemma start_rule r sym : 2 <= r <= YYNRULES -> get yyr1 r = Ret sym -> sym = 74 <-> r = 2.
Proof.
  intros Hr Hs. assert (forallb start_rule_ok (seqZ 2 125) = true) as H by (vm_compute; reflexivity).
  rewrite forallb_forall in H. specialize (H r). unfold start_rule_ok in H. rewrite Hs in H.
  lapply H; [|apply list_elem_of_In, elem_of_seqZ; unfold YYNRULES in Hr; lia].
  rewrite eqb_true_iff. lia.
Qed.

Lemma action_tree pf d r lnb vs w c w' : action pf d r lnb vs w = Ret (Tree c, w') -> r = 2.
Proof.
  destruct (Z.eqb_spec r 2) as [|Hr]; [done|]. unfold NaslParse.action, include_file.
  intros H. exfalso. revert H. unfold mbind, M_bind, mret, M_ret, checked, on_store.
  repeat case_match; try done; intros; simplify_eq.
Qed.

(** The rule of the start symbol is reduced at the bottom of the stack. *)
Lemma tree_rule_bottom q ss l xs :
  rhs 2 = Ret l -> 2 ∈ reductions q -> path (q :: ss) (reverse l ++ xs) -> xs = [].
Proof.
  intros Hl Hq Hp. pose proof (path_state _ _ _ Hp) as Hst.
  assert (forallb (fun q => negb (mem 2 (reductions q)) || (q =? 19)) states = true) as H by (vm_compute; reflexivity).
  rewrite forallb_forall in H. apply list_elem_of_In, H in Hst. apply mem_spec in Hq. rewrite Hq in Hst.
  apply Z.eqb_eq in Hst as ->. vm_compute in Hl. injection Hl as <-. cbn in Hp.
  inversion Hp as [|p q' x ss' xs' Hp' Hr]; subst. unfold reaches in Hr.
  rewrite !andb_true_iff, mem_spec in Hr. destruct Hr as [[_ Hr] _]. vm_compute in Hr.
  apply list_elem_of_singleton in Hr as ->. inversion Hp' as [|p' q'' x' ss'' xs'' _ Hr']; subst; [done|].
  unfold reaches in Hr'. by rewrite !andb_true_iff in Hr'; destruct Hr' as [[_ ?] _].
Qed.

Lemma derives_list_length l ts w vs w' : derives_list l ts w vs w' -> length vs = length l.
Proof.
  revert ts w vs. induction l as [|x l IH]; intros ts w vs H; inversion H; subst; [done|]. cbn. f_equal. by eapply IH.
Qed.

Lemma derivation_kept l0 w0 : kept_by_steps 0 (derivation l0 w0).
Proof.
  intros n p xs w p' xs' w' Hrun [(ts & Hlex & Hd) Ht] Hm. pose proof (derives_list_length _ _ _ _ _ Hd) as Hdl.
  rewrite !length_reverse in Hdl.
  inversion Hm as [p1 t v x ss Hl Ha Hx Hx0 | p1 q ss0 r l sym xs1 ss vs1 vs2 a v c w1 Hl Hss Hq Hr Hrhs Hsym Hxs Hvs Hlen Hact Hac]; subst.
  - apply (looked_lexed _ _ _ _ Hl) in Hlex. rewrite Ha in Hlex. split.
    + exists (ts ++ [(t, v)]). cbn [ahead ctx with_ahead opt_list yyvs with_stacks]. rewrite app_nil_r. split; [done|].
      rewrite !reverse_cons. eapply derives_list_app; [exact Hd|]. by apply derives_one, derives_token.
    + cbn [yyvs with_ahead with_stacks tree]. rewrite (looked_tree _ _ Hl).
      destruct xs as [|y xs]; [intros [= ->]; unfold YYNTOKENS in Hx0; lia|].
      destruct (yyvs p) as [|v0 vs]; [by intros H%Ht|]. exact Ht.
  - rewrite Hvs, !reverse_app, !reverse_involutive in Hd.
    destruct (derives_list_app_inv (reverse xs1) l ts w0 w (reverse vs2) vs1) as (ts1 & ts2 & w2 & -> & H1 & H2); [|exact Hd|].
    { rewrite Hvs, !length_app, !length_reverse in Hdl. rewrite !length_reverse. lia. }
    split.
    + exists (ts1 ++ ts2). split; [exact (looked_lexed _ _ _ _ Hl Hlex)|].
      cbn [yyvs with_stacks]. rewrite !reverse_cons. eapply derives_list_app; [exact H1|].
      apply derives_one. eapply derives_rule; [exact Hr|exact Hrhs|exact Hsym|exact H2|exact Hact|].
      destruct Hac as [[-> _]|[-> ->]]; eauto.
    + cbn [yyvs with_stacks tree with_tree]. intros Hlast.
      assert (xs1 <> [] -> c = tree p) as Hc.
      { intros Hx1. destruct Hac as [[_ ->]|[-> _]]; [done|]. apply action_tree in Hact as ->.
        destruct Hx1. destruct Hrun as [Hp _ _ _]. rewrite Hss in Hp. by eapply tree_rule_bottom. }
      destruct xs1 as [|x1 xs1].
      * injection Hlast as ->. destruct vs2; [|rewrite Hvs, !length_app, !length_reverse in Hdl; cbn in Hdl; lia].
        cbn. assert (r = 2) as -> by (by apply (start_rule r 74)).
        destruct Hac as [[-> _]|[_ ->]]; [|done]. exfalso. revert Hact.
        unfold NaslParse.action, mbind, M_bind, checked. by destruct (node_of _).
      * rewrite (Hc ltac:(done)). destruct vs2 as [|v1 vs2]; [rewrite Hvs, !length_app, !length_reverse in Hdl; cbn in Hdl; lia|].
        rewrite Hvs, !last_app_cons in Ht. cbn in Hlast |- *. exact (Ht Hlast).
Qed.

Lemma lexed_prefix l ts1 ts2 l' : lexed_to l (ts1 ++ ts2) l' -> exists l1, lexed_to l ts1 l1.
Proof.
  revert l'. induction ts2 as [|t ts2 IH] using rev_ind; intros l' H; [rewrite app_nil_r in H; eauto|].
  rewrite app_assoc in H. remember ((ts1 ++ ts2) ++ [t]) as tl eqn:Ht.
  destruct H as [l|l l1 l2 t' v ts Hl Hm]; [by destruct (ts1 ++ ts2)|].
  apply app_inj_tail in Ht as [-> _]. by eapply IH.
Qed.

Lemma lexed_tokens l ts l' : lexed_to l ts l' -> 0 < maxlen l ->
  0 < maxlen l' /\ Forall (fun tv => token_ok (fst tv) (snd tv) = true) ts.
Proof.
  induction 1 as [|l l1 l2 t v ts Hl IH Hm]; intros H0; [done|]. destruct (IH H0) as [H1 Hts].
  pose proof (mylex_ok _ H1) as Hok. unfold wp in Hok. rewrite Hm in Hok. destruct Hok as [Hr _ _ [Ht _]].
  split; [lia|]. apply Forall_app. split; [done|]. by constructor.
Qed.

(** Only the end of the input is an end symbol. *)
Lemma end_symbol ts w v w' : derives 0 ts w v w' -> exists t, ts = [(t, v)] /\ YYTRANSLATE t = Ret 0 /\ w' = w.
Proof.
  intros H. inversion H as [t ? ? ? Hx Hx0|r l ? ? n lnb vs ? w2 a ? ? Hr Hl Hs _ _ _]; subst; [by exists t|].
  exfalso. assert (forallb (fun r => match get yyr1 r with Ret sym => 0 <? sym | _ => false end) (seqZ 2 125) = true) as Hc
    by (vm_compute; reflexivity).
  rewrite forallb_forall in Hc. specialize (Hc r). rewrite Hs in Hc. discriminate Hc.
  apply list_elem_of_In, elem_of_seqZ. unfold YYNRULES in Hr. lia.
Qed.

Lemma final_path ss xs : path (YYFINAL :: ss) xs -> xs = [0; 74].
Proof.
  intros Hp. inversion Hp as [|p q x ss' xs' Hp' Hr]; subst. unfold reaches in Hr.
  rewrite !andb_true_iff, mem_spec in Hr. destruct Hr as [[_ Hr] Hx]. vm_compute in Hx, Hr.
  apply list_elem_of_singleton in Hr as ->. inversion Hp' as [|p q x' ss'' xs'' Hp'' Hr']; subst.
  unfold reaches in Hr'. rewrite !andb_true_iff, mem_spec in Hr'. destruct Hr' as [[_ Hr'] Hx'].
  vm_compute in Hx', Hr'. apply list_elem_of_singleton in Hr' as ->.
  inversion Hp'' as [|p q x'' ss3 xs3 _ Hr'']; subst.
  - destruct x; try done. destruct x' as [|x'|]; try done. repeat (destruct x'; try done).
  - unfold reaches in Hr''. by rewrite !andb_true_iff in Hr''; destruct Hr'' as [[_ ?] _].
Qed.

(** C12: The parser always returns, with an error or with a tree that has the types a
    script must have: for every file, whatever it includes, the automaton neither
    runs for ever nor leaves defined behaviour (stacks, tables and values included),
    as long as there is a bound on the size of files and on how many can be open. *)
Theorem parser_returns file w :
  CStr.slen file <= size -> ok_store (w_store w) ->
  exists e p w', naslparse parse_fuel (new_lexer file) w = Ret ((e, p), w') /\
    e ∈ [Returned 0; Returned 1; Returned 2; Returned (-2); Aborted] /\
    ok_store (w_store w') /\
    (e = Returned 0 -> wf Instruction (tree p) = true).
Proof.
  intros Hl Hw.
  destruct (wp_Ret _ _ _ (naslparse_ok (fun _ _ _ => True) file w ltac:(done) I Hl Hw)) as ([e p] & w' & Hrun & [[H1 H2 H3] _]).
  by exists e, p, w'.
Qed.

(** C13: What the parser accepts is a sentence of the grammar of NASL: when it returns 0
    the tokens of the file up to its end derive from the start symbol, and the tree
    and the new world are what the actions of the rules of that derivation make, in
    order; the tables of the automaton are right for the grammar. *)
Theorem parser_sound file w p w' :
  CStr.slen file <= size -> ok_store (w_store w) ->
  naslparse parse_fuel (new_lexer file) w = Ret ((Returned 0, p), w') ->
  exists ts v l, lexed_to (new_lexer file) (ts ++ [(YYEOF, v)]) l /\
    derives 74 ts w (node (tree p)) w'.
Proof.
  intros Hl Hw Hrun.
  assert (derivation (new_lexer file) w (start (new_lexer file)) [] w) as Hd.
  { split; [|done]. exists []. split; [apply lexed_none|apply derives_nil]. }
  pose proof (naslparse_ok _ file w (derivation_kept _ _) Hd Hl Hw) as H. unfold wp in H. rewrite Hrun in H.
  destruct H as [_ He]. destruct (He eq_refl) as (p0 & xs & ss & [(ts & Hlex & Hder) Ht] & [Hp Hv _ _] & Hss & Hlk).
  rewrite Hss in Hp. apply final_path in Hp as ->. cbn [snd] in Hlk.
  destruct (yyvs p0) as [|v0 [|v1 [|? ?]]]; cbn in Hv; try naive_solver. specialize (Ht eq_refl). injection Ht as ->.
  cbn in Hder. inversion Hder as [|x l ts1 ts2 w1 v w2 vs w3 H1 H2]; subst.
  inversion H2 as [|x l ts3 ts4 w1 v w3 vs w4 H3 H4]; subst. inversion H4; subst. rewrite app_nil_r in Hlex.
  destruct (end_symbol _ _ _ _ H3) as (t & -> & Ht & ->).
  apply lexed_prefix in Hlex as [l Hlex]. exists ts1, v0, l. split; [|by rewrite (looked_tree _ _ Hlk)].
  destruct (lexed_tokens _ _ _ Hlex ltac:(done)) as [_ Hall]. apply Forall_app in Hall as [_ Hall].
  apply Forall_cons in Hall as [Htok _]. destruct (token_symbol t v0 Htok) as (x & _ & Hx & _ & Hxt).
  rewrite Ht in Hx. injection Hx as <-. replace YYEOF with t by (by apply Hxt). exact Hlex.
Qed.
End Bounded.
End Rounds.

(** ** Witnesses

    A script that includes another; two files can be open at a time. *)

Definition one_file (depth : nat) (name : string) : option string :=
  if (depth <? 2)%nat && String.eqb name "lib" then Some "y=2;"%string else None.
Definition plain_build (dir name : string) : string := name.
Definition signed (name : string) : Z := 0.
Definition compiles (re : string) : bool := true.
Definition example_script : string := "include('lib'); x = f(a: y+1);".
Definition example_world : world := mk_world (mk_store ∅ 1 0) [EmptyString].

Abbreviation example_parse :=
  (naslparse one_file plain_build signed compiles false (parse_fuel 2 40) (new_lexer example_script)).

Lemma one_file_bounded : bounded_files one_file 2 40.
Proof.
  split; intros d name file; unfold one_file; destruct (Nat.ltb_spec d 2); cbn [andb]; try done.
  destruct (String.eqb _ _); [|done]. intros [= <-]. vm_compute. discriminate.
Qed.

Lemma parser_returns_witness : exists e p w', example_parse example_world = Ret ((e, p), w').
Proof.
  destruct (parser_returns one_file plain_build signed compiles false 2 40 one_file_bounded
    ltac:(lia) example_script example_world ltac:(vm_compute; discriminate) (map_Forall_empty _))
    as (e & p & w' & H & _).
  exists e, p, w'. exact H.
Defined.

Lemma zero_result (o : outcome ((ended * parser) * world)) :
  match o with Ret ((e, _), _) => e | _ => Aborted end = Returned 0 ->
  exists p w', o = Ret ((Returned 0, p), w').
Proof. destruct o as [[[e p] w']| |]; [|discriminate..]. intros ->. by exists p, w'. Qed.

Lemma example_parsed : exists p w', example_parse example_world = Ret ((Returned 0, p), w').
Proof. apply zero_result. vm_compute. reflexivity. Qed.

Lemma parser_sound_witness : exists ts v l, lexed_to (new_lexer example_script) (ts ++ [(YYEOF, v)]) l.
Proof.
  destruct example_parsed as (p & w' & H).
  destruct (parser_sound one_file plain_build signed compiles false 2 40 one_file_bounded
    ltac:(lia) example_script example_world p w' ltac:(vm_compute; discriminate) (map_Forall_empty _) H)
    as (ts & v & l & Hl & _).
  exists ts, v, l. exact Hl.
Defined.

End NaslParseSpec.
