(* ===== verification/NaslTime.v ===== *)
(** * ISO times in NASL ([nasl/nasl_isotime.c])

    A time is a text of 15 characters, [yyyymmddThhmmss].  The functions of NASL check
    and convert such texts and add years, days or seconds to them; for that the date
    becomes a Julian day and back. *)

From S2P Require Import Prelude Nasl NaslVar.
From stdpp Require Import base gmap sets list strings.
From Stdlib Require Import Ascii ZArith Lia.
Local Open Scope Z_scope.

Module NaslTime.
Import Nasl NaslVar.

Definition ISOTIME_SIZE : Z := 16.
Definition JD_DIFF : Z := 1721060.

(** ** Characters of a text

    The character at an index, zero from the end on. *)

Fixpoint char_at (s : string) (i : nat) : Z :=
  match s, i with
  | EmptyString, _ => 0
  | String c _, O => CStr.code c
  | String _ s', S i' => char_at s' i'
  end.

Definition is_digit (c : Z) : bool := (48 <=? c) && (c <=? 57).
Definition spacep (s : string) (i : nat) : bool := (char_at s i =? 32) || (char_at s i =? 9).
Definition digitp (s : string) (i : nat) : bool := is_digit (char_at s i).
Definition atoi_1 (s : string) (i : nat) : Z := char_at s i - 48.
Definition atoi_2 (s : string) (i : nat) : Z := atoi_1 s i * 10 + atoi_1 s (i + 1).
Definition atoi_4 (s : string) (i : nat) : Z := atoi_2 s i * 100 + atoi_2 s (i + 2).

Definition digits_at (s : string) (i n : nat) : bool := forallb (digitp s) (seq i n).

(** ** Formats *)

(** [0] for a valid time, [1] otherwise. *)
Definition check_isotime (atime : string) : Z :=
  if char_at atime 0 =? 0 then 1
  else if digits_at atime 0 8 && (char_at atime 8 =? 84) && digits_at atime 9 6 then 0 else 1.

Definition isotime_p (s : string) : bool :=
  negb (char_at s 0 =? 0) && digits_at s 0 8 && (char_at s 8 =? 84) && digits_at s 9 6 &&
  (let c := char_at s 15 in
   (c =? 0) || (c =? 32) || ((9 <=? c) && (c <=? 13)) || (c =? 58) || (c =? 44)).

Definition ends_at (s : string) (i : nat) : bool := (char_at s i =? 0) || (char_at s i =? 44).

(** [yyyy-mm-dd[ hh[:mm[:ss]]]] *)
Definition isotime_human_p (s : string) : bool :=
  let two i lo hi := digits_at s i 2 && (lo <=? atoi_2 s i) && (atoi_2 s i <=? hi) in
  digits_at s 0 4 && (char_at s 4 =? 45) &&
  digits_at s 5 2 && (char_at s 7 =? 45) && (1 <=? atoi_2 s 5) && (atoi_2 s 5 <=? 12) &&
  two 8%nat 1 31 &&
  (ends_at s 10 ||
   (spacep s 10 &&
    (spacep s 11 ||
     (two 11%nat 0 23 &&
      (ends_at s 13 ||
       ((char_at s 13 =? 58) && two 14%nat 0 59 &&
        (ends_at s 16 ||
         ((char_at s 16 =? 58) && two 17%nat 0 60 && (ends_at s 19 || spacep s 19))))))))).

(** The buffer and the length scanned.  Where the buffer is the text itself
    ([aliased]) its first character is lost before the text is looked at. *)
Definition string2isotime (aliased : bool) (s : string) : string * Z :=
  let s := if aliased then String "000" (CStr.drop_str 1 s) else s in
  if isotime_p s then (CStr.sub_str 0 15 s, 15)
  else if negb (isotime_human_p s) then (EmptyString, 0)
  else
    let date := (CStr.sub_str 0 4 s +:+ CStr.sub_str 5 2 s +:+ CStr.sub_str 8 2 s +:+ "T")%string in
    if negb (spacep s 10) then (date +:+ "000000", 10)%string
    else if spacep s 11 then (date +:+ "000000", 11)%string
    else if negb (char_at s 13 =? 58) then (date +:+ CStr.sub_str 11 2 s +:+ "0000", 13)%string
    else if negb (char_at s 16 =? 58) then (date +:+ CStr.sub_str 11 2 s +:+ CStr.sub_str 14 2 s +:+ "00", 16)%string
    else (date +:+ CStr.sub_str 11 2 s +:+ CStr.sub_str 14 2 s +:+ CStr.sub_str 17 2 s, 19)%string.

(** ** The calendar *)

Definition leap (y : Z) : bool :=
  if Z.rem y 100 =? 0 then Z.rem y 400 =? 0 else Z.rem y 4 =? 0.

Definition days_per_year (y : Z) : Z := if leap y then 366 else 365.

(** An unknown month is a bug that ends the process. *)
Definition days_per_month (y m : Z) : outcome Z :=
  match m with
  | 1 | 3 | 5 | 7 | 8 | 10 | 12 => Ret 31
  | 2 => Ret (if leap y then 29 else 28)
  | 4 | 6 | 9 | 11 => Ret 30
  | _ => Undef
  end.

(** An [unsigned long]. *)
Definition date2jd (year month day : Z) : Z :=
  let jd := 365 * year + 31 * (month - 1) + day + JD_DIFF in
  let '(year, jd) := if month <? 3 then (year - 1, jd) else (year, jd - (4 * month + 23) ÷ 10) in
  MInt.uwrap64 (jd + (year ÷ 4 - ((year ÷ 100 + 1) * 3) ÷ 4)).

(** [delta = jd - date2jd (y, m, d)], a [long]. *)
Definition swrap64 (z : Z) : Z := (z + 2 ^ 63) mod 2 ^ 64 - 2 ^ 63.
Definition delta_of (jd y m d : Z) : Z := swrap64 (jd - date2jd y m d).

Fixpoint year_loop (fuel : nat) (jd y : Z) : outcome (Z * Z) :=
  match fuel with
  | O => NoReturn
  | S n =>
      let delta := delta_of jd y 1 1 in
      if days_per_year y <? delta then year_loop n jd (y + 1) else Ret (y, delta)
  end.

Fixpoint month_loop (fuel : nat) (jd y m : Z) : outcome (Z * Z * Z) :=
  match fuel with
  | O => NoReturn
  | S n =>
      let delta := delta_of jd y m 1 in
      match days_per_month y m with
      | Ret dpm =>
          if dpm <? delta then
            if 12 <? m + 1 then month_loop n jd (y + 1) 1 else month_loop n jd y (m + 1)
          else Ret (y, m, delta)
      | NoReturn => NoReturn
      | Undef => Undef
      end
  end.

(** The date and the day of the year; [None] is the error, which leaves the date of
    the caller as it was. *)
Definition jd2date (jd : Z) : outcome (option (Z * Z * Z * Z)) :=
  if (jd =? 0) || (jd <? 1721425) || (2843085 <? jd) then Ret None
  else
    match year_loop 20 jd ((jd - JD_DIFF) / 366) with
    | Ret (y, delta) =>
        match month_loop 20 jd y (delta ÷ 31 + 1) with
        | Ret (y, m, delta) =>
            match days_per_month y m with
            | Ret dpm =>
                let d := delta + 1 in
                let '(m, d) := if dpm <? d then (m + 1, 1) else (m, d) in
                let '(y, m) := if 12 <? m then (y + 1, 1) else (y, m) in
                Ret (Some (y, m, d, delta_of jd y 1 1 + 1))
            | NoReturn => NoReturn
            | Undef => Undef
            end
        | NoReturn => NoReturn
        | Undef => Undef
        end
    | NoReturn => NoReturn
    | Undef => Undef
    end.

(** ** Adding *)

(** [%0nd] *)
Fixpoint zeros (n : nat) : string := match n with O => EmptyString | S n' => String "0" (zeros n') end.
Definition pad (n : nat) (z : Z) : string :=
  let t := CStr.dec (Z.abs z) in
  if z <? 0 then ("-" +:+ zeros (n - 1 - String.length t) +:+ t)%string
  else (zeros (n - String.length t) +:+ t)%string.

Definition isotime_text (year month day hour minute sec : Z) : string :=
  CStr.take_str 15
    (pad 4 year +:+ pad 2 month +:+ pad 2 day +:+ "T" +:+ pad 2 hour +:+ pad 2 minute +:+ pad 2 sec)%string.

Definition before_1582 (year month day : Z) : bool :=
  (year <? 1582) || ((year =? 1582) && (month <? 10))
  || ((year =? 1582) && (month =? 10) && (day <? 15)).

(** The end of the three functions: back to a date, which stays what it was when
    there is none.  [None] is a failure. *)
Definition store_date (jd year month day hour minute sec : Z) : outcome (option string) :=
  match jd2date jd with
  | Ret r =>
      let '(year, month, day) := match r with Some (y, m, d, _) => (y, m, d) | None => (year, month, day) end in
      if (9999 <? year) || (12 <? month) || (31 <? day) || (year <? 0) || (month <? 1) || (day <? 1)
      then Ret None
      else Ret (Some (isotime_text year month day hour minute sec))
  | NoReturn => NoReturn
  | Undef => Undef
  end.

(** A time taken apart. *)
Definition year_of (t : string) : Z := atoi_4 t 0.
Definition month_of (t : string) : Z := atoi_2 t 4.
Definition day_of (t : string) : Z := atoi_2 t 6.
Definition hour_of (t : string) : Z := atoi_2 t 9.
Definition minute_of (t : string) : Z := atoi_2 t 11.
Definition sec_of (t : string) : Z := atoi_2 t 13.

Definition add_seconds_to_isotime (atime : string) (nseconds : Z) : outcome (option string) :=
  if negb (check_isotime atime =? 0) then Ret None
  else if (nseconds <? 0) || (MInt.INT_MAX - 61 <=? nseconds) then Ret None
  else if before_1582 (year_of atime) (month_of atime) (day_of atime) then Ret None
  else
    let sec := sec_of atime + nseconds in
    if MInt.INT_MAX <? sec then Undef
    else
      let minute := minute_of atime + sec ÷ 60 in
      let hour := hour_of atime + minute ÷ 60 in
      let ndays := hour ÷ 24 in
      store_date (MInt.uwrap64 (date2jd (year_of atime) (month_of atime) (day_of atime) + ndays))
        (year_of atime) (month_of atime) (day_of atime) (Z.rem hour 24) (Z.rem minute 60) (Z.rem sec 60).

Definition add_days_to_isotime (atime : string) (ndays : Z) : outcome (option string) :=
  if negb (check_isotime atime =? 0) then Ret None
  else if (ndays <? 0) || (9999 * 366 <=? ndays) then Ret None
  else if before_1582 (year_of atime) (month_of atime) (day_of atime) then Ret None
  else
    store_date (MInt.uwrap64 (date2jd (year_of atime) (month_of atime) (day_of atime) + ndays))
      (year_of atime) (month_of atime) (day_of atime) (hour_of atime) (minute_of atime) (sec_of atime).

Definition add_years_to_isotime (atime : string) (nyears : Z) : outcome (option string) :=
  if negb (check_isotime atime =? 0) then Ret None
  else if (nyears <? 0) || (9999 <=? nyears) then Ret None
  else if before_1582 (year_of atime) (month_of atime) (day_of atime) then Ret None
  else
    store_date (date2jd (year_of atime + nyears) (month_of atime) (day_of atime))
      (year_of atime) (month_of atime) (day_of atime) (hour_of atime) (minute_of atime) (sec_of atime).

(** ** The functions of NASL *)

Section Builtins.
(** The clock and [gmtime]: year, month, day, hour, minute and second, as printed. *)
Variable time_now : Z.
Variable gmtime : Z -> Z * Z * Z * Z * Z * Z.

Definition str_cell (s : string) : tree_cell := Cell CONST_STR 0 (x_str (Some s)) NULL NULL NULL NULL.

Definition epoch2isotime (atime : Z) : string :=
  if atime =? -1 then EmptyString
  else let '(y, mo, d, h, mi, s) := gmtime atime in isotime_text y mo d h mi s.

Definition nasl_isotime_now : M state tree_cell := mret (str_cell (epoch2isotime time_now)).

(** The text of the first argument that is looked at: of data, the first 15 bytes in
    the function's own buffer. *)
Definition time_argument : M state (option (bool * string)) :=
  s ← get_str_var_by_num 0;
  match s with
  | None => mret None
  | Some s =>
      t ← get_var_type_by_num 0;
      if t =? 3 then
        n ← get_var_size_by_num 0;
        mret (if n <? ISOTIME_SIZE - 1 then None else Some (true, cstr (CStr.sub_str 0 15 s)))
      else if t =? 2 then mret (Some (false, cstr s))
      else mret None
  end.

Definition nasl_isotime_is_valid : M state tree_cell :=
  a ← time_argument;
  mret (int2cell match a with
                 | Some (_, s) => if isotime_p s || isotime_human_p s then 1 else 0
                 | None => 0
                 end).

Definition nasl_isotime_scan : M state tree_cell :=
  a ← time_argument;
  match a with
  | None => mret NULL
  | Some (data, s) =>
      let '(timebuf, n) := string2isotime data s in
      mret (if n =? 0 then NULL else str_cell timebuf)
  end.

Definition nasl_isotime_print : M state tree_cell :=
  s ← get_str_var_by_num 0;
  match s with
  | None => mret (str_cell "[none]"%string)
  | Some s =>
      n ← get_var_size_by_num 0;
      mret (str_cell
        (if (n <? 15) || negb (check_isotime s =? 0) then "[none]"%string
         else (CStr.sub_str 0 4 s +:+ "-" +:+ CStr.sub_str 4 2 s +:+ "-" +:+ CStr.sub_str 6 2 s +:+ " " +:+
               CStr.sub_str 9 2 s +:+ ":" +:+ CStr.sub_str 11 2 s +:+ ":" +:+ CStr.sub_str 13 2 s)%string))
  end.

Definition pure_call {A} (o : outcome A) : M state A := fun s =>
  match o with Ret r => Ret (r, s) | NoReturn => NoReturn | Undef => Undef end.

(** An addition that is asked for; [None] ends the function with NULL. *)
Definition added (n : Z) (f : string -> Z -> outcome (option string)) (t : option string)
  : M state (option string) :=
  match t with
  | None => mret None
  | Some t =>
      if n =? 0 then mret (Some t)
      else pure_call (f t n)
  end.

Definition nasl_isotime_add : M state tree_cell :=
  s ← get_str_var_by_num 0;
  match s with
  | None => mret NULL
  | Some s =>
      n ← get_var_size_by_num 0;
      if (n <? ISOTIME_SIZE - 1) || negb (check_isotime s =? 0) then mret NULL
      else
        nyears ← get_int_local_var_by_name "years"%string 0;
        ndays ← get_int_local_var_by_name "days"%string 0;
        nseconds ← get_int_local_var_by_name "seconds"%string 0;
        t ← added nyears add_years_to_isotime (Some (CStr.sub_str 0 15 s));
        t ← added ndays add_days_to_isotime t;
        t ← added nseconds add_seconds_to_isotime t;
        t ← (if (nyears =? 0) && (ndays =? 0) && (nseconds =? 0)
             then pure_call (add_years_to_isotime (CStr.sub_str 0 15 s) 0) else mret t);
        mret (match t with Some t => str_cell t | None => NULL end)
  end.
End Builtins.

(** ** Dates

    The reference: a day follows another. *)

Definition month_days (y m : Z) : Z := match days_per_month y m with Ret n => n | _ => 0 end.
Definition valid_date (y m d : Z) : Prop := 1 <= m <= 12 /\ 1 <= d <= month_days y m.

Definition next_day (t : Z * Z * Z) : Z * Z * Z :=
  let '(y, m, d) := t in
  if d <? month_days y m then (y, m, d + 1)
  else if m <? 12 then (y, m + 1, 1) else (y + 1, 1, 1).

Definition days_later (n : Z) (t : Z * Z * Z) : Z * Z * Z := Nat.iter (Z.to_nat n) next_day t.

(** The day before the first of a year; the days of a year before a month. *)
Definition year_start (y : Z) : Z := 365 * y + 1 + JD_DIFF + ((y - 1) / 4 - (y - 1) / 100 + (y - 1) / 400).
Definition month_start (l : bool) (m : Z) : Z :=
  31 * (m - 1) - (if m <? 3 then 0 else (4 * m + 23) / 10 - (if l then 1 else 0)).

Lemma leap_spec y : 1 <= y ->
  (if leap y then 1 else 0) = (y / 4 - y / 100 + y / 400) - ((y - 1) / 4 - (y - 1) / 100 + (y - 1) / 400).
Proof.
  intros Hy. unfold leap. rewrite !Z.rem_mod_nonneg by lia.
  pose proof (Z.div_mod y 4). pose proof (Z.div_mod y 100). pose proof (Z.div_mod y 400).
  destruct (Z.eqb_spec (y mod 100) 0), (Z.eqb_spec (y mod 400) 0), (Z.eqb_spec (y mod 4) 0);
    Z.to_euclidean_division_equations; lia.
Qed.

Lemma year_start_next y : 1 <= y -> year_start (y + 1) = year_start y + days_per_year y.
Proof.
  intros Hy. pose proof (leap_spec y Hy) as H. unfold year_start, days_per_year.
  replace (y + 1 - 1) with y by lia. destruct (leap y); lia.
Qed.

Lemma last_year y : 1 <= y -> year_start y <= 2843085 -> y <= 3072.
Proof. intros Hy Hle. unfold year_start, JD_DIFF in Hle. Z.to_euclidean_division_equations; lia. Qed.

Lemma year_start_mono a b : 1 <= a -> a < b -> year_start a + days_per_year a <= year_start b.
Proof.
  intros Ha Hab. rewrite <- year_start_next by done. unfold year_start. Z.to_euclidean_division_equations; lia.
Qed.

Lemma date2jd_spec y m d : 1 <= y <= 20000 -> 1 <= m <= 12 -> 0 <= d <= 100 ->
  date2jd y m d = year_start y + month_start (leap y) m + (d - 1).
Proof.
  intros Hy Hm Hd. pose proof (leap_spec y ltac:(lia)) as Hl. unfold date2jd, year_start, month_start, JD_DIFF, MInt.uwrap64.
  rewrite !Z.quot_div_nonneg by lia.
  destruct (Z.ltb_spec m 3).
  - rewrite !Z.quot_div_nonneg by lia. rewrite Z.mod_small; Z.to_euclidean_division_equations; lia.
  - rewrite !Z.quot_div_nonneg by lia. destruct (leap y).
    all: rewrite Z.mod_small; Z.to_euclidean_division_equations; lia.
Qed.

Definition small (z : Z) : Prop := 0 <= z < 2 ^ 40.

Lemma delta_of_spec jd y m d : small jd -> 1 <= y <= 20000 -> 1 <= m <= 12 -> 0 <= d <= 100 ->
  delta_of jd y m d = jd - date2jd y m d.
Proof.
  intros Hj Hy Hm Hd. unfold delta_of, swrap64. rewrite (date2jd_spec y m d) by done.
  assert (0 <= month_start (leap y) m <= 400) by (unfold month_start; destruct (leap y); case_match; Z.to_euclidean_division_equations; lia).
  unfold small, year_start, JD_DIFF in *. rewrite Z.mod_small; [lia|]. Z.to_euclidean_division_equations; lia.
Qed.

Lemma days_per_year_range y : 365 <= days_per_year y <= 366.
Proof. unfold days_per_year. case_match; lia. Qed.

Lemma year_loop_ok fuel jd y : small jd -> 1 <= y -> y + Z.of_nat fuel <= 20000 -> year_start y <= jd ->
  jd - year_start y < 365 * Z.of_nat fuel ->
  exists y', year_loop fuel jd y = Ret (y', jd - year_start y') /\ y <= y' < y + Z.of_nat fuel
    /\ 0 <= jd - year_start y' <= days_per_year y'.
Proof.
  intros Hj. revert y. induction fuel as [|fuel IH]; intros y Hy Hf Hs Hd; [lia|]. cbn [year_loop].
  rewrite delta_of_spec, date2jd_spec by (done || lia).
  replace (year_start y + month_start (leap y) 1 + (1 - 1)) with (year_start y) by (unfold month_start; cbn; lia).
  pose proof (days_per_year_range y). pose proof (year_start_next y Hy).
  destruct (Z.ltb_spec (days_per_year y) (jd - year_start y)).
  - destruct (IH (y + 1)) as (y' & -> & ? & ?); [lia..|]. exists y'. split_and!; [done|lia..].
  - exists y. split_and!; [done|lia..].
Qed.

(** The search for the month depends on the day in the year only. *)
Fixpoint month_search (fuel : nat) (l : bool) (delta m : Z) : option (Z * Z) :=
  match fuel with
  | O => None
  | S n =>
      match days_per_month (if l then 4 else 1) m with
      | Ret dpm =>
          if dpm <? delta - month_start l m then
            if 12 <? m + 1 then None else month_search n l delta (m + 1)
          else Some (m, delta - month_start l m)
      | _ => None
      end
  end.

Lemma days_per_month_leap y m : days_per_month y m = days_per_month (if leap y then 4 else 1) m.
Proof. unfold days_per_month. by destruct (leap y). Qed.

Lemma days_per_month_range y m n : days_per_month y m = Ret n -> 1 <= m <= 12.
Proof.
  unfold days_per_month. intros H.
  assert (m ∈ seqZ 1 12) as Hin by (repeat case_match; simplify_eq; by vm_compute; set_solver).
  apply elem_of_seqZ in Hin. lia.
Qed.

Lemma month_loop_ok fuel jd y m m' delta : small jd -> 1 <= y <= 20000 ->
  month_search fuel (leap y) (jd - year_start y) m = Some (m', delta) ->
  month_loop fuel jd y m = Ret (y, m', delta).
Proof.
  intros Hj Hy. revert m. induction fuel as [|fuel IH]; intros m H; [done|].
  cbn [month_search month_loop] in *. rewrite <- days_per_month_leap in H.
  destruct (days_per_month y m) as [dpm| |] eqn:Hm; try done. pose proof (days_per_month_range _ _ _ Hm).
  rewrite delta_of_spec, date2jd_spec by (done || lia).
  replace (jd - (year_start y + month_start (leap y) m + (1 - 1)))
    with (jd - year_start y - month_start (leap y) m) by lia.
  destruct (dpm <? _); [|by injection H as <- <-]. destruct (12 <? m + 1); [done|]. by apply IH.
Qed.

(** The month, the day and whether the year is over. *)
Definition date_of_day (l : bool) (delta : Z) : option (Z * Z * bool) :=
  match month_search 20 l delta (delta ÷ 31 + 1) with
  | Some (m, delta) =>
      match days_per_month (if l then 4 else 1) m with
      | Ret dpm =>
          let d := delta + 1 in
          let '(m, d) := if dpm <? d then (m + 1, 1) else (m, d) in
          Some (if 12 <? m then (1, d, true) else (m, d, false))
      | _ => None
      end
  | None => None
  end.

Definition days_in (l : bool) : Z := if l then 366 else 365.

Definition day_found (l : bool) (delta : Z) : bool :=
  match date_of_day l delta with
  | Some (m, d, over) =>
      if delta =? days_in l then over && (m =? 1) && (d =? 1)
      else negb over && (1 <=? m) && (m <=? 12) && (1 <=? d) && (d <=? month_days (if l then 4 else 1) m)
           && (month_start l m + (d - 1) =? delta)
  | None => false
  end.

Lemma days_found : forallb (fun l => forallb (day_found l) (seqZ 0 (days_in l + 1))) [true; false] = true.
Proof. vm_compute. reflexivity. Qed.

Lemma day_found_ok l delta : 0 <= delta <= days_in l ->
  exists m d over, date_of_day l delta = Some (m, d, over) /\
    if delta =? days_in l then m = 1 /\ d = 1 /\ over = true
    else over = false /\ 1 <= m <= 12 /\ 1 <= d <= month_days (if l then 4 else 1) m
         /\ month_start l m + (d - 1) = delta.
Proof.
  intros Hd. pose proof days_found as H. rewrite forallb_forall in H.
  specialize (H l ltac:(destruct l; cbn; auto)). rewrite forallb_forall in H.
  specialize (H delta). lapply H; [clear H|apply list_elem_of_In, elem_of_seqZ; lia].
  unfold day_found. destruct (date_of_day l delta) as [[[m d] over]|]; [|done]. intros H. exists m, d, over. split; [done|].
  destruct (delta =? days_in l).
  - rewrite !andb_true_iff in H. destruct H as [[-> ?] ?]. lia.
  - rewrite !andb_true_iff in H. destruct H as [[[[[H1 H2] H3] H4] H5] H6]. destruct over; [done|]. split_and!; lia.
Qed.

(** A day of the year is one day of one month. *)
Definition day_unique (l : bool) (m d : Z) : bool :=
  match date_of_day l (month_start l m + (d - 1)) with
  | Some (m', d', over) => (m' =? m) && (d' =? d) && negb over
                           && (0 <=? month_start l m + (d - 1)) && (month_start l m + (d - 1) <? days_in l)
  | None => false
  end.

Lemma days_unique : forallb (fun l => forallb (fun m =>
  forallb (day_unique l m) (seqZ 1 (month_days (if l then 4 else 1) m))) (seqZ 1 12)) [true; false] = true.
Proof. vm_compute. reflexivity. Qed.

Lemma day_unique_ok y m d : valid_date y m d ->
  date_of_day (leap y) (month_start (leap y) m + (d - 1)) = Some (m, d, false)
  /\ 0 <= month_start (leap y) m + (d - 1) < days_per_year y.
Proof.
  intros [Hm Hd]. pose proof days_unique as H. rewrite forallb_forall in H.
  specialize (H (leap y) ltac:(destruct (leap y); cbn; auto)). rewrite forallb_forall in H.
  specialize (H m ltac:(apply list_elem_of_In, elem_of_seqZ; lia)). rewrite forallb_forall in H.
  unfold month_days in Hd. rewrite days_per_month_leap in Hd.
  specialize (H d ltac:(apply list_elem_of_In, elem_of_seqZ; unfold month_days; lia)). unfold day_unique in H.
  destruct (date_of_day _ _) as [[[m' d'] over]|]; [|done]. rewrite !andb_true_iff in H.
  destruct H as [[[[H1 H2] H3] H4] H5]. apply Z.eqb_eq in H1 as ->. apply Z.eqb_eq in H2 as ->. destruct over; [done|].
  unfold days_in, days_per_year in *. split; [done|]. destruct (leap y); lia.
Qed.

(** ** Julian days *)

Lemma valid_day_range y m d : valid_date y m d -> 1 <= d <= 31.
Proof.
  intros [Hm Hd]. unfold month_days, days_per_month in Hd. repeat case_match; simplify_eq; lia.
Qed.

(** From a day to its date. *)
Lemma jd2date_ok jd : 1721426 <= jd <= 2843085 ->
  exists y m d, jd2date jd = Ret (Some (y, m, d, jd - year_start y + 1)) /\ 1 <= y <= 3072 /\
    valid_date y m d /\ date2jd y m d = jd.
Proof.
  intros Hj. unfold jd2date. rewrite !(proj2 (Z.eqb_neq _ _)), !(proj2 (Z.ltb_ge _ _)) by lia. cbn [orb].
  assert (small jd) as Hs by (unfold small; lia).
  set (y0 := (jd - JD_DIFF) / 366).
  assert (1 <= y0 <= 3100 /\ year_start y0 <= jd /\ jd - year_start y0 < 365 * 20) as (H1 & H2 & H3).
  { unfold y0, year_start, JD_DIFF in *. Z.to_euclidean_division_equations; lia. }
  destruct (year_loop_ok 20 jd y0) as (y & -> & Hy & Hd); [done|lia..|].
  assert (days_per_year y = days_in (leap y)) as Hdy by (unfold days_per_year, days_in; by destruct (leap y)).
  destruct (day_found_ok (leap y) (jd - year_start y) ltac:(lia)) as (m & d & over & Hf & Hok).
  unfold date_of_day in Hf. destruct (month_search _ _ _ _) as [[m1 delta]|] eqn:Hms; [|done].
  rewrite (month_loop_ok _ _ _ _ m1 delta) by (done || lia).
  rewrite <- days_per_month_leap in Hf. destruct (days_per_month y m1) as [dpm| |]; try done.
  destruct (if dpm <? delta + 1 then _ else _) as [m2 d2].
  pose proof (year_start_next y ltac:(lia)) as Hn.
  assert (forall y', 1 <= y' -> year_start y' <= jd -> y' <= 3072) as Hmax.
  { intros y' Hy' Hle. apply last_year; lia. }
  destruct (Z.ltb_spec 12 m2) as [Hm2|Hm2]; injection Hf as <- <- <-.
  - destruct (Z.eqb_spec (jd - year_start y) (days_in (leap y))) as [He|]; [|by destruct Hok as [? _]].
    destruct Hok as (_ & -> & _). exists (y + 1), 1, 1.
    assert (date2jd (y + 1) 1 1 = jd) as Hjd by (rewrite date2jd_spec by lia; unfold month_start; cbn; lia).
    rewrite delta_of_spec, Hjd by (done || lia). split_and!; try done; try lia.
    + do 2 f_equal. repeat f_equal. lia.
    + apply Hmax; lia.
  - destruct (Z.eqb_spec (jd - year_start y) (days_in (leap y))) as [He|]; [by destruct Hok as (_ & _ & ?)|].
    destruct Hok as (_ & Hm & Hdd & Ho). exists y, m2, d2.
    rewrite delta_of_spec, date2jd_spec by (done || lia).
    replace (year_start y + month_start (leap y) 1 + (1 - 1)) with (year_start y) by (unfold month_start; cbn; lia).
    assert (valid_date y m2 d2) as Hv.
    { split; [done|]. unfold month_days in *. by rewrite days_per_month_leap. }
    pose proof (valid_day_range _ _ _ Hv). rewrite date2jd_spec by lia. split_and!; try done; try lia. apply Hmax; lia.
Qed.

(** A valid date has one Julian day. *)
Lemma date2jd_inj y m d y' m' d' : 1 <= y <= 20000 -> 1 <= y' <= 20000 -> valid_date y m d -> valid_date y' m' d' ->
  date2jd y m d = date2jd y' m' d' -> (y, m, d) = (y', m', d').
Proof.
  intros Hy Hy' Hv Hv' He. pose proof (valid_day_range _ _ _ Hv). pose proof (valid_day_range _ _ _ Hv').
  destruct (day_unique_ok _ _ _ Hv) as [H1 H2]. destruct (day_unique_ok _ _ _ Hv') as [H3 H4].
  destruct Hv as [Hm _], Hv' as [Hm' _]. rewrite !date2jd_spec in He by lia.
  assert (y = y') as <-.
  { destruct (Z.lt_trichotomy y y') as [Hlt|[Heq|Hlt]]; [|done|].
    - pose proof (year_start_mono y y' ltac:(lia) Hlt). lia.
    - pose proof (year_start_mono y' y ltac:(lia) Hlt). lia. }
  replace (month_start (leap y) m' + (d' - 1)) with (month_start (leap y) m + (d - 1)) in H3 by lia.
  rewrite H1 in H3. by injection H3 as -> ->.
Qed.

Definition month_length (l : bool) (m : Z) : bool :=
  let n := month_days (if l then 4 else 1) m in
  (1 <=? n) && (month_start l m + n =? (if m <? 12 then month_start l (m + 1) else days_in l)).

Lemma month_length_ok y m : 1 <= m <= 12 ->
  1 <= month_days y m /\
  month_start (leap y) m + month_days y m = if m <? 12 then month_start (leap y) (m + 1) else days_per_year y.
Proof.
  intros Hm.
  assert (forallb (fun l => forallb (month_length l) (seqZ 1 12)) [true; false] = true) as H by (vm_compute; reflexivity).
  rewrite forallb_forall in H. specialize (H (leap y) ltac:(destruct (leap y); cbn; auto)).
  rewrite forallb_forall in H. specialize (H m ltac:(apply list_elem_of_In, elem_of_seqZ; lia)).
  unfold month_length in H. unfold month_days in *. rewrite days_per_month_leap.
  unfold days_in, days_per_year in *. destruct (leap y), (m <? 12); lia.
Qed.

Lemma next_day_ok y m d y' m' d' : 1 <= y < 20000 -> valid_date y m d -> next_day (y, m, d) = (y', m', d') ->
  valid_date y' m' d' /\ date2jd y' m' d' = date2jd y m d + 1 /\ y <= y' <= y + 1.
Proof.
  intros Hy Hv. pose proof (valid_day_range _ _ _ Hv) as Hr. destruct (day_unique_ok _ _ _ Hv) as [_ Hu].
  destruct Hv as [Hm Hd]. cbn [next_day].
  destruct (Z.ltb_spec d (month_days y m)).
  { intros [= <- <- <-]. rewrite !date2jd_spec by lia. split_and!; try lia. split; lia. }
  assert (d = month_days y m) as -> by lia. destruct (month_length_ok y m Hm) as [_ Hms].
  destruct (Z.ltb_spec m 12); intros [= <- <- <-].
  - destruct (month_length_ok y (m + 1) ltac:(lia)) as [H1 _].
    rewrite !date2jd_spec by lia. split_and!; try lia. split; lia.
  - destruct (month_length_ok (y + 1) 1 ltac:(lia)) as [H1 _]. pose proof (year_start_next y ltac:(lia)).
    rewrite !date2jd_spec by lia. split_and!; try lia; [split; lia|]. unfold month_start at 1. cbn. lia.
Qed.

Lemma valid_last_year y m d : 1 <= y <= 20000 -> valid_date y m d -> date2jd y m d <= 2843085 -> y <= 3072.
Proof.
  intros Hy Hv Hj. pose proof (valid_day_range _ _ _ Hv). destruct (day_unique_ok _ _ _ Hv) as [_ Hu].
  destruct Hv as [Hm _]. rewrite date2jd_spec in Hj by lia. apply last_year; lia.
Qed.

Lemma days_later_ok n y m d y' m' d' : 1 <= y <= 20000 -> 0 <= n -> valid_date y m d -> date2jd y m d + n <= 2843085 ->
  days_later n (y, m, d) = (y', m', d') ->
  valid_date y' m' d' /\ date2jd y' m' d' = date2jd y m d + n /\ 1 <= y' <= 3072.
Proof.
  intros Hy Hn Hv Hj. unfold days_later.
  assert (forall k y' m' d', (Z.of_nat k <= n) -> Nat.iter k next_day (y, m, d) = (y', m', d') ->
    valid_date y' m' d' /\ date2jd y' m' d' = date2jd y m d + Z.of_nat k /\ 1 <= y' <= 3072) as H.
  { induction k as [|k IH]; intros y1 m1 d1 Hk.
    - cbn. intros [= <- <- <-]. split_and!; [done|lia|lia|]. apply (valid_last_year y m d); [lia|done|lia].
    - rewrite Nat.iter_succ. destruct (Nat.iter k next_day (y, m, d)) as [[y2 m2] d2] eqn:E.
      destruct (IH y2 m2 d2 ltac:(lia) eq_refl) as (Hv2 & Hj2 & Hy2). intros Hnx.
      destruct (next_day_ok y2 m2 d2 y1 m1 d1 ltac:(lia) Hv2 Hnx) as (? & ? & ?). split_and!; [done|lia|lia|].
      apply (valid_last_year y1 m1 d1); [lia|done|lia]. }
  intros He. destruct (H (Z.to_nat n) y' m' d' ltac:(lia) He) as (? & ? & ?). split_and!; [done|lia..].
Qed.

Lemma year_start_range y : 1 <= y <= 20000 -> 1721426 <= year_start y <= year_start 20000.
Proof. intros Hy. unfold year_start, JD_DIFF. Z.to_euclidean_division_equations; lia. Qed.

Lemma date2jd_range y m d : 1 <= y <= 20000 -> valid_date y m d -> 1721426 <= date2jd y m d < 2 ^ 40.
Proof.
  intros Hy Hv. pose proof (valid_day_range _ _ _ Hv). destruct (day_unique_ok _ _ _ Hv) as [_ Hu].
  destruct Hv as [Hm _]. rewrite date2jd_spec by lia. pose proof (days_per_year_range y).
  pose proof (year_start_range y Hy) as Hs. assert (year_start 20000 < 2 ^ 30) by (vm_compute; reflexivity). lia.
Qed.

Lemma jd2date_date y m d : 1 <= y <= 20000 -> valid_date y m d -> date2jd y m d <= 2843085 ->
  jd2date (date2jd y m d) = Ret (Some (y, m, d, date2jd y m d - year_start y + 1)).
Proof.
  intros Hy Hv Hj. pose proof (date2jd_range _ _ _ Hy Hv).
  destruct (jd2date_ok (date2jd y m d)) as (y' & m' & d' & -> & Hy' & Hv' & He); [lia|].
  apply date2jd_inj in He; [|lia|done..]. by injection He as -> -> ->.
Qed.

Lemma julian_dates :
  (forall jd, 1721426 <= jd <= 2843085 ->
     exists y m d n, jd2date jd = Ret (Some (y, m, d, n)) /\ valid_date y m d /\ date2jd y m d = jd) /\
  (forall y m d, 1 <= y <= 3071 -> valid_date y m d ->
     jd2date (date2jd y m d) = Ret (Some (y, m, d, date2jd y m d - date2jd y 1 1 + 1))).
Proof.
  split.
  - intros jd Hj. destruct (jd2date_ok jd Hj) as (y & m & d & H & _ & Hv & He). eauto 10.
  - intros y m d Hy Hv. pose proof (valid_day_range _ _ _ Hv). destruct (day_unique_ok _ _ _ Hv) as [_ Hu].
    rewrite jd2date_date; [|lia|done|].
    + rewrite (date2jd_spec y 1 1) by lia.
      replace (year_start y + month_start (leap y) 1 + (1 - 1)) with (year_start y) by (unfold month_start; cbn; lia). done.
    + destruct Hv as [Hm _]. rewrite date2jd_spec by lia. pose proof (year_start_next y ltac:(lia)).
      assert (year_start 3072 = 2843085) as H72 by (vm_compute; reflexivity).
      destruct (decide (y = 3071)) as [->|]; [change (3071 + 1) with 3072 in *; lia|].
      pose proof (year_start_mono y 3072 ltac:(lia) ltac:(lia)). lia.
Qed.

(** C29: The conversion to Julian days and back loses nothing: every day from the
    year 1 to the last one [jd2date] accepts has a valid date that [date2jd] takes
    back to it, and every valid date is found again, with its day in the year. *)
Theorem julian_roundtrip :
  (forall jd, 1721426 <= jd <= 2843085 ->
     exists y m d n, jd2date jd = Ret (Some (y, m, d, n)) /\ valid_date y m d /\ date2jd y m d = jd) /\
  (forall y m d, 1 <= y <= 3071 -> valid_date y m d ->
     jd2date (date2jd y m d) = Ret (Some (y, m, d, date2jd y m d - date2jd y 1 1 + 1))).
Proof. exact julian_dates. Qed.

(** ** Times *)

Lemma digits_two s i : digits_at s i 2 = true -> 0 <= atoi_2 s i <= 99.
Proof.
  unfold digits_at, digitp, is_digit, atoi_2, atoi_1. cbn [seq forallb]. replace (S i) with (i + 1)%nat by lia. lia.
Qed.

Lemma digits_at_app s i n m : digits_at s i (n + m) = digits_at s i n && digits_at s (i + n) m.
Proof. unfold digits_at. by rewrite seq_app, forallb_app. Qed.

(** The numbers of a time. *)
Lemma isotime_parts t : check_isotime t = 0 ->
  0 <= year_of t <= 9999 /\ 0 <= month_of t <= 99 /\ 0 <= day_of t <= 99 /\
  0 <= hour_of t <= 99 /\ 0 <= minute_of t <= 99 /\ 0 <= sec_of t <= 99.
Proof.
  unfold check_isotime. destruct (_ =? 0); [done|]. destruct (_ && _) eqn:H; [|done]. intros _.
  rewrite !andb_true_iff in H. destruct H as [[Hd _] Ht].
  change 8%nat with (2 + (2 + (2 + 2)))%nat in Hd. change 6%nat with (2 + (2 + 2))%nat in Ht.
  rewrite !digits_at_app, !andb_true_iff in Hd, Ht. rewrite digits_at_app, andb_true_iff in Hd.
  destruct Hd as (H1 & H2 & H3 & H4), Ht as (H5 & H6 & H7).
  apply digits_two in H1, H2, H3, H4, H5, H6, H7. unfold year_of, atoi_4, month_of, day_of, hour_of, minute_of, sec_of.
  cbn in *. lia.
Qed.

(** A time the functions can add to. *)
Record good_time (t : string) : Prop := mk_good
  { good_format : check_isotime t = 0;
    good_date : valid_date (year_of t) (month_of t) (day_of t);
    good_calendar : before_1582 (year_of t) (month_of t) (day_of t) = false }.

Lemma good_year t : good_time t -> 1582 <= year_of t <= 9999.
Proof. intros [Hf _ Hc]. pose proof (isotime_parts t Hf). unfold before_1582 in Hc. lia. Qed.

(** A day found again after some days. *)
Lemma store_later t n h mi s : good_time t -> 0 <= n ->
  date2jd (year_of t) (month_of t) (day_of t) + n <= 2843085 ->
  store_date (MInt.uwrap64 (date2jd (year_of t) (month_of t) (day_of t) + n)) (year_of t) (month_of t) (day_of t) h mi s
  = let '(y, m, d) := days_later n (year_of t, month_of t, day_of t) in Ret (Some (isotime_text y m d h mi s)).
Proof.
  intros Ht Hn Hj. pose proof (good_year t Ht) as Hy. destruct Ht as [_ Hv _].
  destruct (days_later n _) as [[y m] d] eqn:E.
  destruct (days_later_ok n (year_of t) (month_of t) (day_of t) y m d ltac:(lia) Hn Hv Hj E) as (Hv' & He & Hy').
  pose proof (date2jd_range (year_of t) _ _ ltac:(lia) Hv).
  unfold store_date, MInt.uwrap64. rewrite Z.mod_small by lia. rewrite <- He, jd2date_date by (done || lia).
  pose proof (valid_day_range _ _ _ Hv'). destruct Hv' as [Hm _].
  rewrite !(proj2 (Z.ltb_ge _ _)) by lia. done.
Qed.

Lemma store_found y m d y0 m0 d0 h mi s : 1 <= y <= 3071 -> valid_date y m d ->
  store_date (date2jd y m d) y0 m0 d0 h mi s = Ret (Some (isotime_text y m d h mi s)).
Proof.
  intros Hy Hv. unfold store_date. destruct julian_dates as [_ H]. rewrite (H y m d Hy Hv).
  pose proof (valid_day_range _ _ _ Hv). destruct Hv as [Hm _]. by rewrite !(proj2 (Z.ltb_ge _ _)) by lia.
Qed.

(** Years differ by the 29 of February only. *)
Lemma only_leap_day y y' m d : valid_date y m d -> month_days y' m < d ->
  m = 2 /\ d = 29 /\ leap y' = false.
Proof.
  intros [Hm Hd] H. unfold month_days, days_per_month in *.
  repeat case_match; simplify_eq; try lia. all: split_and!; try lia; done.
Qed.

(** The date and the time [n] seconds after a time. *)
Definition seconds_of (t : string) : Z := hour_of t * 3600 + minute_of t * 60 + sec_of t.

Lemma carry h mi s : 0 <= h -> 0 <= mi -> 0 <= s ->
  let total := h * 3600 + mi * 60 + s in
  let hours := h + (mi + s ÷ 60) ÷ 60 in
  hours ÷ 24 = total / 86400 /\ Z.rem hours 24 = total / 3600 mod 24 /\
  Z.rem (mi + s ÷ 60) 60 = total / 60 mod 60 /\ Z.rem s 60 = total mod 60.
Proof.
  intros Hh Hm Hs. cbv zeta.
  rewrite (Z.quot_div_nonneg s 60) by lia. pose proof (Z.div_pos s 60 Hs ltac:(lia)).
  rewrite (Z.quot_div_nonneg (mi + s / 60) 60) by lia. pose proof (Z.div_pos (mi + s / 60) 60 ltac:(lia) ltac:(lia)).
  rewrite Z.quot_div_nonneg, !Z.rem_mod_nonneg by lia.
  assert (s / 60 = (h * 3600 + mi * 60 + s) / 60 - h * 60 - mi) as H1.
  { replace (h * 3600 + mi * 60 + s) with (s + (h * 60 + mi) * 60) by lia. rewrite Z.div_add by lia. lia. }
  set (total := h * 3600 + mi * 60 + s) in *.
  replace (mi + s / 60) with (total / 60 - h * 60) by lia.
  replace ((total / 60 - h * 60) / 60) with (total / 3600 - h).
  2: { replace 3600 with (60 * 60) by lia. rewrite <- Z.div_div by lia.
       replace (total / 60 - h * 60) with (total / 60 + (- h) * 60) by lia. rewrite Z.div_add by lia. lia. }
  split_and!.
  - replace (h + (total / 3600 - h)) with (total / 3600) by lia. rewrite Z.div_div by lia. done.
  - f_equal. lia.
  - replace (total / 60 - h * 60) with (total / 60 + (- h) * 60) by lia. by rewrite Z.mod_add by lia.
  - unfold total. replace (h * 3600 + mi * 60 + s) with (s + (h * 60 + mi) * 60) by lia. by rewrite Z.mod_add by lia.
Qed.

(** The text of a time is its first fifteen characters. *)
Definition numeral (i : nat) : ascii := ascii_of_nat (48 + i).

Lemma numeral_of c : is_digit (CStr.code c) = true ->
  exists i, In i (seq 0 10) /\ c = numeral i /\ CStr.code c - 48 = Z.of_nat i.
Proof.
  unfold is_digit. intros H. exists (nat_of_ascii c - 48)%nat. pose proof (nat_ascii_bounded c) as Hb.
  assert (CStr.code c = Z.of_nat (nat_of_ascii c)) as Hc by (unfold CStr.code, nat_of_ascii; by rewrite N_nat_Z).
  rewrite Hc in *. split_and!; [apply in_seq; lia| |lia].
  unfold numeral. replace (48 + (nat_of_ascii c - 48))%nat with (nat_of_ascii c) by lia. by rewrite ascii_nat_embedding.
Qed.

Lemma pad_2_checked : forallb (fun i => forallb (fun j =>
    String.eqb (pad 2 (Z.of_nat i * 10 + Z.of_nat j)) (String (numeral i) (String (numeral j) EmptyString)))
  (seq 0 10)) (seq 0 10) = true.
Proof. vm_compute. reflexivity. Qed.

Lemma pad_4_checked : forallb (fun i => forallb (fun j => forallb (fun k => forallb (fun l =>
    String.eqb (pad 4 ((Z.of_nat i * 10 + Z.of_nat j) * 100 + (Z.of_nat k * 10 + Z.of_nat l)))
      (String (numeral i) (String (numeral j) (String (numeral k) (String (numeral l) EmptyString)))))
  (seq 0 10)) (seq 0 10)) (seq 0 10)) (seq 0 10) = true.
Proof. vm_compute. reflexivity. Qed.

Lemma pad_2 c d : is_digit (CStr.code c) = true -> is_digit (CStr.code d) = true ->
  pad 2 ((CStr.code c - 48) * 10 + (CStr.code d - 48)) = String c (String d EmptyString).
Proof.
  intros (i & Hi & -> & ->)%numeral_of (j & Hj & -> & ->)%numeral_of.
  pose proof (proj1 (forallb_forall _ _) pad_2_checked i Hi) as H. cbv beta in H.
  pose proof (proj1 (forallb_forall _ _) H j Hj) as H'. by apply String.eqb_eq.
Qed.

Lemma pad_4 c d e f : is_digit (CStr.code c) = true -> is_digit (CStr.code d) = true ->
  is_digit (CStr.code e) = true -> is_digit (CStr.code f) = true ->
  pad 4 (((CStr.code c - 48) * 10 + (CStr.code d - 48)) * 100 + ((CStr.code e - 48) * 10 + (CStr.code f - 48)))
  = String c (String d (String e (String f EmptyString))).
Proof.
  intros (i & Hi & -> & ->)%numeral_of (j & Hj & -> & ->)%numeral_of
    (k & Hk & -> & ->)%numeral_of (l & Hl & -> & ->)%numeral_of.
  pose proof (proj1 (forallb_forall _ _) pad_4_checked i Hi) as H. cbv beta in H.
  pose proof (proj1 (forallb_forall _ _) H j Hj) as H1. cbv beta in H1.
  pose proof (proj1 (forallb_forall _ _) H1 k Hk) as H2. cbv beta in H2.
  pose proof (proj1 (forallb_forall _ _) H2 l Hl) as H3. by apply String.eqb_eq.
Qed.

Lemma isotime_text_of t : check_isotime t = 0 ->
  isotime_text (year_of t) (month_of t) (day_of t) (hour_of t) (minute_of t) (sec_of t) = CStr.sub_str 0 15 t.
Proof.
  unfold check_isotime. destruct (_ =? 0); [done|]. destruct (_ && _) eqn:H; [|done]. intros _.
  do 15 (destruct t as [|?c t]; [cbn in H; rewrite ?andb_false_r in H; discriminate H|]).
  unfold digits_at, digitp in H. cbn [seq forallb char_at] in H. rewrite !andb_true_iff in H.
  destruct H as [[H1 HT] H2]. destruct_and!.
  unfold isotime_text, year_of, month_of, day_of, hour_of, minute_of, sec_of, atoi_4, atoi_2, atoi_1.
  cbn [char_at Nat.add]. rewrite pad_4, !pad_2 by assumption.
  apply Z.eqb_eq in HT. assert (c7 = "T"%char) as -> by (by apply CStr.code_inj). done.
Qed.

(** C31: Adding to a time whose date is valid gives the time it should, as long as
    the day is one [jd2date] accepts: days later the date is that many days later,
    seconds carry into minutes, hours and days, years later it is the same day, or
    the first of March for a 29 February the year does not have. *)
Theorem isotime_add_correct t n : good_time t ->
  (0 <= n < 9999 * 366 -> date2jd (year_of t) (month_of t) (day_of t) + n <= 2843085 ->
   add_days_to_isotime t n =
     let '(y, m, d) := days_later n (year_of t, month_of t, day_of t) in
     Ret (Some (isotime_text y m d (hour_of t) (minute_of t) (sec_of t)))) /\
  (0 <= n < MInt.INT_MAX - 61 -> sec_of t <= 61 ->
   let total := seconds_of t + n in
   date2jd (year_of t) (month_of t) (day_of t) + total / 86400 <= 2843085 ->
   add_seconds_to_isotime t n =
     let '(y, m, d) := days_later (total / 86400) (year_of t, month_of t, day_of t) in
     Ret (Some (isotime_text y m d (total / 3600 mod 24) (total / 60 mod 60) (total mod 60)))) /\
  (0 <= n -> year_of t + n <= 3071 ->
   add_years_to_isotime t n =
     let '(m, d) := if day_of t <=? month_days (year_of t + n) (month_of t)
                    then (month_of t, day_of t) else (3, 1) in
     Ret (Some (isotime_text (year_of t + n) m d (hour_of t) (minute_of t) (sec_of t)))).
Proof.
  intros Ht. pose proof (good_year t Ht) as Hy. pose proof (isotime_parts t (good_format t Ht)) as Hp.
  destruct Ht as [Hf Hv Hc] eqn:Heq. pose proof (mk_good t Hf Hv Hc) as Hg. split_and!.
  - intros Hn Hj. unfold add_days_to_isotime. rewrite Hf, Hc. cbn [Z.eqb negb].
    rewrite (proj2 (Z.ltb_ge _ _)), (proj2 (Z.leb_gt _ _)) by lia. cbn [orb]. apply store_later; [done|lia|lia].
  - intros Hn Hs total Hj. unfold add_seconds_to_isotime. rewrite Hf, Hc. cbn [Z.eqb negb].
    rewrite (proj2 (Z.ltb_ge _ _)), (proj2 (Z.leb_gt _ _)) by lia. cbn [orb].
    rewrite (proj2 (Z.ltb_ge _ _)) by lia.
    destruct (carry (hour_of t) (minute_of t) (sec_of t + n)) as (H1 & H2 & H3 & H4); [lia..|].
    cbv zeta. rewrite H1, H2, H3, H4. unfold total, seconds_of in *.
    replace (hour_of t * 3600 + minute_of t * 60 + (sec_of t + n))
      with (hour_of t * 3600 + minute_of t * 60 + sec_of t + n) by lia.
    apply store_later; [done| |done]. apply Z.div_pos; lia.
  - intros Hn Hj. unfold add_years_to_isotime. rewrite Hf, Hc. cbn [Z.eqb negb].
    rewrite (proj2 (Z.ltb_ge _ _)), (proj2 (Z.leb_gt _ _)) by lia. cbn [orb].
    destruct (Z.leb_spec (day_of t) (month_days (year_of t + n) (month_of t))) as [Hd|Hd].
    + apply store_found; [lia|]. destruct Hv. split; [done|lia].
    + assert (month_of t = 2 /\ day_of t = 29 /\ leap (year_of t + n) = false) as (-> & -> & Hl).
      { apply (only_leap_day (year_of t)); done. }
      replace (date2jd (year_of t + n) 2 29) with (date2jd (year_of t + n) 3 1).
      * apply (store_found (year_of t + n) 3 1); [lia|]. split; [lia|]. cbn. lia.
      * rewrite !date2jd_spec by lia. rewrite Hl. unfold month_start. cbn. change ((4 * 3 + 23) / 10) with 3. lia.
Qed.

(** The end of the functions beyond the last day: the date stays. *)
Lemma store_beyond t jd h mi s : good_time t -> 2843085 < jd ->
  store_date jd (year_of t) (month_of t) (day_of t) h mi s
  = Ret (Some (isotime_text (year_of t) (month_of t) (day_of t) h mi s)).
Proof.
  intros Ht Hj. pose proof (good_year t Ht). destruct Ht as [_ Hv _]. pose proof (valid_day_range _ _ _ Hv).
  destruct Hv as [Hm _]. unfold store_date, jd2date.
  rewrite (proj2 (Z.ltb_lt 2843085 jd)), orb_true_r by lia. by rewrite !(proj2 (Z.ltb_ge _ _)) by lia.
Qed.

(** The limits of the additions, and what they do beyond: a day [jd2date] does
    not accept is not an error, the time of adding days or years is the one it was
    and adding seconds changes the time of the day under the old date; a second above
    61, which the format allows, makes the sum of the seconds overflow; a time before
    the calendar is refused.  A text in the caller's own buffer is never scanned. *)
Theorem isotime_limits t n : check_isotime t = 0 ->
  (valid_date (year_of t) (month_of t) (day_of t) -> before_1582 (year_of t) (month_of t) (day_of t) = false ->
   (0 <= n < 9999 * 366 -> 2843085 < date2jd (year_of t) (month_of t) (day_of t) + n ->
    add_days_to_isotime t n = Ret (Some (CStr.sub_str 0 15 t))) /\
   (0 <= n < 9999 -> 3072 < year_of t + n -> add_years_to_isotime t n = Ret (Some (CStr.sub_str 0 15 t))) /\
   (0 <= n < MInt.INT_MAX - 61 -> sec_of t <= 61 ->
    let total := seconds_of t + n in
    2843085 < date2jd (year_of t) (month_of t) (day_of t) + total / 86400 ->
    add_seconds_to_isotime t n =
      Ret (Some (isotime_text (year_of t) (month_of t) (day_of t)
                   (total / 3600 mod 24) (total / 60 mod 60) (total mod 60)))) /\
   (0 <= n < MInt.INT_MAX - 61 -> MInt.INT_MAX < sec_of t + n -> add_seconds_to_isotime t n = Undef)) /\
  (before_1582 (year_of t) (month_of t) (day_of t) = true ->
   add_days_to_isotime t n = Ret None /\ add_years_to_isotime t n = Ret None /\
   add_seconds_to_isotime t n = Ret None) /\
  string2isotime true t = (EmptyString, 0).
Proof.
  intros Hf. split; [|split; [|done]].
  - intros Hv Hc. pose proof (mk_good t Hf Hv Hc) as Ht. pose proof (good_year t Ht) as Hy.
    pose proof (isotime_parts t Hf) as Hp. pose proof (date2jd_range (year_of t) _ _ ltac:(lia) Hv) as Hj.
    unfold add_days_to_isotime, add_years_to_isotime, add_seconds_to_isotime. rewrite Hf, Hc.
    cbn [Z.eqb negb]. split_and!.
    + intros Hn H. rewrite (proj2 (Z.ltb_ge _ _)), (proj2 (Z.leb_gt _ _)) by lia. cbn [orb].
      unfold MInt.uwrap64. rewrite Z.mod_small, store_beyond, isotime_text_of by (done || lia). done.
    + intros Hn H. rewrite (proj2 (Z.ltb_ge _ _)), (proj2 (Z.leb_gt _ _)) by lia. cbn [orb].
      rewrite store_beyond, isotime_text_of; [done..|]. pose proof (valid_day_range _ _ _ Hv).
      destruct Hv as [Hm _]. rewrite date2jd_spec by lia.
      pose proof (year_start_mono 3072 (year_of t + n) ltac:(lia) ltac:(lia)).
      assert (year_start 3072 + days_per_year 3072 = 2843451) as H73 by (vm_compute; reflexivity).
      assert (0 <= month_start (leap (year_of t + n)) (month_of t)).
      { unfold month_start. repeat case_match; Z.to_euclidean_division_equations; lia. }
      lia.
    + intros Hn Hs. cbv zeta. intros H. rewrite (proj2 (Z.ltb_ge _ _)), (proj2 (Z.leb_gt _ _)) by lia. cbn [orb].
      rewrite (proj2 (Z.ltb_ge _ _)) by lia.
      destruct (carry (hour_of t) (minute_of t) (sec_of t + n)) as (H1 & H2 & H3 & H4); [lia..|].
      cbv zeta. rewrite H1, H2, H3, H4. unfold seconds_of in *.
      replace (hour_of t * 3600 + minute_of t * 60 + (sec_of t + n))
        with (hour_of t * 3600 + minute_of t * 60 + sec_of t + n) by lia.
      apply store_beyond; [done|]. unfold MInt.uwrap64. rewrite Z.mod_small; [done|].
      assert ((hour_of t * 3600 + minute_of t * 60 + sec_of t + n) / 86400 <= 1000000) by (unfold MInt.INT_MAX in *; Z.to_euclidean_division_equations; lia). lia.
    + intros Hn H. rewrite (proj2 (Z.ltb_ge _ _)), (proj2 (Z.leb_gt _ _)) by lia. cbn [orb].
      by rewrite (proj2 (Z.ltb_lt _ _)) by lia.
  - intros Hc. unfold add_days_to_isotime, add_years_to_isotime, add_seconds_to_isotime. rewrite Hf, Hc.
    cbn [Z.eqb negb]. by repeat case_match.
Qed.

(** ** Witnesses *)

Definition leap_time : string := "20240229T235959".
Definition late_time : string := "30711231T235999".

Lemma leap_time_good : good_time leap_time.
Proof. split; [reflexivity| |reflexivity]. vm_compute. intuition discriminate. Qed.

Lemma julian_roundtrip_witness :
  (exists y m d n, jd2date 2451545 = Ret (Some (y, m, d, n)) /\ valid_date y m d /\ date2jd y m d = 2451545) /\
  jd2date (date2jd 2024 2 29) = Ret (Some (2024, 2, 29, 60)).
Proof.
  destruct julian_roundtrip as [H1 H2]. split.
  - apply H1. split; vm_compute; discriminate.
  - rewrite H2; [vm_compute; reflexivity|split; vm_compute; discriminate|vm_compute; intuition discriminate].
Defined.

Lemma isotime_add_correct_witness :
  add_days_to_isotime leap_time 1 = Ret (Some "20240301T235959"%string) /\
  add_seconds_to_isotime leap_time 1 = Ret (Some "20240301T000000"%string) /\
  add_years_to_isotime leap_time 1 = Ret (Some "20250301T235959"%string).
Proof.
  destruct (isotime_add_correct leap_time 1 leap_time_good) as (H1 & H2 & H3). split_and!.
  - rewrite H1 by (vm_compute; intuition discriminate). vm_compute. reflexivity.
  - rewrite H2 by (vm_compute; intuition discriminate). vm_compute. reflexivity.
  - rewrite H3 by (vm_compute; intuition discriminate). vm_compute. reflexivity.
Defined.

Lemma isotime_limits_witness :
  add_days_to_isotime late_time 366 = Ret (Some late_time) /\
  add_years_to_isotime late_time 366 = Ret (Some late_time) /\
  add_seconds_to_isotime late_time (MInt.INT_MAX - 62) = Undef.
Proof.
  destruct (isotime_limits late_time 366 eq_refl) as [H _].
  destruct (isotime_limits late_time (MInt.INT_MAX - 62) eq_refl) as [H' _].
  assert (valid_date (year_of late_time) (month_of late_time) (day_of late_time)) as Hv
    by (vm_compute; intuition discriminate).
  destruct (H Hv eq_refl) as (H1 & H2 & _). destruct (H' Hv eq_refl) as (_ & _ & _ & H4). split_and!.
  - rewrite H1 by (vm_compute; intuition discriminate). reflexivity.
  - rewrite H2 by (vm_compute; intuition discriminate). reflexivity.
  - apply H4; vm_compute; intuition discriminate.
Defined.

End NaslTime.
