(* ===== verification/NaslText.v ===== *)
(** * The text functions of NASL ([nasl/nasl_text_utils.c], [nasl/strutils.c])

    Each function reads its arguments from the context of the call and returns a cell.
    What it computes is a function on texts, defined first.

    The text of an integer or of an array is in a static buffer that the next one
    overwrites: a function that reads two such arguments sees the last one twice
    ([after]).  Memory that is not written holds what it held before ([stale]); a
    write outside of what was allocated has no defined behaviour, and neither has an
    allocation that ends the process. *)

From S2P Require Import Prelude Nasl NaslVar.
From stdpp Require Import base gmap sets list strings.
From Stdlib Require Import Ascii ZArith Lia.
Local Open Scope Z_scope.

Module NaslText.
Import Nasl NaslVar.

Definition checked {S A} (m : outcome A) : M S A := fun s =>
  match m with Ret a => Ret (a, s) | NoReturn => NoReturn | Undef => Undef end.

Definition is_char (n : Z) (c : ascii) : bool := CStr.code c =? n.
Definition byte (z : Z) : ascii := ascii_of_N (Z.to_N (z mod 256)).

(** ** Patterns ([str_match]) *)

Definition same_char (icase : bool) (p c : ascii) : bool :=
  if icase then CStr.code (CStr.tolower p) =? CStr.code (CStr.tolower c) else CStr.code p =? CStr.code c.

(** The [do]-[while] over the ends of a text. *)
Fixpoint some_end (f : string -> bool) (s : string) : bool :=
  f s || match s with EmptyString => false | String _ s' => some_end f s' end.

Fixpoint str_match (icase : bool) (pattern s : string) : bool :=
  match pattern with
  | EmptyString => match s with EmptyString => true | _ => false end
  | String p pattern' =>
      if is_char 63 p then match s with EmptyString => false | String _ s' => str_match icase pattern' s' end
      else if is_char 42 p then some_end (str_match icase pattern') s
      else match s with
           | EmptyString => false
           | String c s' => same_char icase p c && str_match icase pattern' s'
           end
  end.

(** ** Escapes *)

Definition hex_digit (c : ascii) : Z := default 0 (CStr.digit_val 16 c).
Definition hex_byte (h l : ascii) : ascii := byte (16 * hex_digit h + hex_digit l).

(** [string]: what is written for a text, and what is taken off the size. *)
Definition known_escape (e : ascii) : option ascii :=
  if is_char 110 e then Some (byte 10)
  else if is_char 116 e then Some (byte 9)
  else if is_char 114 e then Some (byte 13)
  else if is_char 92 e then Some (byte 92)
  else None.

Definition written (c : option ascii) (n : Z) (r : string * Z) : string * Z :=
  (match c with Some c => String c (fst r) | None => fst r end, n + snd r).

Fixpoint unescape (s : string) : string * Z :=
  match s with
  | EmptyString => (EmptyString, 0)
  | String c s1 =>
      match s1 with
      | String e s2 =>
          if is_char 92 c then
            match known_escape e with
            | Some x => written (Some x) 1 (unescape s2)
            | None =>
                if is_char 120 e then
                  match s2 with
                  | String h (String l s3) =>
                      if CStr.isxdigit h && CStr.isxdigit l
                      then written (Some (hex_byte h l)) 3 (unescape s3)
                      else written None 1 (unescape s2)
                  | _ => written None 1 (unescape s2)
                  end
                else written None 2 (unescape s2)
            end
          else written (Some c) 0 (unescape s1)
      | EmptyString => written (Some c) 0 (unescape s1)
      end
  end.

(** [raw_string]: a text of a known size; zero bytes follow it. *)
Fixpoint raw_unescape (s : string) : string :=
  match s with
  | EmptyString => EmptyString
  | String c s1 =>
      if is_char 92 c then
        match s1 with
        | EmptyString => EmptyString
        | String e s2 =>
            if is_char 110 e then String (byte 10) (raw_unescape s2)
            else if is_char 116 e then String (byte 9) (raw_unescape s2)
            else if is_char 114 e then String (byte 13) (raw_unescape s2)
            else
              match s2 with
              | String h (String l s3) =>
                  if is_char 120 e && CStr.isxdigit h && CStr.isxdigit l
                  then String (hex_byte h l) (raw_unescape s3)
                  else if is_char 92 e then String c (raw_unescape s2)
                  else raw_unescape s2
              | _ => if is_char 92 e then String c (raw_unescape s2) else raw_unescape s2
              end
        end
      else String c (raw_unescape s1)
  end.

(** ** Numbers in hexadecimal *)

Definition hex_char (d : Z) : ascii := byte (if d <? 10 then 48 + d else 87 + d).
(** [%02x] of an [unsigned char] *)
Definition hex2 (z : Z) : string :=
  String (hex_char (z / 16 mod 16)) (String (hex_char (z mod 16)) EmptyString).

Fixpoint hexstr (s : string) : string :=
  match s with EmptyString => EmptyString | String c s' => hex2 (CStr.code c) +:+ hexstr s' end.

Definition toupper (c : ascii) : ascii := if CStr.islower c then byte (CStr.code c - 32) else c.

(** ** Parts of texts

    A text starts at 0; [at_ i s] is what follows its first [i] characters. *)

Definition take (n : Z) (s : string) : string := CStr.take_str (Z.to_nat n) s.
Definition at_ (i : Z) (s : string) : string := CStr.drop_str (Z.to_nat i) s.

(** [substr]: [i2] is what the third argument is, the greatest [int] when missing. *)
Definition substr (s1 : string) (sz1 i1 i2 : Z) : option string :=
  let i2 := if sz1 <=? i2 then sz1 - 1 else i2 in
  if i1 <? 0 then None
  else if i2 <? i1 then Some EmptyString
  else Some (take (i2 - i1 + 1) (at_ i1 s1)).

Fixpoint zero_bytes (n : nat) : string :=
  match n with O => EmptyString | S n' => String "000" (zero_bytes n') end.

(** A buffer of [emalloc (size)], which is cleared and one byte longer than [size],
    after [s] was written to its start; its first [size] bytes.  The process ends when
    the size is negative. *)
Definition filled (size : Z) (s : string) : outcome string :=
  if size <? 0 then NoReturn
  else if size + 1 <? CStr.slen s then Undef
  else Ret (take size (s +:+ zero_bytes (Z.to_nat (size - CStr.slen s)))).

Definition insstr (s1 s2 : string) (sz1 sz2 i1 i2 : Z) : outcome (option string) :=
  let i2 := if (sz1 <? i2) || (i2 =? -1) then sz1 - 1 else i2 in
  if (i1 <? 0) || (i2 <? 0) then Ret None
  else if sz1 <=? i1 then Ret None
  else
    let sz3 := if i2 <? i1 then sz2 else sz1 + i1 - i2 - 1 + sz2 in
    match filled sz3 (take i1 s1 +:+ take sz2 s2
                      +:+ (if i2 <? sz1 - 1 then take (sz1 - 1 - i2) (at_ (i2 + 1) s1) else EmptyString)) with
    | Ret s3 => Ret (Some s3)
    | NoReturn => NoReturn
    | Undef => Undef
    end.

(** ** Cutting *)

(** At a separator that is not empty; the fuel is the length of the text. *)
Fixpoint split_sep (fuel : nat) (keep : bool) (sep s : string) : list string :=
  match fuel with
  | O => [s]
  | S n =>
      match CStr.strstr_split s sep with
      | None => [s]
      | Some (a, rest) =>
          (if keep then a +:+ sep else a) ::
          match rest with EmptyString => [] | _ => split_sep n keep sep rest end
      end
  end.

(** At the ends of lines; [line] is the line up to here, backwards. *)
Fixpoint split_lines (keep : bool) (line s : string) : list string :=
  let ended s := CStr.rev_str EmptyString s in
  match s with
  | EmptyString => match line with EmptyString => [] | _ => [ended line] end
  | String c s1 =>
      if is_char 10 c then ended (if keep then String c line else line) :: split_lines keep EmptyString s1
      else if is_char 13 c then
        match s1 with
        | String d s2 =>
            if is_char 10 d
            then ended (if keep then String d (String c line) else line) :: split_lines keep EmptyString s2
            else split_lines keep (String c line) s1
        | EmptyString => split_lines keep (String c line) s1
        end
      else split_lines keep (String c line) s1
  end.

Definition split_text (sep : option string) (keep : bool) (s : string) : list string :=
  match sep with
  | Some sep => split_sep (String.length s) keep sep s
  | None => split_lines keep EmptyString s
  end.

(** The length without the white space at the end: [start] is where the white space
    seen last begins. *)
Fixpoint chomp_length (i : Z) (start : option Z) (s : string) : Z :=
  match s with
  | EmptyString => default i start
  | String c s' =>
      chomp_length (i + 1) (if CStr.isspace c then Some (default i start) else None) s'
  end.
Definition chomp (s : string) : string := take (chomp_length 0 None s) s.

(** ** Filling *)

(** [for (i = 0; i < len - data_len; i += data_len)] *)
Fixpoint crap_loop (fuel : nat) (data : string) (left : Z) : string :=
  match fuel with
  | O => EmptyString
  | S n => if CStr.slen data <? left then data +:+ crap_loop n data (left - CStr.slen data) else EmptyString
  end.

Fixpoint repeat_char (c : ascii) (n : nat) : string :=
  match n with O => EmptyString | S n' => String c (repeat_char c n') end.

(** The end is written over the end of what the loop wrote. *)
Definition over_end (len : Z) (s tail : string) : string := take (len - CStr.slen tail) s +:+ tail.

Definition crap_text (data : option string) (len : Z) : string :=
  match data with
  | None => repeat_char "X" (Z.to_nat len)
  | Some data =>
      let data_len := CStr.slen data in
      let s := crap_loop (Z.to_nat len) data len in
      if data_len =? 1 then over_end len s data
      else
        let r := Z.rem len data_len in
        if 0 <? r then over_end len s (take r data) else over_end len s data
  end.

(** ** Searching *)

(** [memmem]: the index of the first occurrence. *)
Definition memmem (a b : string) : option Z :=
  match CStr.strstr_split a b with Some (before, _) => Some (CStr.slen before) | None => None end.

Definition stridx (a b : string) (start : Z) : Z :=
  let sz_a := CStr.slen a in
  if (start <? 0) || (sz_a <? start) then -1
  else if (sz_a =? start) || (sz_a + start <? CStr.slen b) then -1
  else match memmem (at_ start a) b with Some i => start + i | None => -1 end.

(** The loop of [str_replace]: [n] replacements so far. *)
Fixpoint replace_loop (fuel : nat) (b r : string) (count n : Z) (a : string) : string :=
  match fuel with
  | O => a
  | S k =>
      if CStr.slen a <? CStr.slen b then a
      else
        match CStr.strstr_split a b with
        | None => a
        | Some (before, rest) =>
            before +:+ r +:+
            (if (0 <? count) && (count <=? n + 1) then rest else replace_loop k b r count (n + 1) rest)
        end
  end.
Definition str_replace (a b r : string) (count : Z) : string :=
  replace_loop (S (String.length a)) b r count 0 a.

(** ** Regular expressions

    [regcomp] and [regexec] are the library's; a part that did not match is [None]. *)

Inductive reg_result :=
| Matched (subs : list (option (Z * Z)))
| NoMatch
| RegError.

Definition sub (subs : list (option (Z * Z))) (i : Z) : option (Z * Z) := nth (Z.to_nat i) subs None.
Definition piece (s : string) (m : Z * Z) : string := take (snd m - fst m) (at_ (fst m) s).

(** The replacement with its references to parts of the match, for [s], where the
    search began. *)
Definition reference (subs : list (option (Z * Z))) (c : ascii) (w : string) : option (Z * Z) :=
  match w with
  | String d _ => if is_char 92 c && CStr.isdigit d then sub subs (CStr.code d - 48) else None
  | EmptyString => None
  end.

Fixpoint expand_length (subs : list (option (Z * Z))) (walk : string) : Z :=
  match walk with
  | EmptyString => 0
  | String c w =>
      match reference subs c w with
      | Some m => snd m - fst m + match w with String _ w' => expand_length subs w' | EmptyString => 0 end
      | None => 1 + expand_length subs w
      end
  end.

Fixpoint expand (subs : list (option (Z * Z))) (s walk : string) : string :=
  match walk with
  | EmptyString => EmptyString
  | String c w =>
      match reference subs c w with
      | Some m => piece s m +:+ match w with String _ w' => expand subs s w' | EmptyString => EmptyString end
      | None => String c (expand subs s w)
      end
  end.

(** Sizes and places are [int]s; a result that is none is not defined. *)
Definition with_int {A} (z : Z) (k : Z -> outcome A) : outcome A :=
  if (MInt.INT_MIN <=? z) && (z <=? MInt.INT_MAX) then k z else Undef.

(** [if (new_l + 1 > buf_len)] *)
Definition grown {A} (buf_len new_l : Z) (k : Z -> outcome A) : outcome A :=
  with_int (new_l + 1) (fun n => if buf_len <? n then with_int (1 + buf_len + 2 * new_l) k else k buf_len).

Section Regex.
Variable regcomp : bool -> string -> bool.
Variable regexec : bool -> bool -> string -> string -> reg_result.   (* icase, REG_NOTBOL *)

(** [_regreplace]; [buf] is a buffer of [buf_len] bytes, and the one more of [emalloc]. *)
Section Replace.
Variable icase : bool.
Variable pattern replace whole : string.

Fixpoint regreplace_loop (fuel : nat) (pos : Z) (buf : string) (buf_len : Z) : outcome (option string) :=
  match fuel with
  | O => NoReturn
  | S n =>
      let rest := at_ pos whole in
      match regexec icase (negb (pos =? 0)) pattern rest with
      | RegError => Ret None
      | NoMatch => with_int (CStr.slen buf + CStr.slen rest + 1) (fun n => Ret (Some (take (n - 1) (buf +:+ rest))))
      | Matched subs =>
          match sub subs 0 with
          | None => Undef
          | Some (so, eo) =>
              let new_l := CStr.slen buf + so + expand_length subs replace in
              grown buf_len new_l (fun buf_len =>
              let buf := buf +:+ take so rest +:+ expand subs rest replace in
              if buf_len <? CStr.slen buf then Undef
              else if so =? eo then
                with_int (so + pos) (fun place =>
                if CStr.slen whole <=? place then Ret (Some (take new_l buf))
                else
                  let new_l := CStr.slen buf + 1 in
                  grown buf_len new_l (fun buf_len =>
                  with_int (pos + eo + 1) (fun pos =>
                  regreplace_loop n pos (buf +:+ take 1 (at_ (pos - 1) whole)) buf_len)))
              else with_int (pos + eo) (fun pos => regreplace_loop n pos buf buf_len))
          end
      end
  end.

Definition regreplace : outcome (option string) :=
  if regcomp icase pattern
  then with_int (2 * CStr.slen whole + 1) (regreplace_loop (2 + String.length whole) 0 EmptyString)
  else Ret None.
End Replace.

(** [egrep]: the lines that match; [None] when the expression does not compile. *)
Fixpoint egrep_loop (fuel : nat) (icase : bool) (pattern s : string) : outcome (option string) :=
  match fuel with
  | O => NoReturn
  | S n =>
      match CStr.skip (is_char 10) s with
      | EmptyString => Ret (Some EmptyString)
      | s =>
          if regcomp icase pattern then
            let '(line, rest) := default (s, EmptyString) (CStr.strchr_split "010" s) in
            match egrep_loop n icase pattern rest with
            | Ret (Some out) =>
                Ret (Some match regexec icase false pattern line with
                          | Matched _ => line +:+ String "010" out
                          | _ => out
                          end)
            | r => r
            end
          else Ret None
      end
  end.

(** ** Arguments *)

(** Where the text of an argument is: in the variable, in the buffer of [var2str], in
    the one of [array2str] with its length. *)
Inductive source := own | int_text | array_text (len : Z).
Definition text_arg : Type := option (string * source).

Definition source_of (u : anon_nasl_var) : M state source := fun s =>
  Ret (match u with VAR2_INT _ => int_text | VAR2_ARRAY _ => array_text (a2s_len (st_store s)) | _ => own end, s).

Definition read_text (v : option addr) : M state text_arg :=
  s ← lift (var2str v);
  match v, s with
  | Some v, Some s => u ← lift (load v); k ← source_of u; mret (Some (s, k))
  | _, _ => mret None
  end.
Definition num_text (num : Z) : M state text_arg := v ← get_var_ref_by_num num; read_text v.
Definition local_text (name : string) : M state text_arg :=
  v ← get_var_ref_by_name name false; read_text (Some v).

(** What the pointer to [a] leads to after [b] has been read; a buffer of arrays that
    has grown may have moved. *)
Definition overwrite (old new : string) : string := new +:+ String "000" (at_ (CStr.slen new + 1) old).
Definition after (a b : text_arg) : M state text_arg :=
  match a, b with
  | Some (s, int_text), Some (t, int_text) => mret (Some (overwrite s t, int_text))
  | Some (s, array_text n), Some (t, array_text m) =>
      if n =? m then mret (Some (overwrite s t, array_text n)) else undef
  | _, _ => mret a
  end.

Definition bytes_of (a : text_arg) : option string := option_map fst a.
Definition c_text (a : text_arg) : option string := option_map (fun p => cstr (fst p)) a.

Definition text_cell (t : node_type) (s : string) : tree_cell := Cell t 0 (x_str (Some s)) NULL NULL NULL NULL.
Definition data_result (s : string) : tree_cell := text_cell CONST_DATA s.

(** [if (sz <= 0) sz = strlen (s)] *)
Definition size_or_strlen (sz : Z) (s : string) : Z := if sz <=? 0 then CStr.slen (cstr s) else sz.

Definition max_index : M state Z :=
  c ← lexic;
  r ← lift (array_max_index (ctx_vars c));
  update_lexic (set_ctx_vars (snd r));;
  mret (fst r).

(** ** The functions

    [get_var_type_by_num] gives 0 for an undefined variable, 1 for an integer and 2 for
    a string. *)

(** [for (vi = 0; vi < vn; vi++)], where [None] leaves the loop. *)
Fixpoint over_args {A} (f : Z -> A -> M state (option A)) (n : nat) (vi : Z) (a : A) : M state A :=
  match n with
  | O => mret a
  | S n' => r ← f vi a; match r with Some a' => over_args f n' (vi + 1) a' | None => mret a end
  end.

(** [sz] bytes that start with [s]; what follows was never written. *)
Definition with_stale (stale : Z -> ascii) (offset sz : Z) (s : string) : string :=
  s +:+ foldr (fun i t => String (stale (offset + i)) t) EmptyString (seqZ (CStr.slen s) (sz - CStr.slen s)).

Definition string_arg (stale : Z -> ascii) (vi : Z) (out : string) : M state (option string) :=
  typ ← get_var_type_by_num vi;
  if typ =? 0 then mret (Some out)
  else
    a ← num_text vi;
    match bytes_of a with
    | None => undef
    | Some s =>
        sz ← get_var_size_by_num vi;
        let sz := size_or_strlen sz s in
        if typ =? 2 then
          let '(w, removed) := unescape (cstr s) in
          mret (Some (out +:+ with_stale stale (CStr.slen out) (sz - removed) w))
        else mret (Some (out +:+ take sz s))
    end.

Definition nasl_string (stale : Z -> ascii) : M state tree_cell :=
  vn ← max_index;
  s ← over_args (string_arg stale) (Z.to_nat vn) 0 EmptyString;
  mret (data_result s).

Definition RAW_STR_LEN : Z := 32768.

Definition raw_arg (vi : Z) (out : string) : M state (option string) :=
  if RAW_STR_LEN - 1 <=? CStr.slen out then mret None
  else
    typ ← get_var_type_by_num vi;
    if typ =? 0 then mret (Some out)
    else
      sz ← get_var_size_by_num vi;
      if typ =? 1 then
        x ← get_int_var_by_num vi 0;
        mret (Some (out +:+ String (byte x) EmptyString))
      else
        a ← num_text vi;
        match bytes_of a with
        | None => undef
        | Some s =>
            let sz := size_or_strlen sz s in
            if RAW_STR_LEN <=? sz then mret None
            else
              let str := if typ =? 2 then raw_unescape (take sz s) else take sz s in
              if RAW_STR_LEN <? CStr.slen out + CStr.slen str then mret None
              else mret (Some (out +:+ str))
        end.

Definition nasl_rawstring : M state tree_cell :=
  vn ← max_index;
  s ← over_args raw_arg (Z.to_nat vn) 0 EmptyString;
  mret (data_result s).

(** Sizes and indices are of type [int]; a text that is too long for one has none. *)
Definition int_result (z : Z) : M state tree_cell :=
  if (MInt.INT_MIN <=? z) && (z <=? MInt.INT_MAX) then mret (int2cell z) else undef.

Definition nasl_strlen : M state tree_cell :=
  len ← get_var_size_by_num 0; int_result len.

Definition strcat_arg (vi : Z) (out : string) : M state (option string) :=
  a ← num_text vi;
  match bytes_of a with
  | None => mret (Some out)
  | Some s =>
      sz ← get_var_size_by_num vi;
      mret (Some (out +:+ take (size_or_strlen sz s) s))
  end.

Definition nasl_strcat : M state tree_cell :=
  vn ← max_index;
  s ← over_args strcat_arg (Z.to_nat vn) 0 EmptyString;
  mret (data_result s).

(** What is displayed goes to the standard output and is not kept. *)
Definition nasl_display (stale : Z -> ascii) : M state tree_cell :=
  r ← nasl_string stale;
  match r with
  | Cell _ _ (x_str (Some s)) _ _ _ _ => int_result (CStr.slen s)
  | _ => undef
  end.

Definition nasl_hex : M state tree_cell :=
  v ← get_int_var_by_num 0 (-1);
  mret (if v =? -1 then NULL else text_cell CONST_STR ("0x" +:+ hex2 v)).

(** The text of the first argument and its size, where it has one. *)
Definition with_first (f : string -> Z -> tree_cell) : M state tree_cell :=
  a ← num_text 0;
  sz ← get_var_size_by_num 0;
  mret (match bytes_of a with Some s => f s sz | None => NULL end).

Definition nasl_hexstr : M state tree_cell :=
  with_first (fun s len => text_cell CONST_STR (hexstr (take len s))).
Definition nasl_ord : M state tree_cell :=
  with_first (fun s _ => int2cell (match s with String c _ => CStr.code c | EmptyString => 0 end)).
Definition nasl_tolower : M state tree_cell :=
  with_first (fun s len => data_result (CStr.map_str CStr.tolower (take len s))).
Definition nasl_toupper : M state tree_cell :=
  with_first (fun s len => data_result (CStr.map_str toupper (take len s))).
Definition nasl_chomp : M state tree_cell :=
  with_first (fun s len => data_result (chomp (take len s))).

(** The type of the variable is compared with [CONST_STR], which is no such type. *)
Definition nasl_substr : M state tree_cell :=
  s1 ← num_text 0;
  sz1 ← get_var_size_by_num 0;
  get_var_type_by_num 0;;
  i1 ← get_int_var_by_num 1 (-1);
  i2 ← get_int_var_by_num 2 MInt.INT_MAX;
  mret (match bytes_of s1 with
        | Some s1 => match substr s1 sz1 i1 i2 with Some s => data_result s | None => NULL end
        | None => NULL
        end).

Definition nasl_insstr : M state tree_cell :=
  s1 ← num_text 0;
  sz1 ← get_var_size_by_num 0;
  s2 ← num_text 1;
  sz2 ← get_var_size_by_num 1;
  i1 ← get_int_var_by_num 2 (-1);
  i2 ← get_int_var_by_num 3 (-1);
  s1 ← after s1 s2;
  match bytes_of s1, bytes_of s2 with
  | Some s1, Some s2 =>
      r ← checked (insstr s1 s2 sz1 sz2 i1 i2);
      mret (match r with Some s => data_result s | None => NULL end)
  | _, _ => mret NULL
  end.

Definition nasl_match : M state tree_cell :=
  pattern ← local_text "pattern";
  string ← local_text "string";
  icase ← get_int_local_var_by_name "icase" 0;
  pattern ← after pattern string;
  mret (match c_text pattern, c_text string with
        | Some p, Some s => int2cell (if str_match (negb (icase =? 0)) p s then 1 else 0)
        | _, _ => NULL
        end).

(** A new array of texts, with an index each. *)
Fixpoint add_texts (l : list (Z * string)) (a : nasl_array) : M store nasl_array :=
  match l with
  | [] => mret a
  | (i, s) :: l' => r ← add_var_to_list 1 a i (Some (VAR2_DATA (Some s))); add_texts l' (snd r)
  end.
Definition texts_cell (l : list (Z * string)) : M state tree_cell :=
  a ← lift (add_texts l empty_array);
  c ← lift (alloc (VAR2_ARRAY a));
  mret (Cell DYN_ARRAY 0 (x_var (Some c)) NULL NULL NULL NULL).

Definition numbered (l : list string) : list (Z * string) := zip (seqZ 0 (Z.of_nat (length l))) l.

(** The size of an argument that is there. *)
Definition size_if (a : text_arg) (name : string) (d : Z) : M state Z :=
  match a with Some _ => get_var_size_by_name name | None => mret d end.

Definition nasl_split : M state tree_cell :=
  str ← num_text 0;
  match bytes_of str with
  | None => mret NULL
  | Some s =>
      sz ← get_var_size_by_num 0;
      let len := size_or_strlen sz s in
      if len <=? 0 then mret NULL
      else
        sep ← local_text "sep";
        sep_sz ← size_if sep "sep" 1;
        let sep_len := match bytes_of sep with Some t => size_or_strlen sep_sz t | None => 1 end in
        if sep_len <=? 0 then mret NULL
        else
          keep ← get_int_local_var_by_name "keep" 1;
          str ← after str sep;
          match bytes_of str with
          | None => undef
          | Some s =>
              texts_cell (numbered (split_text (option_map (take sep_len) (bytes_of sep)) (negb (keep =? 0)) (take len s)))
          end
  end.

Definition nasl_crap : M state tree_cell :=
  data ← local_text "data";
  len ← get_int_local_var_by_name "length" (-1);
  len2 ← get_int_var_by_num 0 (-1);
  if (len <? 0) && (len2 <? 0) then mret NULL
  else if (0 <=? len) && (0 <=? len2) then mret NULL
  else
    let len := if len <? 0 then len2 else len in
    if len =? 0 then mret FAKE_CELL
    else
      data_len ← size_if data "data" (-1);
      if data_len =? 0 then mret NULL
      else if MInt.INT_MAX <=? len then undef
      else mret (data_result (crap_text (option_map (take data_len) (bytes_of data)) len)).

Definition nasl_strstr : M state tree_cell :=
  a ← num_text 0;
  b ← num_text 1;
  sz_a ← get_var_size_by_num 0;
  sz_b ← get_var_size_by_num 1;
  a ← after a b;
  mret (match bytes_of a, bytes_of b with
        | Some a, Some b =>
            if sz_a <? sz_b then NULL
            else match memmem (take sz_a a) (take sz_b b) with
                 | Some c => data_result (at_ c (take sz_a a))
                 | None => FAKE_CELL
                 end
        | _, _ => NULL
        end).

Definition nasl_stridx : M state tree_cell :=
  a ← num_text 0;
  sz_a ← get_var_size_by_num 0;
  b ← num_text 1;
  sz_b ← get_var_size_by_num 1;
  start ← get_int_var_by_num 2 0;
  a ← after a b;
  int_result (match bytes_of a, bytes_of b with
              | Some a, Some b => stridx (take sz_a a) (take sz_b b) start
              | _, _ => -1
              end).

Definition nasl_str_replace : M state tree_cell :=
  a ← local_text "string";
  b ← local_text "find";
  r ← local_text "replace";
  sz_a ← get_local_var_size_by_name "string";
  sz_b ← get_local_var_size_by_name "find";
  sz_r ← get_local_var_size_by_name "replace";
  count ← get_int_local_var_by_name "count" 0;
  a ← after a b; a ← after a r; b ← after b r;
  mret (match bytes_of a, bytes_of b with
        | Some a, Some b =>
            if sz_b =? 0 then NULL
            else data_result (str_replace (take sz_a a) (take sz_b b) (take sz_r (default EmptyString (bytes_of r))) count)
        | _, _ => NULL
        end).

Definition nasl_int : M state tree_cell :=
  r ← get_int_var_by_num 0 0; mret (int2cell r).

(** *** [exit] *)

Section Exit.
(** The knowledge base is not in the interpreter's state. *)
Variable oid : option string.
Variable plug_set_key : string -> option string -> M state unit.

Definition NASL_EXIT_NOTVULN : Z := 99.

Definition shown (s : option string) : string := default "(null)"%string s.

Definition simple_register_host_detail (name value : string) : M state unit :=
  plug_set_key "HostDetails" (Some name);;
  plug_set_key "HostDetails/NVT" oid;;
  plug_set_key (take 127 ("HostDetails/NVT/" ++ shown oid ++ "/" ++ name)%string) (Some value).

(** Every context, up to the script's, is given the cell to return. *)
Definition set_every_ret (r : tree_cell) : M state unit :=
  fun s => Ret (tt, mk_state (st_store s) (set_ret_val r <$> st_ctxts s)).

Definition nasl_do_exit : M state tree_cell :=
  retcode ← get_int_var_by_num 0 0;
  (if retcode =? NASL_EXIT_NOTVULN then simple_register_host_detail "EXIT_CODE" "EXIT_NOTVULN"
   else mret tt);;
  set_every_ret (int2cell retcode);;
  mret (int2cell retcode).
End Exit.

(** *** With regular expressions *)

Definition nasl_ereg : M state tree_cell :=
  pattern ← local_text "pattern";
  string ← local_text "string";
  icase ← get_int_local_var_by_name "icase" 0;
  multiline ← get_int_local_var_by_name "multiline" 0;
  pattern ← after pattern string;
  mret (match c_text pattern, c_text string with
        | Some p, Some s =>
            if regcomp (negb (icase =? 0)) p then
              let '(s, cut) :=
                if multiline =? 0
                then match CStr.strchr_split "010" s with Some (a, _) => (a, true) | None => (s, false) end
                else (s, false) in
              int2cell (if cut && (CStr.slen s =? 0) then 0
                        else match regexec (negb (icase =? 0)) false p s with Matched _ => 1 | _ => 0 end)
            else NULL
        | _, _ => NULL
        end).

Definition nasl_ereg_replace : M state tree_cell :=
  pattern ← local_text "pattern";
  replace ← local_text "replace";
  string ← local_text "string";
  icase ← get_int_local_var_by_name "icase" 0;
  pattern ← after pattern replace; pattern ← after pattern string; replace ← after replace string;
  match c_text pattern, c_text replace, c_text string with
  | Some p, Some w, Some s =>
      r ← checked (regreplace (negb (icase =? 0)) p w s);
      mret (match r with Some s => data_result s | None => FAKE_CELL end)
  | _, _, _ => mret NULL
  end.

(** The result is built in a buffer of [max_size + 2] bytes. *)
Definition nasl_egrep : M state tree_cell :=
  pattern ← local_text "pattern";
  string ← local_text "string";
  icase ← get_int_local_var_by_name "icase" 0;
  max_size ← get_var_size_by_name "string";
  pattern ← after pattern string;
  match c_text pattern, c_text string with
  | Some p, Some s =>
      r ← checked (egrep_loop (S (String.length s)) (negb (icase =? 0)) p s);
      match r with
      | Some out => if max_size + 1 <? CStr.slen out then undef else mret (data_result out)
      | None => mret NULL
      end
  | _, _ => mret NULL
  end.

Definition NS : nat := 16.

Definition nasl_eregmatch : M state tree_cell :=
  pattern ← local_text "pattern";
  string ← local_text "string";
  icase ← get_int_local_var_by_name "icase" 0;
  pattern ← after pattern string;
  match c_text pattern, c_text string with
  | Some p, Some s =>
      if regcomp (negb (icase =? 0)) p then
        match regexec (negb (icase =? 0)) false p s with
        | Matched subs =>
            texts_cell (omap (fun i => option_map (fun m => (i, piece s m)) (sub subs i)) (seqZ 0 (Z.of_nat NS)))
        | _ => mret NULL
        end
      else mret NULL
  | _, _ => mret NULL
  end.
End Regex.

End NaslText.
