(* ===== verification/NaslTextSpec.v ===== *)
(** * Properties of the text functions of NASL *)

From S2P Require Import Prelude Nasl NaslVar NaslText.
From stdpp Require Import base gmap sets list strings.
From Stdlib Require Import Ascii ZArith Lia.
Local Open Scope Z_scope.

Module NaslTextSpec.
Import Nasl NaslVar NaslText.

(** ** Parts of texts *)

Lemma at_at i j s : 0 <= i -> 0 <= j -> at_ i (at_ j s) = at_ (j + i) s.
Proof. intros Hi Hj. unfold at_. rewrite CStr.drop_drop. f_equal. lia. Qed.

Lemma slen_at i s : 0 <= i <= CStr.slen s -> CStr.slen (at_ i s) = CStr.slen s - i.
Proof. intros Hi. unfold at_. rewrite CStr.slen_drop. lia. Qed.

Lemma slen_take_le n s : 0 <= n <= CStr.slen s -> CStr.slen (take n s) = n.
Proof. intros Hn. unfold take. rewrite CStr.slen_take. lia. Qed.

Lemma take_all n s : CStr.slen s <= n -> take n s = s.
Proof. intros Hn. unfold take. apply CStr.take_str_all. rewrite CStr.slen_length in Hn. lia. Qed.

Lemma take_at n s : (take n s +:+ at_ n s) = s.
Proof. apply CStr.take_drop. Qed.

(** ** Replacing with regular expressions *)

Section Regex.
Context (regcomp : bool -> string -> bool) (regexec : bool -> bool -> string -> string -> reg_result).

(** The parts of a match lie in the text, and the whole match is one. *)
Definition valid_part (s : string) (m : option (Z * Z)) : Prop :=
  match m with Some (so, eo) => 0 <= so <= eo /\ eo <= CStr.slen s | None => True end.
Definition valid_regexec : Prop := forall icase notbol pattern s subs,
  regexec icase notbol pattern s = Matched subs ->
  is_Some (sub subs 0) /\ forall i, valid_part s (sub subs i).

Section Replaced.
Context (icase : bool) (pattern replace : string).

(** The text that replacing every match makes, from some place of the text on, and
    whether it is whole: it is not when the engine gives up. *)
Inductive replaced : bool -> string -> string -> bool -> Prop :=
| replaced_rest notbol s : regexec icase notbol pattern s = NoMatch -> replaced notbol s s true
| replaced_error notbol s : regexec icase notbol pattern s = RegError -> replaced notbol s EmptyString false
| replaced_end notbol s subs so :
    regexec icase notbol pattern s = Matched subs -> sub subs 0 = Some (so, so) -> so = CStr.slen s ->
    replaced notbol s (s +:+ expand subs s replace) true
| replaced_empty notbol s subs so t ok :
    regexec icase notbol pattern s = Matched subs -> sub subs 0 = Some (so, so) -> so < CStr.slen s ->
    replaced true (at_ (so + 1) s) t ok ->
    replaced notbol s (take so s +:+ expand subs s replace +:+ take 1 (at_ so s) +:+ t) ok
| replaced_part notbol s subs so eo t ok :
    regexec icase notbol pattern s = Matched subs -> sub subs 0 = Some (so, eo) -> so <> eo ->
    replaced true (at_ eo s) t ok ->
    replaced notbol s (take so s +:+ expand subs s replace +:+ t) ok.

Lemma reference_valid subs s c w m :
  (forall i, valid_part s (sub subs i)) -> reference subs c w = Some m -> valid_part s (Some m).
Proof.
  intros Hv. unfold reference. destruct w as [|d w]; [done|]. destruct (_ && _); [|done].
  intros H. rewrite <- H. apply Hv.
Qed.

Lemma expand_size subs s w : (forall i, valid_part s (sub subs i)) ->
  CStr.slen (expand subs s w) = expand_length subs w.
Proof.
  intros Hv. remember (String.length w) as n eqn:Hn. revert w Hn.
  induction n as [n IH] using lt_wf_ind. intros [|c w] ->; [done|]. cbn [expand expand_length].
  destruct (reference subs c w) as [[so eo]|] eqn:Hr.
  - pose proof (reference_valid _ _ _ _ _ Hv Hr) as Hm. cbn in Hm. rewrite CStr.slen_app. unfold piece. cbn [fst snd].
    rewrite slen_take_le by (rewrite slen_at by lia; lia). f_equal. destruct w as [|d w]; [done|].
    apply (IH (String.length w)); [cbn; lia|done].
  - cbn [CStr.slen]. f_equal. apply (IH (String.length w)); [cbn; lia|done].
Qed.

(** The longest text that the buffer can hold: it may grow to three times the text. *)
Definition LIMIT : Z := 715827882.

Lemma with_int_in {A} z (k : Z -> outcome A) : 0 <= z <= MInt.INT_MAX -> with_int z k = k z.
Proof. intros H. unfold with_int, MInt.INT_MIN, MInt.INT_MAX in *. by case_match; [|lia]. Qed.

Lemma grown_room buf_len n : 0 <= buf_len <= MInt.INT_MAX -> 0 <= n <= LIMIT ->
  exists m, (forall A (k : Z -> outcome A), grown buf_len n k = k m) /\ n < m /\ 0 <= m <= MInt.INT_MAX.
Proof.
  unfold LIMIT, MInt.INT_MAX. intros Hb Hn. exists (if buf_len <? n + 1 then 1 + buf_len + 2 * n else buf_len).
  split; [|case_match; lia]. intros A k. unfold grown. rewrite with_int_in by (unfold MInt.INT_MAX; lia).
  case_match; [|done]. by rewrite with_int_in by (unfold MInt.INT_MAX; lia).
Qed.

Lemma regreplace_loop_ok n whole pos : valid_regexec ->
  0 <= pos <= CStr.slen whole -> CStr.slen whole - pos < Z.of_nat n ->
  exists t ok, replaced (negb (pos =? 0)) (at_ pos whole) t ok /\
    forall buf buf_len, 0 <= buf_len <= MInt.INT_MAX -> 2 * CStr.slen whole + 1 <= MInt.INT_MAX ->
    CStr.slen buf + CStr.slen t <= LIMIT ->
    regreplace_loop regexec icase pattern replace whole n pos buf buf_len
    = Ret (if ok then Some (buf +:+ t) else None).
Proof.
  intros Hv. revert pos. induction n as [|n IH]; intros pos Hpos Hn; [lia|].
  cbn [regreplace_loop]. cbv zeta. set (rest := at_ pos whole).
  assert (Hrest : CStr.slen rest = CStr.slen whole - pos) by (apply slen_at; lia).
  destruct (regexec icase (negb (pos =? 0)) pattern rest) as [subs| |] eqn:Hx.
  - destruct (Hv _ _ _ _ _ Hx) as [[[so eo] H0] Hp]. pose proof (Hp 0) as Hm. rewrite H0 in Hm |- *. cbn in Hm.
    assert (Hl : forall buf, CStr.slen (buf +:+ take so rest +:+ expand subs rest replace)
                 = CStr.slen buf + so + expand_length subs replace).
    { intros buf. rewrite !CStr.slen_app, slen_take_le, (expand_size subs rest) by (done || lia). lia. }
    destruct (Z.eqb_spec so eo) as [->|Hne].
    + destruct (decide (CStr.slen whole <= eo + pos)) as [He|He].
      * exists (rest +:+ expand subs rest replace), true. split.
        { apply (replaced_end _ _ _ eo); [done|done|lia]. }
        intros buf buf_len Hb Hw Ht. rewrite <- Hl.
        set (buf' := buf +:+ take eo rest +:+ expand subs rest replace).
        assert (Hb' : buf' = buf +:+ rest +:+ expand subs rest replace) by (unfold buf'; by rewrite take_all by lia).
        pose proof (CStr.slen_nonneg buf').
        destruct (grown_room buf_len (CStr.slen buf')) as (m & Hg & Hm1 & Hm2);
          [done|split; [done|]; rewrite Hb', CStr.slen_app; exact Ht|]. rewrite Hg.
        rewrite (proj2 (Z.ltb_ge _ _)) by lia. rewrite with_int_in by lia.
        rewrite (proj2 (Z.leb_le _ _)) by lia. rewrite take_all by lia. by rewrite Hb'.
      * destruct (IH (pos + eo + 1)) as (t & ok & Hd & Hr); [lia|lia|].
        exists (take eo rest +:+ expand subs rest replace +:+ take 1 (at_ eo rest) +:+ t), ok. split.
        { eapply replaced_empty; [done|exact H0|lia|]. unfold rest. rewrite at_at by lia.
          rewrite (proj2 (Z.eqb_neq _ _)) in Hd by lia. by replace (pos + (eo + 1)) with (pos + eo + 1) by lia. }
        intros buf buf_len Hb Hw Ht. rewrite <- Hl. cbv zeta.
        assert (H1 : CStr.slen (take 1 (at_ eo rest)) = 1) by (apply slen_take_le; rewrite slen_at by lia; lia).
        pose proof (CStr.slen_nonneg t). rewrite !CStr.slen_app, H1 in Ht.
        set (buf' := buf +:+ take eo rest +:+ expand subs rest replace).
        assert (Hb' : CStr.slen buf' + 1 + CStr.slen t <= LIMIT) by (unfold buf'; rewrite !CStr.slen_app; lia).
        pose proof (CStr.slen_nonneg buf').
        destruct (grown_room buf_len (CStr.slen buf')) as (m & Hg & Hm1 & Hm2); [done|lia|]. rewrite Hg.
        rewrite (proj2 (Z.ltb_ge _ _)) by lia. rewrite with_int_in by lia.
        rewrite (proj2 (Z.leb_gt _ _)) by lia.
        destruct (grown_room m (CStr.slen buf' + 1)) as (m' & Hg' & Hm3 & Hm4); [done|lia|]. rewrite Hg'.
        rewrite with_int_in by lia.
        replace (at_ (pos + eo + 1 - 1) whole) with (at_ eo rest) by (unfold rest; rewrite at_at by lia; f_equal; lia).
        rewrite Hr; [|done|done|rewrite CStr.slen_app; lia].
        unfold buf'. by rewrite !CStr.append_assoc.
    + destruct (IH (pos + eo)) as (t & ok & Hd & Hr); [lia|lia|].
      exists (take so rest +:+ expand subs rest replace +:+ t), ok. split.
      { eapply replaced_part; [done|exact H0|done|]. unfold rest. rewrite at_at by lia.
        by rewrite (proj2 (Z.eqb_neq _ _)) in Hd by lia. }
      intros buf buf_len Hb Hw Ht. rewrite <- Hl.
      pose proof (CStr.slen_nonneg t). rewrite !CStr.slen_app in Ht.
      set (buf' := buf +:+ take so rest +:+ expand subs rest replace).
      assert (Hb' : CStr.slen buf' + CStr.slen t <= LIMIT) by (unfold buf'; rewrite !CStr.slen_app; lia).
      pose proof (CStr.slen_nonneg buf').
      destruct (grown_room buf_len (CStr.slen buf')) as (m & Hg & Hm1 & Hm2); [done|lia|]. rewrite Hg.
      rewrite (proj2 (Z.ltb_ge _ _)) by lia.
      rewrite with_int_in by lia. rewrite Hr by (done || lia). unfold buf'. by rewrite !CStr.append_assoc.
  - exists rest, true. split; [by apply replaced_rest|]. intros buf buf_len Hb Hw Ht.
    pose proof (CStr.slen_nonneg buf). pose proof (CStr.slen_nonneg rest).
    rewrite with_int_in by (unfold LIMIT, MInt.INT_MAX in *; lia).
    rewrite take_all; [done|]. rewrite CStr.slen_app. lia.
  - exists EmptyString, false. split; [by apply replaced_error|done].
Qed.
End Replaced.

(** C32: [ereg_replace] makes the text with every match replaced, from left to right: the
    text up to a match, the replacement with its references, then the rest; after
    an empty match one character is passed over, and at the end of the text an
    empty match is the last.  There is always such a text, and when it has at most
    715827882 characters, and the subject's length fits twice into an [int], the sizes
    are [int]s, the buffer is never overrun and the function returns this text, or
    none when the engine has given up on the way.  The engine is assumed to report
    the whole match and parts within the text. *)
Theorem regreplace_correct icase pattern replace s :
  valid_regexec -> regcomp icase pattern = true ->
  exists t ok, replaced icase pattern replace false s t ok /\
    (2 * CStr.slen s + 1 <= MInt.INT_MAX -> CStr.slen t <= LIMIT ->
     regreplace regcomp regexec icase pattern replace s = Ret (if ok : bool then Some t else None)).
Proof.
  intros Hv Hc. unfold regreplace. rewrite Hc. pose proof (CStr.slen_nonneg s).
  destruct (regreplace_loop_ok icase pattern replace (2 + String.length s) s 0 Hv)
    as (t & ok & Hd & Hr); [lia|rewrite CStr.slen_length; lia|].
  exists t, ok. split; [exact Hd|]. intros Hs Ht. rewrite with_int_in by lia.
  rewrite Hr; [done|lia|done|exact Ht].
Qed.
End Regex.

(** ** Patterns *)

Definition wildcard (p : ascii) : bool := is_char 63 p || is_char 42 p.

(** The reference: [?] stands for any character, [*] for any text. *)
Inductive glob (icase : bool) : string -> string -> Prop :=
| glob_end : glob icase EmptyString EmptyString
| glob_any p c s : glob icase p s -> glob icase (String "?" p) (String c s)
| glob_star p a s : glob icase p s -> glob icase (String "*" p) (a +:+ s)
| glob_char q p c s : wildcard q = false -> same_char icase q c = true -> glob icase p s ->
    glob icase (String q p) (String c s).

Lemma some_end_spec f s : some_end f s = true <-> exists a b, s = a +:+ b /\ f b = true.
Proof.
  induction s as [|c s IH]; cbn [some_end]; rewrite orb_true_iff.
  - split.
    + intros [H|]; [|done]. by exists EmptyString, EmptyString.
    + intros ([|? a] & b & H & Hf); [|done]. left. by rewrite H.
  - rewrite IH. split.
    + intros [H|(a & b & -> & Hf)]; [by exists EmptyString, (String c s)|by exists (String c a), b].
    + intros ([|d a] & b & H & Hf).
      * left. change (EmptyString +:+ b) with b in H. by rewrite H.
      * rewrite CStr.append_cons in H. injection H as -> ->. right. by exists a, b.
Qed.

Lemma is_char_spec n c : is_char n c = true <-> CStr.code c = n.
Proof. apply Z.eqb_eq. Qed.

Lemma char_is n c d : is_char n c = true -> CStr.code d = n -> c = d.
Proof. rewrite is_char_spec. intros Hc Hd. apply CStr.code_inj. congruence. Qed.

(** [str_match] answers exactly whether the text is described by the pattern: [?] is
    any character, [*] any text, and another character itself, whatever its case when
    cases are ignored. *)
Theorem match_glob icase p s : str_match icase p s = true <-> glob icase p s.
Proof.
  revert s. induction p as [|q p IH]; intros s; cbn [str_match].
  - destruct s; split; try done; [constructor|by inversion 1].
  - destruct (is_char 63 q) eqn:Hq.
    { apply (char_is _ _ "?") in Hq as ->; [|done]. destruct s as [|c s].
      - split; [done|]. inversion 1; done.
      - rewrite IH. split; [by constructor|]. inversion 1; subst; done. }
    destruct (is_char 42 q) eqn:Hs.
    { apply (char_is _ _ "*") in Hs as ->; [|done]. rewrite some_end_spec. split.
      - intros (a & b & -> & Hb). constructor. by apply IH.
      - inversion 1; subst; [|done]. eexists _, _. split; [done|]. by apply IH. }
    destruct s as [|c s].
    + split; [done|]. inversion 1; subst; done.
    + rewrite andb_true_iff, IH. split.
      * intros [Hc Hm]. constructor; [unfold wildcard; by rewrite Hq, Hs|done|done].
      * inversion 1; subst; done.
Qed.

(** ** Cutting *)

Lemma concat_cons (a : string) l : String.concat "" (a :: l) = a +:+ String.concat "" l.
Proof. destruct l; [by rewrite CStr.append_nil_r|done]. Qed.

Lemma split_sep_keep n sep s : String.concat "" (split_sep n true sep s) = s.
Proof.
  revert s. induction n as [|n IH]; intros s; [done|]. cbn [split_sep].
  destruct (CStr.strstr_split s sep) as [[a rest]|] eqn:E; [|done].
  apply CStr.strstr_split_app in E as ->. rewrite concat_cons, CStr.append_assoc. f_equal.
  destruct rest as [|c rest]; [done|]. by rewrite IH.
Qed.

Lemma split_sep_drop n sep s : sep <> EmptyString -> (String.length s <= n)%nat ->
  let l := split_sep n false sep s in
  (String.concat sep l = s \/ String.concat sep l +:+ sep = s) /\
  Forall (fun w => CStr.strstr_split w sep = None) l.
Proof.
  intros Hsep. cbv zeta. revert s. induction n as [|n IH]; intros s Hn; cbn [split_sep].
  - destruct s; [|cbn in Hn; lia]. split; [by left|]. constructor; [|done]. by destruct sep.
  - destruct (CStr.strstr_split s sep) as [[a rest]|] eqn:E; [|split; [by left|by constructor]].
    pose proof (CStr.strstr_split_first _ _ _ _ Hsep E) as Ha. pose proof (CStr.strstr_split_length _ _ _ _ E) as Hl.
    apply CStr.strstr_split_app in E as ->. destruct rest as [|c rest].
    { split; [right; by rewrite CStr.append_nil_r|by constructor]. }
    destruct (IH (String c rest)) as [H1 H2]; [destruct sep; [done|cbn in *; lia]|].
    split; [|by constructor].
    assert (exists w l, split_sep n false sep (String c rest) = w :: l) as (w & l & Hw).
    { destruct n; cbn [split_sep]; repeat case_match; eauto. }
    rewrite Hw in *. change (String.concat sep (a :: w :: l)) with (a +:+ sep +:+ String.concat sep (w :: l)).
    rewrite !CStr.append_assoc. destruct H1 as [-> | H1]; [by left|right; by rewrite H1].
Qed.

Lemma split_lines_keep line s :
  String.concat "" (split_lines true line s) = CStr.rev_str EmptyString line +:+ s.
Proof.
  assert (Hrev : forall c l r, CStr.rev_str EmptyString (String c l) +:+ r = CStr.rev_str EmptyString l +:+ String c r).
  { intros c l r. cbn [CStr.rev_str]. rewrite CStr.rev_str_spec, CStr.append_assoc. done. }
  remember (String.length s) as n eqn:Hn. revert line s Hn.
  induction n as [n IH] using lt_wf_ind. intros line [|c s] ->; cbn [split_lines].
  - destruct line as [|d line]; [done|]. by rewrite CStr.append_nil_r.
  - destruct (is_char 10 c).
    { rewrite concat_cons, (IH (String.length s)) by (done || cbn; lia). apply Hrev. }
    destruct (is_char 13 c).
    { destruct s as [|d s]; [by rewrite (IH 0%nat), Hrev by (done || cbn; lia)|].
      destruct (is_char 10 d).
      - rewrite concat_cons, (IH (String.length s)) by (done || cbn; lia).
        change (CStr.rev_str EmptyString EmptyString +:+ s) with s. by rewrite !Hrev.
      - by rewrite (IH (String.length (String d s))), Hrev by (done || cbn; lia). }
    by rewrite (IH (String.length s)), Hrev by (done || cbn; lia).
Qed.

Definition no_newline (s : string) : bool := negb (CStr.mem_char "010" s).

Lemma rev_newline l : no_newline (CStr.rev_str EmptyString l) = no_newline l.
Proof.
  unfold no_newline. f_equal. induction l as [|c l IH]; [done|]. cbn [CStr.rev_str].
  rewrite CStr.rev_str_spec, CStr.mem_char_app, IH. cbn [CStr.mem_char]. case_decide; [by rewrite orb_true_r|by rewrite orb_false_r].
Qed.

Lemma split_lines_drop line s : no_newline line = true ->
  Forall (fun w => no_newline w = true) (split_lines false line s).
Proof.
  assert (Hc : forall c l, is_char 10 c = false -> no_newline l = true -> no_newline (String c l) = true).
  { intros c l Hc Hl. unfold no_newline in *. cbn [CStr.mem_char]. rewrite decide_False; [done|]. by intros <-. }
  remember (String.length s) as n eqn:Hn. revert line s Hn.
  induction n as [n IH] using lt_wf_ind. intros line [|c s] -> Hl; cbn [split_lines].
  - destruct line as [|d line]; [done|]. constructor; [|done]. by rewrite rev_newline.
  - destruct (is_char 10 c) eqn:H10.
    { constructor; [by rewrite rev_newline|]. apply (IH (String.length s)); [cbn; lia|done|done]. }
    assert (Forall (fun w => no_newline w = true) (split_lines false (String c line) s)) as Hd.
    { apply (IH (String.length s)); [cbn; lia|done|by apply Hc]. }
    destruct (is_char 13 c); [|done]. destruct s as [|d s]; [done|]. destruct (is_char 10 d); [|done].
    constructor; [by rewrite rev_newline|]. apply (IH (String.length s)); [cbn; lia|done|done].
Qed.

(** [split] loses nothing: the pieces, kept with what separates them, make up the
    text; without separators they are the text between them, joined by the separator
    again (which the text may end with), and none contains a separator. *)
Theorem split_pieces s :
  (forall sep, String.concat "" (split_text sep true s) = s) /\
  (forall sep, sep <> EmptyString ->
     let l := split_text (Some sep) false s in
     (String.concat sep l = s \/ String.concat sep l +:+ sep = s) /\
     Forall (fun w => CStr.strstr_split w sep = None) l) /\
  Forall (fun w => no_newline w = true) (split_text None false s).
Proof.
  split_and!.
  - intros [sep|]; [apply split_sep_keep|]. unfold split_text. by rewrite split_lines_keep.
  - intros sep Hsep. by apply split_sep_drop.
  - by apply split_lines_drop.
Qed.

(** ** Escapes *)

(** The escapes of a text, and all its characters in hexadecimal. *)
Definition quote_char (c : ascii) : string :=
  if is_char 10 c then "\n" else if is_char 9 c then "\t" else if is_char 13 c then "\r"
  else if is_char 92 c then "\\" else String c EmptyString.
Fixpoint quote (s : string) : string :=
  match s with EmptyString => EmptyString | String c s' => quote_char c +:+ quote s' end.
Fixpoint hex_quote (s : string) : string :=
  match s with EmptyString => EmptyString | String c s' => "\x" +:+ hex2 (CStr.code c) +:+ hex_quote s' end.

Lemma unescape_plain c s : is_char 92 c = false -> unescape (String c s) = written (Some c) 0 (unescape s).
Proof. intros Hc. cbn [unescape]. by destruct s; rewrite ?Hc. Qed.

Lemma raw_plain c s : is_char 92 c = false -> raw_unescape (String c s) = String c (raw_unescape s).
Proof. intros Hc. cbn [raw_unescape]. by rewrite Hc. Qed.

Lemma quote_back c s :
  unescape (quote_char c +:+ s) = written (Some c) (CStr.slen (quote_char c) - 1) (unescape s) /\
  raw_unescape (quote_char c +:+ s) = String c (raw_unescape s).
Proof.
  unfold quote_char.
  destruct (is_char 10 c) eqn:H1; [apply (char_is _ _ "010") in H1 as ->; [|done]; split; [done|by destruct s as [|? [|??]]]|].
  destruct (is_char 9 c) eqn:H2; [apply (char_is _ _ "009") in H2 as ->; [|done]; split; [done|by destruct s as [|? [|??]]]|].
  destruct (is_char 13 c) eqn:H3; [apply (char_is _ _ "013") in H3 as ->; [|done]; split; [done|by destruct s as [|? [|??]]]|].
  destruct (is_char 92 c) eqn:H4; [apply (char_is _ _ "\") in H4 as ->; [|done]; split; [done|by destruct s as [|? [|??]]]|].
  split; [by apply unescape_plain|by apply raw_plain].
Qed.

Lemma hex2_parts c : exists h l, hex2 (CStr.code c) = String h (String l EmptyString) /\
  CStr.isxdigit h = true /\ CStr.isxdigit l = true /\ hex_byte h l = c.
Proof. destruct c as [[] [] [] [] [] [] [] []]; eexists _, _; (split; [vm_compute; reflexivity|]); vm_compute; auto. Qed.

Lemma hex_back c s :
  unescape ("\x" +:+ hex2 (CStr.code c) +:+ s) = written (Some c) 3 (unescape s) /\
  raw_unescape ("\x" +:+ hex2 (CStr.code c) +:+ s) = String c (raw_unescape s).
Proof.
  destruct (hex2_parts c) as (h & l & -> & Hh & Hl & Hc).
  change ("\x" +:+ String h (String l EmptyString) +:+ s) with (String "\" (String "x" (String h (String l s)))).
  split.
  - change (unescape (String "\" (String "x" (String h (String l s)))))
      with (if CStr.isxdigit h && CStr.isxdigit l then written (Some (hex_byte h l)) 3 (unescape s)
            else written None 1 (unescape (String h (String l s)))). by rewrite Hh, Hl, Hc.
  - change (raw_unescape (String "\" (String "x" (String h (String l s)))))
      with (if true && CStr.isxdigit h && CStr.isxdigit l then String (hex_byte h l) (raw_unescape s)
            else raw_unescape (String h (String l s))). by rewrite Hh, Hl, Hc.
Qed.

(** What is written never outgrows the size. *)
Lemma unescape_size s : CStr.slen (fst (unescape s)) <= CStr.slen s - snd (unescape s).
Proof.
  remember (String.length s) as n eqn:Hn. revert s Hn.
  induction n as [n IH] using lt_wf_ind. intros s ->.
  assert (Hw : forall o k t, (String.length t < String.length s)%nat ->
    CStr.slen s = k + match o with Some _ => 1 | None => 0 end + CStr.slen t \/
    CStr.slen s = k + 1 + match o with Some _ => 1 | None => 0 end + CStr.slen t ->
    CStr.slen (fst (written o k (unescape t))) <= CStr.slen s - snd (written o k (unescape t))).
  { intros o k t Ht Hk. specialize (IH _ Ht t eq_refl). unfold written. cbn [fst snd]. destruct o; cbn [CStr.slen]; lia. }
  destruct s as [|c [|e s]]; [done| |].
  { apply Hw; cbn; lia. }
  cbn [unescape]. destruct (is_char 92 c); [|by apply (Hw _ _ (String e s)); cbn; lia].
  destruct (known_escape e); [apply Hw; cbn; lia|].
  destruct (is_char 120 e); [|apply Hw; cbn; lia].
  destruct s as [|h [|l s]]; [apply Hw; cbn; lia|apply Hw; cbn; lia|].
  destruct (_ && _); [apply Hw; cbn; lia|apply Hw; cbn; lia].
Qed.

(** C33: Escaping a text, or writing it in hexadecimal, and reading it as [string] and
    [raw_string] do gives the text again, with the size they count; no text is longer
    than that size, but it is shorter than it after an [\x] without two digits: then
    [string] returns a byte that was never written. *)
Theorem escapes_roundtrip s :
  unescape (quote s) = (s, CStr.slen (quote s) - CStr.slen s) /\ raw_unescape (quote s) = s /\
  unescape (hex_quote s) = (s, CStr.slen (hex_quote s) - CStr.slen s) /\ raw_unescape (hex_quote s) = s /\
  CStr.slen (fst (unescape s)) <= CStr.slen s - snd (unescape s) /\
  CStr.slen (fst (unescape "\xg")) = CStr.slen "\xg" - snd (unescape "\xg") - 1.
Proof.
  split_and!; [| | | |apply unescape_size|done]; induction s as [|c s IH]; try done; cbn [quote hex_quote].
  - destruct (quote_back c (quote s)) as [-> _]. rewrite IH, CStr.slen_app. unfold written. cbn [fst snd CStr.slen].
    f_equal. lia.
  - destruct (quote_back c (quote s)) as [_ ->]. by rewrite IH.
  - destruct (hex_back c (hex_quote s)) as [-> _]. rewrite IH, !CStr.slen_app. unfold written. cbn [fst snd CStr.slen].
    f_equal. unfold hex2. cbn [CStr.slen]. lia.
  - destruct (hex_back c (hex_quote s)) as [_ ->]. by rewrite IH.
Qed.

(** ** Inserting, replacing, filling *)

Lemma filled_exact s : filled (CStr.slen s) s = Ret s.
Proof.
  unfold filled. pose proof (CStr.slen_nonneg s). rewrite !(proj2 (Z.ltb_ge _ _)) by lia.
  rewrite Z.sub_diag. cbn [Z.to_nat zero_bytes]. by rewrite CStr.append_nil_r, take_all by lia.
Qed.

(** [insstr] puts a text in the place of a part of another, up to its end where the
    second index is missing or too large; with the length of the text for second index
    the last character is lost (or the process ends), and with a second index below
    the first it writes outside of its buffer. *)
Theorem insstr_cases s1 s2 i1 i2 :
  let sz1 := CStr.slen s1 in let sz2 := CStr.slen s2 in let r := insstr s1 s2 sz1 sz2 i1 i2 in
  (0 <= i1 <= i2 -> i2 < sz1 -> r = Ret (Some (take i1 s1 +:+ s2 +:+ at_ (i2 + 1) s1))) /\
  (0 <= i1 < sz1 -> i2 = -1 \/ sz1 < i2 -> r = Ret (Some (take i1 s1 +:+ s2))) /\
  (0 <= i1 < sz1 -> i2 = sz1 ->
     r = if i1 + sz2 =? 0 then NoReturn else Ret (Some (take (i1 + sz2 - 1) (take i1 s1 +:+ s2)))) /\
  (0 <= i2 < i1 -> i1 < sz1 -> r = Undef) /\
  (i1 < 0 \/ i2 < -1 \/ sz1 <= i1 -> r = Ret None).
Proof.
  cbv zeta. pose proof (CStr.slen_nonneg s1). pose proof (CStr.slen_nonneg s2).
  assert (H2 : take (CStr.slen s2) s2 = s2) by (apply take_all; lia). unfold insstr. rewrite H2. split_and!.
  - intros H1 Hi. rewrite (proj2 (Z.ltb_ge _ i2)), (proj2 (Z.eqb_neq i2 _)) by lia. cbn [orb].
    rewrite (proj2 (Z.ltb_ge i1 0)), (proj2 (Z.ltb_ge i2 0)), (proj2 (Z.leb_gt _ i1)), (proj2 (Z.ltb_ge i2 i1)) by lia. cbn [orb].
    set (tail := if i2 <? _ then _ else _).
    assert (tail = at_ (i2 + 1) s1) as ->.
    { unfold tail. destruct (Z.ltb_spec i2 (CStr.slen s1 - 1)); [apply take_all; rewrite slen_at; lia|].
      assert (CStr.slen (at_ (i2 + 1) s1) = 0) as Hz by (rewrite slen_at; lia).
      destruct (at_ (i2 + 1) s1); [done|]. cbn [CStr.slen] in Hz. pose proof (CStr.slen_nonneg s). lia. }
    replace (CStr.slen s1 + i1 - i2 - 1 + CStr.slen s2)
      with (CStr.slen (take i1 s1 +:+ s2 +:+ at_ (i2 + 1) s1)); [by rewrite filled_exact|].
    rewrite !CStr.slen_app, slen_take_le, slen_at by lia. lia.
  - intros Hi H1. assert ((CStr.slen s1 <? i2) || (i2 =? -1) = true) as -> by lia.
    rewrite (proj2 (Z.ltb_ge i1 0)), !(proj2 (Z.ltb_ge (CStr.slen s1 - 1) _)), (proj2 (Z.leb_gt _ i1)) by lia. cbn [orb].
    replace (CStr.slen s1 + i1 - (CStr.slen s1 - 1) - 1 + CStr.slen s2)
      with (CStr.slen (take i1 s1 +:+ s2 +:+ EmptyString)); [by rewrite filled_exact, CStr.append_nil_r|].
    rewrite !CStr.slen_app, slen_take_le by lia. cbn [CStr.slen]. lia.
  - intros Hi ->. rewrite (proj2 (Z.ltb_ge (CStr.slen s1) _)), (proj2 (Z.eqb_neq (CStr.slen s1) _)) by lia. cbn [orb].
    rewrite (proj2 (Z.ltb_ge i1 0)), (proj2 (Z.ltb_ge (CStr.slen s1) 0)), (proj2 (Z.leb_gt _ i1)),
      (proj2 (Z.ltb_ge (CStr.slen s1) i1)), (proj2 (Z.ltb_ge (CStr.slen s1) _)) by lia. cbn [orb].
    rewrite CStr.append_nil_r. set (t := take i1 s1 +:+ s2).
    assert (Ht : CStr.slen t = i1 + CStr.slen s2) by (unfold t; rewrite CStr.slen_app, slen_take_le; lia).
    replace (CStr.slen s1 + i1 - CStr.slen s1 - 1 + CStr.slen s2) with (i1 + CStr.slen s2 - 1) by lia.
    unfold filled. destruct (Z.eqb_spec (i1 + CStr.slen s2) 0) as [Hz|Hz].
    + by rewrite (proj2 (Z.ltb_lt _ _)) by lia.
    + rewrite !(proj2 (Z.ltb_ge _ _)) by lia.
      replace (Z.to_nat (i1 + CStr.slen s2 - 1 - CStr.slen t)) with 0%nat by lia. cbn [zero_bytes].
      by rewrite CStr.append_nil_r.
  - intros H1 Hi. rewrite (proj2 (Z.ltb_ge _ i2)), (proj2 (Z.eqb_neq i2 _)) by lia. cbn [orb].
    rewrite (proj2 (Z.ltb_ge i1 0)), (proj2 (Z.ltb_ge i2 0)), (proj2 (Z.leb_gt _ i1)), (proj2 (Z.ltb_lt i2 i1)),
      (proj2 (Z.ltb_lt i2 _)) by lia. cbn [orb]. unfold filled. rewrite (proj2 (Z.ltb_ge _ 0)) by lia.
    rewrite (proj2 (Z.ltb_lt _ _)); [done|].
    rewrite !CStr.slen_app, !slen_take_le; [lia|rewrite slen_at; lia|lia].
  - intros H1. destruct (_ || (i2 =? -1)) eqn:Hi; repeat case_match; try done; lia.
Qed.

(** Cutting as often as there are characters is cutting everywhere. *)
Lemma split_str_enough sep s n : sep <> EmptyString -> (String.length s <= n)%nat ->
  CStr.split_str n sep s = CStr.split_str (String.length s) sep s.
Proof.
  intros Hsep. assert (Hlt : forall a b, CStr.strstr_split s sep = Some (a, b) -> True) by done. clear Hlt.
  assert (H : forall m k s, (String.length s <= m)%nat -> (m <= k)%nat -> CStr.split_str k sep s = CStr.split_str m sep s).
  { clear s. intros m. induction m as [|m IH]; intros k s Hs Hk.
    - destruct s; [|cbn in Hs; lia]. destruct k; [done|]. cbn. by destruct sep.
    - destruct k as [|k]; [lia|]. cbn [CStr.split_str].
      destruct (CStr.strstr_split s sep) as [[a b]|] eqn:E; [|done]. f_equal. apply IH; [|lia].
      apply CStr.strstr_split_length in E. destruct sep; [done|]. cbn in E. lia. }
  intros Hn. by apply H.
Qed.

Lemma replace_loop_ok k b r count n a : b <> EmptyString -> 0 <= n -> count <= 0 \/ n < count ->
  replace_loop k b r count n a
  = String.concat r (CStr.split_str (if 0 <? count then Nat.min k (Z.to_nat (count - n)) else k) b a).
Proof.
  intros Hb. revert n a. induction k as [|k IH]; intros n a Hn Hc; [by case_match|]. cbn [replace_loop].
  assert (exists j, (if 0 <? count then Nat.min (S k) (Z.to_nat (count - n)) else S k) = S j) as [j Hj].
  { destruct (Z.ltb_spec 0 count); [|by eexists]. exists (Nat.min k (Z.to_nat (count - n - 1))). lia. }
  rewrite Hj. cbn [CStr.split_str].
  destruct (CStr.strstr_split a b) as [[before rest]|] eqn:E.
  2: { by destruct (CStr.slen a <? CStr.slen b). }
  pose proof (CStr.strstr_split_length _ _ _ _ E) as Hl. rewrite !CStr.slen_length.
  rewrite (proj2 (Z.ltb_ge _ _)) by lia.
  assert (Hcons : forall w l, String.concat r (before :: w :: l) = before +:+ r +:+ String.concat r (w :: l)) by done.
  assert (exists w l, CStr.split_str j b rest = w :: l) as (w & l & Hw).
  { destruct j; cbn [CStr.split_str]; repeat case_match; eauto. }
  rewrite Hw, Hcons, <- Hw. do 2 f_equal.
  destruct (Z.ltb_spec 0 count), (Z.leb_spec count (n + 1)); cbn [andb].
  - replace j with 0%nat by lia. done.
  - rewrite IH by lia. do 2 f_equal. lia.
  - rewrite IH by lia. do 2 f_equal. lia.
  - rewrite IH by lia. do 2 f_equal. lia.
Qed.

(** [n] copies of a text. *)
Fixpoint copies (n : nat) (s : string) : string :=
  match n with O => EmptyString | S n' => s +:+ copies n' s end.

Lemma slen_copies n s : CStr.slen (copies n s) = Z.of_nat n * CStr.slen s.
Proof. induction n as [|n IH]; [done|]. cbn [copies]. rewrite CStr.slen_app, IH. lia. Qed.

Lemma crap_loop_ok fuel data left : 0 < CStr.slen data -> 0 < left <= Z.of_nat fuel ->
  crap_loop fuel data left = copies (Z.to_nat ((left - 1) / CStr.slen data)) data.
Proof.
  intros Hd. revert left. induction fuel as [|fuel IH]; intros left Hl; [lia|]. cbn [crap_loop].
  destruct (Z.ltb_spec (CStr.slen data) left) as [H|H].
  - rewrite IH by lia.
    replace (left - 1) with (left - CStr.slen data - 1 + 1 * CStr.slen data) by lia.
    rewrite Z.div_add by lia. pose proof (Z.div_pos (left - CStr.slen data - 1) (CStr.slen data)).
    rewrite Z2Nat.inj_add by lia. rewrite Nat.add_comm. done.
  - by rewrite Z.div_small by lia.
Qed.

(** [str_replace] cuts the text at what it looks for, as often as it is asked to or
    everywhere, and joins the pieces with the replacement; [crap] repeats its data to
    the length asked for. *)
Theorem replace_and_fill :
  (forall a b r count, b <> EmptyString ->
     str_replace a b r count
     = String.concat r (CStr.split_str (if 0 <? count then Z.to_nat count else String.length a) b a)) /\
  (forall data len, data <> EmptyString -> 0 < len ->
     let k := (len - 1) / CStr.slen data in
     crap_text (Some data) len = copies (Z.to_nat k) data +:+ take (len - k * CStr.slen data) data).
Proof.
  split.
  - intros a b r count Hb. unfold str_replace. rewrite replace_loop_ok by (done || lia). f_equal.
    destruct (Z.ltb_spec 0 count); [|by apply split_str_enough; [|lia]].
    rewrite Z.sub_0_r. destruct (Nat.le_ge_cases (S (String.length a)) (Z.to_nat count)) as [Hc|Hc].
    + rewrite Nat.min_l by lia. by rewrite (split_str_enough b a (S (String.length a))), (split_str_enough b a (Z.to_nat count)) by (done || lia).
    + by rewrite Nat.min_r by lia.
  - intros data len Hdata Hlen. cbv zeta. set (d := CStr.slen data). set (k := (len - 1) / d).
    assert (Hd : 0 < d). { unfold d. destruct data; [done|]. cbn. pose proof (CStr.slen_nonneg data). lia. }
    assert (Hk : 0 < len - k * d <= d). { pose proof (Z.div_mod (len - 1) d). pose proof (Z.mod_pos_bound (len - 1) d). fold k in H. lia. }
    assert (Hk0 : 0 <= k) by (apply Z.div_pos; lia).
    assert (Hall : CStr.slen (copies (Z.to_nat k) data) = k * d) by (rewrite slen_copies; fold d; lia).
    assert (Hend : forall t, CStr.slen t = len - k * d ->
      over_end len (copies (Z.to_nat k) data) t = copies (Z.to_nat k) data +:+ t).
    { intros t Ht. unfold over_end. rewrite take_all; [done|lia]. }
    unfold crap_text. fold d. rewrite crap_loop_ok by (fold d; lia). fold d k.
    rewrite Z.rem_mod_nonneg by lia.
    assert (Hmod : len mod d = (len - k * d) mod d). { rewrite <- (Z.mod_add (len - k * d) k d) by lia. f_equal. lia. }
    destruct (decide (len - k * d = d)) as [He|He].
    + rewrite He, (take_all d data) by (fold d; lia). rewrite Hmod, He, Z.mod_same by lia. cbn [Z.ltb Z.compare].
      rewrite Hend by (fold d; lia). by case_match.
    + assert (len mod d = len - k * d) as -> by (rewrite Hmod; apply Z.mod_small; lia).
      rewrite (proj2 (Z.eqb_neq d 1)), (proj2 (Z.ltb_lt 0 _)) by lia.
      apply Hend. apply slen_take_le. fold d. lia.
Qed.

(** ** Numbers as texts *)

Definition number_char (c : ascii) : bool := CStr.isdigit c || is_char 45 c.

Lemma digit_char_number d : 0 <= d < 10 -> number_char (CStr.digit_char d) = true.
Proof.
  intros Hd. assert (exists n, d = Z.of_nat n /\ (n < 10)%nat) as (n & -> & Hn) by (exists (Z.to_nat d); lia).
  do 10 (destruct n as [|n]; [done|]). lia.
Qed.

Lemma dec_pos_number n z acc : 0 <= z < 10 ^ Z.of_nat n -> CStr.all_str number_char acc = true ->
  CStr.all_str number_char (CStr.dec_pos n z acc) = true /\ (n <> 0%nat -> CStr.dec_pos n z acc <> EmptyString).
Proof.
  revert z acc. induction n as [|n IH]; intros z acc Hz Ha; [done|]. cbn [CStr.dec_pos].
  destruct (Z.ltb_spec z 10).
  - split; [|done]. cbn [CStr.all_str]. by rewrite digit_char_number, Ha by lia.
  - assert (Hm : 0 <= z mod 10 < 10) by (apply Z.mod_pos_bound; lia).
    assert (Hd : 0 <= z / 10 < 10 ^ Z.of_nat n).
    { split; [apply Z.div_pos; lia|]. apply Z.div_lt_upper_bound; [lia|].
      rewrite Nat2Z.inj_succ, Z.pow_succ_r in Hz by lia. lia. }
    destruct (IH (z / 10) (String (CStr.digit_char (z mod 10)) acc) Hd) as [H1 H2].
    { cbn [CStr.all_str]. by rewrite digit_char_number, Ha by lia. }
    split; [done|]. intros _. apply H2. intros ->. cbn in Hd. lia.
Qed.

Lemma dec_number z : MInt.int_range z ->
  CStr.all_str number_char (CStr.dec z) = true /\ CStr.dec z <> EmptyString.
Proof.
  unfold MInt.int_range, MInt.INT_MIN, MInt.INT_MAX, CStr.dec. intros Hz. destruct (Z.ltb_spec z 0).
  - split; [|done]. cbn [CStr.all_str]. apply andb_true_iff. split; [done|]. apply dec_pos_number; [|done]. lia.
  - destruct (dec_pos_number 64 z EmptyString) as [H1 H2]; [lia|done|]. split; [done|]. by apply H2.
Qed.

Lemma number_no_char c s : number_char c = false -> CStr.all_str number_char s = true -> CStr.mem_char c s = false.
Proof. intros Hc Hs. by apply (CStr.all_str_mem number_char). Qed.

Lemma match_self icase s : CStr.all_str number_char s = true -> str_match icase s s = true.
Proof.
  induction s as [|c s IH]; [done|]. cbn [CStr.all_str str_match]. intros [Hc Hs]%andb_true_iff.
  assert (H : forall n d, number_char d = false -> CStr.code d = n -> is_char n c = false).
  { intros n d Hd Hn. destruct (is_char n c) eqn:E; [|done]. apply (char_is _ _ d) in E; [|done]. congruence. }
  rewrite (H 63 "?"%char), (H 42 "*"%char), (IH Hs) by done. unfold same_char. case_match; by rewrite Z.eqb_refl.
Qed.

Lemma cstr_plain s : CStr.mem_char "000" s = false -> cstr s = s.
Proof. intros Hs. unfold cstr. by rewrite CStr.strchr_split_none. Qed.

Lemma cstr_overwrite old new : CStr.mem_char "000" new = false -> cstr (overwrite old new) = new.
Proof. intros Hn. unfold cstr, overwrite. by rewrite CStr.strchr_split_intro. Qed.

(** A named argument of a call that is an integer. *)
Definition int_arg (name : string) (i : Z) (s : state) : Prop :=
  exists a, get_var_ref_by_name name false s = Ret (a, s) /\ get_var_ref_by_name name true s = Ret (a, s) /\
    heap (st_store s) !! a = Some (VAR2_INT i).

Lemma lift_Ret {A} (m : M store A) s a : m (st_store s) = Ret (a, st_store s) -> lift m s = Ret (a, s).
Proof. unfold lift. intros ->. by destruct s. Qed.

Lemma int_arg_text name i s : int_arg name i s -> local_text name s = Ret (Some (CStr.dec i, int_text), s).
Proof.
  intros (a & H & _ & Ha). unfold local_text. rewrite (bind_step _ _ _ _ _ H). unfold read_text.
  rewrite (bind_step _ _ s (Some (CStr.dec i)) s).
  - rewrite (bind_step _ _ s (VAR2_INT i) s); [done|]. apply lift_Ret. by apply load_Ret.
  - apply lift_Ret. unfold var2str. by rewrite (bind_step _ _ _ _ _ (load_Ret _ _ _ Ha)).
Qed.

Lemma int_arg_value name i d s : int_arg name i s -> get_int_local_var_by_name name d s = Ret (i, s).
Proof.
  intros (a & H & _ & Ha). unfold get_int_local_var_by_name. rewrite (bind_step _ _ _ _ _ H). apply lift_Ret.
  unfold var2int. by rewrite (bind_step _ _ _ _ _ (load_Ret _ _ _ Ha)).
Qed.

Lemma int_arg_size name i s : int_arg name i s -> get_var_size_by_name name s = Ret (0, s).
Proof.
  intros (a & _ & H & Ha). unfold get_var_size_by_name. rewrite (bind_step _ _ _ _ _ H). apply lift_Ret.
  unfold get_var_size. by rewrite (bind_step _ _ _ _ _ (load_Ret _ _ _ Ha)).
Qed.

(** C37: Integers given as texts share a static buffer and have no size: [match] of a
    pattern and a text that are integers is true whatever they are, and [egrep] of
    them, where the expression matches itself, writes beyond its buffer. *)
Theorem int_arguments_shared regcomp regexec i j s :
  MInt.int_range j -> int_arg "pattern" i s -> int_arg "string" j s -> int_arg "icase" 0 s ->
  nasl_match s = Ret (int2cell 1, s) /\
  (regcomp false (CStr.dec j) = true ->
   (exists subs, regexec false false (CStr.dec j) (CStr.dec j) = Matched subs) ->
   nasl_egrep regcomp regexec s = Undef).
Proof.
  intros Hj Hp Hs Hi. destruct (dec_number j Hj) as [Hn Hne].
  assert (H0 : CStr.mem_char "000" (CStr.dec j) = false) by (by apply number_no_char).
  assert (H10 : CStr.mem_char "010" (CStr.dec j) = false) by (by apply number_no_char).
  pose proof (int_arg_text _ _ _ Hp) as H1. pose proof (int_arg_text _ _ _ Hs) as H2.
  pose proof (int_arg_value _ _ 0 _ Hi) as H3. split.
  - unfold nasl_match. rewrite (bind_step _ _ _ _ _ H1), (bind_step _ _ _ _ _ H2), (bind_step _ _ _ _ _ H3).
    rewrite (bind_step _ _ s (Some (overwrite (CStr.dec i) (CStr.dec j), int_text)) s) by done.
    unfold c_text. cbn [option_map fst]. rewrite cstr_overwrite, cstr_plain, match_self by done. done.
  - intros Hc [subs Hm]. unfold nasl_egrep.
    rewrite (bind_step _ _ _ _ _ H1), (bind_step _ _ _ _ _ H2), (bind_step _ _ _ _ _ H3),
      (bind_step _ _ _ _ _ (int_arg_size _ _ _ Hs)).
    rewrite (bind_step _ _ s (Some (overwrite (CStr.dec i) (CStr.dec j), int_text)) s) by done.
    unfold c_text. cbn [option_map fst]. rewrite cstr_overwrite, cstr_plain by done.
    rewrite (bind_step _ _ s (Some (CStr.dec j +:+ String "010" EmptyString)) s).
    + rewrite (proj2 (Z.ltb_lt _ _)); [done|]. rewrite CStr.slen_app.
      destruct (CStr.dec j) as [|c t]; [done|]. cbn [CStr.slen]. pose proof (CStr.slen_nonneg t). lia.
    + unfold checked. destruct (CStr.dec j) as [|c t] eqn:Ht; [done|]. rewrite <- Ht in *.
      cbn [egrep_loop negb Z.eqb].
      assert (CStr.skip (is_char 10) (CStr.dec j) = CStr.dec j) as ->.
      { rewrite Ht. cbn [CStr.skip]. destruct (is_char 10 c) eqn:E; [|done]. apply (char_is _ _ "010") in E as ->; [|done].
        rewrite Ht in H10. cbn in H10. done. }
      rewrite Ht, <- Ht. rewrite Hc, CStr.strchr_split_none by done. cbn [default].
      rewrite Ht. cbn [String.length egrep_loop CStr.skip]. rewrite <- Ht, Hm. done.
Qed.

(** ** Witnesses *)

(** A matcher of plain texts. *)
Definition plain_regexec (icase notbol : bool) (pattern s : string) : reg_result :=
  match CStr.strstr_split s pattern with
  | Some (a, _) => Matched [Some (CStr.slen a, CStr.slen a + CStr.slen pattern)]
  | None => NoMatch
  end.

Lemma plain_valid : valid_regexec plain_regexec.
Proof.
  intros icase notbol pattern s subs. unfold plain_regexec.
  destruct (CStr.strstr_split s pattern) as [[a b]|] eqn:E; [|discriminate]. intros [= <-].
  apply CStr.strstr_split_app in E as ->. split; [by eexists|]. intros i. unfold sub.
  destruct (Z.to_nat i) as [|[|n]]; cbn [nth]; [|exact I..].
  unfold valid_part. rewrite !CStr.slen_app.
  pose proof (CStr.slen_nonneg a). pose proof (CStr.slen_nonneg b). pose proof (CStr.slen_nonneg pattern). lia.
Qed.

Lemma regreplace_correct_witness :
  regreplace (fun _ _ => true) plain_regexec false "b" "<\0>" "abcb" = Ret (Some "a<b>c<b>"%string) /\
  exists t ok, replaced plain_regexec false "b" "<\0>" false "abcb" t ok /\
    (CStr.slen t <= LIMIT ->
     regreplace (fun _ _ => true) plain_regexec false "b" "<\0>" "abcb" = Ret (if ok : bool then Some t else None)).
Proof.
  split; [vm_compute; reflexivity|].
  destruct (regreplace_correct (fun _ _ => true) plain_regexec false "b" "<\0>" "abcb" plain_valid eq_refl) as (t & ok & H & Hr).
  exists t, ok. split; [exact H|]. apply Hr. vm_compute. discriminate.
Defined.

Lemma split_pieces_witness : split_text (Some ","%string) false "a,b" = ["a"; "b"]%string /\
  Forall (fun w => CStr.strstr_split w "," = None) (split_text (Some ","%string) false "a,b").
Proof.
  split; [vm_compute; reflexivity|]. destruct (split_pieces "a,b") as (_ & H & _).
  apply (H ","%string). discriminate.
Defined.

Lemma insstr_cases_witness : insstr "abcd" "XY" 4 2 1 2 = Ret (Some "aXYd"%string) /\ insstr "abcd" "XY" 4 2 2 1 = Undef.
Proof.
  destruct (insstr_cases "abcd" "XY" 1 2) as (H & _ & _ & _ & _).
  destruct (insstr_cases "abcd" "XY" 2 1) as (_ & _ & _ & H' & _).
  split; [apply H; cbn; lia|apply H'; cbn; lia].
Defined.

Lemma replace_and_fill_witness : str_replace "a-b-c" "-" "+" 0 = "a+b+c"%string /\ crap_text (Some "ab"%string) 5 = "ababa"%string.
Proof.
  destruct replace_and_fill as [H1 H2].
  split; [rewrite H1 by discriminate|rewrite H2 by (discriminate || lia)]; vm_compute; reflexivity.
Defined.

(** A call with the arguments [pattern], 7, [string], 8, and [icase], 0. *)
Definition int_call : state :=
  mk_state (mk_store {[1%positive := VAR2_INT 7; 2%positive := VAR2_INT 8; 3%positive := VAR2_INT 0]} 4 0)
    [push_var "icase" 3 (push_var "string" 2 (push_var "pattern" 1
       (mk_ctxt NULL true false false 0 0 (mk_array [] (Some empty_hash)) [])))].

Lemma int_arguments_shared_witness :
  nasl_match int_call = Ret (int2cell 1, int_call) /\
  nasl_egrep (fun _ _ => true) plain_regexec int_call = Undef.
Proof.
  destruct (int_arguments_shared (fun _ _ => true) plain_regexec 7 8 int_call) as [H1 H2].
  - unfold MInt.int_range, MInt.INT_MIN, MInt.INT_MAX. lia.
  - exists 1%positive. split_and!; vm_compute; reflexivity.
  - exists 2%positive. split_and!; vm_compute; reflexivity.
  - exists 3%positive. split_and!; vm_compute; reflexivity.
  - split; [exact H1|]. apply H2; [reflexivity|]. eexists. vm_compute. reflexivity.
Defined.

End NaslTextSpec.
