(* ===== verification/NaslTextTypes.v ===== *)
(** * The text and time functions of NASL, and [exit], keep the types of the interpreter

    A function in C that the interpreter calls has to leave a well-typed state and to
    give a well-typed cell: [results_typed] and [calls_isolated] ask this of it.  Each
    of these functions does. *)

From S2P Require Import Prelude Nasl NaslVar NaslExec NaslTypes NaslText NaslTime.
From stdpp Require Import base gmap sets list strings.
From Stdlib Require Import Ascii ZArith Lia.
Local Open Scope Z_scope.

Module NaslTextTypes.
Import Nasl NaslVar NaslExec NaslTypes NaslText NaslTime.

Lemma checked_keeps {A} (m : outcome A) : keeps (checked m) (fun _ => True).
Proof.
  apply keeps_intro. intros s a s' Hs. unfold checked. destruct m; [|done..]. intros [= <- <-].
  split_and!; [apply Hs|reflexivity|done].
Qed.
#[local] Hint Resolve checked_keeps : types.

(** ** Arguments *)

Lemma var2int_types v d : int_ok d = true -> keeps_types (var2int v d) (fun z => int_ok z = true).
Proof. intros Hd. unfold var2int. spec_solve. Qed.
Lemma var2str_types v : keeps_types (var2str v) (fun _ => True).
Proof. unfold var2str. spec_solve. Qed.
Lemma get_var_size_types v : keeps_types (get_var_size v) (fun _ => True).
Proof. unfold get_var_size. spec_solve. Qed.
Lemma array_max_types a : keeps_types (array_max_index a) (fun _ => True).
Proof.
  assert (H : forall l, keeps_types (defined_prefix l) (fun _ => True)).
  { intros l. induction l as [|v l IH]; cbn [defined_prefix]; spec_solve. }
  unfold array_max_index. spec_solve.
Qed.
#[local] Hint Resolve var2int_types var2str_types get_var_size_types array_max_types : types.

Lemma get_var_ref_num_keeps num : keeps (get_var_ref_by_num num) (fun _ => True).
Proof.
  unfold get_var_ref_by_num. spec_solve.
  apply lift_keeps. spec_solve.
Qed.
#[local] Hint Resolve get_var_ref_num_keeps : types.

Lemma get_int_num_keeps num d : int_ok d = true -> keeps (get_int_var_by_num num d) (fun z => int_ok z = true).
Proof. intros. unfold get_int_var_by_num. spec_solve. Qed.
Lemma get_int_local_keeps name d : int_ok d = true -> keeps (get_int_local_var_by_name name d) (fun z => int_ok z = true).
Proof. intros. unfold get_int_local_var_by_name. spec_solve. Qed.
Lemma size_num_keeps num : keeps (get_var_size_by_num num) (fun _ => True).
Proof. unfold get_var_size_by_num. spec_solve. Qed.
Lemma size_name_keeps name : keeps (get_var_size_by_name name) (fun _ => True).
Proof. unfold get_var_size_by_name. spec_solve. Qed.
Lemma size_local_keeps name : keeps (get_local_var_size_by_name name) (fun _ => True).
Proof. unfold get_local_var_size_by_name. spec_solve. Qed.
Lemma type_num_keeps num : keeps (get_var_type_by_num num) (fun _ => True).
Proof. unfold get_var_type_by_num. spec_solve. Qed.
#[local] Hint Resolve get_int_num_keeps get_int_local_keeps size_num_keeps size_name_keeps size_local_keeps type_num_keeps : types.

Lemma size_if_keeps a name d : keeps (size_if a name d) (fun _ => True).
Proof. unfold size_if. spec_solve. Qed.
#[local] Hint Resolve size_if_keeps : types.

Lemma source_keeps u : keeps (source_of u) (fun _ => True).
Proof.
  apply keeps_intro. intros s a s' Hs [= <- <-]. split_and!; [apply Hs|reflexivity|done].
Qed.
#[local] Hint Resolve source_keeps : types.

Lemma read_text_keeps v : keeps (read_text v) (fun _ => True).
Proof. unfold read_text. spec_solve. destruct v as [v|], a as [s|]; spec_solve. Qed.
#[local] Hint Resolve read_text_keeps : types.
Lemma num_text_keeps num : keeps (num_text num) (fun _ => True).
Proof. unfold num_text. spec_solve. Qed.
Lemma local_text_keeps name : keeps (local_text name) (fun _ => True).
Proof. unfold local_text. spec_solve. Qed.
Lemma after_keeps a b : keeps (after a b) (fun _ => True).
Proof. unfold after. spec_solve. Qed.
Lemma max_index_keeps : keeps max_index (fun _ => True).
Proof. unfold max_index. spec_solve. Qed.
#[local] Hint Resolve num_text_keeps local_text_keeps after_keeps max_index_keeps : types.

(** ** Results *)

Abbreviation keeps_cells m := (keeps m (fun r => ok_result r = true)).

Lemma over_args_keeps {A} (f : Z -> A -> M state (option A)) n vi a :
  (forall vi a, keeps (f vi a) (fun _ => True)) -> keeps (over_args f n vi a) (fun _ => True).
Proof.
  intros Hf. revert vi a. induction n as [|n IH]; intros vi a; cbn [over_args]; [spec_solve|].
  eapply spec_bind; [apply _|apply Hf|]. intros [a'|] _; [apply IH|spec_solve].
Qed.

Lemma int_result_keeps z : keeps_cells (int_result z).
Proof.
  unfold int_result. destruct (_ && _) eqn:H; [|apply spec_undef]. apply spec_ret; [apply _|].
  apply int_ok_range. unfold MInt.int_range. lia.
Qed.

Lemma code_ok c : int_ok (CStr.code c) = true.
Proof. by destruct c as [[] [] [] [] [] [] [] []]. Qed.

Lemma add_texts_types l a : keeps_types (add_texts l a) (fun _ => True).
Proof.
  revert a. induction l as [|[i t] l IH]; intros a; cbn [add_texts]; [spec_solve|].
  apply (spec_bind _ _ _ _ (fun _ => True)); [|intros; apply IH]. unfold add_var_to_list. spec_solve.
Qed.
#[local] Hint Resolve add_texts_types : types.

Lemma texts_keeps l : keeps_cells (texts_cell l).
Proof. unfold texts_cell. spec_solve. Qed.
#[local] Hint Resolve int_result_keeps texts_keeps : types.

Lemma string_arg_keeps stale vi out : keeps (string_arg stale vi out) (fun _ => True).
Proof. unfold string_arg. spec_solve. Qed.
Lemma raw_arg_keeps vi out : keeps (raw_arg vi out) (fun _ => True).
Proof. unfold raw_arg. spec_solve. Qed.
Lemma strcat_arg_keeps vi out : keeps (strcat_arg vi out) (fun _ => True).
Proof. unfold strcat_arg. spec_solve. Qed.

#[local] Hint Resolve over_args_keeps string_arg_keeps raw_arg_keeps strcat_arg_keeps : types.

Lemma string_keeps stale : keeps_cells (nasl_string stale).
Proof. unfold nasl_string. spec_solve. Qed.
#[local] Hint Resolve string_keeps : types.
Lemma rawstring_keeps : keeps_cells nasl_rawstring.
Proof. unfold nasl_rawstring. spec_solve. Qed.
Lemma strcat_keeps : keeps_cells nasl_strcat.
Proof. unfold nasl_strcat. spec_solve. Qed.
Lemma strlen_keeps : keeps_cells nasl_strlen.
Proof. unfold nasl_strlen. spec_solve. Qed.
Lemma display_keeps stale : keeps_cells (nasl_display stale).
Proof. unfold nasl_display. spec_solve. Qed.
Lemma hex_keeps : keeps_cells nasl_hex.
Proof. unfold nasl_hex. spec_solve. Qed.

Lemma with_first_keeps f : (forall s n, ok_result (f s n) = true) -> keeps_cells (with_first f).
Proof. intros Hf. unfold with_first. spec_solve. Qed.
Lemma hexstr_keeps : keeps_cells nasl_hexstr.
Proof. by apply with_first_keeps. Qed.
Lemma ord_keeps : keeps_cells nasl_ord.
Proof. apply with_first_keeps. intros [|c s] n; [done|apply code_ok]. Qed.
Lemma tolower_keeps : keeps_cells nasl_tolower.
Proof. by apply with_first_keeps. Qed.
Lemma toupper_keeps : keeps_cells nasl_toupper.
Proof. by apply with_first_keeps. Qed.
Lemma chomp_keeps : keeps_cells nasl_chomp.
Proof. by apply with_first_keeps. Qed.
Lemma substr_keeps : keeps_cells nasl_substr.
Proof. unfold nasl_substr. spec_solve. Qed.
Lemma insstr_keeps : keeps_cells nasl_insstr.
Proof. unfold nasl_insstr. spec_solve. Qed.
Lemma match_keeps : keeps_cells nasl_match.
Proof. unfold nasl_match. spec_solve. Qed.
Lemma split_keeps : keeps_cells nasl_split.
Proof. unfold nasl_split. spec_solve. Qed.
Lemma crap_keeps : keeps_cells nasl_crap.
Proof. unfold nasl_crap. spec_solve. Qed.
Lemma strstr_keeps : keeps_cells nasl_strstr.
Proof. unfold nasl_strstr. spec_solve. Qed.
Lemma stridx_keeps : keeps_cells nasl_stridx.
Proof. unfold nasl_stridx. spec_solve. Qed.
Lemma str_replace_keeps : keeps_cells nasl_str_replace.
Proof. unfold nasl_str_replace. spec_solve. Qed.
Lemma int_keeps : keeps_cells nasl_int.
Proof. unfold nasl_int. spec_solve. Qed.

(** [exit] gives every context the same integer to return. *)
Lemma set_every_ret_keeps z : int_ok z = true ->
  keeps (set_every_ret (int2cell z)) (fun _ => True).
Proof.
  intros Hz. apply keeps_intro. intros s a s' Hs [= <- <-]. cbn [st_store st_ctxts].
  split_and!; [apply Hs| |done]. apply callers_kept.
  - apply Forall2_fmap_r, Forall_Forall2_diag, Forall_true. by intros [].
  - right. exists z. split; [done|]. by apply Forall_fmap, Forall_true.
Qed.

Lemma exit_keeps oid plug_set_key : (forall k v, keeps (plug_set_key k v) (fun _ => True)) ->
  keeps_cells (nasl_do_exit oid plug_set_key).
Proof.
  intros Hk. unfold nasl_do_exit, simple_register_host_detail. spec_solve; try apply Hk.
  all: apply set_every_ret_keeps; assumption.
Qed.

Section Regex.
Context (regcomp : bool -> string -> bool) (regexec : bool -> bool -> string -> string -> reg_result).

Lemma ereg_keeps : keeps_cells (nasl_ereg regcomp regexec).
Proof. unfold nasl_ereg. spec_solve. Qed.
Lemma ereg_replace_keeps : keeps_cells (nasl_ereg_replace regcomp regexec).
Proof. unfold nasl_ereg_replace. spec_solve. Qed.
Lemma egrep_keeps : keeps_cells (nasl_egrep regcomp regexec).
Proof. unfold nasl_egrep. spec_solve. Qed.
Lemma eregmatch_keeps : keeps_cells (nasl_eregmatch regcomp regexec).
Proof. unfold nasl_eregmatch. spec_solve. Qed.
End Regex.

(** ** Times *)

Lemma pure_call_keeps {A} (o : outcome A) : keeps (NaslTime.pure_call o) (fun _ => True).
Proof.
  apply keeps_intro. intros s a s' Hs. unfold NaslTime.pure_call. destruct o; [|done..]. intros [= <- <-].
  split_and!; [apply Hs|reflexivity|done].
Qed.
#[local] Hint Resolve pure_call_keeps : types.
Lemma str_num_keeps num : keeps (get_str_var_by_num num) (fun _ => True).
Proof. unfold get_str_var_by_num. spec_solve. Qed.
#[local] Hint Resolve str_num_keeps : types.
Lemma time_argument_keeps : keeps NaslTime.time_argument (fun _ => True).
Proof. unfold NaslTime.time_argument. spec_solve. Qed.
#[local] Hint Resolve time_argument_keeps : types.

Lemma isotime_now_keeps t gm : keeps_cells (NaslTime.nasl_isotime_now t gm).
Proof. by apply spec_ret; [apply _|]. Qed.
Lemma isotime_is_valid_keeps : keeps_cells NaslTime.nasl_isotime_is_valid.
Proof. unfold NaslTime.nasl_isotime_is_valid. spec_solve. Qed.
Lemma isotime_scan_keeps : keeps_cells NaslTime.nasl_isotime_scan.
Proof. unfold NaslTime.nasl_isotime_scan. spec_solve. Qed.
Lemma isotime_print_keeps : keeps_cells NaslTime.nasl_isotime_print.
Proof. unfold NaslTime.nasl_isotime_print. spec_solve. Qed.
Lemma added_keeps n f t : keeps (NaslTime.added n f t) (fun _ => True).
Proof. unfold NaslTime.added. spec_solve. Qed.
#[local] Hint Resolve added_keeps : types.
Lemma isotime_add_keeps : keeps_cells NaslTime.nasl_isotime_add.
Proof. unfold NaslTime.nasl_isotime_add. spec_solve. Qed.

(** ** A call that ends the script *)

(** [f (x) { exit (x); return 1; }], and [y = f (x: 4)] as in [example_call]. *)
Definition exiting_block : tree_cell :=
  Cell NODE_INSTR_L 1 (x_str None)
    (Cell NODE_FUN_CALL 1 (x_str (Some "exit"%string))
       (Cell NODE_ARG 1 (x_str None) (Cell NODE_VAR 1 (x_str (Some "x"%string)) NULL NULL NULL NULL) NULL NULL NULL)
       NULL NULL NULL)
    (Cell NODE_RETURN 2 (x_str None) (int_cell 1) NULL NULL NULL) NULL NULL.

Definition exiting_state : state :=
  mk_state empty_store
    [insert_func (mk_func "f" false 9999 ["x"%string] (user_block exiting_block))
       (insert_func (mk_func "exit" false 1 [] (internal_block "nasl_do_exit")) init_empty_lex_ctxt)].

Definition exit_only (g : string) : M state tree_cell :=
  if String.eqb g "nasl_do_exit" then nasl_do_exit (Some "1.3.6.1.4"%string) (fun _ _ => mret tt) else mret NULL.

Lemma exit_only_keeps g : keeps_cells (exit_only g).
Proof.
  unfold exit_only. destruct (String.eqb g _); [|by apply spec_ret; [apply _|]].
  apply exit_keeps. intros. by apply spec_ret; [apply _|].
Qed.

Lemma exiting_ok : ok_state exiting_state.
Proof.
  split; [apply map_Forall_empty| |done].
  constructor; [|constructor]. apply insert_func_ok; [done|]. apply insert_func_ok; [done|].
  split; [done|]. apply (Forall_replicate (Forall ok_func) FUNC_NAME_HASH []). constructor.
Qed.

(** The caller's context is left as [kept] says: it returns 4 now. *)
Lemma calls_isolated_witness :
  exists r s', nasl_exec (fun _ _ => 1) exit_only 20 example_call exiting_state = Ret (r, s')
    /\ kept (st_ctxts exiting_state) (st_ctxts s') /\ ret_val <$> st_ctxts s' = [int_cell 4].
Proof.
  eexists _, _. split; [vm_compute; reflexivity|]. split; [|reflexivity].
  eapply (calls_isolated (fun _ _ => 1) exit_only 20 example_call exiting_state);
    [exact exit_only_keeps|exact exiting_ok|vm_compute; reflexivity|reflexivity].
Defined.

End NaslTextTypes.
