(* ===== verification/NaslScript.v ===== *)
(** * Running a script ([nasl/nasl_init.c], [exec_nasl_script] of [nasl/exec.c])

    [exec_nasl_script] goes to the directory of the script, parses it, sets up a context
    with the functions and constants of the library, executes the tree and calls
    [on_exit].  The library's tables are copied; the values of constants of the system
    are a parameter, and so are the functions in C that are not modelled. *)

From S2P Require Import Prelude Arglists Nasl NaslVar NaslExec NaslLex NaslParse NaslText NaslTime.
From stdpp Require Import base gmap sets list strings.
From Stdlib Require Import Ascii ZArith Lia.
Local Open Scope Z_scope.

Module NaslScript.
Import Arglists Nasl NaslVar NaslExec NaslLex NaslParse.

(** ** The tables of the library *)

Record init_func := mk_init
  { if_name : string; c_code : string; unnamed : Z; if_args : list string }.

Definition libfuncs_first : list init_func := [
   mk_init "script_name" "script_name" 1 [];
   mk_init "script_version" "script_version" 1 [];
   mk_init "script_timeout" "script_timeout" 1 [];
   mk_init "script_description" "script_description" 999 [];
   mk_init "script_copyright" "script_copyright" 999 [];
   mk_init "script_summary" "script_summary" 999 [];
   mk_init "script_category" "script_category" 1 [];
   mk_init "script_family" "script_family" 999 [];
   mk_init "script_dependencies" "script_dependencies" 999 [];
   mk_init "script_require_keys" "script_require_keys" 999 [];
   mk_init "script_mandatory_keys" "script_mandatory_keys" 999 [];
   mk_init "script_require_ports" "script_require_ports" 999 [];
   mk_init "script_require_udp_ports" "script_require_udp_ports" 999 [];
   mk_init "script_exclude_keys" "script_exclude_keys" 999 [];
   mk_init "script_add_preference" "script_add_preference" 0 ["name"; "type"; "value"];
   mk_init "script_get_preference" "script_get_preference" 1 [];
   mk_init "script_get_preference_file_content" "script_get_preference_file_content" 1 [];
   mk_init "script_get_preference_file_location" "script_get_preference_file_location" 1 [];
   mk_init "script_id" "script_id" 1 [];
   mk_init "script_oid" "script_oid" 1 [];
   mk_init "script_cve_id" "script_cve_id" 999 [];
   mk_init "script_bugtraq_id" "script_bugtraq_id" 999 [];
   mk_init "script_xref" "script_xref" 0 ["name"; "value"];
   mk_init "script_tag" "script_tag" 0 ["name"; "value"];
   mk_init "get_preference" "nasl_get_preference" 1 [];
   mk_init "safe_checks" "safe_checks" 0 [];
   mk_init "get_script_oid" "get_script_oid" 0 [];
   mk_init "replace_kb_item" "replace_kb_item" 0 ["name"; "value"];
   mk_init "set_kb_item" "set_kb_item" 0 ["name"; "value"];
   mk_init "get_kb_item" "get_kb_item" 1 [];
   mk_init "get_kb_fresh_item" "get_kb_fresh_item" 1 [];
   mk_init "get_kb_list" "get_kb_list" 1 [];
   mk_init "security_message" "security_message" 1 ["data"; "port"; "proto"; "protocol"];
   mk_init "security_warning" "security_message" 1 ["data"; "port"; "proto"; "protocol"];
   mk_init "security_note" "security_message" 1 ["data"; "port"; "proto"; "protocol"];
   mk_init "security_hole" "security_message" 1 ["data"; "port"; "proto"; "protocol"];
   mk_init "log_message" "log_message" 1 ["data"; "port"; "proto"; "protocol"];
   mk_init "error_message" "error_message" 1 ["data"; "port"; "proto"; "protocol"];
   mk_init "open_sock_tcp" "nasl_open_sock_tcp" 1 ["bufsz"; "priority"; "timeout"; "transport"];
   mk_init "open_sock_udp" "nasl_open_sock_udp" 1 [];
   mk_init "open_priv_sock_tcp" "nasl_open_priv_sock_tcp" 0 ["dport"; "sport"; "timeout"];
   mk_init "open_priv_sock_udp" "nasl_open_priv_sock_udp" 0 ["dport"; "sport"];
   mk_init "socket_get_error" "nasl_socket_get_error" 1 [];
   mk_init "recv" "nasl_recv" 0 ["length"; "min"; "socket"; "timeout"];
   mk_init "recv_line" "nasl_recv_line" 0 ["length"; "socket"; "timeout"];
   mk_init "send" "nasl_send" 0 ["data"; "length"; "option"; "socket"];
   mk_init "socket_negotiate_ssl" "nasl_socket_negotiate_ssl" 0 ["socket"; "transport"];
   mk_init "socket_get_cert" "nasl_socket_get_cert" 0 ["socket"];
   mk_init "socket_get_ssl_version" "nasl_socket_get_ssl_version" 0 ["socket"];
   mk_init "socket_get_ssl_ciphersuite" "nasl_socket_get_ssl_ciphersuite" 0 ["socket"];
   mk_init "socket_get_ssl_session_id" "nasl_socket_get_ssl_session_id" 0 ["socket"];
   mk_init "socket_get_ssl_compression" "nasl_socket_get_ssl_compression" 0 ["socket"];
   mk_init "close" "nasl_close_socket" 1 [];
   mk_init "join_multicast_group" "nasl_join_multicast_group" 1 [];
   mk_init "leave_multicast_group" "nasl_leave_multicast_group" 1 [];
   mk_init "get_source_port" "nasl_get_source_port" 1 [];
   mk_init "get_sock_info" "nasl_get_sock_info" 2 ["asstring"];
   mk_init "cgibin" "cgibin" 0 [];
   mk_init "http_open_socket" "http_open_socket" 1 [];
   mk_init "http_head" "http_head" 0 ["data"; "item"; "port"];
   mk_init "http_get" "http_get" 0 ["data"; "item"; "port"];
   mk_init "http_post" "http_post" 0 ["data"; "item"; "port"];
   mk_init "http_delete" "http_delete" 0 ["data"; "item"; "port"];
   mk_init "http_put" "http_put" 0 ["data"; "item"; "port"];
   mk_init "http_close_socket" "http_close_socket" 0 ["socket"];
   mk_init "get_host_name" "get_hostname" 0 [];
   mk_init "get_host_ip" "get_host_ip" 0 [];
   mk_init "same_host" "nasl_same_host" 2 ["cmp_hostname"];
   mk_init "TARGET_IS_IPV6" "nasl_target_is_ipv6" 0 [];
   mk_init "get_host_open_port" "get_host_open_port" 0 [];
   mk_init "get_port_state" "get_port_state" 1 [];
   mk_init "get_tcp_port_state" "get_port_state" 1 [];
   mk_init "get_udp_port_state" "get_udp_port_state" 1 [];
   mk_init "scanner_add_port" "nasl_scanner_add_port" 0 ["port"; "proto"];
   mk_init "scanner_status" "nasl_scanner_status" 0 ["current"; "total"];
   mk_init "scanner_get_port" "nasl_scanner_get_port" 1 [];
   mk_init "islocalhost" "nasl_islocalhost" 0 [];
   mk_init "islocalnet" "nasl_islocalnet" 0 [];
   mk_init "get_port_transport" "get_port_transport" 1 ["asstring"];
   mk_init "this_host" "nasl_this_host" 0 [];
   mk_init "this_host_name" "nasl_this_host_name" 0 [];
   mk_init "string" "nasl_string" 9999 [];
   mk_init "raw_string" "nasl_rawstring" 9999 [];
   mk_init "strcat" "nasl_strcat" 9999 [];
   mk_init "display" "nasl_display" 9999 [];
   mk_init "ord" "nasl_ord" 1 [];
   mk_init "hex" "nasl_hex" 1 [];
   mk_init "hexstr" "nasl_hexstr" 1 [];
   mk_init "strstr" "nasl_strstr" 2 [];
   mk_init "ereg" "nasl_ereg" 0 ["icase"; "multiline"; "pattern"; "string"];
   mk_init "ereg_replace" "nasl_ereg_replace" 0 ["icase"; "pattern"; "replace"; "string"];
   mk_init "egrep" "nasl_egrep" 0 ["icase"; "pattern"; "string"];
   mk_init "eregmatch" "nasl_eregmatch" 0 ["icase"; "pattern"; "string"];
   mk_init "match" "nasl_match" 0 ["icase"; "pattern"; "string"];
   mk_init "substr" "nasl_substr" 3 [];
   mk_init "insstr" "nasl_insstr" 4 [];
   mk_init "tolower" "nasl_tolower" 1 [];
   mk_init "toupper" "nasl_toupper" 1 [];
   mk_init "crap" "nasl_crap" 1 ["data"; "length"];
   mk_init "strlen" "nasl_strlen" 1 [];
   mk_init "split" "nasl_split" 1 ["keep"; "sep"];
   mk_init "chomp" "nasl_chomp" 1 [];
   mk_init "int" "nasl_int" 1 [];
   mk_init "stridx" "nasl_stridx" 3 [];
   mk_init "str_replace" "nasl_str_replace" 0 ["count"; "find"; "replace"; "string"]]%string.

Definition libfuncs_packets : list init_func := [
   mk_init "make_list" "nasl_make_list" 9999 [];
   mk_init "make_array" "nasl_make_array" 9999 [];
   mk_init "keys" "nasl_keys" 9999 [];
   mk_init "max_index" "nasl_max_index" 1 [];
   mk_init "sort" "nasl_sort_array" 9999 [];
   mk_init "unixtime" "nasl_unixtime" 0 [];
   mk_init "gettimeofday" "nasl_gettimeofday" 0 [];
   mk_init "localtime" "nasl_localtime" 1 ["utc"];
   mk_init "mktime" "nasl_mktime" 0 ["hour"; "isdst"; "mday"; "min"; "mon"; "sec"; "year"];
   mk_init "open_sock_kdc" "nasl_open_sock_kdc" 0 [];
   mk_init "telnet_init" "nasl_telnet_init" 1 [];
   mk_init "ftp_log_in" "nasl_ftp_log_in" 0 ["pass"; "socket"; "user"];
   mk_init "ftp_get_pasv_port" "nasl_ftp_get_pasv_address" 0 ["socket"];
   mk_init "start_denial" "nasl_start_denial" 0 [];
   mk_init "end_denial" "nasl_end_denial" 0 [];
   mk_init "dump_ctxt" "nasl_dump_ctxt" 0 [];
   mk_init "typeof" "nasl_typeof" 1 [];
   mk_init "exit" "nasl_do_exit" 1 [];
   mk_init "rand" "nasl_rand" 0 [];
   mk_init "usleep" "nasl_usleep" 1 [];
   mk_init "sleep" "nasl_sleep" 1 [];
   mk_init "isnull" "nasl_isnull" 1 [];
   mk_init "defined_func" "nasl_defined_func" 1 [];
   mk_init "func_named_args" "nasl_func_named_args" 1 [];
   mk_init "func_unnamed_args" "nasl_func_unnamed_args" 1 [];
   mk_init "func_has_arg" "nasl_func_has_arg" 2 [];
   mk_init "forge_ip_packet" "forge_ip_packet" 0 ["data"; "ip_dst"; "ip_hl"; "ip_id"; "ip_len"; "ip_off"; "ip_p"; "ip_src"; "ip_sum"; "ip_tos"; "ip_ttl"; "ip_v"];
   mk_init "forge_ipv6_packet" "forge_ipv6_packet" 0 ["data"; "ip6_dst"; "ip6_fl"; "ip6_hlim"; "ip6_p"; "ip6_src"; "ip6_tc"; "ip6_v"];
   mk_init "get_ip_element" "get_ip_element" 0 ["element"; "ip"];
   mk_init "get_ipv6_element" "get_ipv6_element" 0 ["element"; "ipv6"];
   mk_init "set_ip_elements" "set_ip_elements" 0 ["ip"; "ip_dst"; "ip_hl"; "ip_id"; "ip_len"; "ip_off"; "ip_p"; "ip_src"; "ip_sum"; "ip_tos"; "ip_ttl"; "ip_v"];
   mk_init "set_ipv6_elements" "set_ipv6_elements" 0 ["ip6"; "ip6_dst"; "ip6_fl"; "ip6_hlim"; "ip6_nxt"; "ip6_plen"; "ip6_src"; "ip6_tc"; "ip6_v"];
   mk_init "insert_ip_options" "insert_ip_options" 0 ["code"; "ip"; "length"; "value"];
   mk_init "insert_ipv6_options" "insert_ipv6_options" 0 ["code"; "flags"; "ip6"; "length"; "lifetime"; "reacheable_time"; "retransmit_timer"; "value"];
   mk_init "dump_ip_packet" "dump_ip_packet" 9999 [];
   mk_init "dump_ipv6_packet" "dump_ipv6_packet" 9999 [];
   mk_init "forge_tcp_packet" "forge_tcp_packet" 0 ["data"; "ip"; "th_ack"; "th_dport"; "th_flags"; "th_off"; "th_seq"; "th_sport"; "th_sum"; "th_urp"; "th_win"; "th_x2"; "update_ip_len"];
   mk_init "forge_tcp_v6_packet" "forge_tcp_v6_packet" 0 ["data"; "ip6"; "th_ack"; "th_dport"; "th_flags"; "th_off"; "th_seq"; "th_sport"; "th_sum"; "th_urp"; "th_win"; "th_x2"];
   mk_init "get_tcp_element" "get_tcp_element" 0 ["element"; "tcp"];
   mk_init "get_tcp_v6_element" "get_tcp_v6_element" 0 ["element"; "tcp"];
   mk_init "set_tcp_elements" "set_tcp_elements" 0 ["data"; "tcp"; "th_ack"; "th_dport"; "th_flags"; "th_off"; "th_seq"; "th_sport"; "th_sum"; "th_urp"; "th_win"; "th_x2"];
   mk_init "set_tcp_v6_elements" "set_tcp_v6_elements" 0 ["data"; "tcp"; "th_ack"; "th_dport"; "th_flags"; "th_off"; "th_seq"; "th_sport"; "th_sum"; "th_urp"; "th_win"; "th_x2"];
   mk_init "dump_tcp_packet" "dump_tcp_packet" 999 [];
   mk_init "dump_tcp_v6_packet" "dump_tcp_v6_packet" 999 [];
   mk_init "tcp_ping" "nasl_tcp_ping" 0 ["port"];
   mk_init "tcp_v6_ping" "nasl_tcp_v6_ping" 0 ["port"];
   mk_init "forge_udp_packet" "forge_udp_packet" 0 ["data"; "ip"; "uh_dport"; "uh_sport"; "uh_sum"; "uh_ulen"; "update_ip_len"];
   mk_init "forge_udp_v6_packet" "forge_udp_v6_packet" 0 ["data"; "ip6"; "uh_dport"; "uh_sport"; "uh_sum"; "uh_ulen"; "update_ip6_len"];
   mk_init "get_udp_element" "get_udp_element" 0 ["element"; "udp"];
   mk_init "get_udp_v6_element" "get_udp_v6_element" 0 ["element"; "udp"];
   mk_init "set_udp_elements" "set_udp_elements" 0 ["data"; "udp"; "uh_dport"; "uh_sport"; "uh_sum"; "uh_ulen"];
   mk_init "set_udp_v6_elements" "set_udp_v6_elements" 0 ["data"; "udp"; "uh_dport"; "uh_sport"; "uh_sum"; "uh_ulen"];
   mk_init "dump_udp_packet" "dump_udp_packet" 999 [];
   mk_init "dump_udp_v6_packet" "dump_udp_v6_packet" 999 [];
   mk_init "forge_icmp_packet" "forge_icmp_packet" 0 ["data"; "icmp_cksum"; "icmp_code"; "icmp_id"; "icmp_seq"; "icmp_type"; "ip"; "update_ip_len"];
   mk_init "forge_icmp_v6_packet" "forge_icmp_v6_packet" 0 ["data"; "icmp_cksum"; "icmp_code"; "icmp_id"; "icmp_seq"; "icmp_type"; "ip6"; "update_ip6_len"];
   mk_init "get_icmp_element" "get_icmp_element" 0 ["element"; "icmp"];
   mk_init "get_icmp_v6_element" "get_icmp_v6_element" 0 ["element"; "icmp"];
   mk_init "forge_igmp_packet" "forge_igmp_packet" 0 ["code"; "data"; "group"; "ip"; "type"; "update_ip_len"];
   mk_init "forge_igmp_v6_packet" "forge_igmp_v6_packet" 0 ["code"; "data"; "group"; "ip"; "type"; "update_ip6_len"];
   mk_init "send_packet" "nasl_send_packet" 99 ["length"; "pcap_active"; "pcap_filter"; "pcap_timeout"];
   mk_init "send_v6packet" "nasl_send_v6packet" 99 ["length"; "pcap_active"; "pcap_filter"; "pcap_timeout"];
   mk_init "pcap_next" "nasl_pcap_next" 1 ["interface"; "pcap_filter"; "timeout"];
   mk_init "send_capture" "nasl_send_capture" 1 ["data"; "interface"; "length"; "option"; "pcap_filter"; "socket"; "timeout"]]%string.

Definition libfuncs_crypto : list init_func := [
   mk_init "MD2" "nasl_md2" 1 [];
   mk_init "MD4" "nasl_md4" 1 [];
   mk_init "MD5" "nasl_md5" 1 [];
   mk_init "SHA1" "nasl_sha1" 1 [];
   mk_init "RIPEMD160" "nasl_ripemd160" 1 [];
   mk_init "HMAC_MD2" "nasl_hmac_md2" 0 ["data"; "key"];
   mk_init "HMAC_MD5" "nasl_hmac_md5" 0 ["data"; "key"];
   mk_init "HMAC_SHA1" "nasl_hmac_sha1" 0 ["data"; "key"];
   mk_init "HMAC_RIPEMD160" "nasl_hmac_ripemd160" 0 ["data"; "key"];
   mk_init "ntlmv2_response" "nasl_ntlmv2_response" 0 ["address_list"; "address_list_len"; "crypt_key"; "domain"; "ntlmv2_hash"; "user"];
   mk_init "ntlm2_response" "nasl_ntlm2_response" 0 ["cryptkey"; "nt_hash"; "password"];
   mk_init "ntlm_response" "nasl_ntlm_response" 0 ["cryptkey"; "neg_flags"; "nt_hash"; "password"];
   mk_init "key_exchange" "nasl_keyexchg" 0 ["cryptkey"; "nt_hash"; "session_key"];
   mk_init "NTLMv1_HASH" "nasl_ntlmv1_hash" 0 ["cryptkey"; "passhash"];
   mk_init "NTLMv2_HASH" "nasl_ntlmv2_hash" 0 ["cryptkey"; "length"; "passhash"];
   mk_init "nt_owf_gen" "nasl_nt_owf_gen" 1 [];
   mk_init "lm_owf_gen" "nasl_lm_owf_gen" 1 [];
   mk_init "ntv2_owf_gen" "nasl_ntv2_owf_gen" 0 ["domain"; "login"; "owf"];
   mk_init "insert_hexzeros" "nasl_insert_hexzeros" 0 ["in"];
   mk_init "dec2str" "nasl_dec2str" 0 ["num"];
   mk_init "get_signature" "nasl_get_sign" 0 ["buf"; "buflen"; "key"; "seq_number"];
   mk_init "dh_generate_key" "nasl_dh_generate_key" 0 ["g"; "p"; "priv"];
   mk_init "bn_random" "nasl_bn_random" 0 ["need"];
   mk_init "bn_cmp" "nasl_bn_cmp" 0 ["key1"; "key2"];
   mk_init "dh_compute_key" "nasl_dh_compute_key" 0 ["dh_server_pub"; "g"; "p"; "priv_key"; "pub_key"];
   mk_init "rsa_public_decrypt" "nasl_rsa_public_decrypt" 0 ["e"; "n"; "sig"];
   mk_init "bf_cbc_encrypt" "nasl_bf_cbc_encrypt" 0 ["data"; "iv"; "key"];
   mk_init "bf_cbc_decrypt" "nasl_bf_cbc_decrypt" 0 ["data"; "iv"; "key"];
   mk_init "dsa_do_verify" "nasl_dsa_do_verify" 0 ["data"; "g"; "p"; "pub"; "q"; "r"; "s"];
   mk_init "pem_to_rsa" "nasl_pem_to_rsa" 0 ["passphrase"; "priv"];
   mk_init "pem_to_dsa" "nasl_pem_to_dsa" 0 ["passphrase"; "priv"];
   mk_init "rsa_sign" "nasl_rsa_sign" 0 ["d"; "data"; "e"; "n"];
   mk_init "dsa_do_sign" "nasl_dsa_do_sign" 0 ["data"; "g"; "p"; "priv"; "pub"; "q"];
   mk_init "gunzip" "nasl_gunzip" 0 ["data"; "len"];
   mk_init "gzip" "nasl_gzip" 0 ["data"; "len"]]%string.

Definition libfuncs_ssh : list init_func := [
   mk_init "ssh_connect" "nasl_ssh_connect" 0 ["port"; "socket"];
   mk_init "ssh_disconnect" "nasl_ssh_disconnect" 1 [];
   mk_init "ssh_session_id_from_sock" "nasl_ssh_session_id_from_sock" 1 [];
   mk_init "ssh_get_sock" "nasl_ssh_get_sock" 1 [];
   mk_init "ssh_set_login" "nasl_ssh_set_login" 1 ["login"];
   mk_init "ssh_userauth" "nasl_ssh_userauth" 1 ["login"; "password"];
   mk_init "ssh_request_exec" "nasl_ssh_request_exec" 1 ["cmd"; "stderr"; "stdout"];
   mk_init "ssh_get_issue_banner" "nasl_ssh_get_issue_banner" 1 []]%string.

Definition libfuncs_ssh6 : list init_func := [
   mk_init "ssh_get_server_banner" "nasl_ssh_get_server_banner" 1 []]%string.

Definition libfuncs_ssh_end : list init_func := [
   mk_init "ssh_get_auth_methods" "nasl_ssh_get_auth_methods" 1 []]%string.

Definition libfuncs_cert : list init_func := [
   mk_init "cert_open" "nasl_cert_open" 1 ["errorvar"];
   mk_init "cert_close" "nasl_cert_close" 1 [];
   mk_init "cert_query" "nasl_cert_query" 2 ["idx"]]%string.

Definition libfuncs_last : list init_func := [
   mk_init "pread" "nasl_pread" 0 ["argv"; "cd"; "cmd"; "nice"];
   mk_init "find_in_path" "nasl_find_in_path" 1 [];
   mk_init "fread" "nasl_fread" 1 [];
   mk_init "fwrite" "nasl_fwrite" 0 ["data"; "file"];
   mk_init "unlink" "nasl_unlink" 1 [];
   mk_init "get_tmp_dir" "nasl_get_tmp_dir" 0 [];
   mk_init "get_byte_order" "nasl_get_byte_order" 0 [];
   mk_init "file_stat" "nasl_file_stat" 1 [];
   mk_init "file_open" "nasl_file_open" 0 ["mode"; "name"];
   mk_init "file_close" "nasl_file_close" 1 [];
   mk_init "file_read" "nasl_file_read" 0 ["fp"; "length"];
   mk_init "file_write" "nasl_file_write" 0 ["data"; "fp"];
   mk_init "file_seek" "nasl_file_seek" 0 ["fp"; "offset"];
   mk_init "wmi_versioninfo" "nasl_wmi_versioninfo" 0 [];
   mk_init "wmi_connect" "nasl_wmi_connect" 4 ["ns"; "password"; "username"];
   mk_init "wmi_close" "nasl_wmi_close" 0 ["wmi_handle"];
   mk_init "wmi_query" "nasl_wmi_query" 0 ["query"; "wmi_handle"];
   mk_init "wmi_connect_rsop" "nasl_wmi_connect_rsop" 0 ["password"; "username"];
   mk_init "wmi_query_rsop" "nasl_wmi_query_rsop" 0 ["query"; "wmi_handle"];
   mk_init "wmi_connect_reg" "nasl_wmi_connect_reg" 0 ["password"; "username"];
   mk_init "wmi_reg_enum_key" "nasl_wmi_reg_enum_key" 0 ["hive"; "key"; "wmi_handle"];
   mk_init "wmi_reg_enum_value" "nasl_wmi_reg_enum_value" 0 ["hive"; "key"; "wmi_handle"];
   mk_init "wmi_reg_get_sz" "nasl_wmi_reg_get_sz" 0 ["hive"; "key"; "key_name"; "wmi_handle"];
   mk_init "wmi_reg_get_bin_val" "nasl_wmi_reg_get_bin_val" 0 ["hive"; "key"; "val_name"; "wmi_handle"];
   mk_init "wmi_reg_get_dword_val" "nasl_wmi_reg_get_dword_val" 0 ["hive"; "key"; "val_name"; "wmi_handle"];
   mk_init "wmi_reg_get_ex_string_val" "nasl_wmi_reg_get_ex_string_val" 0 ["hive"; "key"; "val_name"; "wmi_handle"];
   mk_init "wmi_reg_get_mul_string_val" "nasl_wmi_reg_get_mul_string_val" 0 ["hive"; "key"; "val_name"; "wmi_handle"];
   mk_init "wmi_reg_get_qword_val" "nasl_wmi_reg_get_qword_val" 0 ["hive"; "key"; "val_name"; "wmi_handle"];
   mk_init "wmi_reg_set_dword_val" "nasl_wmi_reg_set_dword_val" 0 ["hive"; "key"; "val"; "val_name"; "wmi_handle"];
   mk_init "wmi_reg_set_qword_val" "nasl_wmi_reg_set_qword_val" 0 ["hive"; "key"; "val"; "val_name"; "wmi_handle"];
   mk_init "wmi_reg_set_ex_string_val" "nasl_wmi_reg_set_ex_string_val" 0 ["hive"; "key"; "val"; "val_name"; "wmi_handle"];
   mk_init "wmi_reg_set_string_val" "nasl_wmi_reg_set_string_val" 0 ["hive"; "key"; "val"; "val_name"; "wmi_handle"];
   mk_init "wmi_reg_create_key" "nasl_wmi_reg_create_key" 0 ["hive"; "key"; "wmi_handle"];
   mk_init "wmi_reg_delete_key" "nasl_wmi_reg_delete_key" 0 ["hive"; "key"; "wmi_handle"];
   mk_init "smb_versioninfo" "nasl_smb_versioninfo" 0 [];
   mk_init "smb_connect" "nasl_smb_connect" 0 ["password"; "share"; "username"];
   mk_init "smb_close" "nasl_smb_close" 0 ["smb_handle"];
   mk_init "smb_file_SDDL" "nasl_smb_file_SDDL" 0 ["filename"; "smb_handle"];
   mk_init "smb_file_owner_sid" "nasl_smb_file_owner_sid" 0 ["filename"; "smb_handle"];
   mk_init "smb_file_group_sid" "nasl_smb_file_group_sid" 0 ["filename"; "smb_handle"];
   mk_init "smb_file_trustee_rights" "nasl_smb_file_trustee_rights" 0 ["filename"; "smb_handle"];
   mk_init "win_cmd_exec" "nasl_win_cmd_exec" 0 ["cmd"; "password"; "username"];
   mk_init "scan_phase" "scan_phase" 0 [];
   mk_init "network_targets" "network_targets" 0 [];
   mk_init "plugin_run_find_service" "plugin_run_find_service" 0 [];
   mk_init "plugin_run_openvas_tcp_scanner" "plugin_run_openvas_tcp_scanner" 0 [];
   mk_init "plugin_run_synscan" "plugin_run_synscan" 0 [];
   mk_init "plugin_run_nmap" "plugin_run_nmap" 0 [];
   mk_init "isotime_now" "nasl_isotime_now" 0 [];
   mk_init "isotime_is_valid" "nasl_isotime_is_valid" 1 [];
   mk_init "isotime_scan" "nasl_isotime_scan" 1 [];
   mk_init "isotime_print" "nasl_isotime_print" 1 [];
   mk_init "isotime_add" "nasl_isotime_add" 1 ["days"; "seconds"; "years"]]%string.

(** What the library was built with. *)
Record features := mk_features { have_libssh : bool; libssh_0_6 : bool; have_libksba : bool }.

Definition libfuncs (b : features) : list init_func :=
  libfuncs_first ++ libfuncs_packets ++ libfuncs_crypto ++
  (if have_libssh b then libfuncs_ssh ++ (if libssh_0_6 b then libfuncs_ssh6 else []) ++ libfuncs_ssh_end else []) ++
  (if have_libksba b then libfuncs_cert else []) ++ libfuncs_last.

Section Library.
Variable macro : string -> Z.

Definition libivars : list (string * Z) := [
   ("TRUE", 1);
   ("FALSE", 0);
   ("pcap_timeout", 5);
   ("IPPROTO_TCP", (macro "IPPROTO_TCP"));
   ("IPPROTO_UDP", (macro "IPPROTO_UDP"));
   ("IPPROTO_ICMP", (macro "IPPROTO_ICMP"));
   ("IPROTO_IP", (macro "IPPROTO_IP"));
   ("IPPROTO_IGMP", (macro "IPPROTO_IGMP"));
   ("ENCAPS_AUTO", 0);
   ("ENCAPS_IP", 1);
   ("ENCAPS_SSLv23", 2);
   ("ENCAPS_SSLv2", 3);
   ("ENCAPS_SSLv3", 4);
   ("ENCAPS_TLSv1", 5);
   ("ENCAPS_TLSv11", 6);
   ("ENCAPS_TLSv12", 7);
   ("ENCAPS_TLScustom", 8);
   ("ENCAPS_MAX", 9);
   ("TH_FIN", (macro "TH_FIN"));
   ("TH_SYN", (macro "TH_SYN"));
   ("TH_RST", (macro "TH_RST"));
   ("TH_PUSH", (macro "TH_PUSH"));
   ("TH_ACK", (macro "TH_ACK"));
   ("TH_URG", (macro "TH_URG"));
   ("IP_RF", (macro "IP_RF"));
   ("IP_DF", (macro "IP_DF"));
   ("IP_MF", (macro "IP_MF"));
   ("IP_OFFMASK", (macro "IP_OFFMASK"));
   ("ACT_INIT", 0);
   ("ACT_GATHER_INFO", 3);
   ("ACT_ATTACK", 4);
   ("ACT_MIXED_ATTACK", 5);
   ("ACT_DESTRUCTIVE_ATTACK", 6);
   ("ACT_DENIAL", 7);
   ("ACT_SCANNER", 1);
   ("ACT_SETTINGS", 2);
   ("ACT_KILL_HOST", 8);
   ("ACT_FLOOD", 9);
   ("ACT_END", 10);
   ("MSG_OOB", (macro "MSG_OOB"));
   ("NOERR", 0);
   ("ETIMEDOUT", 1);
   ("ECONNRESET", 2);
   ("EUNREACH", 3);
   ("EUNKNOWN", 99)]%string.

Variable OPENVASLIB_VERSION : string.
Definition libsvars : list (string * string) := [("OPENVAS_VERSION", OPENVASLIB_VERSION)]%string.

(** *** [init_nasl_library] *)

Definition lib_func (f : init_func) : nasl_func :=
  mk_func (if_name f) false (unnamed f) (if_args f) (internal_block (c_code f)).

Definition init_function (f : init_func) : M state Z :=
  pf ← get_func_ref_by_name (if_name f);
  match pf with
  | Some _ => mret 0
  | None => update_lexic (insert_func (lib_func f));; mret 1
  end.

(** [add_named_var_to_ctxt (lexic, ...)] *)
Definition add_var (name : string) (tc : tree_cell) : M state Z :=
  c ← lexic;
  r ← lift (add_named_var_to_ctxt 1 c name tc);
  update_lexic (fun _ => snd r);;
  mret (match fst r with Some _ => 1 | None => 0 end).

Fixpoint count_up {A} (f : A -> M state Z) (l : list A) (c : Z) : M state Z :=
  match l with
  | [] => mret c
  | x :: l' => n ← f x; count_up f l' (c + n)
  end.

(** [disabled] is whether [OPENVAS_DISABLE_LIBSSH] is set. *)
Definition init_nasl_library (b : features) (disabled : bool) : M state Z :=
  c ← count_up init_function (libfuncs b) 0;
  c ← count_up (fun v => add_var (fst v) (int2cell (snd v))) libivars c;
  c ← (if have_libssh b
       then count_up (fun v => add_var (fst v) (int2cell (snd v)))
              [("_HAVE_LIBSSH"%string, if disabled then 0 else 1)] c
       else mret c);
  c ← count_up (fun v => add_var (fst v) (NaslText.data_result (snd v))) libsvars c;
  add_var "NULL" NULL;;
  mret c.
End Library.

(** ** The functions in C

    The ones that are modelled, by their names in C. *)

Section Functions.
Variable stale : Z -> ascii.
Variable regcomp : bool -> string -> bool.
Variable regexec : bool -> bool -> string -> string -> NaslText.reg_result.
Variable time_now : Z.
Variable gmtime : Z -> Z * Z * Z * Z * Z * Z.
Variable oid : option string.
Variable plug_set_key : string -> option string -> M state unit.

Definition modelled_functions : list (string * M state tree_cell) :=
  [("nasl_string", NaslText.nasl_string stale); ("nasl_rawstring", NaslText.nasl_rawstring);
   ("nasl_strcat", NaslText.nasl_strcat); ("nasl_display", NaslText.nasl_display stale);
   ("nasl_ord", NaslText.nasl_ord); ("nasl_hex", NaslText.nasl_hex); ("nasl_hexstr", NaslText.nasl_hexstr);
   ("nasl_strstr", NaslText.nasl_strstr); ("nasl_ereg", NaslText.nasl_ereg regcomp regexec);
   ("nasl_ereg_replace", NaslText.nasl_ereg_replace regcomp regexec);
   ("nasl_egrep", NaslText.nasl_egrep regcomp regexec); ("nasl_eregmatch", NaslText.nasl_eregmatch regcomp regexec);
   ("nasl_match", NaslText.nasl_match); ("nasl_substr", NaslText.nasl_substr); ("nasl_insstr", NaslText.nasl_insstr);
   ("nasl_tolower", NaslText.nasl_tolower); ("nasl_toupper", NaslText.nasl_toupper); ("nasl_crap", NaslText.nasl_crap);
   ("nasl_strlen", NaslText.nasl_strlen); ("nasl_split", NaslText.nasl_split); ("nasl_chomp", NaslText.nasl_chomp);
   ("nasl_int", NaslText.nasl_int); ("nasl_stridx", NaslText.nasl_stridx);
   ("nasl_str_replace", NaslText.nasl_str_replace);
   ("nasl_isotime_now", NaslTime.nasl_isotime_now time_now gmtime);
   ("nasl_isotime_is_valid", NaslTime.nasl_isotime_is_valid); ("nasl_isotime_scan", NaslTime.nasl_isotime_scan);
   ("nasl_isotime_print", NaslTime.nasl_isotime_print); ("nasl_isotime_add", NaslTime.nasl_isotime_add);
   ("nasl_do_exit", NaslText.nasl_do_exit oid plug_set_key)]%string.

Definition c_function (other : string -> M state tree_cell) (g : string) : M state tree_cell :=
  match List.find (fun f => String.eqb g (fst f)) modelled_functions with
  | Some f => snd f
  | None => other g
  end.
End Functions.

(** ** [exec_nasl_script] *)

(** Bits of the mode. *)
Definition NASL_EXEC_DESCR : Z := 0.
Definition NASL_EXEC_PARSE_ONLY : Z := 1.
Definition NASL_EXEC_DONT_CLEANUP : Z := 2.
Definition NASL_ALWAYS_SIGNED : Z := 3.
Definition NASL_COMMAND_LINE : Z := 4.
Definition NASL_LINT : Z := 5.

Inductive script_end :=
| Returns (err : Z)
| Dies.

(** The text after the last slash. *)
Fixpoint last_name (p s : string) : string :=
  match s with
  | EmptyString => p
  | String c s' => last_name (if CStr.code c =? 47 then s' else p) s'
  end.

Section Script.
Context `{G : Glib}.
Variable fopen : nat -> string -> option string.
Variable g_build_filename : string -> string -> string.
Variable nasl_verify_signature : string -> Z.
Variable re_compiles : string -> bool.
Variable re_matches : string -> string -> Z.
Variable builtin : string -> M state tree_cell.
Variable nasl_lint : tree_cell -> M state tree_cell.
Variable macro : string -> Z.
Variable OPENVASLIB_VERSION : string.
Variable build : features.
Variable disabled : bool.                  (* libssh, by the environment *)
Variable g_path_get_dirname : string -> string.
Variable g_chdir : string -> bool.         (* whether it succeeds *)
Variable back : bool.                      (* whether the way back does *)

(** [script_infos] with the cache of names, and the interpreter's world. *)
Record session := mk_session { s_cache : cache_st; s_infos : arglist; s_world : world }.

Definition set_script_name (name : string) (s : session) : session :=
  match arg_get_value (s_infos s) "script_name" with
  | VNull =>
      let '(c, l) := arg_add_value (s_cache s) (s_infos s) "script_name" ARG_STRING (CStr.slen name) (VStr name) in
      mk_session c l (s_world s)
  | _ => mk_session (s_cache s) (snd (arg_set_value (s_infos s) (Some "script_name"%string) (CStr.slen name) (VStr name))) (s_world s)
  end.

Definition read_timeout (infos : arglist) : outcome Z :=
  let of_text v := match v with
                   | VStr s => Ret (CStr.atoi s)
                   | VNull => Ret 5
                   | _ => Undef
                   end in
  match match arg_get_value infos "preferences" with
        | VList prefs => of_text (arg_get_value (Some prefs) "checks_read_timeout")
        | VNull => of_text (arg_get_value None "checks_read_timeout")
        | _ => Undef
        end with
  | Ret z => Ret (if z <=? 0 then 5 else z)
  | NoReturn => NoReturn
  | Undef => Undef
  end.

(** From the new context on; [fuel] bounds the execution. *)
Definition run_script (fuel : nat) (mode : Z) (name : string) (tree : tree_cell) : M state Z :=
  let flag bit := int2cell (if Z.testbit mode bit then 1 else 0) in
  init_nasl_library macro OPENVASLIB_VERSION build disabled;;
  if Z.testbit mode NASL_LINT then
    r ← nasl_lint tree;
    mret (if is_null r then -1 else 0)
  else if Z.testbit mode NASL_EXEC_PARSE_ONLY then mret 0
  else
    add_var "COMMAND_LINE" (flag NASL_COMMAND_LINE);;
    add_var "description" (flag NASL_EXEC_DESCR);;
    add_var "SCRIPT_NAME" (NaslText.data_result (last_name name name));;
    ret ← nasl_exec re_matches builtin fuel tree;
    pf ← get_func_ref_by_name "on_exit";
    match pf with
    | Some pf => nasl_func_call builtin (nasl_exec re_matches builtin fuel) fuel pf NULL;; mret tt
    | None => mret tt
    end;;
    mret (if is_null ret then -1 else 0).

(** The end: back to the old directory, and the context is freed. *)
Definition leave_script (fuel : nat) (mode err : Z) : M state Z :=
  if back then
    if Z.testbit mode NASL_EXEC_DONT_CLEANUP then mret err
    else c ← lexic; lift (free_lex_ctxt fuel c);; mret err
  else mret (-1).

Definition new_context (timeout : Z) : lex_ctxt := set_recv_timeout timeout init_empty_lex_ctxt.

Definition exec_nasl_script (parse_fuel fuel : nat) (name : string) (mode : Z) : M session script_end := fun s =>
  let infos := s_infos s in                  (* the preferences are looked up first *)
  let s := set_script_name name s in
  if negb (g_chdir (g_path_get_dirname name)) then Ret (Returns (-1), s)
  else
    let signed := Z.testbit mode NASL_ALWAYS_SIGNED in
    let with_world w := mk_session (s_cache s) (s_infos s) w in
    match init_nasl_ctx fopen g_build_filename nasl_verify_signature signed 0 name (s_world s) with
    | Ret (Some l, w) =>
        match naslparse fopen g_build_filename nasl_verify_signature re_compiles signed parse_fuel l w with
        | Ret ((Aborted, _), w) => Ret (Dies, with_world w)
        | Ret ((Returned code, p), w) =>
            if negb (code =? 0) then Ret (Returns (-1), with_world w)
            else
              match read_timeout infos with
              | Ret to =>
                  match (err ← run_script fuel mode name (tree p); leave_script fuel mode err)
                          (mk_state (w_store w) [new_context to]) with
                  | Ret (err, st) => Ret (Returns err, with_world (mk_world (st_store st) (inc_dirs w)))
                  | NoReturn => NoReturn
                  | Undef => Undef
                  end
              | NoReturn => NoReturn
              | Undef => Undef
              end
        | NoReturn => NoReturn
        | Undef => Undef
        end
    | Ret (None, w) => Ret (Returns (-1), with_world w)
    | NoReturn => NoReturn
    | Undef => Undef
    end.
End Script.

End NaslScript.
