(* ===== verification/NaslScriptSpec.v ===== *)
(** * What a script finds, and how it ends

    The library gives a new context every function and every constant of its tables;
    whatever the file, [exec_nasl_script] returns 0 or -1, or ends the process, and
    what it executes is a tree of the grammar in a well-typed state that has the
    library in it. *)

From S2P Require Import Prelude Arglists Nasl NaslVar NaslExec NaslProgSpec NaslCopy NaslTypes NaslLex NaslGrammar NaslParse NaslAutomaton NaslParseSpec NaslTime NaslText NaslTextTypes NaslScript.
From stdpp Require Import base gmap sets list strings.
From Stdlib Require Import Ascii ZArith Lia.
Local Open Scope Z_scope.

Module NaslScriptSpec.
Import Arglists Nasl NaslVar NaslExec NaslProgSpec NaslCopy NaslTypes NaslLex NaslParse NaslParseSpec NaslTextTypes NaslScript.

(** ** Functions *)

Definition func_of (c : lex_ctxt) (x : string) : option nasl_func := get_func x (func_hash x) [c].

Lemma func_bound x : (func_hash x < FUNC_NAME_HASH)%nat.
Proof. apply hash_str2_bound. unfold FUNC_NAME_HASH. lia. Qed.

Lemma func_of_insert f c x : length (functions c) = FUNC_NAME_HASH ->
  func_of (insert_func f c) x = if decide (x = func_name f) then Some f else func_of c x.
Proof.
  intros Hl. unfold func_of. cbn [get_func]. unfold func_bucket at 1, insert_func. cbn [functions set_functions].
  pose proof (func_bound (func_name f)) as Hb.
  destruct (decide (func_hash x = func_hash (func_name f))) as [E|E].
  - rewrite E, list_lookup_insert_eq by lia. cbn [default id List.find].
    destruct (String.eqb_spec x (func_name f)) as [->|]; [by rewrite decide_True by done|].
    by rewrite decide_False by done.
  - rewrite list_lookup_insert_ne by done. case_decide; [by subst|done].
Qed.

Definition func_in (l : list init_func) (x : string) : option nasl_func :=
  option_map lib_func (List.find (fun f => String.eqb x (if_name f)) l).

Lemma func_in_found l f : NoDup (if_name <$> l) -> f ∈ l -> func_in l (if_name f) = Some (lib_func f).
Proof.
  unfold func_in. induction l as [|g l IH]; intros Hd Hin; [by apply elem_of_nil in Hin|].
  apply NoDup_cons in Hd as [Hg Hd]. cbn [List.find]. apply elem_of_cons in Hin as [->|Hin].
  - by rewrite String.eqb_refl.
  - destruct (String.eqb_spec (if_name f) (if_name g)) as [E|]; [|by apply IH].
    destruct Hg. rewrite <- E. by apply list_elem_of_fmap_2.
Qed.

Lemma func_in_none l x : x ∉ if_name <$> l -> func_in l x = None.
Proof.
  intros Hx. unfold func_in. destruct (List.find _ l) as [f|] eqn:E; [|done].
  apply List.find_some in E as [Hf ->%String.eqb_eq]. destruct Hx.
  apply list_elem_of_fmap_2. by apply list_elem_of_In.
Qed.

(** All but the functions. *)
Definition same_but_funcs (c c' : lex_ctxt) : Prop := c' = set_functions (functions c') c.

Lemma init_functions_spec l : forall n st c,
  NoDup (if_name <$> l) -> length (functions c) = FUNC_NAME_HASH ->
  (forall f, f ∈ l -> func_of c (if_name f) = None) ->
  exists c', count_up init_function l n (mk_state st [c]) = Ret (n + Z.of_nat (length l), mk_state st [c']) /\
    same_but_funcs c c' /\ length (functions c') = FUNC_NAME_HASH /\
    forall x, func_of c' x = match func_in l x with Some f => Some f | None => func_of c x end.
Proof.
  induction l as [|f l IH]; intros n st c Hd Hl Hn.
  { exists c. split_and!; [by rewrite Z.add_0_r|by destruct c|done|done]. }
  cbn [count_up]. apply NoDup_cons in Hd as [Hf Hd].
  assert (Hnew : func_of c (if_name f) = None) by (apply Hn; left).
  set (c1 := insert_func (lib_func f) c).
  assert (E : init_function f (mk_state st [c]) = Ret (1, mk_state st [c1])).
  { unfold init_function, get_func_ref_by_name, mbind, M_bind. cbn [st_ctxts]. unfold func_of in Hnew. by rewrite Hnew. }
  destruct (IH (n + 1) st c1) as (c' & Hrun & Hs & Hl' & Hget); [done| | |].
  - unfold c1, insert_func. cbn [functions set_functions]. by rewrite length_insert.
  - intros g Hg. unfold c1. rewrite func_of_insert by done. case_decide as E2.
    + destruct Hf. cbn in E2. rewrite <- E2. by apply list_elem_of_fmap_2.
    + apply Hn. by right.
  - exists c'. split_and!.
    + unfold mbind, M_bind at 1. rewrite E. cbn [fst snd]. rewrite Hrun.
      by replace (n + 1 + Z.of_nat (length l)) with (n + Z.of_nat (length (f :: l))) by (cbn [length]; lia).
    + unfold same_but_funcs in *. rewrite Hs. by destruct c.
    + done.
    + intros x. rewrite Hget. unfold func_in. cbn [List.find]. unfold c1. rewrite func_of_insert by done.
      cbn [func_name lib_func].
      destruct (String.eqb_spec x (if_name f)) as [->|Hne].
      * rewrite decide_True by done. cbn [option_map]. case_match eqn:E2; [|done].
        destruct (List.find _ l) as [g|] eqn:E3; [|done]. apply List.find_some in E3 as [Hg Hx%String.eqb_eq].
        destruct Hf. rewrite Hx. apply list_elem_of_fmap_2. by apply list_elem_of_In.
      * by rewrite decide_False by done.
Qed.

(** ** Variables *)

(** The variable that is made of a constant. *)
Definition gives (tc : tree_cell) (u : anon_nasl_var) : Prop :=
  forall s, create_anon_var 1 tc s
    = Ret (next s, mk_store (<[next s := u]> (heap s)) (Pos.succ (next s)) (a2s_len s)).

Lemma gives_null : gives NULL VAR2_UNDEF.
Proof. intros s. reflexivity. Qed.

Ltac solve_gives :=
  intros s; unfold create_anon_var; cbn [no_cell affect_to_anon_var];
  unfold alloc, load, write;
  do 2 (unfold mbind, M_bind, mret, M_ret; cbn; rewrite !lookup_insert_eq); cbn;
  by rewrite insert_insert_eq.

Lemma gives_int z : gives (int2cell z) (VAR2_INT z).
Proof. solve_gives. Qed.
Lemma gives_data x : gives (NaslText.data_result x) (VAR2_DATA (Some x)).
Proof. solve_gives. Qed.

(** A context with the variables [vs] and no others. *)
Record with_vars (vs : list (string * anon_nasl_var)) (st : store) (c : lex_ctxt) : Prop := mk_with_vars
  { vars_there x u : (x, u) ∈ vs -> exists a, find_in_ctxt x c = Some a /\ heap st !! a = Some u;
    vars_only x : x ∉ vs.*1 -> find_in_ctxt x c = None;
    vars_fresh : fresh st;
    vars_table : exists t, hash_elt (ctx_vars c) = Some t /\ length t = VAR_NAME_HASH }.

Lemma push_table x a c t : hash_elt (ctx_vars c) = Some t -> length t = VAR_NAME_HASH ->
  exists t', hash_elt (ctx_vars (push_var x a c)) = Some t' /\ length t' = VAR_NAME_HASH.
Proof.
  intros Ht Hl. unfold push_var. rewrite Ht. cbn. eexists. split; [done|].
  unfold push_named. by rewrite length_insert.
Qed.

Lemma add_var_spec x tc u vs st c : gives tc u -> x ∉ vs.*1 -> with_vars vs st c ->
  exists st' c', add_var x tc (mk_state st [c]) = Ret (1, mk_state st' [c']) /\
    with_vars (vs ++ [(x, u)]) st' c' /\ same_but_vars c c' /\ heap st ⊆ heap st'.
Proof.
  intros Hg Hx [H1 H2 H3 (t & Ht & Hl)].
  eexists (mk_store (<[next st := u]> (heap st)) (Pos.succ (next st)) (a2s_len st)), (push_var x (next st) c).
  assert (Hnew : heap st !! next st = None) by (apply H3; lia).
  split_and!.
  - unfold add_var, lexic, mbind, M_bind, lift, add_named_var_to_ctxt. cbn [st_ctxts fst snd st_store].
    rewrite H2 by done. unfold mbind, M_bind. by rewrite Hg.
  - split.
    + intros y v [Hy|Hy%list_elem_of_singleton]%elem_of_app.
      * destruct (H1 _ _ Hy) as (a & Ha & Hh). exists a. rewrite (find_in_push y x _ c t) by done.
        rewrite decide_False; [|intros ->; by apply Hx, (list_elem_of_fmap_2 fst _ _ Hy)]. split; [done|].
        cbn. rewrite lookup_insert_ne; [done|]. intros <-. by rewrite Hnew in Hh.
      * injection Hy as -> ->. exists (next st). rewrite (find_in_push x x _ c t), decide_True by done.
        split; [done|]. apply lookup_insert_eq.
    + intros y Hy. rewrite fmap_app, not_elem_of_app in Hy. destruct Hy as [Hy Hyx].
      rewrite (find_in_push y x _ c t) by done. rewrite decide_False; [by apply H2|].
      intros ->. apply Hyx. left.
    + intros a. cbn. intros Ha. rewrite lookup_insert_ne by lia. apply H3. lia.
    + by eapply push_table.
  - by destruct c.
  - by apply insert_subseteq.
Qed.

(** [m] counts the variables [l], which it adds to a context that has none of them. *)
Definition adds (m : Z -> M state Z) (l : list (string * anon_nasl_var)) : Prop :=
  forall n vs st c, with_vars vs st c -> NoDup (vs.*1 ++ l.*1) ->
  exists st' c', m n (mk_state st [c]) = Ret (n + Z.of_nat (length l), mk_state st' [c']) /\
    with_vars (vs ++ l) st' c' /\ same_but_vars c c' /\ heap st ⊆ heap st'.

Lemma adds_none : adds mret [].
Proof. intros n vs st c Hv _. exists st, c. by rewrite Z.add_0_r, app_nil_r. Qed.

Lemma adds_bind m1 m2 l1 l2 : adds m1 l1 -> adds m2 l2 -> adds (fun n => c ← m1 n; m2 c) (l1 ++ l2).
Proof.
  intros H1 H2 n vs st c Hv Hd. rewrite fmap_app, app_assoc in Hd.
  destruct (H1 n vs st c Hv) as (st1 & c1 & E1 & Hv1 & Hs1 & Hh1); [by apply NoDup_app in Hd as [? _]|].
  destruct (H2 (n + Z.of_nat (length l1)) _ st1 c1 Hv1) as (st2 & c2 & E2 & Hv2 & Hs2 & Hh2); [by rewrite fmap_app|].
  exists st2, c2. split_and!; [|by rewrite app_assoc|by etrans..].
  rewrite (bind_step _ _ _ _ _ E1), E2. rewrite length_app, Nat2Z.inj_add. by rewrite Z.add_assoc.
Qed.

Lemma adds_vars {A} (name : A -> string) (tc : A -> tree_cell) (val : A -> anon_nasl_var) l :
  (forall v, gives (tc v) (val v)) ->
  adds (count_up (fun v => add_var (name v) (tc v)) l) ((fun v => (name v, val v)) <$> l).
Proof.
  intros Hg. induction l as [|v l IH]; [exact adds_none|].
  intros n vs st c Hv Hd. rewrite fmap_cons, fmap_cons, cons_middle, app_assoc in Hd. cbn [fst] in Hd.
  assert (Hx : name v ∉ vs.*1).
  { intros Hin. apply NoDup_app in Hd as [Hd _]. apply NoDup_app in Hd as (_ & Hd & _).
    apply (Hd _ Hin). left. }
  destruct (add_var_spec _ _ _ _ _ _ (Hg v) Hx Hv) as (st1 & c1 & E1 & Hv1 & Hs1 & Hh1).
  destruct (IH (n + 1) _ st1 c1 Hv1) as (st2 & c2 & E2 & Hv2 & Hs2 & Hh2); [by rewrite fmap_app|].
  exists st2, c2. split_and!; [|rewrite fmap_cons, cons_middle, app_assoc; exact Hv2|by etrans..].
  cbn [count_up]. rewrite (bind_step _ _ _ _ _ E1), E2, !length_fmap.
  by replace (n + 1 + Z.of_nat (length l)) with (n + Z.of_nat (length (v :: l))) by (cbn [length]; lia).
Qed.

(** ** The library *)

Lemma functions_distinct b : NoDup (if_name <$> libfuncs b).
Proof. by destruct b as [[] [] []]; apply (bool_decide_unpack _); vm_compute. Qed.

(** The check of [init_nasl_library], [strcmp (q, *p) <= 0]. *)
Fixpoint args_sorted (l : list string) : bool :=
  match l with
  | q :: (p :: _) as l' => String.leb q p && args_sorted l'
  | _ => true
  end.

Lemma functions_sorted b f : f ∈ libfuncs b -> args_sorted (if_args f) = true.
Proof.
  assert (Forall (fun f => args_sorted (if_args f) = true) (libfuncs b)) as H.
  { destruct b as [[] [] []]; apply (bool_decide_unpack _); vm_compute; exact I. }
  by apply (proj1 (Forall_forall _ _) H).
Qed.

Section Library.
Context (macro : string -> Z) (version : string) (build : features) (disabled : bool).

Definition library_vars : list (string * anon_nasl_var) :=
  ((fun v => (fst v, VAR2_INT (snd v))) <$> libivars macro) ++
  (if have_libssh build then [("_HAVE_LIBSSH"%string, VAR2_INT (if disabled then 0 else 1))] else []) ++
  [("OPENVAS_VERSION"%string, VAR2_DATA (Some version)); ("NULL"%string, VAR2_UNDEF)].

Lemma constants_distinct : NoDup (library_vars.*1).
Proof.
  unfold library_vars. rewrite !fmap_app.
  destruct (have_libssh build); apply (bool_decide_unpack _); vm_compute; exact I.
Qed.

(** A context in which the library is, and the variables [more]. *)
Record has_library (more : list (string * anon_nasl_var)) (st : store) (c : lex_ctxt) : Prop := mk_has_library
  { lib_functions x : func_of c x = func_in (libfuncs build) x;
    lib_vars : with_vars (library_vars ++ more) st c }.

Lemma new_context_vars t st : fresh st -> with_vars [] st (new_context t).
Proof.
  intros Hf. split; [by intros x u Hx%elem_of_nil| |done|by eexists].
  intros x _. unfold find_in_ctxt. cbn [new_context set_recv_timeout init_empty_lex_ctxt ctx_vars hash_elt].
  unfold bucket, empty_hash.
  destruct (replicate VAR_NAME_HASH [] !! _) as [l|] eqn:E; [by apply lookup_replicate_1 in E as [-> _]|done].
Qed.

Lemma new_context_funcs t x : func_of (new_context t) x = None.
Proof.
  unfold func_of. cbn [get_func]. unfold func_bucket.
  cbn [new_context set_recv_timeout init_empty_lex_ctxt functions].
  destruct (replicate FUNC_NAME_HASH [] !! _) as [l|] eqn:E; [by apply lookup_replicate_1 in E as [-> _]|done].
Qed.

(** The variables that are counted. *)
Definition constants : list (string * anon_nasl_var) :=
  ((fun v => (fst v, VAR2_INT (snd v))) <$> libivars macro) ++
  (if have_libssh build then [("_HAVE_LIBSSH"%string, VAR2_INT (if disabled then 0 else 1))] else []) ++
  [("OPENVAS_VERSION"%string, VAR2_DATA (Some version))].

Lemma library_vars_eq : library_vars = constants ++ [("NULL"%string, VAR2_UNDEF)].
Proof. unfold library_vars, constants. by rewrite <- !app_assoc. Qed.

Definition constants_from (c : Z) : M state Z :=
  c ← count_up (fun v => add_var (fst v) (int2cell (snd v))) (libivars macro) c;
  c ← (if have_libssh build
       then count_up (fun v => add_var (fst v) (int2cell (snd v))) [("_HAVE_LIBSSH"%string, if disabled then 0 else 1)] c
       else mret c);
  count_up (fun v => add_var (fst v) (NaslText.data_result (snd v))) (libsvars version) c.

Lemma constants_added : adds constants_from constants.
Proof.
  unfold constants, constants_from. apply adds_bind.
  - apply (adds_vars fst (fun v => int2cell (snd v)) (fun v => VAR2_INT (snd v))). intros v. apply gives_int.
  - apply (adds_bind (fun c => if have_libssh build then _ c else mret c)).
    + destruct (have_libssh build); [|exact adds_none].
      apply (adds_vars fst (fun v => int2cell (snd v)) (fun v => VAR2_INT (snd v))
        [("_HAVE_LIBSSH"%string, if disabled then 0 else 1)]). intros v. apply gives_int.
    + apply (adds_vars fst (fun v => NaslText.data_result (snd v)) (fun v => VAR2_DATA (Some (snd v))) (libsvars version)).
      intros v. apply gives_data.
Qed.

(** What [init_nasl_library] does, a state with the library and the number of the
    functions and variables that were added, [NULL] apart. *)
Lemma init_library_spec t st : fresh st ->
  exists st' c', init_nasl_library macro version build disabled (mk_state st [new_context t])
      = Ret (Z.of_nat (length (libfuncs build) + length library_vars) - 1, mk_state st' [c']) /\
    has_library [] st' c' /\ heap st ⊆ heap st' /\
    c' = set_functions (functions c') (set_ctx_vars (ctx_vars c') (new_context t)).
Proof.
  intros Hf. destruct (init_functions_spec (libfuncs build) 0 st (new_context t)) as (c1 & E1 & Hs1 & Hl1 & Hg1).
  { apply functions_distinct. } { done. } { intros f _. apply new_context_funcs. }
  assert (Hv1 : with_vars [] st c1).
  { destruct (new_context_vars t st Hf) as [H1 H2 H3 H4]. rewrite Hs1. by split. }
  pose proof constants_distinct as Hd.
  destruct (constants_added (Z.of_nat (length (libfuncs build))) [] st c1 Hv1) as (st2 & c2 & E2 & Hv2 & Hs2 & Hh2).
  { by rewrite library_vars_eq, fmap_app in Hd; apply NoDup_app in Hd as [Hd _]. }
  rewrite library_vars_eq, fmap_app in Hd. apply NoDup_app in Hd as (_ & Hd & _).
  assert (Hn : "NULL"%string ∉ constants.*1) by (intros Hin; apply (Hd _ Hin); left).
  destruct (add_var_spec "NULL" NULL VAR2_UNDEF _ _ _ gives_null Hn Hv2) as (st3 & c3 & E3 & Hv3 & Hs3 & Hh3).
  cbn [app] in Hv3. rewrite <- library_vars_eq in Hv3.
  exists st3, c3. split_and!.
  - unfold init_nasl_library. rewrite (bind_step _ _ _ _ _ E1), Z.add_0_l.
    transitivity ((c ← constants_from (Z.of_nat (length (libfuncs build))); add_var "NULL" NULL;; mret c) (mk_state st [c1])).
    { unfold constants_from, mbind, M_bind.
      destruct (count_up _ (libivars macro) _ _) as [[n1 s1]| |]; [|done..].
      destruct (have_libssh build); [|done]. by destruct (count_up _ [_] n1 s1) as [[n2 s2]| |]. }
    rewrite (bind_step _ _ _ _ _ E2), (bind_step _ _ _ _ _ E3). rewrite library_vars_eq, length_app.
    unfold mret, M_ret. repeat f_equal. cbn [length]. lia.
  - split; [|by rewrite app_nil_r]. intros x.
    replace (func_of c3 x) with (func_of c1 x) by (rewrite Hs3, Hs2; done).
    rewrite Hg1. case_match; [done|apply new_context_funcs].
  - by etrans.
  - rewrite Hs3, Hs2, Hs1. done.
Qed.

(** The library gives a new context all it has: every function of the tables that the
    build has is found under its name, with its arguments and the function in C, and
    no other; every constant is a variable with its value; the number returned
    counts them, [NULL] apart.  The names in the tables are distinct, so that no entry
    hides another, and the lists of arguments are sorted, as the code checks. *)
Theorem library_complete t st : fresh st ->
  exists s' c', init_nasl_library macro version build disabled (mk_state st [new_context t])
      = Ret (Z.of_nat (length (libfuncs build) + length library_vars) - 1, s') /\ st_ctxts s' = [c'] /\
    (forall f, f ∈ libfuncs build -> get_func_ref_by_name (if_name f) s' = Ret (Some (lib_func f), s')) /\
    (forall x, x ∉ if_name <$> libfuncs build -> get_func_ref_by_name x s' = Ret (None, s')) /\
    (forall f, f ∈ libfuncs build -> args_sorted (if_args f) = true) /\
    (forall x u, (x, u) ∈ library_vars -> exists a, get_var_ref_by_name x true s' = Ret (a, s') /\ heap (st_store s') !! a = Some u) /\
    (forall x, x ∉ library_vars.*1 -> find_in_ctxt x c' = None).
Proof.
  intros Hf. destruct (init_library_spec t st Hf) as (st' & c' & E & [Hg Hv] & _).
  exists (mk_state st' [c']), c'. rewrite app_nil_r in Hv. split; [exact E|]. split; [done|].
  unfold func_of in Hg. unfold get_func_ref_by_name. cbn [st_ctxts]. split_and!.
  - intros f Hin. rewrite Hg, func_in_found; [done|apply functions_distinct|done].
  - intros x Hx. by rewrite Hg, func_in_none.
  - apply functions_sorted.
  - intros x u Hu. destruct (vars_there _ _ _ Hv _ _ Hu) as (a & Ha & Hh). exists a. split; [|exact Hh].
    unfold get_var_ref_by_name. cbn [st_ctxts climb_ctxts]. by rewrite Ha.
  - apply (vars_only _ _ _ Hv).
Qed.
End Library.

(** ** Stores that have room *)

(** Parsing only takes cells that are free. *)
Abbreviation keeps_fresh m := (spec fresh any_change m (fun _ => True)).
Abbreviation keeps_room m := (spec (fun w => fresh (w_store w)) any_change m (fun _ => True)).

Create HintDb room discriminated.
#[export] Hint Constants Opaque : room.
#[export] Hint Variables Opaque : room.

(** As [spec_step], with nothing to be said of the results. *)
Ltac room_step :=
  lazymatch goal with
  | |- spec _ _ (mret _) _ => apply spec_ret; [apply _|done]
  | |- spec _ _ undef _ => apply spec_undef
  | |- spec _ _ no_return _ => apply spec_no_return
  | |- spec _ _ (_ ≫= _) _ => apply (spec_bind _ _ _ _ (fun _ => True)); [..|intros ? _]
  | |- spec _ _ (let _ := _ in _) _ => cbv zeta
  | |- spec _ _ (if ?b then _ else _) _ => destruct b
  | |- spec _ _ (match ?x with _ => _ end) _ => destruct x
  | |- spec _ _ _ _ => solve [eauto with room]
  end.
Ltac room_solve := repeat room_step.

Lemma load_fresh a : keeps_fresh (load a).
Proof. intros s v s' Hs. unfold load. destruct (heap s !! a); [|done]. by intros [= _ <-]. Qed.
Lemma alloc_fresh v : keeps_fresh (alloc v).
Proof.
  intros s a s' Hs [= _ <-]. split_and!; [|done|done]. intros b Hb. cbn in *.
  rewrite lookup_insert_ne by lia. apply Hs. lia.
Qed.
Lemma write_fresh a v : keeps_fresh (write a v).
Proof.
  intros s u s' Hs. unfold write. destruct (heap s !! a) as [w|] eqn:E; [|done]. intros [= _ <-].
  split_and!; [|done|done]. intros b Hb. cbn in *. pose proof (fresh_dom _ _ _ Hs E).
  rewrite lookup_insert_ne by lia. by apply Hs.
Qed.
Lemma free_fresh a : keeps_fresh (free a).
Proof.
  intros s u s' Hs. unfold free. destruct (heap s !! a); [|done]. intros [= _ <-].
  split_and!; [|done|done]. intros b Hb. cbn. apply lookup_delete_None. right. by apply Hs.
Qed.
#[export] Hint Resolve load_fresh alloc_fresh write_fresh free_fresh : room.

Lemma int_of_room {S} (I : S -> Prop) x : spec I any_change (int_of x) (fun _ => True).
Proof. unfold int_of. room_solve. Qed.
Lemma str_of_room {S} (I : S -> Prop) x : spec I any_change (str_of x) (fun _ => True).
Proof. unfold str_of. room_solve. Qed.
#[export] Hint Resolve int_of_room str_of_room : room.

Lemma array_at_fresh a : keeps_fresh (array_at a).
Proof. unfold array_at. room_solve. Qed.
Lemma resize_fresh size num l : keeps_fresh (resize size num l).
Proof. unfold resize. room_solve. Qed.
#[export] Hint Resolve array_at_fresh resize_fresh : room.

Lemma iter_fresh {A} (f : A -> M store unit) l : (forall x, keeps_fresh (f x)) -> keeps_fresh (iterM f l).
Proof. intros Hf. induction l; cbn [iterM]; room_solve. Qed.

Lemma free_array_with_fresh f a : (forall v, keeps_fresh (f v)) -> keeps_fresh (free_array_with f a).
Proof.
  intros Hf. unfold free_array_with. apply (spec_bind _ _ _ _ (fun _ => True)); [by apply iter_fresh|].
  intros _ _. destruct (hash_elt a); [|room_solve]. apply iter_fresh. intros x. apply iter_fresh. intros y. apply Hf.
Qed.

Lemma free_anon_var_fresh k v : keeps_fresh (free_anon_var k v).
Proof.
  revert v. induction k as [|k IH]; intros v; cbn [free_anon_var]; room_solve. by apply free_array_with_fresh.
Qed.
#[export] Hint Resolve free_anon_var_fresh free_array_with_fresh : room.

Lemma copy_array_with_fresh f k a1 a2 named :
  (forall v u, keeps_fresh (f v u)) -> keeps_fresh (copy_array_with f k a1 a2 named).
Proof.
  intros Hf.
  assert (Hu : forall g, keeps_fresh (update_array a1 g)) by (intros g; unfold update_array; room_solve).
  assert (Hd : forall v, keeps_fresh (dup_anon_var_with f v)) by (intros v; unfold dup_anon_var_with; room_solve).
  assert (Hn : forall v, keeps_fresh (dup_named_var f v)) by (intros v; unfold dup_named_var; room_solve).
  assert (He : forall l i, keeps_fresh (copy_elements f a1 i l)) by (induction l; intros; simpl; room_solve).
  assert (Hc : forall l h, keeps_fresh (copy_chain f a1 h l)) by (induction l; intros; simpl; room_solve).
  assert (Ht : forall t h, keeps_fresh (copy_chains f a1 h t)) by (induction t; intros; simpl; room_solve).
  unfold copy_array_with, clear_array, free_array. room_solve.
Qed.

Lemma copy_anon_var_fresh k v u : keeps_fresh (copy_anon_var k v u).
Proof.
  revert v u. induction k as [|k IH]; intros v u; destruct u; cbn [copy_anon_var]; room_solve.
  by apply copy_array_with_fresh.
Qed.
#[export] Hint Resolve copy_anon_var_fresh : room.

Lemma make_array_fresh k el : keeps_fresh (make_array_from_elems k el).
Proof.
  assert (He : forall c v, keeps_fresh (elem_value c v)) by (intros c v; unfold elem_value; room_solve).
  assert (Hl : forall a n v, keeps_fresh (add_var_to_list k a n v)) by (intros; unfold add_var_to_list; room_solve).
  assert (Ha : forall a s v, keeps_fresh (add_var_to_array k a s v)) by (intros; unfold add_var_to_array; room_solve).
  assert (Hs : forall n v a, keeps_fresh (add_elems k el n v a)).
  { clear -He Hl Ha. induction el; intros; cbn [add_elems]; room_solve. }
  unfold make_array_from_elems. room_solve.
Qed.

Lemma on_store_room {A} (m : M store A) : keeps_fresh m -> keeps_room (on_store m).
Proof.
  intros H s a s' Hs. unfold on_store. destruct (m (w_store s)) as [[b t]| |] eqn:E; [|done..].
  intros [= _ <-]. destruct (H _ _ _ Hs E) as (? & _ & _). done.
Qed.

Lemma checked_room {A} (o : outcome A) : keeps_room (NaslParse.checked o).
Proof. intros s a s' Hs. unfold NaslParse.checked. destruct o; [|done..]. by intros [= _ <-]. Qed.
#[export] Hint Resolve on_store_room checked_room make_array_fresh : room.

Section Parser.
Context (fopen : nat -> string -> option string) (g_build_filename : string -> string -> string).
Context (nasl_verify_signature : string -> Z) (regcomp : string -> bool) (always : bool).

Lemma init_ctx_room d name : keeps_room (init_nasl_ctx fopen g_build_filename nasl_verify_signature always d name).
Proof. intros w a w' Hw. unfold init_nasl_ctx. by repeat case_match; intros [= _ <-]. Qed.
Hint Resolve init_ctx_room : room.

Lemma parse_loop_room fuel : forall d p,
  keeps_room (parse_loop fopen g_build_filename nasl_verify_signature regcomp always fuel d p).
Proof.
  induction fuel as [|fuel IH]; intros d p; cbn [NaslParse.parse_loop]; [room_solve|].
  assert (Hi : forall f d name, (forall l, keeps_room (f l)) ->
    keeps_room (include_file fopen g_build_filename nasl_verify_signature always f d name))
    by (intros; unfold include_file; room_solve).
  assert (Ha : forall f d r n v, (forall l, keeps_room (f l)) ->
    keeps_room (action fopen g_build_filename nasl_verify_signature regcomp always f d r n v))
    by (intros; unfold action; room_solve).
  unfold NaslParse.round, perform, yyreduce, yyerrlab, read_token. room_solve.
Qed.
End Parser.

(** ** The steps of a script *)

Section Steps.
Context (re_matches : string -> string -> Z) (builtin : string -> M state tree_cell).
Context (nasl_lint : tree_cell -> M state tree_cell).
Context (macro : string -> Z) (version : string) (build : features) (disabled : bool).
Context (Hbuiltin : forall g, keeps (builtin g) (fun r => ok_result r = true)).
Context (Hlint : forall c, wf Instruction c = true -> changes (nasl_lint c) (fun _ => True)).
Context (Hmacro : forall x, int_ok (macro x) = true).

Lemma add_var_keeps name tc : ok_result tc = true -> keeps (add_var name tc) (fun _ => True).
Proof.
  intros Htc. apply keeps_intro. intros s a s' Hs. unfold add_var, mbind, M_bind, lexic.
  destruct (st_ctxts s) as [|c up] eqn:Ec; [done|]. unfold lift.
  destruct (add_named_var_to_ctxt 1 c name tc (st_store s)) as [[r st]| |] eqn:E; [|done..].
  unfold update_lexic. cbn [st_ctxts]. rewrite Ec. intros [= _ <-]. cbn [st_store st_ctxts].
  destruct (add_named_types 1 c name tc Htc _ _ _ (ok_st _ Hs) E) as (Hst & _ & Hc).
  split; [done|]. split; [|done]. split_and!; [by apply same_vars_frame|reflexivity|by apply ret_kept_same, same_vars_ret].
Qed.

Lemma init_function_changes f : changes (init_function f) (fun _ => True).
Proof.
  unfold init_function. eapply spec_bind; [apply _|apply keeps_changes, get_func_ref_keeps|].
  intros [pf|] _; [by apply spec_ret; [apply _|]|].
  apply (spec_bind _ _ _ _ (fun _ => True)); [|intros; by apply spec_ret; [apply _|]].
  apply update_lexic_changes. intros c. split; [apply insert_func_kind|by apply insert_func_ok].
Qed.

Lemma count_up_changes {A} (f : A -> M state Z) l n :
  (forall x, x ∈ l -> changes (f x) (fun _ => True)) -> changes (count_up f l n) (fun _ => True).
Proof.
  revert n. induction l as [|x l IH]; intros n Hf; cbn [count_up]; [by apply spec_ret; [apply _|]|].
  apply (spec_bind _ _ _ _ (fun _ => True)); [apply Hf; left|]. intros z _. apply IH. intros y Hy. apply Hf. by right.
Qed.

Lemma libivars_ok v : v ∈ libivars macro -> int_ok (snd v) = true.
Proof.
  intros Hv. assert (Forall (fun v => int_ok (snd v) = true) (libivars macro)) as Hall.
  { unfold libivars. repeat (apply Forall_cons; split; [first [apply Hmacro|reflexivity]|]). constructor. }
  by apply (proj1 (Forall_forall _ _) Hall).
Qed.

Lemma library_changes : changes (init_nasl_library macro version build disabled) (fun _ => True).
Proof.
  unfold init_nasl_library.
  apply (spec_bind _ _ _ _ (fun _ => True)); [apply count_up_changes; intros; apply init_function_changes|intros ? _].
  apply (spec_bind _ _ _ _ (fun _ => True)).
  { apply count_up_changes. intros v Hv. apply keeps_changes, add_var_keeps. by apply libivars_ok. }
  intros ? _. apply (spec_bind _ _ _ _ (fun _ => True)).
  { destruct (have_libssh build); [|by apply spec_ret; [apply _|]]. apply count_up_changes.
    intros v Hv%list_elem_of_singleton. subst v. apply keeps_changes, add_var_keeps. by destruct disabled. }
  intros ? _. apply (spec_bind _ _ _ _ (fun _ => True)).
  { apply count_up_changes. intros v _. by apply keeps_changes, add_var_keeps. }
  intros ? _. apply (spec_bind _ _ _ _ (fun _ => True)); [by apply keeps_changes, add_var_keeps|].
  intros; by apply spec_ret; [apply _|].
Qed.

(** What follows the setting up: the tree and [on_exit]. *)
Definition run_tree (fuel : nat) (tree : tree_cell) : M state Z :=
  ret ← nasl_exec re_matches builtin fuel tree;
  pf ← get_func_ref_by_name "on_exit";
  match pf with
  | Some pf => nasl_func_call builtin (nasl_exec re_matches builtin fuel) fuel pf NULL;; mret tt
  | None => mret tt
  end;;
  mret (if is_null ret then -1 else 0).

Lemma run_tree_changes fuel tree : wf Instruction tree = true ->
  changes (run_tree fuel tree) (fun e => e = 0 \/ e = -1).
Proof.
  intros Hwf. unfold run_tree. destruct (nasl_exec_spec re_matches builtin fuel Hbuiltin) as [He Hi].
  eapply spec_bind; [apply _|apply Hi; by split|]. intros r _.
  eapply spec_bind; [apply _|apply keeps_changes, get_func_ref_keeps|]. intros pf Hpf.
  apply (spec_bind _ _ _ _ (fun _ => True)).
  - destruct pf as [pf|]; [|by apply spec_ret; [apply _|]].
    eapply spec_bind; [apply _|apply keeps_changes, (nasl_func_call_keeps _ _ Hbuiltin He Hi); [done|by split]|].
    intros; by apply spec_ret; [apply _|].
  - intros _ _. apply spec_ret; [apply _|]. destruct (is_null r); auto.
Qed.

Definition script_vars (mode : Z) (name : string) : list (string * anon_nasl_var) :=
  let flag bit := VAR2_INT (if Z.testbit mode bit then 1 else 0) in
  [("COMMAND_LINE"%string, flag NASL_COMMAND_LINE); ("description"%string, flag NASL_EXEC_DESCR);
   ("SCRIPT_NAME"%string, VAR2_DATA (Some (last_name name name)))].

Abbreviation run_script := (run_script re_matches builtin nasl_lint macro version build disabled).

Lemma run_script_changes fuel mode name tree : wf Instruction tree = true ->
  changes (run_script fuel mode name tree) (fun e => e = 0 \/ e = -1).
Proof.
  intros Hwf. unfold NaslScript.run_script.
  apply (spec_bind _ _ _ _ (fun _ => True)); [apply library_changes|intros _ _].
  destruct (Z.testbit mode NASL_LINT).
  { eapply spec_bind; [apply _|by apply Hlint|]. intros r _. apply spec_ret; [apply _|]. destruct (is_null r); auto. }
  destruct (Z.testbit mode NASL_EXEC_PARSE_ONLY); [apply spec_ret; [apply _|auto]|].
  assert (Hflag : forall b : bool, ok_result (int2cell (if b then 1 else 0)) = true) by by intros [].
  do 3 (apply (spec_bind _ _ _ _ (fun _ => True)); [apply keeps_changes, add_var_keeps; done|intros _ _]).
  by apply run_tree_changes.
Qed.

(** What is executed, and what is declared before, by the mode. *)
Definition script_body (fuel : nat) (mode : Z) (tree : tree_cell) : M state Z :=
  if Z.testbit mode NASL_LINT then r ← nasl_lint tree; mret (if is_null r then -1 else 0)
  else if Z.testbit mode NASL_EXEC_PARSE_ONLY then mret 0
  else run_tree fuel tree.

Definition mode_vars (mode : Z) (name : string) : list (string * anon_nasl_var) :=
  if Z.testbit mode NASL_LINT || Z.testbit mode NASL_EXEC_PARSE_ONLY then [] else script_vars mode name.

Lemma script_names mode name : NoDup ((library_vars macro version build disabled ++ script_vars mode name).*1).
Proof.
  unfold library_vars, script_vars. rewrite !fmap_app.
  destruct (have_libssh build); apply (bool_decide_unpack _); vm_compute; exact I.
Qed.

Lemma new_state_ok t st : ok_store st -> ok_state (mk_state st [new_context t]).
Proof.
  intros Hst. split; [done| |done]. constructor; [|constructor]. split; [done|].
  apply (Forall_replicate (Forall ok_func) FUNC_NAME_HASH []). constructor.
Qed.

(** The variables that are added after the library, each with its cell. *)
Definition made (l : list (string * (tree_cell * anon_nasl_var))) : list (string * anon_nasl_var) :=
  (fun v => (fst v, snd (snd v))) <$> l.

Lemma add_vars_spec l : forall vs st c, with_vars vs st c -> NoDup ((vs ++ made l).*1) ->
  ok_state (mk_state st [c]) -> Forall (fun v => gives (fst (snd v)) (snd (snd v)) /\ ok_result (fst (snd v)) = true) l ->
  exists st' c', (iterM (fun v => add_var (fst v) (fst (snd v));; mret tt) l) (mk_state st [c]) = Ret (tt, mk_state st' [c']) /\
    with_vars (vs ++ made l) st' c' /\ same_but_vars c c' /\ heap st ⊆ heap st' /\
    ok_state (mk_state st' [c']).
Proof.
  induction l as [|[x [tc u]] l IH]; intros vs st c Hv Hd Hok Hl.
  { exists st, c. by rewrite app_nil_r. }
  apply Forall_cons in Hl as [[Hg Htc] Hl]. change (made ((x, (tc, u)) :: l)) with ([(x, u)] ++ made l) in *. rewrite app_assoc in *.
  assert (Hx : x ∉ vs.*1).
  { rewrite !fmap_app in Hd. intros Hin. apply NoDup_app in Hd as [Hd _]. apply NoDup_app in Hd as (_ & Hd & _).
    apply (Hd _ Hin). left. }
  destruct (add_var_spec x tc u vs st c Hg Hx Hv) as (st1 & c1 & E1 & Hv1 & Hs1 & Hh1).
  destruct (add_var_keeps x tc Htc _ _ _ Hok E1) as (Hok1 & _ & _).
  destruct (IH _ st1 c1 Hv1 Hd Hok1 Hl) as (st2 & c2 & E2 & Hv2 & Hs2 & Hh2 & Hok2).
  exists st2, c2. split_and!; [|exact Hv2|by etrans..|exact Hok2].
  cbn [iterM fst snd]. rewrite bind_assoc, (bind_step _ _ _ _ _ E1). exact E2.
Qed.

Lemma three_steps {A} (m1 m2 m3 : M state Z) (m : M state A) s :
  (m1;; m2;; m3;; m) s = (((m1;; mret tt);; (m2;; mret tt);; (m3;; mret tt);; mret tt);; m) s.
Proof.
  unfold mbind, M_bind, mret, M_ret. destruct (m1 s) as [[? s1]| |]; [|done..].
  destruct (m2 s1) as [[? s2]| |]; [|done..]. by destruct (m3 s2) as [[? s3]| |].
Qed.

Lemma run_script_starts fuel mode name tree t st : fresh st -> ok_store st ->
  exists st0 c0, run_script fuel mode name tree (mk_state st [new_context t]) = script_body fuel mode tree (mk_state st0 [c0]) /\
    ok_state (mk_state st0 [c0]) /\ has_library macro version build disabled (mode_vars mode name) st0 c0 /\
    heap st ⊆ heap st0 /\ recv_timeout c0 = t.
Proof.
  intros Hf Hok.
  destruct (init_library_spec macro version build disabled t st Hf) as (st1 & c1 & E1 & Hlib & Hh1 & Hc1).
  destruct (library_changes _ _ _ (new_state_ok t st Hok) E1) as (Hok1 & _ & _).
  assert (Hc : recv_timeout c1 = t) by by rewrite Hc1.
  unfold NaslScript.run_script, script_body, mode_vars. rewrite (bind_step _ _ _ _ _ E1).
  destruct (Z.testbit mode NASL_LINT);
    [exists st1, c1; split_and!; [reflexivity|exact Hok1|exact Hlib|exact Hh1|exact Hc]|].
  destruct (Z.testbit mode NASL_EXEC_PARSE_ONLY);
    [exists st1, c1; split_and!; [reflexivity|exact Hok1|exact Hlib|exact Hh1|exact Hc]|].
  cbn [orb]. destruct Hlib as [Hg1 Hv1].
  set (flag b := if Z.testbit mode b then 1 else 0).
  rewrite app_nil_r in Hv1.
  destruct (add_vars_spec [("COMMAND_LINE"%string, (int2cell (flag NASL_COMMAND_LINE), VAR2_INT (flag NASL_COMMAND_LINE)));
     ("description"%string, (int2cell (flag NASL_EXEC_DESCR), VAR2_INT (flag NASL_EXEC_DESCR)));
     ("SCRIPT_NAME"%string, (NaslText.data_result (last_name name name), VAR2_DATA (Some (last_name name name))))]
     _ _ _ Hv1 (script_names mode name) Hok1) as (st2 & c2 & E2 & Hv2 & Hs2 & Hh2 & Hok2).
  { repeat (apply Forall_cons; split; [split; [first [apply gives_int|apply gives_data]|]|]); [unfold flag; by case_match..|done|constructor]. }
  exists st2, c2. split_and!; [|exact Hok2| |by etrans|].
  - transitivity ((iterM (fun v => add_var (fst v) (fst (snd v));; mret tt)
      [("COMMAND_LINE"%string, (int2cell (flag NASL_COMMAND_LINE), VAR2_INT (flag NASL_COMMAND_LINE)));
       ("description"%string, (int2cell (flag NASL_EXEC_DESCR), VAR2_INT (flag NASL_EXEC_DESCR)));
       ("SCRIPT_NAME"%string, (NaslText.data_result (last_name name name), VAR2_DATA (Some (last_name name name))))];;
      run_tree fuel tree) (mk_state st1 [c1])); [|by rewrite (bind_step _ _ _ _ _ E2)].
    apply three_steps.
  - split; [|exact Hv2]. intros x. rewrite <- Hg1. by rewrite Hs2.
  - by rewrite Hs2.
Qed.
End Steps.

(** ** The whole *)

Section Script.
Context `{G : Glib}.
Context (fopen : nat -> string -> option string) (g_build_filename : string -> string -> string).
Context (nasl_verify_signature : string -> Z) (re_compiles : string -> bool).
Context (re_matches : string -> string -> Z) (builtin : string -> M state tree_cell).
Context (nasl_lint : tree_cell -> M state tree_cell).
Context (macro : string -> Z) (version : string) (build : features) (disabled : bool).
Context (g_path_get_dirname : string -> string) (g_chdir : string -> bool) (back : bool).
Context (files : nat) (size : Z).

Abbreviation exec_nasl_script := (exec_nasl_script fopen g_build_filename nasl_verify_signature re_compiles
  re_matches builtin nasl_lint macro version build disabled g_path_get_dirname g_chdir back (parse_fuel files size)).
Abbreviation init_ctx mode name w :=
  (init_nasl_ctx fopen g_build_filename nasl_verify_signature (Z.testbit mode NASL_ALWAYS_SIGNED) 0 name w).
Abbreviation parse mode l w :=
  (naslparse fopen g_build_filename nasl_verify_signature re_compiles (Z.testbit mode NASL_ALWAYS_SIGNED) (parse_fuel files size) l w).

(** What is assumed of the code that is not modelled: of the files, that including
    comes to an end; of the functions in C, what those that are modelled do, [exit]
    among them ([functions_keep_types]); of [nasl_lint], what an instruction does; of
    the constants of the system, that they are [int]s. *)
Record environment_ok : Prop := mk_environment
  { env_files : bounded_files fopen files size;
    env_size : 0 <= size;
    env_builtin g : keeps (builtin g) (fun r => ok_result r = true);
    env_lint c : wf Instruction c = true -> changes (nasl_lint c) (fun _ => True);
    env_macro x : int_ok (macro x) = true }.
Context (Henv : environment_ok).

Lemma set_script_name_world name s : s_world (set_script_name name s) = s_world s.
Proof. unfold set_script_name. destruct (arg_get_value _ _); try done. by destruct (arg_add_value _ _ _ _ _ _) as [? ?]. Qed.

(** The file that is found, if any, and what the parser does with it. *)
Lemma init_ctx_cases mode name w : exists o w1, init_ctx mode name w = Ret (o, w1) /\ w_store w1 = w_store w /\
  match o with Some l => exists file, l = new_lexer file /\ CStr.slen file <= size | None => True end.
Proof.
  unfold init_nasl_ctx. destruct (find_file _ _ _ _ _) as [[full file]|] eqn:E; [|by eexists _, _].
  destruct (_ && _); [by eexists _, _|]. eexists _, _. split_and!; [done|done|]. exists file. split; [done|].
  apply find_file_opens in E. by eapply (bounded_size _ _ _ (env_files Henv)).
Qed.

Lemma parse_cases mode file w : CStr.slen file <= size -> ok_store (w_store w) ->
  exists e p w2, parse mode (new_lexer file) w = Ret ((e, p), w2) /\ ok_store (w_store w2) /\
    (e = Returned 0 -> wf Instruction (tree p) = true) /\ (fresh (w_store w) -> fresh (w_store w2)).
Proof.
  intros Hl Hw.
  destruct (wp_Ret _ _ _ (naslparse_ok fopen g_build_filename nasl_verify_signature re_compiles
    (Z.testbit mode NASL_ALWAYS_SIGNED) files size (env_files Henv) (env_size Henv) (fun _ _ _ => True) file w ltac:(done) I Hl Hw))
    as ([e p] & w2 & Hrun & [[H1 H2 H3] _]).
  exists e, p, w2. split_and!; [exact Hrun|exact H1|exact H3|]. intros Hf.
  by destruct (parse_loop_room _ _ _ _ _ _ _ _ _ _ _ Hf Hrun) as (? & _).
Qed.

(** C10: However a script ends, it ends in order: [exec_nasl_script] returns 0 or -1 or,
    when the lexical analyser gives up, ends the process, and the store is well typed
    again, so that the next script of the process starts from where this theorem
    applies.  This asks [environment_ok] of what is not modelled. *)
Theorem script_ends_in_order fuel name mode s e s' :
  ok_store (w_store (s_world s)) -> exec_nasl_script fuel name mode s = Ret (e, s') ->
  (e = Returns 0 \/ e = Returns (-1) \/ e = Dies) /\ ok_store (w_store (s_world s')) /\
  s_infos s' = s_infos (set_script_name name s).
Proof.
  intros Hs. unfold NaslScript.exec_nasl_script. pose proof (set_script_name_world name s) as Hw.
  set (s1 := set_script_name name s) in *. rewrite <- Hw in Hs.
  destruct (g_chdir _); cbn [negb]; [|by intros [= <- <-]; split_and!; [auto| |]].
  destruct (init_ctx_cases mode name (s_world s1)) as (o & w1 & -> & Hw1 & Ho).
  destruct o as [l|]; [|by intros [= <- <-]; split_and!; [auto|cbn; by rewrite Hw1|]].
  destruct Ho as (file & -> & Hlen). rewrite <- Hw1 in Hs.
  destruct (parse_cases mode file w1 Hlen Hs) as (r & p & w2 & -> & Hw2 & Ht & _).
  destruct r as [code|]; [|by intros [= <- <-]; split_and!; [auto| |]].
  destruct (Z.eqb_spec code 0) as [->|]; cbn [negb]; [|by intros [= <- <-]; split_and!; [auto| |]].
  destruct (read_timeout _) as [to| |]; [|done..]. specialize (Ht eq_refl).
  set (st0 := mk_state (w_store w2) [new_context to]).
  lazymatch goal with |- match ?o with _ => _ end = _ -> _ => destruct o as [[err st]| |] eqn:E end; [|done..]. intros [= <- <-].
  assert (Hsp : changes (err ← run_script re_matches builtin nasl_lint macro version build disabled fuel mode name (tree p);
      leave_script back fuel mode err) (fun e => e = 0 \/ e = -1)).
  { eapply spec_bind; [apply _|by apply run_script_changes, Ht; apply Henv|]. intros err' Herr. unfold leave_script.
    destruct back; [|apply spec_ret; [apply _|auto]].
    destruct (Z.testbit _ _); [by apply spec_ret; [apply _|]|].
    eapply spec_bind; [apply _|apply keeps_changes, lexic_keeps|]. intros c _. unfold free_lex_ctxt.
    apply (spec_bind _ _ _ _ (fun _ => True)); [apply keeps_changes, lift_keeps, free_array_types|].
    intros _ _. by apply spec_ret; [apply _|]. }
  destruct (Hsp _ _ _ (new_state_ok to _ Hw2) E) as (Hok & _ & He). cbn. split_and!; [|apply Hok|done].
  destruct He as [-> | ->]; auto.
Qed.

Definition with_world (s : session) (w : world) : session := mk_session (s_cache s) (s_infos s) w.

(** C8: What [exec_nasl_script] executes and returns, in every mode: -1 when the script's
    directory cannot be entered; -1 when the file cannot be opened or is not trusted;
    the parser always returns, and when it ends the process so does the script, when it
    refuses the file the result is -1; else its tree is a script of the grammar and
    there is a well-typed state with one context, with the functions and constants of
    the library and, when the script is to run, [COMMAND_LINE], [description] and
    [SCRIPT_NAME], and no other variable, such that the result is that of
    [script_body] there, then of leaving: [nasl_lint]'s on the tree, or 0 when only
    parsing is asked for, or that of the tree and [on_exit].  The preference
    [checks_read_timeout] is a text or not there, the store well typed and its free
    addresses unused; [environment_ok] is asked of what is not modelled. *)
Theorem script_phases fuel name mode s t :
  ok_store (w_store (s_world s)) -> fresh (w_store (s_world s)) -> read_timeout (s_infos s) = Ret t ->
  let s1 := set_script_name name s in
  if negb (g_chdir (g_path_get_dirname name))
  then exec_nasl_script fuel name mode s = Ret (Returns (-1), s1)
  else exists o w1, init_ctx mode name (s_world s) = Ret (o, w1) /\
  match o with
  | None => exec_nasl_script fuel name mode s = Ret (Returns (-1), with_world s1 w1)
  | Some l =>
      exists e p w2, parse mode l w1 = Ret ((e, p), w2) /\
      match e with
      | Aborted => exec_nasl_script fuel name mode s = Ret (Dies, with_world s1 w2)
      | Returned code =>
          if code =? 0 then
            wf Instruction (tree p) = true /\
            exists st c, ok_state (mk_state st [c]) /\ recv_timeout c = t /\ heap (w_store w2) ⊆ heap st /\
              has_library macro version build disabled (mode_vars mode name) st c /\
              exec_nasl_script fuel name mode s
              = match (err ← script_body re_matches builtin nasl_lint fuel mode (tree p); leave_script back fuel mode err)
                        (mk_state st [c]) with
                | Ret (err, st') => Ret (Returns err, with_world s1 (mk_world (st_store st') (inc_dirs w2)))
                | NoReturn => NoReturn
                | Undef => Undef
                end
          else exec_nasl_script fuel name mode s = Ret (Returns (-1), with_world s1 w2)
      end
  end.
Proof.
  intros Hs Hf Ht. unfold NaslScript.exec_nasl_script. rewrite Ht. pose proof (set_script_name_world name s) as Hw.
  cbv zeta. set (s1 := set_script_name name s) in *. rewrite <- Hw in Hs, Hf |- *.
  destruct (g_chdir _); cbn [negb]; [|done].
  destruct (init_ctx_cases mode name (s_world s1)) as (o & w1 & E1 & Hw1 & Ho).
  exists o, w1. rewrite E1. split; [done|]. destruct o as [l|]; [|done].
  destruct Ho as (file & -> & Hlen). rewrite <- Hw1 in Hs, Hf.
  destruct (parse_cases mode file w1 Hlen Hs) as (r & p & w2 & E2 & Hw2 & Htree & Hf2).
  exists r, p, w2. rewrite E2. split; [done|]. destruct r as [code|]; [|done].
  destruct (Z.eqb_spec code 0) as [->|]; cbn [negb]; [|done].
  specialize (Htree eq_refl). split; [exact Htree|].
  destruct (run_script_starts re_matches builtin nasl_lint macro version build disabled (env_macro Henv)
    fuel mode name (tree p) t _ (Hf2 Hf) Hw2) as (st & c & E3 & Hok & Hlib & Hh & Hc).
  exists st, c. split_and!; [exact Hok|exact Hc|exact Hh|exact Hlib|].
  unfold mbind, M_bind at 1 2. by rewrite E3.
Qed.
End Script.

(** ** The functions in C *)

(** The functions in C keep to what the interpreter relies on, when those that are not
    modelled do: from a well-typed state each of the 30 that are modelled, the text and
    the time functions and [exit], leaves a well-typed state and every context with its
    functions and flags, and its value to return but for [exit], which gives all one
    integer; and each gives no cell or a well-typed one. *)
Theorem functions_keep_types stale regcomp regexec time_now gmtime oid plug_set_key other g :
  (forall k v, keeps (plug_set_key k v) (fun _ => True)) ->
  (forall g, keeps (other g) (fun r => ok_result r = true)) ->
  keeps (c_function stale regcomp regexec time_now gmtime oid plug_set_key other g) (fun r => ok_result r = true).
Proof.
  intros Hp Ho. unfold c_function. destruct (List.find _ _) as [f|] eqn:E; [|apply Ho].
  apply List.find_some in E as [Hin _]. revert f Hin. apply List.Forall_forall. unfold modelled_functions.
  repeat (apply List.Forall_cons; [cbn [snd]|]); [..|apply List.Forall_nil].
  - apply string_keeps.
  - apply rawstring_keeps.
  - apply strcat_keeps.
  - apply display_keeps.
  - apply ord_keeps.
  - apply hex_keeps.
  - apply hexstr_keeps.
  - apply strstr_keeps.
  - apply ereg_keeps.
  - apply ereg_replace_keeps.
  - apply egrep_keeps.
  - apply eregmatch_keeps.
  - apply match_keeps.
  - apply substr_keeps.
  - apply insstr_keeps.
  - apply tolower_keeps.
  - apply toupper_keeps.
  - apply crap_keeps.
  - apply strlen_keeps.
  - apply split_keeps.
  - apply chomp_keeps.
  - apply int_keeps.
  - apply stridx_keeps.
  - apply str_replace_keeps.
  - apply isotime_now_keeps.
  - apply isotime_is_valid_keeps.
  - apply isotime_scan_keeps.
  - apply isotime_print_keeps.
  - apply isotime_add_keeps.
  - by apply exit_keeps.
Qed.

(** ** Witnesses *)

Lemma functions_keep_types_witness :
  keeps (c_function (fun _ => Ascii.zero) (fun _ _ => true) (fun _ _ _ _ => NaslText.NoMatch) 0
    (fun _ => (0, 0, 0, 0, 0, 0)) (Some "1.3"%string) (fun _ _ => mret tt) (fun _ => mret NULL) "nasl_do_exit"%string)
    (fun r => ok_result r = true).
Proof. apply functions_keep_types; [intros; by apply spec_ret; [apply _|]|exact no_builtin]. Defined.

Definition no_features : features := mk_features true false false.

Lemma empty_fresh : fresh (mk_store ∅ 1 0).
Proof. intros a _. apply lookup_empty. Qed.

Lemma library_complete_witness : exists s' a,
  init_nasl_library (fun _ => 0) "7" no_features false (mk_state (mk_store ∅ 1 0) [new_context 5]) = Ret (313, s')
  /\ get_func_ref_by_name "on_exit" s' = Ret (None, s')
  /\ get_var_ref_by_name "TRUE" true s' = Ret (a, s') /\ heap (st_store s') !! a = Some (VAR2_INT 1).
Proof.
  destruct (library_complete (fun _ => 0) "7" no_features false 5 _ empty_fresh) as (s' & c' & E & _ & _ & Hn & _ & Hv & _).
  destruct (Hv "TRUE"%string (VAR2_INT 1)) as (a & Ha & Hh); [left|]. exists s', a. split_and!; [exact E| |exact Ha|exact Hh].
  apply Hn, (bool_decide_unpack _). vm_compute. exact I.
Defined.

(** The script is the file [lib] of [NaslParseSpec], [y=2;], which includes nothing. *)
Abbreviation run_lib := (exec_nasl_script one_file plain_build signed compiles (fun _ _ => 1) (fun _ => mret NULL)
  (fun _ => mret NULL) (fun _ => 0) "7" no_features false (fun _ => "."%string) (fun _ => true) true (parse_fuel 2 40) 20 "lib" 4).
Definition example_session : session := mk_session cache0 None example_world.

Lemma example_environment : environment_ok one_file (fun _ => mret NULL) (fun _ => mret NULL) (fun _ => 0) 2 40.
Proof.
  split; [exact one_file_bounded|lia|exact no_builtin| |done]. intros c _. by apply spec_ret; [apply _|].
Qed.

Lemma returns_zero (o : outcome (script_end * session)) :
  match o with Ret (Returns z, _) => z =? 0 | _ => false end = true -> exists s', o = Ret (Returns 0, s').
Proof. destruct o as [[[z|] s']| |]; [|discriminate..]. intros ->%Z.eqb_eq. by exists s'. Qed.

Lemma lib_run : exists s', run_lib example_session = Ret (Returns 0, s').
Proof. apply returns_zero. vm_compute. reflexivity. Qed.

Definition holds_two (o : outcome (script_end * session)) : bool :=
  match o with
  | Ret (_, s') => List.existsb (fun v => match snd v with VAR2_INT 2 => true | _ => false end)
                     (map_to_list (heap (w_store (s_world s'))))
  | _ => false
  end.

Lemma lib_run_two s' e : run_lib example_session = Ret (e, s') -> exists a, heap (w_store (s_world s')) !! a = Some (VAR2_INT 2).
Proof.
  intros E. assert (H : holds_two (run_lib example_session) = true) by (vm_compute; reflexivity).
  rewrite E in H. apply List.existsb_exists in H as ([a v] & Hin & Hv). exists a.
  apply elem_of_map_to_list, list_elem_of_In. destruct v as [|[|[|[]|]|]| | |]; try discriminate Hv. exact Hin.
Qed.

Lemma script_ends_in_order_witness : exists s', run_lib example_session = Ret (Returns 0, s') /\ ok_store (w_store (s_world s')).
Proof.
  destruct lib_run as [s' E]. exists s'. split; [exact E|].
  eapply (script_ends_in_order one_file plain_build signed compiles (fun _ _ => 1) (fun _ => mret NULL) (fun _ => mret NULL)
    (fun _ => 0) "7" no_features false (fun _ => "."%string) (fun _ => true) true 2 40 example_environment 20 "lib" 4
    example_session); [apply map_Forall_empty|exact E].
Defined.

(** [y=2;] runs in a context with the library, gives 0, and leaves [y] with 2. *)
Lemma script_phases_witness : exists p w2 st c st',
  wf Instruction (tree p) = true /\ recv_timeout c = 5 /\ ok_state (mk_state st [c]) /\
  has_library (fun _ => 0) "7" no_features false (mode_vars 4 "lib") st c /\
  (err ← script_body (fun _ _ => 1) (fun _ => mret NULL) (fun _ => mret NULL) 20 4 (tree p); leave_script true 20 4 err)
    (mk_state st [c]) = Ret (0, st') /\
  run_lib example_session
  = Ret (Returns 0, with_world (set_script_name "lib" example_session) (mk_world (st_store st') (inc_dirs w2))) /\
  exists a, heap (st_store st') !! a = Some (VAR2_INT 2).
Proof.
  pose proof (script_phases one_file plain_build signed compiles (fun _ _ => 1) (fun _ => mret NULL) (fun _ => mret NULL)
    (fun _ => 0) "7" no_features false (fun _ => "."%string) (fun _ => true) true 2 40 example_environment 20 "lib" 4
    example_session 5 (map_Forall_empty _) empty_fresh eq_refl) as H.
  destruct lib_run as [s' E]. cbn [negb] in H. destruct H as (o & w1 & _ & H).
  destruct o as [l|]; [|rewrite E in H; discriminate H]. destruct H as (e & p & w2 & _ & H).
  destruct e as [code|]; [|rewrite E in H; discriminate H].
  destruct (code =? 0); [|rewrite E in H; discriminate H].
  destruct H as (Hwf & st & c & Hok & Hc & _ & Hlib & H). rewrite E in H.
  destruct ((err ← script_body _ _ _ _ _ _; _) _) as [[err st']| |] eqn:E2; [|discriminate H..].
  injection H as <- ->. exists p, w2, st, c, st'. split_and!; [exact Hwf|exact Hc|exact Hok|exact Hlib|exact E2|exact E|].
  exact (lib_run_two _ _ E).
Defined.

End NaslScriptSpec.
