(* ===== verification/ServerBuffer.v ===== *)
(** * The manager's output to the scanner: [ovas-mngr-comm.c]

    The manager queues what it sends to the scanner in the static array
    [to_server]; [write_to_server_buffer] empties it as far as the TLS session
    accepts, [write_string_to_server] writes a string past the buffer.  GnuTLS is
    outside: the results of its calls to [gnutls_record_send] are a list, and the
    bytes it accepted are collected as the wire. *)

From stdpp Require Import base list strings.
From Stdlib Require Import Ascii ZArith Lia.
From S2P Require Import Prelude.
Local Open Scope Z_scope.

Definition TO_SERVER_BUFFER_SIZE : Z := 26214400.

(** [to_server] below [to_server_end], and [to_server_start]. *)
Record to_server_t := mk_to_server { to_server : string; to_server_start : Z }.

Definition to_server_end (b : to_server_t) : Z := CStr.slen (to_server b).

Definition to_server_empty : to_server_t := mk_to_server "" 0.

Definition to_server_buffer_space (b : to_server_t) : outcome Z :=
  if to_server_end b <? to_server_start b then Undef
  else Ret (MInt.uwrap32 (to_server_end b - to_server_start b)).

(** The result and the buffer after the call. *)
Definition sendn_to_server (msg : string) (n : Z) (b : to_server_t) : Z * to_server_t :=
  if TO_SERVER_BUFFER_SIZE - to_server_end b <? n then (1, b)
  else (0, mk_to_server (to_server b +:+ CStr.take_str (Z.to_nat n) msg) (to_server_start b)).

Definition send_to_server (msg : string) (b : to_server_t) : Z * to_server_t :=
  sendn_to_server msg (CStr.slen msg) b.

(** What is queued and not yet written. *)
Definition unsent (b : to_server_t) : string :=
  CStr.drop_str (Z.to_nat (to_server_start b)) (to_server b).

(** ** GnuTLS *)

(** A call of [gnutls_record_send]: the number of bytes it took, or its error. *)
Inductive send_result :=
| Accepted (count : nat)
| GNUTLS_E_AGAIN
| GNUTLS_E_INTERRUPTED
| GNUTLS_E_REHANDSHAKE
| GNUTLS_E_OTHER.

(** The session: the results of the calls to come, and what it has taken. *)
Record session_t := mk_session { sends : list send_result; wire : string }.

Definition record_send (rs : list send_result) (s : string) (count : nat) (t : session_t)
  : session_t := mk_session rs (wire t +:+ CStr.take_str count s).

(** The number of bytes a call takes is at most the number it is given. *)
Definition count_ok (count : nat) (s : string) : bool := Z.of_nat count <=? CStr.slen s.

(** Without a further result of [gnutls_record_send] the loops do not return. *)
Fixpoint write_string_loop (rs : list send_result) (string point : string) (t : session_t)
  : outcome (Z * session_t) :=
  match point with
  | EmptyString => Ret (0, mk_session rs (wire t))
  | _ =>
    match rs with
    | [] => NoReturn
    | GNUTLS_E_AGAIN :: rs' => Ret (CStr.slen string - CStr.slen point, mk_session rs' (wire t))
    | GNUTLS_E_INTERRUPTED :: rs' | GNUTLS_E_REHANDSHAKE :: rs' =>
        write_string_loop rs' string point t
    | GNUTLS_E_OTHER :: rs' => Ret (-1, mk_session rs' (wire t))
    | Accepted count :: rs' =>
        if count_ok count point then
          write_string_loop rs' string (CStr.drop_str count point) (record_send rs' point count t)
        else Undef
    end
  end.

Definition write_string_to_server (string : string) (t : session_t) : outcome (Z * session_t) :=
  write_string_loop (sends t) string string t.

Fixpoint write_buffer_loop (rs : list send_result) (b : to_server_t) (t : session_t)
  : outcome (Z * to_server_t * session_t) :=
  if to_server_start b <? to_server_end b then
    match rs with
    | [] => NoReturn
    | GNUTLS_E_AGAIN :: rs' => Ret (-2, b, mk_session rs' (wire t))
    | GNUTLS_E_INTERRUPTED :: rs' => Ret (-3, b, mk_session rs' (wire t))
    | GNUTLS_E_REHANDSHAKE :: rs' => write_buffer_loop rs' b t
    | GNUTLS_E_OTHER :: rs' => Ret (-1, b, mk_session rs' (wire t))
    | Accepted count :: rs' =>
        if count_ok count (unsent b) then
          write_buffer_loop rs' (mk_to_server (to_server b) (to_server_start b + Z.of_nat count))
            (record_send rs' (unsent b) count t)
        else Undef
    end
  else Ret (0, to_server_empty, mk_session rs (wire t)).

Definition write_to_server_buffer (b : to_server_t) (t : session_t)
  : outcome (Z * to_server_t * session_t) := write_buffer_loop (sends t) b t.

(** ** Lemmas *)

(** The indices of the buffer are in order and inside the array. *)
Definition to_server_ok (b : to_server_t) : Prop :=
  0 <= to_server_start b <= to_server_end b /\ to_server_end b <= TO_SERVER_BUFFER_SIZE.

Lemma to_server_empty_ok : to_server_ok to_server_empty.
Proof. unfold to_server_ok, to_server_end, TO_SERVER_BUFFER_SIZE. simpl. lia. Qed.

Lemma drop_str_app_le n a b :
  Z.of_nat n <= CStr.slen a -> CStr.drop_str n (a +:+ b) = (CStr.drop_str n a +:+ b).
Proof.
  revert a; induction n as [|n IH]; intros a H; [done|].
  destruct a as [|c a]; [simpl in H; lia|].
  change (CStr.drop_str n (a +:+ b) = (CStr.drop_str n a +:+ b)). apply IH. simpl in H. lia.
Qed.

Lemma drop_str_end n s : CStr.slen s <= Z.of_nat n -> CStr.drop_str n s = EmptyString.
Proof.
  intros H. destruct (CStr.drop_str n s) eqn:E; [done|]. exfalso.
  pose proof (CStr.slen_drop n s). rewrite E in *. simpl in *. pose proof (CStr.slen_nonneg s0). lia.
Qed.

Lemma unsent_nil b :
  to_server_ok b -> (to_server_start b <? to_server_end b) = false -> unsent b = EmptyString.
Proof.
  intros [? ?] ?. apply drop_str_end. unfold to_server_end in *. lia.
Qed.

Lemma send_cases msg b :
  to_server_ok b ->
  (CStr.slen msg <= TO_SERVER_BUFFER_SIZE - to_server_end b ->
     fst (send_to_server msg b) = 0
     /\ unsent (snd (send_to_server msg b)) = (unsent b +:+ msg))
  /\ (TO_SERVER_BUFFER_SIZE - to_server_end b < CStr.slen msg ->
     send_to_server msg b = (1, b))
  /\ to_server_ok (snd (send_to_server msg b)).
Proof.
  unfold to_server_ok, to_server_end. intros [H1 H2]. unfold send_to_server, sendn_to_server, to_server_end.
  pose proof (CStr.slen_nonneg msg) as Hm.
  destruct (_ <? _) eqn:E; cbn [fst snd].
  - split; [intros; lia|]. by split.
  - rewrite CStr.take_str_all by (rewrite CStr.slen_length, Nat2Z.id; done). unfold unsent. cbn [to_server to_server_start].
    split; [intros _; split; [done|apply drop_str_app_le; lia]|].
    split; [intros; lia|]. rewrite CStr.slen_app. lia.
Qed.

(** Writing moves bytes from the front of the queue to the wire, in order, and
    the buffer is reset only when it is empty. *)
Lemma write_buffer_order rs b t r b' t' :
  to_server_ok b -> write_buffer_loop rs b t = Ret (r, b', t') ->
  (wire t' +:+ unsent b') = (wire t +:+ unsent b) /\ to_server_ok b'
  /\ (r = 0 -> b' = to_server_empty).
Proof.
  revert b t; induction rs as [|x rs IH]; intros b t Hb; simpl.
  - destruct (_ <? _) eqn:E; [done|]. intros [= <- <- <-]. simpl.
    rewrite (unsent_nil b) by done. split; [done|split; [apply to_server_empty_ok|done]].
  - destruct (_ <? _) eqn:E.
    + destruct x as [count| | | |]; try (intros [= <- <- <-]; simpl; by repeat split; try apply Hb).
      * destruct (count_ok count (unsent b)) eqn:Ec; [|done]. intros H.
        assert (CStr.slen (unsent b) = to_server_end b - to_server_start b) as Hl.
        { unfold unsent. rewrite CStr.slen_drop. unfold to_server_ok, to_server_end in *. lia. }
        unfold count_ok in Ec. apply IH in H.
        -- destruct H as (H & Hok & H0). split; [|done]. rewrite H. unfold record_send, unsent. simpl.
           rewrite CStr.append_assoc. f_equal.
           rewrite Z2Nat.inj_add, Nat2Z.id, <- CStr.drop_drop by (unfold to_server_ok in Hb; lia).
           apply CStr.take_drop.
        -- unfold to_server_ok, to_server_end in *. simpl. lia.
      * by intros H%IH.
    + intros [= <- <- <-]. simpl. rewrite (unsent_nil b) by done.
      split; [done|split; [apply to_server_empty_ok|done]].
Qed.

Lemma take_add n m s : CStr.take_str (n + m) s = (CStr.take_str n s +:+ CStr.take_str m (CStr.drop_str n s)).
Proof.
  revert s; induction n as [|n IH]; intros [|c s]; try done; [by destruct m|].
  change (String c (CStr.take_str (n + m) s) = String c (CStr.take_str n s +:+ CStr.take_str m (CStr.drop_str n s))).
  by rewrite IH.
Qed.

(** What [write_string_to_server] puts on the wire is a prefix of the string; its
    length is the result, where that is positive. *)
Lemma write_string_prefix rs string point t r t' k :
  point = CStr.drop_str k string -> Z.of_nat k <= CStr.slen string ->
  write_string_loop rs string point t = Ret (r, t') ->
  exists n, (k <= n)%nat /\ Z.of_nat n <= CStr.slen string
    /\ (wire t +:+ CStr.take_str (n - k) point) = wire t'
    /\ ((r = 0 /\ Z.of_nat n = CStr.slen string) \/ r = Z.of_nat n \/ r = -1).
Proof.
  revert point t k. induction rs as [|x rs IH]; intros point t k Hp Hk H.
  - destruct point; [|done]. simpl in H. injection H as <- <-. exists k.
    rewrite Nat.sub_diag. simpl. rewrite CStr.append_nil_r. repeat split; [done|done|].
    left. split; [done|]. assert (CStr.slen (CStr.drop_str k string) = 0) by (by rewrite <- Hp).
    rewrite CStr.slen_drop in *. lia.
  - assert (CStr.slen point = CStr.slen string - Z.of_nat k) as Hl
      by (subst point; rewrite CStr.slen_drop; lia).
    destruct point as [|c point].
    + simpl in H. injection H as <- <-. exists k.
      rewrite Nat.sub_diag. simpl. rewrite CStr.append_nil_r. repeat split; [done|done|].
      left. split; [done|]. simpl in Hl. lia.
    + set (p := String c point) in *.
      assert (write_string_loop (x :: rs) string p t =
        match x with
        | GNUTLS_E_AGAIN => Ret (CStr.slen string - CStr.slen p, mk_session rs (wire t))
        | GNUTLS_E_INTERRUPTED | GNUTLS_E_REHANDSHAKE => write_string_loop rs string p t
        | GNUTLS_E_OTHER => Ret (-1, mk_session rs (wire t))
        | Accepted count =>
            if count_ok count p then
              write_string_loop rs string (CStr.drop_str count p) (record_send rs p count t)
            else Undef
        end) as E by done.
      rewrite E in H. clear E. destruct x as [count| | | |].
      * destruct (count_ok count p) eqn:Ec; [|done]. unfold count_ok in Ec.
        apply (IH _ _ (k + count)%nat) in H.
        -- destruct H as (n & Hn & Hn2 & Hw & Hr). exists n. repeat split; [lia|done| |done].
           rewrite <- Hw. unfold record_send. simpl. rewrite CStr.append_assoc. f_equal.
           rewrite <- take_add. f_equal. lia.
        -- subst p. rewrite Hp. apply CStr.drop_drop.
        -- lia.
      * injection H as <- <-. exists k. rewrite Nat.sub_diag. simpl. rewrite CStr.append_nil_r.
        repeat split; [done|done|]. right. left. subst p. cbn [CStr.slen] in Hl. lia.
      * by apply (IH _ _ k).
      * by apply (IH _ _ k).
      * injection H as <- <-. exists k. rewrite Nat.sub_diag. simpl. rewrite CStr.append_nil_r.
        repeat split; [done|done|]. by right; right.
Qed.

(** ** Queueing and writing *)

Inductive buffer_op :=
| Send (msg : string)
| Write (results : list send_result).

(** A run of the manager's calls; the last component collects the messages that
    [send_to_server] did not refuse. *)
Fixpoint run_ops (ops : list buffer_op) (b : to_server_t) (w taken : string)
  : outcome (to_server_t * string * string) :=
  match ops with
  | [] => Ret (b, w, taken)
  | Send msg :: ops' =>
      let '(r, b') := send_to_server msg b in
      run_ops ops' b' w (if r =? 0 then taken +:+ msg else taken)
  | Write results :: ops' =>
      match write_to_server_buffer b (mk_session results w) with
      | Ret (_, b', t') => run_ops ops' b' (wire t') taken
      | NoReturn => NoReturn
      | Undef => Undef
      end
  end.

Lemma run_ops_order ops b w taken b' w' taken' :
  to_server_ok b -> (w +:+ unsent b) = taken ->
  run_ops ops b w taken = Ret (b', w', taken') ->
  to_server_ok b' /\ (w' +:+ unsent b') = taken'.
Proof.
  revert b w taken. induction ops as [|[msg|results] ops IH]; intros b w taken Hb Hw; cbn [run_ops].
  - by intros [= <- <- <-].
  - destruct (send_cases msg b Hb) as (H0 & H1 & Hok).
    destruct (send_to_server msg b) as [r b1] eqn:E. cbn [fst snd] in *. intros H.
    apply IH in H; [done|done|].
    destruct (Z_le_gt_dec (CStr.slen msg) (TO_SERVER_BUFFER_SIZE - to_server_end b)) as [Hle|Hgt].
    + destruct (H0 Hle) as [-> Hu]. simpl. by rewrite Hu, <- Hw, CStr.append_assoc.
    + specialize (H1 ltac:(lia)). by injection H1 as -> ->.
  - destruct (write_to_server_buffer b (mk_session results w)) as [[[r b1] t1]| |] eqn:E; [|done|done].
    intros H. apply write_buffer_order in E as (Ho & Hok & _); [|done].
    apply IH in H; [done|done|]. by rewrite Ho.
Qed.

(** C28: what the manager sends reaches the scanner in order and without loss: after
    any sequence of [send_to_server] and [write_to_server_buffer] calls, the bytes
    on the wire followed by the bytes still queued are the messages that
    [send_to_server] took, one after the other; the indices stay inside the buffer,
    and the function that is said to give the free space gives the space in use. *)
Theorem server_buffer_order (ops : list buffer_op) b w taken :
  run_ops ops to_server_empty EmptyString EmptyString = Ret (b, w, taken) ->
  (w +:+ unsent b) = taken
  /\ 0 <= to_server_start b <= to_server_end b /\ to_server_end b <= TO_SERVER_BUFFER_SIZE
  /\ to_server_buffer_space b = Ret (CStr.slen (unsent b)).
Proof.
  intros H. apply run_ops_order in H as (Hb & Hw); [|apply to_server_empty_ok|done].
  destruct Hb as [H1 H2]. split; [done|]. split; [lia|]. split; [lia|].
  unfold to_server_buffer_space. destruct (_ <? _) eqn:E; [lia|].
  f_equal. unfold unsent. rewrite CStr.slen_drop. fold (to_server_end b).
  rewrite MInt.uwrap32_id by (unfold TO_SERVER_BUFFER_SIZE in *; lia). lia.
Qed.

Lemma server_buffer_order_witness :
  exists b w taken,
    run_ops [Send "CLIENT <|> BYE"; Write [Accepted 9; GNUTLS_E_INTERRUPTED];
             Send " <|> ACK"; Write [Accepted 2; GNUTLS_E_AGAIN]]
      to_server_empty EmptyString EmptyString = Ret (b, w, taken)
    /\ w = "CLIENT <|> "%string /\ unsent b = "BYE <|> ACK"%string
    /\ (w +:+ unsent b) = taken
    /\ to_server_buffer_space b = Ret 11.
Proof.
  eexists _, _, _. split; [vm_compute; reflexivity|]. split; [reflexivity|]. split; [reflexivity|].
  match goal with |- (?w +:+ unsent ?b) = ?tk /\ _ =>
    destruct (server_buffer_order
      [Send "CLIENT <|> BYE"; Write [Accepted 9; GNUTLS_E_INTERRUPTED];
       Send " <|> ACK"; Write [Accepted 2; GNUTLS_E_AGAIN]] b w tk) as (Hw & _ & _ & Hs);
      [vm_compute; reflexivity|] end.
  split; [exact Hw|exact Hs].
Defined.
