(* ===== verification/Otp.v ===== *)
(** * The manager's reader of OTP: [openvas-manager/src/otp.c]

    The scanner reports to the manager in the text protocol OTP: fields that end in
    "<|>", messages from "SERVER <|>" to "SERVER".  [process_otp_scanner_input]
    reads whatever has arrived in the array [from_scanner], field by field, in a
    state machine kept in static variables ([scanner_state], [scanner_init_state],
    [current_message], [current_host], [current_plugin], ...), and enters what it
    reads in the database.  These variables are the record [otp].

    The array is the text between [from_scanner_start] and [from_scanner_end]
    ([pending]) and the bytes of memory that follow it ([beyond], an argument: they
    do not change during a call).  The code reads one byte of them when it looks
    for "<|>", and more for "SCANNER_LOADING"; [overrun] is how far
    [from_scanner_start] is after [from_scanner_end].  Where the code goes on from
    there the model stops with [Undef], as it does at a false assertion and at
    [abort] ([assert] is on in the default build).

    The database functions of [manage_sql.c] are the class [Manager].  The
    [progress] callback, the log and the freeing of memory are left out. *)

From stdpp Require Import base list strings.
From Stdlib Require Import Ascii ZArith Lia.
From S2P Require Import Prelude ServerBuffer.
Local Open Scope Z_scope.

(** ** Data *)

Inductive port_protocol_t := PORT_PROTOCOL_TCP | PORT_PROTOCOL_UDP | PORT_PROTOCOL_OTHER.

Record message_t := mk_message {
  msg_host : string; msg_description : option string; msg_oid : option string;
  msg_port_number : Z; msg_port_protocol : port_protocol_t; msg_port_string : option string }.

(** The members of [nvti_t] that the reader sets. *)
Record nvti := mk_nvti {
  nvti_oid : option string; nvti_name : option string; nvti_category : Z;
  nvti_copyright : option string; nvti_summary : option string; nvti_family : option string;
  nvti_version : option string; nvti_cve : option string; nvti_bid : option string;
  nvti_xref : option string; nvti_tag : option string; nvti_cvss_base : option string }.

Definition nvti_new : nvti :=
  mk_nvti None None 0 None None None None None None None None None.
Definition nvti_set_oid s n := mk_nvti (Some s) (nvti_name n) (nvti_category n) (nvti_copyright n)
  (nvti_summary n) (nvti_family n) (nvti_version n) (nvti_cve n) (nvti_bid n) (nvti_xref n)
  (nvti_tag n) (nvti_cvss_base n).
Definition nvti_set_name s n := mk_nvti (nvti_oid n) (Some s) (nvti_category n) (nvti_copyright n)
  (nvti_summary n) (nvti_family n) (nvti_version n) (nvti_cve n) (nvti_bid n) (nvti_xref n)
  (nvti_tag n) (nvti_cvss_base n).
Definition nvti_set_category z n := mk_nvti (nvti_oid n) (nvti_name n) z (nvti_copyright n)
  (nvti_summary n) (nvti_family n) (nvti_version n) (nvti_cve n) (nvti_bid n) (nvti_xref n)
  (nvti_tag n) (nvti_cvss_base n).
Definition nvti_set_copyright s n := mk_nvti (nvti_oid n) (nvti_name n) (nvti_category n) (Some s)
  (nvti_summary n) (nvti_family n) (nvti_version n) (nvti_cve n) (nvti_bid n) (nvti_xref n)
  (nvti_tag n) (nvti_cvss_base n).
Definition nvti_set_summary s n := mk_nvti (nvti_oid n) (nvti_name n) (nvti_category n)
  (nvti_copyright n) (Some s) (nvti_family n) (nvti_version n) (nvti_cve n) (nvti_bid n)
  (nvti_xref n) (nvti_tag n) (nvti_cvss_base n).
Definition nvti_set_family s n := mk_nvti (nvti_oid n) (nvti_name n) (nvti_category n)
  (nvti_copyright n) (nvti_summary n) (Some s) (nvti_version n) (nvti_cve n) (nvti_bid n)
  (nvti_xref n) (nvti_tag n) (nvti_cvss_base n).
Definition nvti_set_version s n := mk_nvti (nvti_oid n) (nvti_name n) (nvti_category n)
  (nvti_copyright n) (nvti_summary n) (nvti_family n) (Some s) (nvti_cve n) (nvti_bid n)
  (nvti_xref n) (nvti_tag n) (nvti_cvss_base n).
Definition nvti_set_cve s n := mk_nvti (nvti_oid n) (nvti_name n) (nvti_category n)
  (nvti_copyright n) (nvti_summary n) (nvti_family n) (nvti_version n) (Some s) (nvti_bid n)
  (nvti_xref n) (nvti_tag n) (nvti_cvss_base n).
Definition nvti_set_bid s n := mk_nvti (nvti_oid n) (nvti_name n) (nvti_category n)
  (nvti_copyright n) (nvti_summary n) (nvti_family n) (nvti_version n) (nvti_cve n) (Some s)
  (nvti_xref n) (nvti_tag n) (nvti_cvss_base n).

(** The members that keep no empty string. *)
Definition non_empty (s : option string) : option string :=
  match s with Some EmptyString => None | _ => s end.

Definition nvti_set_xref s n := mk_nvti (nvti_oid n) (nvti_name n) (nvti_category n)
  (nvti_copyright n) (nvti_summary n) (nvti_family n) (nvti_version n) (nvti_cve n) (nvti_bid n)
  (non_empty s) (nvti_tag n) (nvti_cvss_base n).
Definition nvti_set_tag s n := mk_nvti (nvti_oid n) (nvti_name n) (nvti_category n)
  (nvti_copyright n) (nvti_summary n) (nvti_family n) (nvti_version n) (nvti_cve n) (nvti_bid n)
  (nvti_xref n) (non_empty s) (nvti_cvss_base n).
Definition nvti_set_cvss_base s n := mk_nvti (nvti_oid n) (nvti_name n) (nvti_category n)
  (nvti_copyright n) (nvti_summary n) (nvti_family n) (nvti_version n) (nvti_cve n) (nvti_bid n)
  (nvti_xref n) (nvti_tag n) (non_empty s).

(** ** The database *)

(** The operations of [manage_sql.c] and [manage.c] that the reader calls.  A task
    or a report is a row number, 0 is none.  [set_task_run_status] and
    [delete_task_lock] also read the globals [current_report] and
    [current_scanner_task]: these come first. *)
Class Manager := {
  db : Type;
  make_result : Z -> string -> option string -> option string -> string -> option string ->
    db -> Z * db;
  report_add_result : Z -> Z -> db -> db;
  manage_transaction_start : db -> db;
  manage_transaction_stop : bool -> db -> db;
  manage_report_host_detail : Z -> string -> string -> db -> db;
  manage_port_name : Z -> string -> option string;
  task_run_status : Z -> db -> Z;
  set_task_run_status : Z -> Z -> Z -> Z -> db -> db;
  set_scan_attack_state : Z -> string -> string -> db -> db;
  set_scan_ports : Z -> string -> Z -> Z -> db -> db;
  set_scan_host_start_time_otp : Z -> string -> string -> db -> db;
  set_scan_host_end_time_otp : Z -> string -> string -> db -> db;
  scan_start_time_epoch : Z -> db -> Z;
  set_task_start_time_otp : Z -> string -> db -> db;
  set_scan_start_time_otp : Z -> string -> db -> db;
  set_scan_end_time_otp : Z -> string -> db -> db;
  set_task_end_time : Z -> string -> db -> db;
  delete_task_lock : Z -> Z -> Z -> Z -> db -> db;
  manage_nvt_preference_add : string -> string -> Z -> db -> db;
  manage_nvt_preferences_enable : db -> db;
  manage_complete_nvt_cache_update : list nvti -> Z -> db -> db;
  set_nvts_feed_version : option string -> db -> db }.

(** *** [task_status_t] of [manage.h] *)
Definition TASK_STATUS_DELETE_REQUESTED : Z := 0.
Definition TASK_STATUS_DONE : Z := 1.
Definition TASK_STATUS_NEW : Z := 2.
Definition TASK_STATUS_REQUESTED : Z := 3.
Definition TASK_STATUS_RUNNING : Z := 4.
Definition TASK_STATUS_PAUSE_REQUESTED : Z := 5.
Definition TASK_STATUS_PAUSE_WAITING : Z := 6.
Definition TASK_STATUS_PAUSED : Z := 7.
Definition TASK_STATUS_RESUME_REQUESTED : Z := 8.
Definition TASK_STATUS_RESUME_WAITING : Z := 9.
Definition TASK_STATUS_STOP_REQUESTED : Z := 10.
Definition TASK_STATUS_STOP_WAITING : Z := 11.
Definition TASK_STATUS_STOPPED : Z := 12.
Definition TASK_STATUS_INTERNAL_ERROR : Z := 13.
Definition TASK_STATUS_DELETE_ULTIMATE_REQUESTED : Z := 14.
Definition TASK_STATUS_STOP_REQUESTED_GIVEUP : Z := 15.
Definition TASK_STATUS_DELETE_WAITING : Z := 16.
Definition TASK_STATUS_DELETE_ULTIMATE_WAITING : Z := 17.

(** ** The state *)

Inductive scanner_state_t :=
| SCANNER_BYE | SCANNER_DONE
| SCANNER_ERRMSG_DESCRIPTION | SCANNER_ERRMSG_HOST | SCANNER_ERRMSG_NUMBER | SCANNER_ERRMSG_OID
| SCANNER_ALARM_DESCRIPTION | SCANNER_ALARM_HOST | SCANNER_ALARM_NUMBER | SCANNER_ALARM_OID
| SCANNER_LOG_DESCRIPTION | SCANNER_LOG_HOST | SCANNER_LOG_NUMBER | SCANNER_LOG_OID
| SCANNER_NVT_INFO
| SCANNER_PLUGIN_LIST_BUGTRAQ_ID | SCANNER_PLUGIN_LIST_CATEGORY | SCANNER_PLUGIN_LIST_COPYRIGHT
| SCANNER_PLUGIN_LIST_CVE_ID | SCANNER_PLUGIN_LIST_FAMILY | SCANNER_PLUGIN_LIST_NAME
| SCANNER_PLUGIN_LIST_OID | SCANNER_PLUGIN_LIST_PLUGIN_VERSION | SCANNER_PLUGIN_LIST_SUMMARY
| SCANNER_PLUGIN_LIST_TAGS | SCANNER_PLUGIN_LIST_XREFS
| SCANNER_PREFERENCE_NAME | SCANNER_PREFERENCE_VALUE
| SCANNER_SERVER
| SCANNER_STATUS | SCANNER_STATUS_ATTACK_STATE | SCANNER_STATUS_HOST | SCANNER_STATUS_PORTS
| SCANNER_STATUS_PROGRESS
| SCANNER_TIME | SCANNER_TIME_HOST_START_HOST | SCANNER_TIME_HOST_START_TIME
| SCANNER_TIME_HOST_END_HOST | SCANNER_TIME_HOST_END_TIME
| SCANNER_TIME_SCAN_START | SCANNER_TIME_SCAN_END
| SCANNER_TOP.

Inductive scanner_init_state_t :=
| SCANNER_INIT_CONNECT_INTR | SCANNER_INIT_CONNECTED | SCANNER_INIT_DONE
| SCANNER_INIT_DONE_CACHE_MODE | SCANNER_INIT_DONE_CACHE_MODE_UPDATE
| SCANNER_INIT_GOT_FEED_VERSION | SCANNER_INIT_GOT_PLUGINS
| SCANNER_INIT_SENT_COMPLETE_LIST | SCANNER_INIT_SENT_COMPLETE_LIST_UPDATE
| SCANNER_INIT_SENT_VERSION | SCANNER_INIT_TOP.

#[export] Instance scanner_state_eq : EqDecision scanner_state_t.
Proof. solve_decision. Defined.
#[export] Instance scanner_init_state_eq : EqDecision scanner_init_state_t.
Proof. solve_decision. Defined.

(** The part of [from_scanner] that holds input: its start, its text; how far the
    start is after the end (then the text is empty). *)
Record buffer := mk_buffer { from_scanner_start : Z; pending : string; overrun : Z }.

Definition from_scanner_end (b : buffer) : Z :=
  from_scanner_start b + CStr.slen (pending b) - overrun b.

(** [FROM_BUFFER_SIZE] of [ompd.c]. *)
Definition from_buffer_size : Z := 1048576.

Section Reader.
Context `{G : Glib} `{Mg : Manager}.

Record otp := mk_otp {
  scanner_state : scanner_state_t;
  scanner_init_state : scanner_init_state_t;
  current_message : option message_t;
  current_host : option string;
  plugins_feed_version : option string;
  current_scanner_preference : option string;
  current_plugin : option nvti;
  scanner_plugins_list : list nvti;
  scanner_current_loading : Z;
  scanner_total_loading : Z;
  current_scanner_task : Z;
  current_report : Z;
  scanner_active : Z;
  to_scanner : to_server_t;
  the_db : db }.

Definition upd_state v s := mk_otp v (scanner_init_state s) (current_message s) (current_host s)
  (plugins_feed_version s) (current_scanner_preference s) (current_plugin s)
  (scanner_plugins_list s) (scanner_current_loading s) (scanner_total_loading s)
  (current_scanner_task s) (current_report s) (scanner_active s) (to_scanner s) (the_db s).
Definition upd_init v s := mk_otp (scanner_state s) v (current_message s) (current_host s)
  (plugins_feed_version s) (current_scanner_preference s) (current_plugin s)
  (scanner_plugins_list s) (scanner_current_loading s) (scanner_total_loading s)
  (current_scanner_task s) (current_report s) (scanner_active s) (to_scanner s) (the_db s).
Definition upd_message v s := mk_otp (scanner_state s) (scanner_init_state s) v (current_host s)
  (plugins_feed_version s) (current_scanner_preference s) (current_plugin s)
  (scanner_plugins_list s) (scanner_current_loading s) (scanner_total_loading s)
  (current_scanner_task s) (current_report s) (scanner_active s) (to_scanner s) (the_db s).
Definition upd_host v s := mk_otp (scanner_state s) (scanner_init_state s) (current_message s) v
  (plugins_feed_version s) (current_scanner_preference s) (current_plugin s)
  (scanner_plugins_list s) (scanner_current_loading s) (scanner_total_loading s)
  (current_scanner_task s) (current_report s) (scanner_active s) (to_scanner s) (the_db s).
Definition upd_feed_version v s := mk_otp (scanner_state s) (scanner_init_state s)
  (current_message s) (current_host s) v (current_scanner_preference s) (current_plugin s)
  (scanner_plugins_list s) (scanner_current_loading s) (scanner_total_loading s)
  (current_scanner_task s) (current_report s) (scanner_active s) (to_scanner s) (the_db s).
Definition upd_preference v s := mk_otp (scanner_state s) (scanner_init_state s)
  (current_message s) (current_host s) (plugins_feed_version s) v (current_plugin s)
  (scanner_plugins_list s) (scanner_current_loading s) (scanner_total_loading s)
  (current_scanner_task s) (current_report s) (scanner_active s) (to_scanner s) (the_db s).
Definition upd_plugin v s := mk_otp (scanner_state s) (scanner_init_state s) (current_message s)
  (current_host s) (plugins_feed_version s) (current_scanner_preference s) v
  (scanner_plugins_list s) (scanner_current_loading s) (scanner_total_loading s)
  (current_scanner_task s) (current_report s) (scanner_active s) (to_scanner s) (the_db s).
Definition upd_plugins v s := mk_otp (scanner_state s) (scanner_init_state s) (current_message s)
  (current_host s) (plugins_feed_version s) (current_scanner_preference s) (current_plugin s) v
  (scanner_current_loading s) (scanner_total_loading s) (current_scanner_task s)
  (current_report s) (scanner_active s) (to_scanner s) (the_db s).
Definition upd_current_loading v s := mk_otp (scanner_state s) (scanner_init_state s)
  (current_message s) (current_host s) (plugins_feed_version s) (current_scanner_preference s)
  (current_plugin s) (scanner_plugins_list s) v (scanner_total_loading s) (current_scanner_task s)
  (current_report s) (scanner_active s) (to_scanner s) (the_db s).
Definition upd_total_loading v s := mk_otp (scanner_state s) (scanner_init_state s)
  (current_message s) (current_host s) (plugins_feed_version s) (current_scanner_preference s)
  (current_plugin s) (scanner_plugins_list s) (scanner_current_loading s) v
  (current_scanner_task s) (current_report s) (scanner_active s) (to_scanner s) (the_db s).
Definition upd_task v s := mk_otp (scanner_state s) (scanner_init_state s) (current_message s)
  (current_host s) (plugins_feed_version s) (current_scanner_preference s) (current_plugin s)
  (scanner_plugins_list s) (scanner_current_loading s) (scanner_total_loading s) v
  (current_report s) (scanner_active s) (to_scanner s) (the_db s).
Definition upd_report v s := mk_otp (scanner_state s) (scanner_init_state s) (current_message s)
  (current_host s) (plugins_feed_version s) (current_scanner_preference s) (current_plugin s)
  (scanner_plugins_list s) (scanner_current_loading s) (scanner_total_loading s)
  (current_scanner_task s) v (scanner_active s) (to_scanner s) (the_db s).
Definition upd_active v s := mk_otp (scanner_state s) (scanner_init_state s) (current_message s)
  (current_host s) (plugins_feed_version s) (current_scanner_preference s) (current_plugin s)
  (scanner_plugins_list s) (scanner_current_loading s) (scanner_total_loading s)
  (current_scanner_task s) (current_report s) v (to_scanner s) (the_db s).
Definition upd_to_scanner v s := mk_otp (scanner_state s) (scanner_init_state s)
  (current_message s) (current_host s) (plugins_feed_version s) (current_scanner_preference s)
  (current_plugin s) (scanner_plugins_list s) (scanner_current_loading s)
  (scanner_total_loading s) (current_scanner_task s) (current_report s) (scanner_active s) v
  (the_db s).
Definition upd_db v s := mk_otp (scanner_state s) (scanner_init_state s) (current_message s)
  (current_host s) (plugins_feed_version s) (current_scanner_preference s) (current_plugin s)
  (scanner_plugins_list s) (scanner_current_loading s) (scanner_total_loading s)
  (current_scanner_task s) (current_report s) (scanner_active s) (to_scanner s) v.

Definition gets {A} (f : otp -> A) : M otp A := fun s => Ret (f s, s).
Definition modify (f : otp -> otp) : M otp unit := fun s => Ret (tt, f s).
Definition assert (b : otp -> bool) : M otp unit := fun s => if b s then Ret (tt, s) else Undef.
Definition on_db (f : otp -> db -> db) : M otp unit := modify (fun s => upd_db (f s (the_db s)) s).

Definition set_scanner_state (v : scanner_state_t) : M otp unit := modify (upd_state v).
Definition set_scanner_init_state (v : scanner_init_state_t) : M otp unit := modify (upd_init v).

(** ** Helper functions *)

Definition categories : list string :=
  ["init"; "scanner"; "settings"; "infos"; "attack"; "mixed"; "destructive_attack"; "denial";
   "kill_host"; "flood"; "end"; "unknown"]%string.
Definition ACT_UNKNOWN : Z := 11.
Definition ACT_END : nat := 10.

(** The first of the entries up to [ACT_END] with this name. *)
Fixpoint category_index (category : string) (index : Z) (l : list string) : Z :=
  match l with
  | [] => ACT_UNKNOWN
  | c :: l' => if decide (category = c) then index else category_index category (index + 1) l'
  end.
Definition category_number (category : string) : Z :=
  category_index category 0 (take (S ACT_END) categories).

(** [iscntrl] of the C locale. *)
Definition iscntrl (c : ascii) : bool := (CStr.code c <? 32) || (CStr.code c =? 127).
Definition newline : ascii := "010"%char.
Definition blank_control_chars (s : string) : string :=
  CStr.map_str (fun c => if iscntrl c && negb (bool_decide (c = newline)) then " "%char else c) s.

(** The text up to the first zero byte. *)
Definition NUL : ascii := "000"%char.
Fixpoint cstr (s : string) : string :=
  match s with
  | EmptyString => EmptyString
  | String c s' => if decide (c = NUL) then EmptyString else String c (cstr s')
  end.

(** *** [openvas_strip_space] ([base/openvas_string.c])

    The result is the text up to [end] before the zero byte the function writes.
    When white space runs up to the last character, that one is overwritten,
    whatever it is. *)
Definition is_blank_or_newline (c : ascii) : bool :=
  bool_decide (c = " "%char) || bool_decide (c = newline).

Fixpoint strip_leading (s : string) : string :=
  match s with
  | String c s' =>
      if is_blank_or_newline c then
        match s' with
        | EmptyString => EmptyString
        | String _ EmptyString => EmptyString
        | _ => strip_leading s'
        end
      else s
  | EmptyString => EmptyString
  end.

Definition strip_trailing (s : string) : string :=
  CStr.rev_str EmptyString (CStr.skip is_blank_or_newline (CStr.rev_str EmptyString s)).

Definition openvas_strip_space (s : string) : string := strip_trailing (strip_leading s).

(** *** Ports *)

(** The conversion "%i" of [sscanf]: the number and the text after it. *)
Definition scan_i (s : string) : option (Z * string) :=
  let '(v, rest) := CStr.strtol 0 s in
  if CStr.slen rest =? CStr.slen s then None else Some (MInt.wrap32 v, rest).

(** The conversion "%s". *)
Fixpoint word (s : string) : string :=
  match s with
  | String c s' => if CStr.isspace c then EmptyString else String c (word s')
  | EmptyString => EmptyString
  end.
Definition scan_s (s : string) : option string :=
  match word (CStr.skip CStr.isspace s) with EmptyString => None | w => Some w end.

(** [sscanf (field, "%i/%s", &number, protocol) == 2] *)
Definition scan_port (field : string) : option (Z * string) :=
  match scan_i field with
  | Some (number, String "/" rest) =>
      match scan_s rest with Some protocol => Some (number, protocol) | None => None end
  | _ => None
  end.

Definition port_name_formatted (field : string) : string :=
  match scan_port field with
  | None => field
  | Some (number, protocol) =>
      match manage_port_name number protocol with
      | Some port_name => CStr.dec number +:+ "/" +:+ protocol +:+ " (IANA: " +:+ port_name +:+ ")"
      | None => field
      end
  end.

Definition protocol_of (protocol : string) : port_protocol_t :=
  if CStr.strcaseeq "udp" protocol then PORT_PROTOCOL_UDP
  else if CStr.strcaseeq "tcp" protocol then PORT_PROTOCOL_TCP
  else PORT_PROTOCOL_OTHER.

(** ** Messages *)

Definition make_message (host : string) : message_t :=
  mk_message host None None 0 PORT_PROTOCOL_OTHER None.
Definition set_message_port_number number m := mk_message (msg_host m) (msg_description m)
  (msg_oid m) number (msg_port_protocol m) (msg_port_string m).
Definition set_message_port_protocol protocol m := mk_message (msg_host m) (msg_description m)
  (msg_oid m) (msg_port_number m) (protocol_of protocol) (msg_port_string m).
Definition set_message_port_string s m := mk_message (msg_host m) (msg_description m)
  (msg_oid m) (msg_port_number m) (msg_port_protocol m) (Some s).
Definition set_message_description s m := mk_message (msg_host m) (Some s)
  (msg_oid m) (msg_port_number m) (msg_port_protocol m) (msg_port_string m).
Definition set_message_oid s m := mk_message (msg_host m) (msg_description m)
  (Some s) (msg_port_number m) (msg_port_protocol m) (msg_port_string m).

(** The database after a message is written. *)
Definition write_result (task report : Z) (m : message_t) (type : string) (d : db) : db :=
  let '(result, d') :=
    make_result task (msg_host m) (msg_port_string m) (msg_oid m) type (msg_description m)
      (manage_transaction_start d) in
  report_add_result report result d'.

Definition write_message (task : Z) (m : message_t) (type : string) : M otp unit :=
  assert (fun s => negb (current_report s =? 0)) ;;
  on_db (fun s => write_result task (current_report s) m type).

Definition append_error_message (task : Z) (m : message_t) : M otp unit :=
  write_message task m "Error Message".
Definition append_alarm_message (task : Z) (m : message_t) : M otp unit :=
  write_message task m "Alarm".

(** A text without a trailing "\n", the two characters. *)
Definition strip_newline_escape (s : string) : string :=
  let len := String.length s in
  if (2 <? len)%nat && bool_decide (CStr.drop_str (len - 2) s = "\n"%string)
  then CStr.take_str (len - 2) s else s.

Definition append_log_message (task : Z) (m : message_t) : M otp unit :=
  assert (fun s => negb (current_report s =? 0)) ;;
  if decide (msg_port_string m = Some "general/Host_Details"%string) then
    match msg_description m with
    | None => undef
    | Some description =>
        on_db (fun s => manage_report_host_detail (current_report s) (msg_host m)
                          (strip_newline_escape description))
    end
  else write_message task m "Log Message".

(** ** The current task ([manage.c]) *)

(** The result of [send_to_server] and its effect. *)
Definition send (msg : string) : M otp Z := fun s =>
  let '(r, b) := send_to_server msg (to_scanner s) in Ret (r, upd_to_scanner b s).

(** A text with a newline, as the code's "...\n". *)
Definition line (s : string) : string := s +:+ String newline EmptyString.

Definition acknowledge_bye : M otp Z :=
  r ← send (line "CLIENT <|> BYE <|> ACK");
  mret (if r =? 0 then 0 else -1).
Definition acknowledge_feed_version_info : M otp Z :=
  r ← send (line "CLIENT <|> COMPLETE_LIST <|> CLIENT");
  mret (if r =? 0 then 0 else -1).

(** Send a request, then note in the database that it waits. *)
Definition request (msg : string) (waiting : Z) : M otp Z :=
  r ← send (line msg);
  if negb (r =? 0) then mret (-1) else
  on_db (fun s => set_task_run_status (current_report s) (current_scanner_task s)
                    (current_scanner_task s) waiting) ;;
  mret 1.

Definition manage_check_current_task : M otp Z :=
  task ← gets current_scanner_task;
  if task =? 0 then mret 0 else
  on_db (fun _ => manage_transaction_stop false) ;;
  run_status ← gets (fun s => task_run_status task (the_db s));
  if run_status =? TASK_STATUS_PAUSE_REQUESTED
  then request "CLIENT <|> PAUSE_WHOLE_TEST <|> CLIENT" TASK_STATUS_PAUSE_WAITING
  else if run_status =? TASK_STATUS_RESUME_REQUESTED
  then request "CLIENT <|> RESUME_WHOLE_TEST <|> CLIENT" TASK_STATUS_RESUME_WAITING
  else if run_status =? TASK_STATUS_STOP_REQUESTED_GIVEUP then undef
  else if run_status =? TASK_STATUS_STOP_REQUESTED
  then request "CLIENT <|> STOP_WHOLE_TEST <|> CLIENT" TASK_STATUS_STOP_WAITING
  else if run_status =? TASK_STATUS_DELETE_REQUESTED
  then request "CLIENT <|> STOP_WHOLE_TEST <|> CLIENT" TASK_STATUS_DELETE_WAITING
  else if run_status =? TASK_STATUS_DELETE_ULTIMATE_REQUESTED
  then request "CLIENT <|> STOP_WHOLE_TEST <|> CLIENT" TASK_STATUS_DELETE_ULTIMATE_WAITING
  else mret 0.

(** ** Tags of a plugin ([parse_tags] of [manage.c])

    [tags] is what is left of the list without the two members that have their
    own place. *)
Fixpoint parse_tag_list (l : list string) (tags : list string) (cvss_base risk_factor : option string)
  : list string * option string * option string :=
  match l with
  | [] => (tags, cvss_base, risk_factor)
  | point :: l' =>
      match CStr.drop_prefix "cvss_base=" point with
      | Some v => parse_tag_list l' tags (match cvss_base with None => Some v | _ => cvss_base end)
                    risk_factor
      | None =>
      match CStr.drop_prefix "risk_factor=" point with
      | Some v => parse_tag_list l' tags cvss_base
                    (match risk_factor with None => Some v | _ => risk_factor end)
      | None => parse_tag_list l' (tags ++ [point]) cvss_base risk_factor
      end end
  end.

Definition parse_tags (scanner_tags : string) : string * option string * option string :=
  let '(l, cvss_base, risk_factor) := parse_tag_list (g_strsplit "|" scanner_tags) [] None None in
  let tags := String.concat "|" l in
  (match tags with EmptyString => "NOTAG" | _ => tags end, cvss_base, risk_factor)%string.

(** ** The buffer *)

(** The static variables and the input. *)
Record reader := mk_reader { vars : otp; from_scanner : buffer }.

Definition lift {A} (m : M otp A) : M reader A := fun s =>
  match m (vars s) with
  | Ret (a, v) => Ret (a, mk_reader v (from_scanner s))
  | NoReturn => NoReturn
  | Undef => Undef
  end.

Definition on_buffer (f : buffer -> buffer) : M reader unit := fun s =>
  Ret (tt, mk_reader (vars s) (f (from_scanner s))).

(** The input; the model stops when the start is after the end. *)
Definition input : M reader string := fun s =>
  if overrun (from_scanner s) =? 0 then Ret (pending (from_scanner s), s) else Undef.

(** The input without its first characters, [rest] is what is left of it. *)
Definition consume (rest : string) : M reader unit := on_buffer (fun b =>
  mk_buffer (from_scanner_start b + (CStr.slen (pending b) - CStr.slen rest)) rest 0).

Definition sync_buffer : M reader Z := fun s =>
  let b := from_scanner s in
  if negb (overrun b =? 0) then Undef   (* a [memmove] of [from_scanner_end], below zero *)
  else if (0 <? from_scanner_start b) && (from_scanner_start b =? from_scanner_end b)
  then Ret (0, mk_reader (vars s) (mk_buffer 0 EmptyString 0))
  else if from_scanner_start b =? 0 then
    if from_scanner_end b =? from_buffer_size then Ret (-1, s) else Ret (0, s)
  else Ret (0, mk_reader (vars s) (mk_buffer 0 (pending b) 0)).

(** [if (sync_buffer ()) goto return_error; goto return_need_more;] *)
Definition need_more : M reader Z :=
  r ← sync_buffer;
  mret (if r =? 0 then 0 else -1).

Definition is_space (c : ascii) : bool := bool_decide (c = " "%char).

(** [strncasecmp (p, s, strlen (p)) == 0] *)
Definition case_prefix (p s : string) : bool :=
  CStr.strcaseeq p (CStr.take_str (String.length p) s).

(** 0, -1 (not "SERVER") or -2 (fewer than 6 characters). *)
Definition parse_scanner_done : M reader Z :=
  messages ← input;
  let messages := CStr.skip is_blank_or_newline messages in
  consume messages ;;
  if CStr.slen messages <? 6 then mret (-2)
  else if negb (case_prefix "SERVER" messages) then mret (-1)
  else lift (set_scanner_state SCANNER_TOP) ;;
       consume (CStr.drop_str 6 messages) ;;
       mret 0.

(** The comparison needs 19 characters of the same line, which are all before the
    newline that was found. *)
Definition parse_scanner_bad_login : M reader Z :=
  messages ← input;
  let messages := CStr.skip is_space messages in
  consume messages ;;
  match CStr.strchr_split newline messages with
  | Some (_, rest) =>
      if case_prefix "Bad login attempt !" messages then
        consume rest ;; lift (set_scanner_init_state SCANNER_INIT_TOP) ;; mret 0
      else mret 1
  | None => mret 1
  end.

(** The text up to the next newline, without leading spaces, control characters
    made spaces; [None] without a newline. *)
Definition take_line : M reader (option string) :=
  messages ← input;
  let messages := CStr.skip is_space messages in
  consume messages ;;
  match CStr.strchr_split newline messages with
  | Some (value, rest) => consume rest ;; mret (Some (blank_control_chars (cstr value)))
  | None => mret None
  end.

(** What a preference value is for: the entry in the database. *)
Definition add_preference (value : string) : M otp unit :=
  preference ← gets current_scanner_preference;
  init ← gets scanner_init_state;
  match preference with
  | Some name =>
      if decide (init = SCANNER_INIT_DONE_CACHE_MODE)
      then on_db (fun _ => manage_nvt_preference_add name value 0)
      else if decide (init = SCANNER_INIT_DONE_CACHE_MODE_UPDATE)
      then on_db (fun _ => manage_nvt_preference_add name value 1)
      else mret tt
  | None => mret tt
  end.

Definition parse_scanner_preference_value : M reader Z :=
  l ← take_line;
  match l with
  | None => mret (-2)
  | Some value =>
      lift (add_preference value) ;;
      lift (set_scanner_state SCANNER_PREFERENCE_NAME) ;;
      mret 0
  end.

Definition semicolons_to_newlines (s : string) : string :=
  CStr.map_str (fun c => if decide (c = ";"%char) then newline else c) s.

(** The plugin is complete with its tags. *)
Definition add_plugin (value : string) : M otp unit :=
  plugin ← gets current_plugin;
  match plugin with
  | Some n =>
      let '(tags, cvss_base, _) := parse_tags (semicolons_to_newlines value) in
      let n := nvti_set_cvss_base cvss_base (nvti_set_tag (Some tags) n) in
      modify (fun s => upd_plugins (n :: scanner_plugins_list s) s) ;;
      modify (upd_plugin None)
  | None => mret tt
  end.

Definition parse_scanner_plugin_list_tags : M reader Z :=
  lift (assert (fun s => match current_plugin s with Some _ => true | None => false end)) ;;
  l ← take_line;
  match l with
  | None => mret (-2)
  | Some value =>
      lift (add_plugin value) ;;
      lift (set_scanner_state SCANNER_PLUGIN_LIST_OID) ;;
      mret 0
  end.

(** *** The next "<|>"

    A '<' and a '|' that are input, and a '>' that may be the byte after it.
    [found_bar before after over]: the text on both sides, and whether the '>' was
    not input. *)
Definition bar_at (s beyond : string) : option (string * bool) :=
  match s with
  | String "<" (String "|" s') =>
      match s' with
      | String ">" rest => Some (rest, false)
      | String _ _ => None
      | EmptyString =>
          match beyond with String ">" _ => Some (EmptyString, true) | _ => None end
      end
  | _ => None
  end.

Fixpoint find_bar (s beyond : string) : option (string * string * bool) :=
  match bar_at s beyond with
  | Some (rest, over) => Some (EmptyString, rest, over)
  | None =>
      match s with
      | EmptyString => None
      | String c s' =>
          match find_bar s' beyond with
          | Some (before, rest, over) => Some (String c before, rest, over)
          | None => None
          end
      end
  end.

(** -1: a bar after the next newline, -3: before it, -2: no bar, -4: no newline. *)
Definition parse_scanner_server (beyond : string) : M reader Z :=
  messages ← input;
  let messages := CStr.skip is_space messages in
  consume messages ;;
  match CStr.strchr_split newline messages with
  | Some (l, _) =>
      match find_bar messages beyond with
      | Some (before, _, _) => mret (if CStr.slen l <? CStr.slen before then -1 else -3)
      | None => mret (-2)
      end
  | None => mret (-4)
  end.

(** *** "SCANNER_LOADING"

    These two read the array as a C string, past the input. *)
Definition scanner_is_loading (messages beyond : string) : bool :=
  case_prefix "SCANNER_LOADING " (messages +:+ beyond).

Definition parse_scanner_loading (beyond : string) : M reader unit :=
  messages ← input;
  let text := cstr (messages +:+ beyond) in
  match CStr.strstr_split text " <|> " with
  | None => mret tt
  | Some (_, str) =>
      lift (modify (upd_current_loading (CStr.atoi str))) ;;
      if CStr.atoi str =? 0 then mret tt else
      match CStr.strstr_split str " <|> " with
      | None => mret tt
      | Some (_, str) =>
          lift (modify (upd_total_loading (CStr.atoi str))) ;;
          match CStr.strchr_split newline str with
          | None => mret tt
          | Some (before, rest) =>
              let n := CStr.slen text - CStr.slen rest - 1 in
              on_buffer (fun b =>
                mk_buffer (from_scanner_start b + n) (CStr.drop_str (Z.to_nat n) messages)
                  (Z.max 0 (n - CStr.slen messages)))
          end
      end
  end.

(** ** Fields

    What a case of the switch on [scanner_state] does after its own work: leave the
    switch, return, or first read what ends in something other than "<|>".
    [Await_done] is "set_scanner_state (SCANNER_DONE); switch (parse_scanner_done
    (&messages))" with what the case does where that returns 0. *)
Inductive awaits :=
| Break
| Return (r : Z)
| Await_server
| Await_tags
| Await_value
| Await_done (case_0 : M reader (option Z)).

Definition next (v : scanner_state_t) : M otp awaits := set_scanner_state v ;; mret Break.
Definition no_case_0 : M reader (option Z) := mret None.

Definition strcasecmp_is (p s : string) : bool := CStr.strcaseeq p s.

(** The cases [SCANNER_..._HOST], [..._NUMBER], [..._DESCRIPTION] and [..._OID] of
    the three kinds of messages. *)
Definition message_host_field (field : string) (v : scanner_state_t) : M otp awaits :=
  assert (fun s => match current_message s with None => true | Some _ => false end) ;;
  modify (upd_message (Some (make_message field))) ;;
  next v.

(** [protocol] has room for the length of the field: none, for an empty one. *)
Definition message_number_field (field : string) (v : scanner_state_t) : M otp awaits :=
  message ← gets current_message;
  match message with
  | None => undef
  | Some m =>
      match scan_port field with
      | Some p => mret p
      | None => match field with
                | EmptyString => undef
                | _ => mret (CStr.atoi field, EmptyString)
                end
      end ≫= fun '(number, protocol) =>
      modify (upd_message (Some
        (set_message_port_string (port_name_formatted field)
          (set_message_port_protocol protocol (set_message_port_number number m))))) ;;
      next v
  end.

Definition message_description_field (field : string) (v : scanner_state_t) : M otp awaits :=
  message ← gets current_message;
  match message with
  | Some m => modify (upd_message (Some (set_message_description field m)))
  | None => mret tt
  end ;;
  next v.

Definition message_oid_field (field : string) (append : Z -> message_t -> M otp unit)
  : M otp awaits :=
  message ← gets current_message;
  task ← gets current_scanner_task;
  match message with
  | Some m =>
      if task =? 0 then mret tt
      else append task (set_message_oid field m) ;; modify (upd_message None)
  | None => mret tt
  end ;;
  mret (Await_done no_case_0).

(** The cases that set one member of the current plugin. *)
Definition plugin_field (f : nvti -> nvti) (v : scanner_state_t) : M otp awaits :=
  modify (fun s => upd_plugin (f <$> current_plugin s) s) ;;
  next v.

Definition plugin_list_complete : M otp (option Z) :=
  init ← gets scanner_init_state;
  (if decide (init = SCANNER_INIT_SENT_COMPLETE_LIST
              \/ init = SCANNER_INIT_SENT_COMPLETE_LIST_UPDATE) then
     set_scanner_init_state SCANNER_INIT_GOT_PLUGINS ;;
     on_db (fun s => set_nvts_feed_version (plugins_feed_version s))
   else mret tt) ;;
  mret None.

(** An empty field ends the list.  ([match[1] == '|'] holds: the bar was found
    there.) *)
Definition plugin_list_oid_field (field : string) : M otp awaits :=
  if decide (field = EmptyString) then mret (Await_done (lift plugin_list_complete))
  else
    assert (fun s => match current_plugin s with None => true | Some _ => false end) ;;
    modify (upd_plugin (Some (nvti_set_oid field nvti_new))) ;;
    next SCANNER_PLUGIN_LIST_NAME.

Definition nvt_info_complete : M otp (option Z) :=
  init ← gets scanner_init_state;
  if decide (init = SCANNER_INIT_DONE) then
    set_scanner_init_state SCANNER_INIT_GOT_FEED_VERSION ;; mret None
  else
    r ← acknowledge_feed_version_info;
    mret (if r =? 0 then None else Some (-1)).

Definition nvt_info_field (field : string) : M otp awaits :=
  modify (upd_feed_version (Some field)) ;;
  mret (Await_done (lift nvt_info_complete)).

Definition bye_complete : M reader (option Z) :=
  r ← sync_buffer;
  if negb (r =? 0) then mret (Some (-1)) else
  lift (modify (upd_active 0)) ;;
  r ← lift acknowledge_bye;
  mret (Some (if r =? 0 then 1 else -1)).

Definition bye_field (field : string) : M otp awaits :=
  if negb (strcasecmp_is "BYE" field) then mret (Return (-1))
  else mret (Await_done bye_complete).

(** [sscanf (field, "%20[^[][%*[^]]]:%n%*[ -~]%n", name, ...)] with a name of those
    two: a secret, whose value is not to be kept. *)
Definition is_authorization (field : string) : bool :=
  match CStr.strchr_split "[" field with
  | None => false
  | Some (name, rest) =>
      (bool_decide (name = "SSH Authorization"%string)
       || bool_decide (name = "SMB Authorization"%string))
      && match CStr.strchr_split "]" rest with
         | Some (String _ _, String ":" (String c _)) => (32 <=? CStr.code c) && (CStr.code c <=? 126)
         | _ => false
         end
  end.

Definition preferences_complete : M otp (option Z) :=
  init ← gets scanner_init_state;
  if decide (init = SCANNER_INIT_DONE_CACHE_MODE \/ init = SCANNER_INIT_DONE_CACHE_MODE_UPDATE)
  then
    on_db (fun s => manage_complete_nvt_cache_update (scanner_plugins_list s)
             (if decide (init = SCANNER_INIT_DONE_CACHE_MODE) then -2 else -1)) ;;
    set_scanner_init_state SCANNER_INIT_DONE ;;
    on_db (fun _ => manage_nvt_preferences_enable) ;;
    modify (upd_active 0) ;;
    mret (Some 1)
  else mret None.

Definition preference_name_field (field : string) : M otp awaits :=
  if decide (field = EmptyString) then mret (Await_done (lift preferences_complete))
  else
    modify (upd_preference (if is_authorization field then None else Some field)) ;;
    set_scanner_state SCANNER_PREFERENCE_VALUE ;;
    mret Await_value.

Definition server_field (field : string) : M otp awaits :=
  if strcasecmp_is "BYE" field then next SCANNER_BYE
  else if strcasecmp_is "ERRMSG" field then next SCANNER_ERRMSG_HOST
  else if strcasecmp_is "FILE_ACCEPTED" field then mret (Await_done no_case_0)
  else if strcasecmp_is "ALARM" field then next SCANNER_ALARM_HOST
  else if strcasecmp_is "LOG" field then next SCANNER_LOG_HOST
  else if strcasecmp_is "NVT_INFO" field then next SCANNER_NVT_INFO
  else if strcasecmp_is "PLUGIN_LIST" field then next SCANNER_PLUGIN_LIST_OID
  else if strcasecmp_is "PREFERENCES" field then
    assert (fun s => match current_scanner_preference s with None => true | _ => false end) ;;
    next SCANNER_PREFERENCE_NAME
  else if strcasecmp_is "TIME" field then next SCANNER_TIME
  else if strcasecmp_is "STATUS" field then next SCANNER_STATUS_HOST
  else mret (Return (-1)).

(** *** Status *)

(** [current_host = g_strdup (field)] of the three cases, where it was free. *)
Definition host_field (field : string) (v : scanner_state_t) : M otp awaits :=
  assert (fun s => match current_host s with None => true | Some _ => false end) ;;
  modify (upd_host (Some field)) ;;
  next v.

Definition status_attack_state_field (field : string) : M otp awaits :=
  report ← gets current_report;
  host ← gets current_host;
  task ← gets current_scanner_task;
  match host with
  | Some h =>
      if report =? 0 then next SCANNER_STATUS_PORTS
      else if decide (field = "portscan"%string) then next SCANNER_STATUS_PORTS
      else
        (if negb (task =? 0) then
           if decide (field = "pause"%string)
           then on_db (fun _ => set_task_run_status report task task TASK_STATUS_PAUSED)
           else if decide (field = "resume"%string)
           then on_db (fun _ => set_task_run_status report task task TASK_STATUS_RUNNING)
           else mret tt
         else on_db (fun _ => set_scan_attack_state report h field)) ;;
        next SCANNER_STATUS_PROGRESS
  | None => next SCANNER_STATUS_PORTS
  end.

Definition status_ports_field : M otp awaits :=
  modify (upd_host None) ;;
  mret (Await_done no_case_0).

(** The conversion "%u": a number of [strtoul], kept in 32 bits. *)
Definition scan_u (s : string) : option (Z * string) :=
  let '(neg, s1) := CStr.sign (CStr.skip CStr.isspace s) in
  match s1 with
  | String c _ =>
      if CStr.isdigit c then
        let '(v, rest) := CStr.digits 10 0 s1 in
        let ulong := if 2 ^ 64 <=? v then 2 ^ 64 - 1 else if neg : bool then - v else v in
        Some (MInt.uwrap32 ulong, rest)
      else None
  | EmptyString => None
  end.

(** [sscanf (field, "%u/%u", &current, &max) == 2] *)
Definition scan_progress (field : string) : option (Z * Z) :=
  match scan_u field with
  | Some (current, String "/" rest) =>
      match scan_u rest with Some (max, _) => Some (current, max) | None => None end
  | _ => None
  end.

Definition status_progress_field (field : string) : M otp awaits :=
  assert (fun s => negb (current_report s =? 0)) ;;
  report ← gets current_report;
  host ← gets current_host;
  match host, scan_progress field with
  | Some h, Some (current, max) => on_db (fun _ => set_scan_ports report h current max)
  | _, _ => mret tt
  end ;;
  modify (upd_host None) ;;
  mret (Await_done no_case_0).

(** *** Times *)

Definition time_field (field : string) : M otp awaits :=
  if strcasecmp_is "HOST_START" field then next SCANNER_TIME_HOST_START_HOST
  else if strcasecmp_is "HOST_END" field then next SCANNER_TIME_HOST_END_HOST
  else if strcasecmp_is "SCAN_START" field then next SCANNER_TIME_SCAN_START
  else if strcasecmp_is "SCAN_END" field then next SCANNER_TIME_SCAN_END
  else undef.   (* abort *)

(** [SCANNER_TIME_HOST_START_TIME] and [SCANNER_TIME_HOST_END_TIME] *)
Definition time_host_field (set : Z -> string -> string -> db -> db) (field : string)
  : M otp awaits :=
  task ← gets current_scanner_task;
  report ← gets current_report;
  host ← gets current_host;
  (if task =? 0 then mret tt else
   match host with
   | None => undef
   | Some h => on_db (fun _ => set report h field) ;; modify (upd_host None)
   end) ;;
  mret (Await_done no_case_0).

(** The database after "SCAN_START": a start time of an earlier run is kept. *)
Definition start_task (task report : Z) (field : string) (d : db) : db :=
  if task_run_status task d =? TASK_STATUS_REQUESTED then
    let d := set_task_run_status report task task TASK_STATUS_RUNNING d in
    if scan_start_time_epoch report d =? 0
    then set_scan_start_time_otp report field (set_task_start_time_otp task field d)
    else d
  else d.

Definition time_scan_start_field (field : string) : M otp awaits :=
  task ← gets current_scanner_task;
  (if task =? 0 then mret tt
   else on_db (fun s => start_task task (current_report s) field)) ;;
  mret (Await_done no_case_0).

Definition is_one_of (status : Z) (l : list Z) : bool := existsb (Z.eqb status) l.

(** The task after the scan: stopped, stopped and deleted, or done. *)
Definition end_task (task report : Z) (field : string) (d : db) : db :=
  let status := task_run_status task d in
  if status =? TASK_STATUS_INTERNAL_ERROR then d
  else if is_one_of status
    [TASK_STATUS_PAUSE_REQUESTED; TASK_STATUS_PAUSE_WAITING; TASK_STATUS_PAUSED;
     TASK_STATUS_RESUME_REQUESTED; TASK_STATUS_RESUME_WAITING; TASK_STATUS_STOP_REQUESTED;
     TASK_STATUS_STOP_WAITING]
  then set_task_run_status report task task TASK_STATUS_STOPPED d
  else if is_one_of status [TASK_STATUS_DELETE_REQUESTED; TASK_STATUS_DELETE_WAITING]
  then delete_task_lock report task task 0
         (set_task_run_status report task task TASK_STATUS_STOPPED d)
  else if is_one_of status
    [TASK_STATUS_DELETE_ULTIMATE_REQUESTED; TASK_STATUS_DELETE_ULTIMATE_WAITING]
  then delete_task_lock report task task 1
         (set_task_run_status report task task TASK_STATUS_STOPPED d)
  else set_task_run_status report task task TASK_STATUS_DONE (set_task_end_time task field d).

(** The database after "SCAN_END"; the transaction is stopped first, because the
    functions run transactions themselves. *)
Definition end_scan (task report : Z) (field : string) (d : db) : db :=
  let d := manage_transaction_stop true d in
  end_task task report field
    (if report =? 0 then d else set_scan_end_time_otp report field d).

Definition time_scan_end_field (field : string) : M otp awaits :=
  task ← gets current_scanner_task;
  (if task =? 0 then mret tt else
   on_db (fun s => end_scan task (current_report s) field) ;;
   modify (upd_report 0) ;;
   modify (upd_task 0)) ;;
  mret (Await_done no_case_0).

(** ** The switch on the state *)

Definition top_field (field : string) : M otp awaits :=
  if negb (strcasecmp_is "SERVER" field) then mret (Return (-1)) else
  set_scanner_state SCANNER_SERVER ;;
  mret Await_server.

Definition plugin_xrefs_field (field : string) : M otp awaits :=
  modify (fun s => upd_plugin (nvti_set_xref (Some field) <$> current_plugin s) s) ;;
  set_scanner_state SCANNER_PLUGIN_LIST_TAGS ;;
  mret Await_tags.

Definition process_field (state : scanner_state_t) (field : string) : M otp awaits :=
  match state with
  | SCANNER_BYE => bye_field field
  | SCANNER_ERRMSG_HOST => message_host_field field SCANNER_ERRMSG_NUMBER
  | SCANNER_ERRMSG_NUMBER => message_number_field field SCANNER_ERRMSG_DESCRIPTION
  | SCANNER_ERRMSG_DESCRIPTION => message_description_field field SCANNER_ERRMSG_OID
  | SCANNER_ERRMSG_OID => message_oid_field field append_error_message
  | SCANNER_ALARM_HOST => message_host_field field SCANNER_ALARM_NUMBER
  | SCANNER_ALARM_NUMBER => message_number_field field SCANNER_ALARM_DESCRIPTION
  | SCANNER_ALARM_DESCRIPTION => message_description_field field SCANNER_ALARM_OID
  | SCANNER_ALARM_OID => message_oid_field field append_alarm_message
  | SCANNER_LOG_HOST => message_host_field field SCANNER_LOG_NUMBER
  | SCANNER_LOG_NUMBER => message_number_field field SCANNER_LOG_DESCRIPTION
  | SCANNER_LOG_DESCRIPTION => message_description_field field SCANNER_LOG_OID
  | SCANNER_LOG_OID => message_oid_field field append_log_message
  | SCANNER_PLUGIN_LIST_OID => plugin_list_oid_field field
  | SCANNER_PLUGIN_LIST_NAME => plugin_field (nvti_set_name field) SCANNER_PLUGIN_LIST_CATEGORY
  | SCANNER_PLUGIN_LIST_CATEGORY =>
      plugin_field (nvti_set_category (category_number field)) SCANNER_PLUGIN_LIST_COPYRIGHT
  | SCANNER_PLUGIN_LIST_COPYRIGHT =>
      plugin_field (nvti_set_copyright field) SCANNER_PLUGIN_LIST_SUMMARY
  | SCANNER_PLUGIN_LIST_SUMMARY => plugin_field (nvti_set_summary field) SCANNER_PLUGIN_LIST_FAMILY
  | SCANNER_PLUGIN_LIST_FAMILY =>
      plugin_field (nvti_set_family field) SCANNER_PLUGIN_LIST_PLUGIN_VERSION
  | SCANNER_PLUGIN_LIST_PLUGIN_VERSION =>
      plugin_field (nvti_set_version field) SCANNER_PLUGIN_LIST_CVE_ID
  | SCANNER_PLUGIN_LIST_CVE_ID => plugin_field (nvti_set_cve field) SCANNER_PLUGIN_LIST_BUGTRAQ_ID
  | SCANNER_PLUGIN_LIST_BUGTRAQ_ID => plugin_field (nvti_set_bid field) SCANNER_PLUGIN_LIST_XREFS
  | SCANNER_PLUGIN_LIST_XREFS => plugin_xrefs_field field
  | SCANNER_NVT_INFO => nvt_info_field field
  | SCANNER_PREFERENCE_NAME => preference_name_field field
  | SCANNER_SERVER => server_field field
  | SCANNER_STATUS_ATTACK_STATE => status_attack_state_field field
  | SCANNER_STATUS_HOST => host_field field SCANNER_STATUS_ATTACK_STATE
  | SCANNER_STATUS_PORTS => status_ports_field
  | SCANNER_STATUS_PROGRESS => status_progress_field field
  | SCANNER_TIME => time_field field
  | SCANNER_TIME_HOST_START_HOST => host_field field SCANNER_TIME_HOST_START_TIME
  | SCANNER_TIME_HOST_START_TIME => time_host_field set_scan_host_start_time_otp field
  | SCANNER_TIME_HOST_END_HOST => host_field field SCANNER_TIME_HOST_END_TIME
  | SCANNER_TIME_HOST_END_TIME => time_host_field set_scan_host_end_time_otp field
  | SCANNER_TIME_SCAN_START => time_scan_start_field field
  | SCANNER_TIME_SCAN_END => time_scan_end_field field
  | SCANNER_DONE | SCANNER_PLUGIN_LIST_TAGS | SCANNER_PREFERENCE_VALUE | SCANNER_STATUS
  | SCANNER_TOP => top_field field
  end.

(** ** Text that ends in something other than "<|>"

    [Some r]: the function returns [r]. *)

Definition more : M reader (option Z) := r ← need_more; mret (Some r).

Definition read_server (beyond : string) : M reader (option Z) :=
  r ← parse_scanner_server beyond;
  if r =? -1 then mret (Some (-1)) else if r =? -2 then more else mret None.

Definition read_tags : M reader (option Z) :=
  r ← parse_scanner_plugin_list_tags;
  if r =? -2 then more else mret None.

Definition read_value : M reader (option Z) :=
  r ← parse_scanner_preference_value;
  if r =? -2 then more else lift (modify (upd_preference None)) ;; mret None.

Definition read_done (case_0 : M reader (option Z)) : M reader (option Z) :=
  r ← parse_scanner_done;
  if r =? -1 then mret (Some (-1)) else if r =? -2 then more else case_0.

(** The rest of a case of the switch. *)
Definition after_field (beyond : string) (a : awaits) : M reader (option Z) :=
  match a with
  | Break => mret None
  | Return r => mret (Some r)
  | Await_server => read_server beyond
  | Await_tags => read_tags
  | Await_value => read_value
  | Await_done case_0 => lift (set_scanner_state SCANNER_DONE) ;; read_done case_0
  end.

(** The first switch, in the states that an earlier call left. *)
Definition read_before (beyond : string) (state : scanner_state_t) : M reader (option Z) :=
  match state with
  | SCANNER_TOP => r ← parse_scanner_bad_login; mret (if r =? 0 then Some 2 else None)
  | SCANNER_DONE => read_done no_case_0
  | SCANNER_PLUGIN_LIST_TAGS => read_tags
  | SCANNER_PREFERENCE_VALUE => read_value
  | SCANNER_SERVER => read_server beyond
  | _ => mret None
  end.

(** ** The loop over the fields

    [behind] is what the functions above took after the last "<|>": the search for
    the next one starts there again.  A bar in it fails the assertion of
    [openvas_strip_space]. *)

(** The buffer after a field and its bar. *)
Definition leave_field (raw rest : string) (over : bool) (b : buffer) : buffer :=
  mk_buffer (from_scanner_start b + CStr.slen raw + 3) rest (if over then 1 else 0).

Definition field_of (raw : string) : string := blank_control_chars (cstr (openvas_strip_space raw)).

Fixpoint read_fields (fuel : nat) (beyond behind : string) : M reader Z :=
  match fuel with
  | O => no_return
  | S n =>
      messages ← input;
      match find_bar (behind +:+ messages) beyond with
      | None => need_more
      | Some (before, rest, over) =>
          if CStr.slen before <? CStr.slen behind then undef else
          let raw := CStr.drop_str (String.length behind) before in
          on_buffer (leave_field raw rest over) ;;
          state ← lift (gets scanner_state);
          a ← lift (process_field state (field_of raw));
          r ← after_field beyond a;
          match r with
          | Some r => mret r
          | None =>
              left ← input;
              read_fields n beyond
                (CStr.take_str (String.length rest - String.length left) rest)
          end
      end
  end.

(** Enough for the loop: a round takes three characters of the input. *)
Definition fields_fuel (s : reader) : nat := S (String.length (pending (from_scanner s))).

Definition read_input (beyond : string) : M reader Z := fun s =>
  read_fields (fields_fuel s) beyond EmptyString s.

Definition ver_str : string := line "< OTP/2.0 >".

(** The reply to the version, 3: the scanner is still loading. *)
Definition read_version (beyond : string) : M reader Z :=
  messages ← input;
  let messages := CStr.skip is_blank_or_newline messages in
  consume messages ;;
  if scanner_is_loading messages beyond then parse_scanner_loading beyond ;; mret 3
  else if CStr.slen messages <? CStr.slen ver_str then need_more
  else if negb (case_prefix ver_str messages) then mret (-1)
  else consume (CStr.drop_str (String.length ver_str) messages) ;;
       lift (set_scanner_init_state SCANNER_INIT_DONE) ;;
       mret 0.

Definition process_otp_scanner_input (beyond : string) : M reader Z :=
  r ← lift manage_check_current_task;
  if r =? -1 then mret (-1) else
  init ← lift (gets scanner_init_state);
  match init with
  | SCANNER_INIT_SENT_VERSION => read_version beyond
  | SCANNER_INIT_GOT_FEED_VERSION | SCANNER_INIT_GOT_PLUGINS => undef
  | SCANNER_INIT_CONNECT_INTR | SCANNER_INIT_CONNECTED => mret (-1)
  | SCANNER_INIT_SENT_COMPLETE_LIST | SCANNER_INIT_SENT_COMPLETE_LIST_UPDATE
  | SCANNER_INIT_DONE | SCANNER_INIT_DONE_CACHE_MODE | SCANNER_INIT_DONE_CACHE_MODE_UPDATE
  | SCANNER_INIT_TOP =>
      state ← lift (gets scanner_state);
      r ← read_before beyond state;
      match r with
      | Some r => mret r
      | None => read_input beyond
      end
  end.

(** ** Reading in pieces

    What [read_from_server] does with the bytes it gets: they go after the input.
    Where the start is ahead of the end, they come before it. *)
Definition receive (data : string) (b : buffer) : buffer :=
  mk_buffer (from_scanner_start b)
    (pending b +:+ CStr.drop_str (Z.to_nat (overrun b)) data)
    (Z.max 0 (overrun b - CStr.slen data)).

(** Each piece with the memory that follows it; the reader is called after each,
    until it returns something else than 0. *)
Fixpoint deliver (pieces : list (string * string)) : M reader Z :=
  match pieces with
  | [] => mret 0
  | (data, beyond) :: pieces' =>
      on_buffer (receive data) ;;
      r ← process_otp_scanner_input beyond;
      if r =? 0 then deliver pieces' else mret r
  end.

End Reader.
