(* ===== verification/OtpSend.v ===== *)
(** * The messages of the scanner: [comm.c], [ntp.c], [misc/plugutils.c]

    What the scanner and the processes of the plugins print in OTP: results
    ([proto_post_wrapped] and its callers), status ([comm_send_status]), times
    ([ntp_timestamp_...]), errors, the list of plugins, the preferences.  All but
    the status and the times of hosts go through [g_convert] from Latin 1 to UTF-8,
    a parameter.  A message is the text that is given to [internal_send] or to
    [nsend]; that these deliver it is not modelled. *)

From stdpp Require Import base list strings.
From Stdlib Require Import Ascii ZArith Lia.
From S2P Require Import Prelude Arglists Otp.
Local Open Scope Z_scope.

(** What the senders use of GLib and of the C library. *)
Class Conversion := {
  g_convert : string -> string;   (* "UTF-8" from "ISO_8859-1" *)
  ctime : Z -> string }.

Section Sender.
Context `{G : Glib} `{Cv : Conversion}.

(** [snprintf (s, size, "%s", text)] *)
Definition snprintf (size : Z) (text : string) : string := CStr.take_str (Z.to_nat (size - 1)) text.

Definition sep : string := " <|> ".

(** The fields of a message, as the format strings of the senders write them:
    "SERVER <|> f1 <|> ... <|> fn <|> SERVER\n". *)
Definition otp_line (fields : list string) : string :=
  line (String.concat sep ("SERVER" :: fields ++ ["SERVER"]))%string.

(** ** Results ([misc/plugutils.c]) *)

(** The value of the first tag with the given name. *)
Fixpoint tag_value (prefix : string) (nvti_tags : list string) : option string :=
  match nvti_tags with
  | [] => None
  | t :: l =>
      match CStr.drop_prefix prefix t with
      | Some _ => match CStr.strchr_split "=" t with Some (_, v) => Some v | None => None end
      | None => tag_value prefix l
      end
  end.

Definition tag_line (nvti_tags : list string) (tag : string) : string :=
  match tag_value (tag +:+ "=") nvti_tags with
  | Some v => tag +:+ line ":" +:+ line v +:+ line ""
  | None => EmptyString
  end.

Definition prepend_tags (nvti_tags tags : list string) (text : string) : string :=
  foldl (fun text tag => tag_line nvti_tags tag +:+ text) text tags.
Definition append_tags (nvti_tags tags : list string) (text : string) : string :=
  foldl (fun text tag => text +:+ tag_line nvti_tags tag) text tags.

(** [action_str]: the text with the tags the preferences ask for. *)
Definition result_text (nvti_tags_text : option string) (prepend append : option string)
    (action : option string) : string :=
  let text := match action with None => EmptyString | Some a => line a end in
  match nvti_tags_text with
  | None => text
  | Some t =>
      let nvti_tags := g_strsplit "|" t in
      let text := match prepend with
                  | Some p => prepend_tags nvti_tags (g_strsplit "," p) text
                  | None => text end in
      match append with
      | Some a => append_tags nvti_tags (g_strsplit "," a) text
      | None => text
      end
  end.

Definition post_port (port : Z) (proto : string) : string :=
  if 0 <? port then CStr.dec port +:+ "/" +:+ proto else "general/" +:+ proto.

(** "<|> OID " of the message. *)
Definition post_id (oid : option string) : string :=
  match oid with None => EmptyString | Some o => snprintf 105 ("<|> " +:+ o +:+ " ") end.

(** A text sent, and the entries made in the knowledge base: "SentData/..." with
    the text, where the type is not too long, and "Success/...". *)
Record posted := mk_posted {
  posted_text : string; sent_data : option (string * option string); success : string }.

(** [oid_arg] is "OID" of the plugin, [n] what the cache has under it. *)
Definition proto_post_wrapped (n : option nvti) (oid_arg hostname : string)
    (prepend append : option string) (port : Z) (proto : string) (action : option string)
    (what : string) : option posted :=
  match n with
  | None => None
  | Some n =>
      let action_str := result_text (nvti_tag n) prepend append action in
      let buffer := snprintf (1024 + CStr.slen action_str)
        ("SERVER <|> " +:+ what +:+ sep +:+ hostname +:+ sep +:+ post_port port proto +:+ sep
         +:+ action_str +:+ " " +:+ post_id (nvti_oid n) +:+ line "<|> SERVER") in
      Some (mk_posted (g_convert buffer)
        (if 235 <? CStr.slen what then None
         else Some (snprintf 255 ("SentData/" +:+ oid_arg +:+ "/" +:+ what), action))
        (snprintf 512 ("Success/" +:+ oid_arg)))
  end.

Definition proto_post_alarm n oid_arg hostname prepend append port proto action :=
  proto_post_wrapped n oid_arg hostname prepend append port proto action "ALARM".
Definition proto_post_log n oid_arg hostname prepend append port proto action :=
  proto_post_wrapped n oid_arg hostname prepend append port proto action "LOG".
Definition proto_post_error n oid_arg hostname prepend append port proto action :=
  proto_post_wrapped n oid_arg hostname prepend append port proto action "ERRMSG".

(** ** Status ([misc/scanners_utils.c]) *)

(** The result, and the text sent where it is 0. *)
Definition comm_send_status (soc : Z) (ntp_short_status : option string) (hostname action : string)
    (curr max : Z) : Z * option string :=
  if (soc <? 0) || (1024 <? soc) then (-1, None)
  else if 2048 - 50 <? CStr.slen hostname then (-1, None)
  else (0, Some (snprintf 2048
    (if decide (ntp_short_status = Some "yes"%string) then
       line ("s:" +:+ CStr.take_str 1 action +:+ ":" +:+ hostname +:+ ":" +:+ CStr.dec curr
             +:+ ":" +:+ CStr.dec max)
     else otp_line ["STATUS"%string; hostname; action; CStr.dec curr +:+ "/" +:+ CStr.dec max]))).

(** ** Times ([ntp.c]) *)

(** [ctime] without its newline. *)
Definition timestr (t : Z) : string :=
  let s := CStr.take_str 1023 (ctime t) in
  let len := String.length s in
  if decide (CStr.drop_str (len - 1) s = String newline EmptyString)
  then CStr.take_str (len - 1) s else s.

Definition ntp_timestamp_scan (t : Z) (msg : string) : string :=
  g_convert (otp_line ["TIME"%string; msg; timestr t]).
Definition ntp_timestamp_scan_host (t : Z) (msg host : string) : string :=
  snprintf 1024 (otp_line ["TIME"%string; msg; host; timestr t]).

Definition ntp_timestamp_scan_starts t := ntp_timestamp_scan t "SCAN_START".
Definition ntp_timestamp_scan_ends t := ntp_timestamp_scan t "SCAN_END".
Definition ntp_timestamp_host_scan_starts t host := ntp_timestamp_scan_host t "HOST_START" host.
Definition ntp_timestamp_host_scan_ends t host := ntp_timestamp_scan_host t "HOST_END" host.
Definition ntp_timestamp_host_scan_interrupted t host :=
  ntp_timestamp_scan_host t "HOST_INTERRUPTED" host.

(** ** Errors ([attack.c]) *)

(** NULL is printed as an empty field, but for the message. *)
Definition error_message_to_client (msg hostname port : option string) : string :=
  g_convert (otp_line ["ERRMSG"%string; default EmptyString hostname; default EmptyString port;
                       default "No error."%string msg; EmptyString]).

(** ** Session, plugins, preferences ([comm.c]) *)

Definition comm_terminate : string := g_convert (otp_line ["BYE"; "BYE"]%string).

Definition CAT_MAX : Z := 12.

Definition category_name (category : Z) : string :=
  let j := if (CAT_MAX <=? MInt.uwrap64 category) || (category <? 0) then CAT_MAX - 1 else category in
  nth (Z.to_nat j) categories EmptyString.

Definition or_no (no : string) (s : option string) : string :=
  match s with None => no | Some EmptyString => no | Some t => t end.

Definition newlines_to_semicolons (s : string) : string :=
  CStr.map_str (fun c => if decide (c = newline) then ";"%char else c) s.

Definition plug_summary (n : nvti) : option string :=
  match nvti_tag n with
  | Some t => match CStr.strstr_split t "summary=" with
              | Some _ => Some "NOSUMMARY"%string
              | None => nvti_summary n end
  | None => nvti_summary n
  end.

Definition no_newline (s : string) : bool := negb (CStr.mem_char newline s).

(** The strings that are printed of a plugin. *)
Record plug_info := mk_plug_info {
  pi_oid : string; pi_name : string; pi_category : string; pi_copyright : string;
  pi_summary : string; pi_family : string; pi_version : string; pi_cve_id : string;
  pi_bid : string; pi_xref : string; pi_tag : string }.

(** [None] for a plugin that is ignored. *)
Definition plug_info_of (n : nvti) : option plug_info :=
  match nvti_oid n, nvti_name n, nvti_copyright n, plug_summary n, nvti_family n with
  | Some oid, Some name, Some copyright, Some summary, Some family =>
      if no_newline name && no_newline copyright && no_newline summary then
        Some (mk_plug_info oid name (category_name (nvti_category n)) copyright summary family
          (default "?"%string (nvti_version n)) (or_no "NOCVE" (nvti_cve n))
          (or_no "NOBID" (nvti_bid n)) (or_no "NOXREF" (nvti_xref n))
          (or_no "NOTAG" (newlines_to_semicolons <$> nvti_tag n)))
      else None
  | _, _, _, _, _ => None
  end.

Definition plug_fields (i : plug_info) : list string :=
  [pi_oid i; pi_name i; pi_category i; pi_copyright i; pi_summary i; pi_family i; pi_version i;
   pi_cve_id i; pi_bid i; pi_xref i; pi_tag i].

(** [mem_size]; the OID and the category are in the 100 bytes for separators. *)
Definition plug_mem_size (i : plug_info) : Z :=
  CStr.slen (pi_name i) + CStr.slen (pi_copyright i) + CStr.slen (pi_summary i)
  + CStr.slen (pi_family i) + CStr.slen (pi_version i) + CStr.slen (pi_cve_id i)
  + CStr.slen (pi_bid i) + CStr.slen (pi_xref i) + CStr.slen (pi_tag i) + 100.

Definition send_plug_info (n : option nvti) : option string :=
  match n ≫= plug_info_of with
  | Some i => Some (g_convert (line (snprintf (MInt.uwrap32 (plug_mem_size i))
                (String.concat sep (plug_fields i)))))
  | None => None
  end.

Definition comm_send_pluginlist (plugins : list (option nvti)) : list string :=
  [g_convert (line "SERVER <|> PLUGIN_LIST <|>")]
  ++ omap send_plug_info plugins
  ++ [g_convert (line "<|> SERVER")].

Definition scanner_only : list string :=
  ["logfile"; "config_file"; "plugins_folder"; "dumpfile"; "negot_timeout"; "force_pubkey_auth";
   "log_while_attack"; "ca_file"; "key_file"; "cert_file"; "be_nice"; "log_plugins_name_at_load";
   "nasl_no_signature_check"]%string.

Definition is_scanner_only_pref (pref : string) : bool :=
  bool_decide (pref ∈ scanner_only)
  || match CStr.drop_prefix "sys_" pref with Some _ => true | None => false end.

(** An entry of the preferences, where it is printed. *)
Definition send_preference (a : Arglists.arg) : option string :=
  if (Arglists.a_type a =? Arglists.ARG_STRING) && negb (is_scanner_only_pref (Arglists.a_name a))
  then match Arglists.a_value a with
       | Arglists.VStr v => Some (g_convert (Arglists.a_name a +:+ sep +:+ line v))
       | _ => Some (g_convert (Arglists.a_name a +:+ sep +:+ line "(null)"))
       end
  else None.

Definition comm_send_preferences (prefs : list Arglists.arg) : list string :=
  [g_convert (line "SERVER <|> PREFERENCES <|>")]
  ++ omap send_preference prefs
  ++ [g_convert (line "<|> SERVER")].

Definition is_valid_feed_version (feed_version : string) : bool :=
  CStr.all_str CStr.isdigit feed_version.

(** The first message of [comm_send_nvt_info]; the answers to the commands that
    follow it are the two functions above. *)
Definition nvt_info_message (feed_version : string) : string :=
  g_convert (otp_line ["NVT_INFO"%string;
    if is_valid_feed_version feed_version then feed_version else "NOVERSION"%string]).

End Sender.
