(* ===== verification/OtpDb.v ===== *)
(** * The database as the reader of OTP sees it

    What the theorems on [Otp] rely on of the database functions: an equivalence of
    databases that all of them respect and that starting or committing a
    transaction does not leave, and that results do not change the status of a task
    ([ManagerLaws]).  [log_manager] is an instance: a
    list of the calls with the state of the task. *)

From stdpp Require Import base list strings.
From Stdlib Require Import Ascii ZArith Lia.
From S2P Require Import Prelude Otp.
Local Open Scope Z_scope.

(** Two databases are equivalent when they hold the same, committed or not. *)
Class ManagerLaws `{Mg : Manager} := {
  db_equiv :: Equiv db;
  db_equivalence :: Equivalence (≡@{db});
  transaction_start_equiv d : manage_transaction_start d ≡ d;
  transaction_stop_equiv force d : manage_transaction_stop force d ≡ d;
  make_result_fst task host port nvt type description :
    Proper ((≡) ==> (=)) (fun d => fst (make_result task host port nvt type description d));
  make_result_snd task host port nvt type description ::
    Proper ((≡) ==> (≡)) (fun d => snd (make_result task host port nvt type description d));
  report_add_result_proper report result :: Proper ((≡) ==> (≡)) (report_add_result report result);
  host_detail_proper report host xml ::
    Proper ((≡) ==> (≡)) (manage_report_host_detail report host xml);
  run_status_proper task :: Proper ((≡) ==> (=)) (task_run_status task);
  set_run_status_proper report current task status ::
    Proper ((≡) ==> (≡)) (set_task_run_status report current task status);
  attack_state_proper report host state ::
    Proper ((≡) ==> (≡)) (set_scan_attack_state report host state);
  scan_ports_proper report host current max ::
    Proper ((≡) ==> (≡)) (set_scan_ports report host current max);
  host_start_proper report host time ::
    Proper ((≡) ==> (≡)) (set_scan_host_start_time_otp report host time);
  host_end_proper report host time ::
    Proper ((≡) ==> (≡)) (set_scan_host_end_time_otp report host time);
  start_epoch_proper report :: Proper ((≡) ==> (=)) (scan_start_time_epoch report);
  task_start_proper task time :: Proper ((≡) ==> (≡)) (set_task_start_time_otp task time);
  scan_start_proper report time :: Proper ((≡) ==> (≡)) (set_scan_start_time_otp report time);
  scan_end_proper report time :: Proper ((≡) ==> (≡)) (set_scan_end_time_otp report time);
  task_end_proper task time :: Proper ((≡) ==> (≡)) (set_task_end_time task time);
  task_lock_proper report current task ultimate ::
    Proper ((≡) ==> (≡)) (delete_task_lock report current task ultimate);
  preference_add_proper name value remove ::
    Proper ((≡) ==> (≡)) (manage_nvt_preference_add name value remove);
  make_result_status t task host port nvt type description d :
    task_run_status t (snd (make_result task host port nvt type description d)) = task_run_status t d;
  add_result_status t report result d :
    task_run_status t (report_add_result report result d) = task_run_status t d;
  host_detail_status t report host xml d :
    task_run_status t (manage_report_host_detail report host xml d) = task_run_status t d }.

(** ** An instance *)

Inductive entry :=
| EResult (task : Z) (host : string) (port nvt : option string) (type : string)
    (description : option string)
| EAdd (report result : Z)
| EDetail (report : Z) (host xml : string)
| EAttackState (report : Z) (host state : string)
| EPorts (report : Z) (host : string) (current max : Z)
| EHostStart (report : Z) (host time : string)
| EHostEnd (report : Z) (host time : string)
| EScanStart (report : Z) (time : string)
| EScanEnd (report : Z) (time : string)
| ETaskStart (task : Z) (time : string)
| ETaskEnd (task : Z) (time : string)
| EDelete (task ultimate : Z)
| EPreference (name value : string) (remove : Z)
| EEnable
| EPlugins (l : list nvti) (mode : Z)
| EFeedVersion (v : option string).

Record log_db := mk_log { entries : list entry; status : Z; in_transaction : bool }.

Definition enter (e : entry) (d : log_db) : log_db :=
  mk_log (entries d ++ [e]) (status d) (in_transaction d).

Definition log_manager : Manager := {|
  db := log_db;
  make_result task host port nvt type description d :=
    (Z.of_nat (S (length (entries d))), enter (EResult task host port nvt type description) d);
  report_add_result report result := enter (EAdd report result);
  manage_transaction_start d := mk_log (entries d) (status d) true;
  manage_transaction_stop force d := mk_log (entries d) (status d) (in_transaction d && negb force);
  manage_report_host_detail report host xml := enter (EDetail report host xml);
  manage_port_name number protocol :=
    if (number =? 80) && CStr.strcaseeq "tcp" protocol then Some "http"%string else None;
  task_run_status _ := status;
  set_task_run_status _ _ _ v d := mk_log (entries d) v (in_transaction d);
  set_scan_attack_state report host state := enter (EAttackState report host state);
  set_scan_ports report host current max := enter (EPorts report host current max);
  set_scan_host_start_time_otp report host time := enter (EHostStart report host time);
  set_scan_host_end_time_otp report host time := enter (EHostEnd report host time);
  scan_start_time_epoch _ _ := 0;
  set_task_start_time_otp task time := enter (ETaskStart task time);
  set_scan_start_time_otp report time := enter (EScanStart report time);
  set_scan_end_time_otp report time := enter (EScanEnd report time);
  set_task_end_time task time := enter (ETaskEnd task time);
  delete_task_lock _ _ task ultimate := enter (EDelete task ultimate);
  manage_nvt_preference_add name value remove := enter (EPreference name value remove);
  manage_nvt_preferences_enable := enter EEnable;
  manage_complete_nvt_cache_update l mode := enter (EPlugins l mode);
  set_nvts_feed_version v := enter (EFeedVersion v) |}.

Definition log_equiv (d d' : log_db) : Prop := entries d = entries d' /\ status d = status d'.

#[export] Instance log_equivalence : Equivalence log_equiv.
Proof.
  unfold log_equiv. split.
  - by intros d.
  - by intros d d' [-> ->].
  - by intros d d' d'' [-> ->] [-> ->].
Qed.

#[export] Instance log_laws : @ManagerLaws log_manager.
Proof.
  refine (@Build_ManagerLaws log_manager log_equiv _ _ _ _ _ _ _ _ _ _ _ _ _ _ _ _ _ _ _ _ _ _ _);
  intros; try (intros [? ? ?] [? ? ?] [? ?]; simpl in *; subst; by unfold equiv, log_equiv);
  by unfold equiv, log_equiv.
Qed.
