(* ===== verification/OtpRuns.v ===== *)
(** * Reading OTP in pieces

    [process_otp_scanner_input] is called with whatever has arrived.  This file
    shows what that has to do with the stream as a whole: [runs] is the reading of
    a text field by field, without a buffer, and [runs_deliver] says that any way to
    cut the text leads to the same state.  The handlers respect the equivalence of
    databases ([process_field_respects]), because every call may commit. *)

From stdpp Require Import base list strings.
From Stdlib Require Import Ascii ZArith Lia.
From S2P Require Import Prelude ServerBuffer Otp OtpDb.
Local Open Scope Z_scope.

(** ** Equivalent states *)

Section Respect.
Context `{G : Glib} `{Mg : Manager} {Laws : ManagerLaws}.

#[export] Instance otp_equiv : Equiv otp := fun s s' =>
  s' = upd_db (the_db s') s /\ the_db s ≡ the_db s'.

Lemma otp_equiv_intro (s : otp) d : the_db s ≡ d -> s ≡ upd_db d s.
Proof. by destruct s. Qed.

Lemma otp_equiv_inv (s s' : otp) : s ≡ s' -> exists d, the_db s ≡ d /\ s' = upd_db d s.
Proof. intros [H1 H2]. by exists (the_db s'). Qed.

#[export] Instance otp_equivalence : Equivalence (≡@{otp}).
Proof.
  split.
  - intros []. by split.
  - intros s s' [d [Hd ->]]%otp_equiv_inv. destruct s. split; [done|]. by symmetry.
  - intros s s' s'' [d [Hd ->]]%otp_equiv_inv [d' [Hd' ->]]%otp_equiv_inv. destruct s. simpl in *.
    split; [done|]. simpl. by etrans.
Qed.

(** Related outcomes: the same result, equivalent states. *)
Definition same_outcome {A} (o o' : outcome (A * otp)) : Prop :=
  match o, o' with
  | Ret (a, t), Ret (a', t') => a = a' /\ t ≡ t'
  | Undef, Undef | NoReturn, NoReturn => True
  | _, _ => False
  end.

Definition respects {A} (m : M otp A) : Prop := forall s s', s ≡ s' -> same_outcome (m s) (m s').

Lemma respects_ret {A} (a : A) : respects (mret a).
Proof. by intros s s' H. Qed.

Lemma respects_undef {A} : respects (undef : M otp A).
Proof. by intros s s' H. Qed.

Lemma respects_bind {A B} (m : M otp A) (k : A -> M otp B) :
  respects m -> (forall a, respects (k a)) -> respects (m ≫= k).
Proof.
  intros Hm Hk s s' H. specialize (Hm s s' H). unfold mbind, M_bind, same_outcome in *.
  destruct (m s) as [[a t]| |], (m s') as [[a' t']| |]; try done.
  destruct Hm as [<- Ht]. by apply Hk.
Qed.

Lemma respects_gets {A} (f : otp -> A) :
  (forall s d, the_db s ≡ d -> f (upd_db d s) = f s) -> respects (gets f).
Proof. intros Hf s s' H. split; [|done]. apply otp_equiv_inv in H as (d & Hd & ->). by rewrite Hf. Qed.

Lemma respects_modify (f : otp -> otp) :
  (forall s d, f (upd_db d s) = upd_db d (f s)) -> (forall s, the_db (f s) = the_db s) ->
  respects (modify f).
Proof.
  intros Hf Hd s s' (d & He & ->)%otp_equiv_inv. split; [done|]. rewrite Hf.
  apply otp_equiv_intro. by rewrite Hd.
Qed.

Lemma respects_assert (b : otp -> bool) :
  (forall s d, b (upd_db d s) = b s) -> respects (assert b).
Proof.
  intros Hb s s' H. pose proof H as (d & He & ->)%otp_equiv_inv. unfold assert.
  rewrite Hb. by destruct (b s).
Qed.

Lemma respects_on_db (f : otp -> db -> db) :
  (forall s d, f (upd_db d s) = f s) -> (forall s, Proper ((≡) ==> (≡)) (f s)) ->
  respects (on_db f).
Proof.
  intros Hf Hp s s' (d & He & ->)%otp_equiv_inv. split; [done|]. rewrite Hf.
  destruct s; simpl in *. split; [done|]. simpl. by apply Hp.
Qed.

#[export] Instance write_result_proper task report m type :
  Proper ((≡) ==> (≡)) (write_result task report m type).
Proof.
  intros d d' H. unfold write_result.
  assert (manage_transaction_start d ≡ manage_transaction_start d') as E
    by by rewrite !transaction_start_equiv.
  set (mr := make_result _ _ _ _ _ _).
  pose proof (make_result_fst task (msg_host m) (msg_port_string m) (msg_oid m) type
    (msg_description m) _ _ E) as E1.
  pose proof (make_result_snd task (msg_host m) (msg_port_string m) (msg_oid m) type
    (msg_description m) _ _ E) as E2. fold mr in E1, E2. cbv beta in E1, E2.
  destruct (mr _), (mr _). simpl in *. subst. by rewrite E2.
Qed.

#[export] Instance start_task_proper task report field :
  Proper ((≡) ==> (≡)) (start_task task report field).
Proof.
  intros d d' H. unfold start_task. rewrite (run_status_proper task _ _ H).
  destruct (_ =? _); [|done].
  rewrite (start_epoch_proper report _ _ (set_run_status_proper report task task _ _ _ H)).
  destruct (_ =? _); [|by rewrite H]. by rewrite H.
Qed.

#[export] Instance end_scan_proper task report field :
  Proper ((≡) ==> (≡)) (end_scan task report field).
Proof.
  intros d d' H. unfold end_scan.
  assert (manage_transaction_stop true d ≡ manage_transaction_stop true d') as E
    by by rewrite !transaction_stop_equiv.
  set (e := if report =? 0 then manage_transaction_stop true d else _).
  set (e' := if report =? 0 then manage_transaction_stop true d' else _).
  assert (e ≡ e') as H'. { subst e e'. destruct (_ =? _); [done|]. by rewrite E. }
  clearbody e e'. unfold end_task. rewrite (run_status_proper task _ _ H').
  repeat match goal with |- context [if ?b then _ else _] => destruct b end; by rewrite ?H'.
Qed.

Ltac respect :=
  repeat first
    [ apply respects_bind; [|intros ?]
    | apply respects_ret
    | apply respects_undef
    | apply respects_gets; intros []; done
    | apply respects_modify; [intros []; done|intros []; done]
    | apply respects_assert; intros []; done
    | apply respects_on_db; [intros []; done|intros ?; first [apply _ | solve_proper]]
    | match goal with
      | |- respects (match ?x with _ => _ end) => destruct x
      | |- respects (if ?b then _ else _) => destruct b
      end ].

Lemma append_message_respects task m type : respects (write_message task m type).
Proof. unfold write_message. respect. Qed.

Lemma append_log_respects task m : respects (append_log_message task m).
Proof. unfold append_log_message, write_message. respect. Qed.

Lemma message_oid_respects field append :
  (forall task m, respects (append task m)) -> respects (message_oid_field field append).
Proof. intros H. unfold message_oid_field. respect. apply H. Qed.

Lemma process_field_respects state field : respects (process_field state field).
Proof.
  destruct state; simpl;
    try (apply message_oid_respects; intros; first [apply append_log_respects | apply append_message_respects]);
    unfold bye_field, message_description_field, message_host_field, message_number_field,
    nvt_info_field, plugin_field, plugin_list_oid_field, plugin_xrefs_field, preference_name_field,
    server_field, host_field, status_attack_state_field, status_ports_field, status_progress_field,
    time_field, time_host_field, time_scan_start_field, time_scan_end_field, top_field,
    next, set_scanner_state; respect.
Qed.

Lemma add_preference_respects value : respects (add_preference value).
Proof. unfold add_preference. respect. Qed.

Lemma add_plugin_respects value : respects (add_plugin value).
Proof. unfold add_plugin. respect. Qed.

End Respect.

(** ** Texts *)

Definition bar : string := "<|>".

(** The byte of memory after the input is not a '>'. *)
Definition fresh (beyond : string) : Prop := CStr.peek beyond <> Some ">"%char.

Lemma find_bar_strstr s beyond :
  fresh beyond ->
  find_bar s beyond
  = match CStr.strstr_split s bar with Some (a, b) => Some (a, b, false) | None => None end.
Proof.
  intros Hf. induction s as [|c s IH].
  - simpl. done.
  - assert (bar_at (String c s) beyond
      = match CStr.drop_prefix bar (String c s) with Some r => Some (r, false) | None => None end) as E.
    { unfold bar_at. destruct (decide (c = "<"%char)) as [->|Hc].
      - destruct s as [|d s]; [done|]. destruct (decide (d = "|"%char)) as [->|Hd].
        + destruct s as [|e s].
          * simpl. destruct beyond as [|e b]; [done|].
            destruct (decide (e = ">"%char)) as [->|He]; [by destruct Hf|].
            by destruct e as [[] [] [] [] [] [] [] []].
          * simpl. case_decide as He; [by subst|].
            by destruct e as [[] [] [] [] [] [] [] []].
        + simpl. rewrite decide_False by congruence. by destruct d as [[] [] [] [] [] [] [] []].
      - simpl. rewrite decide_False by congruence. by destruct c as [[] [] [] [] [] [] [] []]. }
    cbn [find_bar CStr.strstr_split]. rewrite E.
    destruct (CStr.drop_prefix bar (String c s)); [done|]. rewrite IH.
    by destruct (CStr.strstr_split s bar) as [[??]|].
Qed.

Lemma drop_prefix_more q s t r :
  CStr.drop_prefix q s = Some r -> CStr.drop_prefix q (s +:+ t) = Some (r +:+ t).
Proof.
  rewrite CStr.drop_prefix_app. intros ->. rewrite CStr.append_assoc. by apply CStr.drop_prefix_app.
Qed.

Lemma drop_prefix_none_more q s t :
  (String.length q <= String.length s)%nat ->
  CStr.drop_prefix q s = None -> CStr.drop_prefix q (s +:+ t) = None.
Proof.
  revert s. induction q as [|c q IH]; intros [|d s]; try done; [simpl; lia|].
  rewrite CStr.append_cons. simpl. intros Hl. case_decide; [|done]. apply IH. lia.
Qed.

(** The first occurrence in a text is the first one in a longer text. *)
Lemma strstr_split_more q s t a b :
  CStr.strstr_split s q = Some (a, b) -> CStr.strstr_split (s +:+ t) q = Some (a, b +:+ t).
Proof.
  revert a. induction s as [|c s IH]; intros a.
  - simpl. destruct q; [|done]. simpl. intros [= <- <-]. by destruct t.
  - rewrite CStr.append_cons. simpl. intros H.
    destruct (CStr.drop_prefix q (String c s)) as [r|] eqn:E.
    + injection H as <- <-. rewrite <- CStr.append_cons, (drop_prefix_more _ _ _ _ E). done.
    + destruct (CStr.strstr_split s q) as [[a' b']|] eqn:E'; [|done]. injection H as <- <-.
      rewrite <- CStr.append_cons, drop_prefix_none_more; [by rewrite (IH a' eq_refl)| |done].
      apply CStr.strstr_split_length in E'. simpl. lia.
Qed.

(** A text that neither holds nor begins a bar. *)
Definition harmless (b : string) : Prop := forall x,
  CStr.strstr_split (b +:+ x) bar
  = match CStr.strstr_split x bar with Some (a, r) => Some (b +:+ a, r) | None => None end.

Lemma harmless_nil : harmless EmptyString.
Proof. intros x. change (EmptyString +:+ x) with x. by destruct (CStr.strstr_split x bar) as [[??]|]. Qed.

Lemma harmless_cons c s : c <> "<"%char -> harmless s -> harmless (String c s).
Proof.
  intros Hc H x. rewrite CStr.append_cons. simpl. rewrite decide_False by congruence.
  change "<|>"%string with bar. rewrite H. by destruct (CStr.strstr_split x bar) as [[??]|].
Qed.

Lemma harmless_all f s :
  f "<"%char = false -> CStr.all_str f s = true -> harmless s.
Proof.
  intros Hf. induction s as [|c s IH]; simpl; [intros; apply harmless_nil|].
  rewrite andb_true_iff. intros [Hc Hs]. apply harmless_cons; [|auto]. intros ->. congruence.
Qed.

Lemma harmless_app a b : harmless a -> harmless b -> harmless (a +:+ b).
Proof.
  intros Ha Hb x. rewrite CStr.append_assoc, Ha, Hb.
  destruct (CStr.strstr_split x bar) as [[??]|]; [|done]. by rewrite CStr.append_assoc.
Qed.

(** A line without a bar, with its newline. *)
Lemma harmless_line l :
  CStr.strstr_split l bar = None -> harmless (l +:+ String newline EmptyString).
Proof.
  induction l as [|c l IH]; intros H.
  - by apply (harmless_all (fun c => bool_decide (c = newline))).
  - rewrite CStr.append_cons. cbn [CStr.strstr_split] in H.
    destruct (CStr.drop_prefix bar (String c l)) as [r|] eqn:E; [done|].
    destruct (CStr.strstr_split l bar) as [[??]|] eqn:E'; [done|]. specialize (IH eq_refl).
    destruct (decide (c = "<"%char)) as [->|Hc]; [|by apply harmless_cons]. intros x.
    specialize (IH x). rewrite CStr.append_cons. cbn [CStr.strstr_split].
    assert (CStr.drop_prefix bar (String "<" ((l +:+ String newline EmptyString) +:+ x)) = None) as ->.
    { simpl in E |- *. destruct l as [|d l]; [done|]. simpl in E |- *. case_decide; [|done].
      destruct l as [|e l]; [done|]. simpl in E |- *. by case_decide. }
    rewrite IH. by destruct (CStr.strstr_split x bar) as [[??]|].
Qed.

(** *** Blanks *)

Definition all_blank (s : string) : bool := CStr.all_str is_blank_or_newline s.
Definition all_space (s : string) : bool := CStr.all_str is_space s.

Lemma space_blank c : is_space c = true -> is_blank_or_newline c = true.
Proof. unfold is_space, is_blank_or_newline. intros H%bool_decide_eq_true. by subst. Qed.

Lemma all_space_blank s : all_space s = true -> all_blank s = true.
Proof. apply CStr.all_str_impl, space_blank. Qed.

Lemma harmless_blank s : all_blank s = true -> harmless s.
Proof. by apply harmless_all. Qed.

Lemma skip_split f s : exists u, s = (u +:+ CStr.skip f s) /\ CStr.all_str f u = true.
Proof.
  induction s as [|c s (u & Hu & Hf)]; [by exists EmptyString|]. simpl.
  destruct (f c) eqn:E; [|by exists EmptyString].
  exists (String c u). simpl. rewrite E. split; [|done]. rewrite CStr.append_cons. by rewrite <- Hu.
Qed.

Lemma skip_all f u s : CStr.all_str f u = true -> CStr.skip f (u +:+ s) = CStr.skip f s.
Proof.
  induction u as [|c u IH]; [done|]. rewrite CStr.append_cons. simpl.
  rewrite andb_true_iff. intros [-> H]. auto.
Qed.

Lemma skip_more f s t : CStr.skip f s <> EmptyString -> CStr.skip f (s +:+ t) = (CStr.skip f s +:+ t).
Proof.
  induction s as [|c s IH]; [done|]. rewrite CStr.append_cons. simpl. destruct (f c); [auto|done].
Qed.

Lemma skip_nil f s : CStr.skip f s = EmptyString -> CStr.all_str f s = true.
Proof. induction s as [|c s IH]; [done|]. simpl. destruct (f c); [auto|done]. Qed.

(** The last character is white space (or there is none). *)
Definition ends_blank (s : string) : bool :=
  match CStr.peek (CStr.rev_str EmptyString s) with
  | Some c => is_blank_or_newline c
  | None => true
  end.

Lemma rev_cons c s :
  CStr.rev_str EmptyString (String c s) = (CStr.rev_str EmptyString s +:+ String c EmptyString).
Proof. simpl. apply CStr.rev_str_spec. Qed.

Lemma peek_app (a b : string) :
  CStr.peek (a +:+ b) = match a with EmptyString => CStr.peek b | String c _ => Some c end.
Proof. by destruct a. Qed.

Lemma ends_blank_cons c d s : ends_blank (String c (String d s)) = ends_blank (String d s).
Proof.
  unfold ends_blank. rewrite (rev_cons c), peek_app.
  destruct (CStr.rev_str EmptyString (String d s)) eqn:E; [|done].
  rewrite rev_cons in E. by destruct (CStr.rev_str EmptyString s).
Qed.

Lemma strip_leading_ends_blank s :
  ends_blank s = true ->
  strip_trailing (strip_leading s) = strip_trailing (CStr.skip is_blank_or_newline s).
Proof.
  induction s as [|c s IH]; intros H; [done|]. simpl.
  destruct (is_blank_or_newline c) eqn:Ec; [|done].
  destruct s as [|d s]; [done|].
  rewrite ends_blank_cons in H. destruct s as [|e s].
  - unfold ends_blank in H. simpl in H. simpl. by rewrite H.
  - by apply IH.
Qed.

(** Leading white space does not change a field. *)
Lemma field_of_drop u raw :
  all_blank u = true -> ends_blank (u +:+ raw) = true ->
  ends_blank raw = true /\ field_of (u +:+ raw) = field_of raw.
Proof.
  intros Hu H.
  assert (ends_blank raw = true) as Hr.
  { clear Hu. induction u as [|c u IH]; [done|]. rewrite CStr.append_cons in H.
    destruct (u +:+ raw) as [|d s] eqn:E; [|by rewrite ends_blank_cons in H; auto].
    apply IH. done. }
  split; [done|]. unfold field_of, openvas_strip_space.
  rewrite !strip_leading_ends_blank by done. by rewrite skip_all.
Qed.

(** ** Reading a text field by field *)

Section Runs.
Context `{G : Glib} `{Mg : Manager} {Laws : ManagerLaws}.

(** The length a field, a line or the white space between messages may have. *)
Variable B : Z.
Hypothesis HB : B <= from_buffer_size.

(** No request of another process waits to be passed on. *)
Definition quiet (s : otp) : Prop :=
  current_scanner_task s = 0
  \/ is_one_of (task_run_status (current_scanner_task s) (the_db s))
       [TASK_STATUS_PAUSE_REQUESTED; TASK_STATUS_RESUME_REQUESTED; TASK_STATUS_STOP_REQUESTED_GIVEUP;
        TASK_STATUS_STOP_REQUESTED; TASK_STATUS_DELETE_REQUESTED;
        TASK_STATUS_DELETE_ULTIMATE_REQUESTED] = false.

(** The connection is past the exchange of versions and waits for no answer. *)
Definition live (s : otp) : bool :=
  match scanner_init_state s with
  | SCANNER_INIT_SENT_COMPLETE_LIST | SCANNER_INIT_SENT_COMPLETE_LIST_UPDATE
  | SCANNER_INIT_DONE | SCANNER_INIT_DONE_CACHE_MODE | SCANNER_INIT_DONE_CACHE_MODE_UPDATE
  | SCANNER_INIT_TOP => true
  | _ => false
  end.

Definition ready (s : otp) : Prop := quiet s /\ live s = true.

(** The states whose text ends in "<|>". *)
Definition plain (st : scanner_state_t) : bool :=
  match st with
  | SCANNER_DONE | SCANNER_PLUGIN_LIST_TAGS | SCANNER_PREFERENCE_VALUE => false
  | _ => true
  end.
Definition inner (st : scanner_state_t) : bool :=
  plain st && match st with SCANNER_TOP | SCANNER_SERVER => false | _ => true end.

(** Where a text can begin "Bad login attempt !". *)
Definition starts_b (s : string) : bool :=
  match CStr.peek (CStr.skip is_space s) with
  | Some c => CStr.code (CStr.tolower c) =? 98
  | None => false
  end.

(** The state in which the reading goes on after a field. *)
Inductive settles : awaits -> otp -> otp -> Prop :=
| settles_break s : inner (scanner_state s) = true -> settles Break s s
| settles_server s : scanner_state s = SCANNER_SERVER -> settles Await_server s s
| settles_tags s : scanner_state s = SCANNER_PLUGIN_LIST_TAGS -> settles Await_tags s s
| settles_value s : scanner_state s = SCANNER_PREFERENCE_VALUE -> settles Await_value s s
| settles_done s : settles (Await_done no_case_0) s (upd_state SCANNER_DONE s).

(** A line of a list: white space, the line, what is after its newline. *)
Definition line_of (T : string) : option (string * string) :=
  CStr.strchr_split newline (CStr.skip is_space T).
Definition line_value (l : string) : string := blank_control_chars (cstr l).

Inductive runs : otp -> string -> otp -> Prop :=
| runs_stop s T :
    ready s -> plain (scanner_state s) = true \/ scanner_state s = SCANNER_DONE ->
    T = EmptyString
    \/ (scanner_state s = SCANNER_TOP \/ inner (scanner_state s) = true)
       /\ all_blank T = true /\ CStr.slen T < B ->
    runs s T s
| runs_field s T raw rest a s1 s2 sf :
    ready s -> plain (scanner_state s) = true ->
    CStr.strstr_split T bar = Some (raw, rest) -> CStr.slen raw + 3 <= B ->
    ends_blank raw = true ->
    (scanner_state s = SCANNER_TOP -> starts_b T = false) ->
    (scanner_state s = SCANNER_SERVER -> CStr.mem_char newline raw = false) ->
    process_field (scanner_state s) (field_of raw) s = Ret (a, s1) ->
    settles a s1 s2 -> runs s2 rest sf -> runs s T sf
| runs_done s T sf :
    ready s -> scanner_state s = SCANNER_DONE ->
    case_prefix "SERVER" (CStr.skip is_blank_or_newline T) = true ->
    runs (upd_state SCANNER_TOP s) (CStr.drop_str 6 (CStr.skip is_blank_or_newline T)) sf ->
    runs s T sf
| runs_tags s T l rest s1 sf :
    ready s -> scanner_state s = SCANNER_PLUGIN_LIST_TAGS -> current_plugin s <> None ->
    line_of T = Some (l, rest) -> CStr.strstr_split l bar = None -> CStr.slen T - CStr.slen rest <= B ->
    add_plugin (line_value l) s = Ret (tt, s1) ->
    runs (upd_state SCANNER_PLUGIN_LIST_OID s1) rest sf -> runs s T sf
| runs_value s T l rest s1 sf :
    ready s -> scanner_state s = SCANNER_PREFERENCE_VALUE ->
    line_of T = Some (l, rest) -> CStr.strstr_split l bar = None -> CStr.slen T - CStr.slen rest <= B ->
    add_preference (line_value l) s = Ret (tt, s1) ->
    runs (upd_preference None (upd_state SCANNER_PREFERENCE_NAME s1)) rest sf -> runs s T sf.

(** *** White space that is read early *)

Definition dropped (st : scanner_state_t) (u : string) : Prop :=
  match st with
  | SCANNER_TOP | SCANNER_SERVER | SCANNER_PLUGIN_LIST_TAGS | SCANNER_PREFERENCE_VALUE =>
      all_space u = true
  | SCANNER_DONE => all_blank u = true
  | _ => u = EmptyString
  end.

Lemma dropped_nil st : dropped st EmptyString.
Proof. by destruct st. Qed.

Lemma dropped_blank st u : dropped st u -> all_blank u = true.
Proof. destruct st; simpl; try (by intros ->); auto using all_space_blank. Qed.

Lemma field_after_drop u T raw rest :
  all_blank u = true -> CStr.strstr_split (u +:+ T) bar = Some (raw, rest) ->
  ends_blank raw = true ->
  exists raw', raw = (u +:+ raw') /\ CStr.strstr_split T bar = Some (raw', rest)
    /\ ends_blank raw' = true /\ field_of raw = field_of raw'.
Proof.
  intros Hu H He. rewrite (harmless_blank u Hu) in H.
  destruct (CStr.strstr_split T bar) as [[a r]|]; [|done]. injection H as <- <-.
  destruct (field_of_drop u a Hu He). by exists a.
Qed.

Lemma starts_b_drop u T : all_space u = true -> starts_b (u +:+ T) = starts_b T.
Proof. intros Hu. unfold starts_b. by rewrite skip_all. Qed.

Lemma line_of_drop u T : all_space u = true -> line_of (u +:+ T) = line_of T.
Proof. intros Hu. unfold line_of. by rewrite skip_all. Qed.

Lemma top_or_server st :
  plain st = true -> (st = SCANNER_TOP \/ st = SCANNER_SERVER) \/ inner st = true.
Proof. destruct st; unfold inner; simpl; auto. Qed.

Lemma inner_dropped st u : inner st = true -> dropped st u -> u = EmptyString.
Proof. by destruct st. Qed.

Lemma runs_drop s u T sf : runs s (u +:+ T) sf -> dropped (scanner_state s) u -> runs s T sf.
Proof.
  intros H Hd. pose proof (dropped_blank _ _ Hd) as Hu.
  remember (u +:+ T) as T0 eqn:ET. destruct H as
    [s T0 Hr Hp Hs | s T0 raw rest a s1 s2 sf Hr Hp Hs Hl He Hb Hn Hf Ha Hk | s T0 sf Hr Hp Hs Hk
    | s T0 l rest s1 sf Hr Hp Hc Hl Hb Hz Ha Hk | s T0 l rest s1 sf Hr Hp Hl Hb Hz Ha Hk]; subst T0.
  - apply runs_stop; [done|done|]. destruct Hs as [Hs|(H1 & H2 & H3)].
    + left. destruct u; [|done]. exact Hs.
    + right. unfold all_blank in *. rewrite CStr.all_str_app in H2.
      apply andb_true_iff in H2 as [_ H2]. rewrite CStr.slen_app in H3. pose proof (CStr.slen_nonneg u).
      repeat split; [done|done|lia].
  - destruct (field_after_drop _ _ _ _ Hu Hs He) as (raw' & -> & Hs' & He' & Hf').
    rewrite Hf' in Hf. eapply runs_field; try done.
    + rewrite CStr.slen_app in Hl. pose proof (CStr.slen_nonneg u). lia.
    + intros E. rewrite E in Hd. rewrite <- (Hb E). symmetry. by apply starts_b_drop.
    + intros E. specialize (Hn E). rewrite CStr.mem_char_app in Hn. by apply orb_false_iff in Hn as [_ ?].
  - rewrite skip_all in * by done. by apply runs_done.
  - rewrite Hp in Hd. rewrite line_of_drop in Hl by done.
    eapply runs_tags; try done. rewrite CStr.slen_app in Hz. pose proof (CStr.slen_nonneg u). lia.
  - rewrite Hp in Hd. rewrite line_of_drop in Hl by done.
    eapply runs_value; try done. rewrite CStr.slen_app in Hz. pose proof (CStr.slen_nonneg u). lia.
Qed.

(** *** Equivalent states *)

Lemma ready_equiv s s' : s ≡ s' -> ready s -> ready s'.
Proof.
  intros (d & Hd & ->)%otp_equiv_inv [[Hq|Hq] Hl]; (split; [|by destruct s]); destruct s; simpl in *.
  - by left.
  - right. simpl in *. by rewrite <- Hd.
Qed.

Lemma state_equiv s s' : s ≡ s' -> scanner_state s' = scanner_state s.
Proof. intros (d & Hd & ->)%otp_equiv_inv. by destruct s. Qed.

Lemma upd_state_equiv v s s' : s ≡ s' -> upd_state v s ≡ upd_state v s'.
Proof. intros (d & Hd & ->)%otp_equiv_inv. destruct s. by split. Qed.

Lemma upd_preference_equiv v s s' : s ≡ s' -> upd_preference v s ≡ upd_preference v s'.
Proof. intros (d & Hd & ->)%otp_equiv_inv. destruct s. by split. Qed.

Lemma settles_equiv a s1 s2 s1' :
  settles a s1 s2 -> s1 ≡ s1' -> exists s2', s2 ≡ s2' /\ settles a s1' s2'.
Proof.
  intros H E. pose proof (state_equiv _ _ E) as Es.
  destruct H; try (exists s1'; split; [done|constructor; congruence]).
  exists (upd_state SCANNER_DONE s1'). split; [by apply upd_state_equiv|constructor].
Qed.

Lemma respects_Ret {A} (m : M otp A) s s' a t :
  respects m -> s ≡ s' -> m s = Ret (a, t) -> exists t', m s' = Ret (a, t') /\ t ≡ t'.
Proof.
  intros Hm E H. specialize (Hm s s' E). rewrite H in Hm. simpl in Hm.
  destruct (m s') as [[a' t']| |]; [|done|done]. destruct Hm as [<- ?]. eauto.
Qed.

Lemma runs_equiv s T sf s' :
  runs s T sf -> s ≡ s' -> exists sf', sf ≡ sf' /\ runs s' T sf'.
Proof.
  intros H. revert s'. induction H as
    [s T Hr Hp Hs | s T raw rest a s1 s2 sf Hr Hp Hs Hl He Hb Hn Hf Ha Hk IH | s T sf Hr Hp Hs Hk IH
    | s T l rest s1 sf Hr Hp Hc Hl Hb Hz Ha Hk IH | s T l rest s1 sf Hr Hp Hl Hb Hz Ha Hk IH];
    intros s' E; pose proof (ready_equiv _ _ E Hr) as Hr'; pose proof (state_equiv _ _ E) as Es.
  - exists s'. split; [done|]. apply runs_stop; rewrite ?Es; done.
  - destruct (respects_Ret _ _ _ _ _ (process_field_respects (scanner_state s) (field_of raw)) E Hf)
      as (s1' & Hf' & E1).
    destruct (settles_equiv _ _ _ _ Ha E1) as (s2' & E2 & Ha').
    destruct (IH _ E2) as (sf' & ? & ?). exists sf'. split; [done|].
    by eapply runs_field; rewrite ?Es.
  - destruct (IH _ (upd_state_equiv SCANNER_TOP _ _ E)) as (sf' & ? & ?). exists sf'.
    split; [done|]. by apply runs_done; rewrite ?Es.
  - destruct (respects_Ret _ _ _ _ _ (add_plugin_respects (line_value l)) E Ha) as (s1' & Ha' & E1).
    destruct (IH _ (upd_state_equiv SCANNER_PLUGIN_LIST_OID _ _ E1)) as (sf' & ? & ?).
    exists sf'. split; [done|]. eapply runs_tags; rewrite ?Es; try done.
    apply otp_equiv_inv in E as (d & _ & ->). by destruct s.
  - destruct (respects_Ret _ _ _ _ _ (add_preference_respects (line_value l)) E Ha) as (s1' & Ha' & E1).
    destruct (IH _ (upd_preference_equiv None _ _ (upd_state_equiv SCANNER_PREFERENCE_NAME _ _ E1)))
      as (sf' & ? & ?).
    exists sf'. split; [done|]. by eapply runs_value; rewrite ?Es.
Qed.

(** *** One call of the loop *)

Definition rd (s : otp) (k : Z) (p : string) : reader := mk_reader s (mk_buffer k p 0).

Lemma need_more_rd s k p :
  0 <= k -> CStr.slen p < from_buffer_size -> need_more (rd s k p) = Ret (0, rd s 0 p).
Proof.
  intros Hk Hp. unfold need_more, sync_buffer, rd, from_scanner_end, from_buffer_size in *.
  unfold mbind, M_bind. simpl. pose proof (CStr.slen_nonneg p).
  destruct ((0 <? k) && (k =? k + CStr.slen p - 0)) eqn:E.
  - apply andb_true_iff in E as [_ E]. destruct p; [done|]. simpl in *.
    pose proof (CStr.slen_nonneg p). lia.
  - destruct (k =? 0) eqn:E0; [|done]. assert (k = 0) as -> by lia.
    destruct (0 + CStr.slen p - 0 =? 1048576) eqn:E1; [lia|done].
Qed.

Lemma more_rd s k p :
  0 <= k -> CStr.slen p < from_buffer_size -> more (rd s k p) = Ret (Some 0, rd s 0 p).
Proof. intros Hk Hp. unfold more. by rewrite (bind_step _ _ _ _ _ (need_more_rd s k p Hk Hp)). Qed.

(** What is read before the loop goes on, in the state that a field left. *)
Definition read_state (beyond : string) : M reader (option Z) := fun s =>
  match scanner_state (vars s) with
  | SCANNER_DONE => read_done no_case_0 s
  | SCANNER_PLUGIN_LIST_TAGS => read_tags s
  | SCANNER_PREFERENCE_VALUE => read_value s
  | SCANNER_SERVER => read_server beyond s
  | _ => Ret (None, s)
  end.

Lemma settles_read beyond a s1 s2 k p :
  settles a s1 s2 -> after_field beyond a (rd s1 k p) = read_state beyond (rd s2 k p).
Proof.
  intros H. destruct H as [s H|s H|s H|s H|s]; unfold read_state; simpl; try (by rewrite H).
  - unfold mret, M_ret. by destruct (scanner_state s).
  - by destruct s.
Qed.

Definition resume (beyond : string) (f : string -> string) (g : string -> nat) : M reader Z :=
  r ← read_state beyond;
  match r with
  | Some r => mret r
  | None => left ← input; read_fields (g left) beyond (f left)
  end.

Lemma resume_more beyond f g s k p s' k' p' :
  read_state beyond (rd s k p) = more (rd s' k' p') ->
  0 <= k' -> CStr.slen p' < from_buffer_size ->
  resume beyond f g (rd s k p) = Ret (0, rd s' 0 p').
Proof.
  intros H Hk Hp. rewrite more_rd in H by done. unfold resume. by rewrite (bind_step _ _ _ _ _ H).
Qed.

Lemma resume_loop beyond f g s k p s' k' p' :
  read_state beyond (rd s k p) = Ret (None, rd s' k' p') ->
  resume beyond f g (rd s k p) = read_fields (g p') beyond (f p') (rd s' k' p').
Proof. intros H. unfold resume. by rewrite (bind_step _ _ _ _ _ H). Qed.

Lemma read_fields_none n beyond behind s k p :
  fresh beyond -> harmless behind -> CStr.strstr_split p bar = None -> (0 < n)%nat ->
  0 <= k -> CStr.slen p < from_buffer_size ->
  read_fields n beyond behind (rd s k p) = Ret (0, rd s 0 p).
Proof.
  intros Hb Hh Hp Hn Hk Hl. destruct n as [|n]; [lia|].
  change (read_fields (S n) beyond behind (rd s k p)) with
    (match find_bar (behind +:+ p) beyond with
     | None => need_more
     | Some (before, rest, over) =>
         if CStr.slen before <? CStr.slen behind then undef else
         let raw := CStr.drop_str (String.length behind) before in
         on_buffer (leave_field raw rest over) ;;
         state ← lift (gets scanner_state);
         a ← lift (process_field state (field_of raw));
         r ← after_field beyond a;
         match r with
         | Some r => mret r
         | None => left ← input;
             read_fields n beyond (CStr.take_str (String.length rest - String.length left) rest)
         end
     end (rd s k p)).
  rewrite find_bar_strstr, Hh, Hp by done. by apply need_more_rd.
Qed.

Lemma read_fields_some n beyond behind s k p raw rest a s1 s2 :
  fresh beyond -> harmless behind -> CStr.strstr_split p bar = Some (raw, rest) ->
  process_field (scanner_state s) (field_of raw) s = Ret (a, s1) -> settles a s1 s2 ->
  read_fields (S n) beyond behind (rd s k p)
  = resume beyond (fun left => CStr.take_str (String.length rest - String.length left) rest)
      (fun _ => n) (rd s2 (k + CStr.slen raw + 3) rest).
Proof.
  intros Hb Hh Hp Hf Ha.
  change (read_fields (S n) beyond behind (rd s k p)) with
    (match find_bar (behind +:+ p) beyond with
     | None => need_more
     | Some (before, rest, over) =>
         if CStr.slen before <? CStr.slen behind then undef else
         let raw := CStr.drop_str (String.length behind) before in
         on_buffer (leave_field raw rest over) ;;
         state ← lift (gets scanner_state);
         a ← lift (process_field state (field_of raw));
         r ← after_field beyond a;
         match r with
         | Some r => mret r
         | None => left ← input;
             read_fields n beyond (CStr.take_str (String.length rest - String.length left) rest)
         end
     end (rd s k p)).
  rewrite find_bar_strstr, Hh, Hp by done.
  rewrite CStr.slen_app. pose proof (CStr.slen_nonneg raw).
  destruct (_ <? _) eqn:E; [lia|]. cbv zeta. rewrite CStr.drop_app.
  erewrite bind_step by reflexivity. erewrite bind_step by reflexivity.
  erewrite bind_step. 2: { unfold lift. simpl vars. rewrite Hf. reflexivity. }
  change (mk_reader s1 _) with (rd s1 (k + CStr.slen raw + 3) rest).
  unfold resume, mbind, M_bind at 1 3. by rewrite (settles_read _ _ _ _ _ _ Ha).
Qed.

(** *** Lines *)

Lemma strchr_none_app c (p t l rest : string) :
  CStr.strchr_split c p = None -> CStr.strchr_split c (p +:+ t) = Some (l, rest) ->
  CStr.slen p <= CStr.slen l.
Proof.
  revert l. induction p as [|d p IH]; intros l; [intros; apply CStr.slen_nonneg|].
  rewrite CStr.append_cons. simpl. case_decide; [done|].
  destruct (CStr.strchr_split c p) as [[??]|] eqn:E; [done|]. intros _.
  destruct (CStr.strchr_split c (p +:+ t)) as [[l' r']|]; [|done]. intros [= <- <-].
  simpl. specialize (IH l' eq_refl eq_refl). lia.
Qed.

Lemma strchr_more c (p t l rest : string) :
  CStr.strchr_split c p = Some (l, rest) -> CStr.strchr_split c (p +:+ t) = Some (l, rest +:+ t).
Proof. rewrite <- !CStr.strstr_split_char. apply strstr_split_more. Qed.

Lemma slen_skip f s : CStr.slen (CStr.skip f s) <= CStr.slen s.
Proof.
  destruct (skip_split f s) as (u & E & _). rewrite E at 2. rewrite CStr.slen_app.
  pose proof (CStr.slen_nonneg u). lia.
Qed.

Lemma line_cut p t l rest :
  line_of (p +:+ t) = Some (l, rest) ->
  (exists p', CStr.strchr_split newline (CStr.skip is_space p) = Some (l, p') /\ rest = (p' +:+ t))
  \/ (CStr.strchr_split newline (CStr.skip is_space p) = None
      /\ CStr.slen p < CStr.slen (p +:+ t) - CStr.slen rest /\ t <> EmptyString).
Proof.
  unfold line_of. intros H.
  destruct (decide (CStr.skip is_space p = EmptyString)) as [E|E].
  - right. rewrite E. split; [done|]. rewrite skip_all in H by by apply skip_nil.
    pose proof H as H'. apply CStr.strchr_split_app in H' as [Ht _].
    pose proof (slen_skip is_space t) as Hs. rewrite Ht, CStr.slen_app in Hs. simpl in Hs.
    rewrite CStr.slen_app. pose proof (CStr.slen_nonneg l). split; [lia|]. by intros ->.
  - rewrite skip_more in H by done.
    destruct (CStr.strchr_split newline (CStr.skip is_space p)) as [[l' p']|] eqn:El.
    + left. rewrite (strchr_more _ _ t _ _ El) in H. injection H as <- <-. by exists p'.
    + right. split; [done|]. pose proof (strchr_none_app _ _ _ _ _ El H) as Hl.
      destruct (skip_split is_space p) as (u & Hu & _).
      pose proof H as H'. apply CStr.strchr_split_app in H' as [Ht _].
      split.
      * rewrite Hu at 2. rewrite CStr.append_assoc, Ht, !CStr.slen_app. simpl.
        rewrite Hu at 1. rewrite CStr.slen_app. lia.
      * intros ->. rewrite CStr.append_nil_r in H. congruence.
Qed.

Lemma take_line_rd s k p :
  take_line (rd s k p)
  = let q := CStr.skip is_space p in
    match CStr.strchr_split newline q with
    | Some (l, rest) => Ret (Some (line_value l), rd s (k + (CStr.slen p - CStr.slen rest)) rest)
    | None => Ret (None, rd s (k + (CStr.slen p - CStr.slen q)) q)
    end.
Proof.
  unfold take_line, rd. erewrite bind_step by reflexivity. simpl.
  erewrite bind_step by reflexivity. simpl.
  destruct (CStr.strchr_split newline (CStr.skip is_space p)) as [[l rest]|]; [|done].
  erewrite bind_step by reflexivity. simpl. unfold mret, M_ret. do 4 f_equal. lia.
Qed.

(** *** Fields in a prefix of the text *)

Lemma strstr_exists q a b : CStr.strstr_split (a +:+ (q +:+ b)) q <> None.
Proof.
  induction a as [|c a IH].
  - change (EmptyString +:+ (q +:+ b)) with (q +:+ b).
    destruct (q +:+ b) as [|c s] eqn:E; cbn [CStr.strstr_split];
      rewrite <- E, (proj2 (CStr.drop_prefix_app q (q +:+ b) b) eq_refl); done.
  - rewrite CStr.append_cons. cbn [CStr.strstr_split].
    destruct (CStr.drop_prefix _ _); [done|].
    by destruct (CStr.strstr_split (a +:+ (q +:+ b)) q) as [[??]|].
Qed.

Lemma append_split (a b c d : string) :
  (a +:+ b) = (c +:+ d) ->
  (exists y, c = (a +:+ y) /\ b = (y +:+ d)) \/ (exists x, x <> EmptyString /\ a = (c +:+ x)).
Proof.
  revert c. induction a as [|e a IH]; intros c H.
  - left. by exists c.
  - destruct c as [|e' c]; [right; by exists (String e a)|].
    rewrite !CStr.append_cons in H. injection H as -> H.
    destruct (IH _ H) as [(y & -> & ?)|(x & ? & ->)]; [left; by exists y|right; by exists x].
Qed.

Lemma bar_cut q t raw rest :
  CStr.strstr_split (q +:+ t) bar = Some (raw, rest) ->
  (exists q', CStr.strstr_split q bar = Some (raw, q') /\ rest = (q' +:+ t))
  \/ (CStr.strstr_split q bar = None /\ t <> EmptyString
      /\ exists x, x <> EmptyString /\ (raw +:+ bar) = (q +:+ x)).
Proof.
  intros H. destruct (CStr.strstr_split q bar) as [[a b]|] eqn:E.
  - left. rewrite (strstr_split_more _ _ t _ _ E) in H. injection H as <- <-. by exists b.
  - right. split; [done|]. split; [intros ->; rewrite CStr.append_nil_r in H; congruence|].
    apply CStr.strstr_split_app in H. symmetry in H. rewrite <- CStr.append_assoc in H.
    destruct (append_split _ _ _ _ H) as [(y & -> & _)|(x & Hx & Ha)]; [|eauto].
    exfalso. rewrite CStr.append_assoc in E. by apply strstr_exists in E.
Qed.

Lemma mem_char_first c q l r :
  CStr.strchr_split c q = Some (l, r) -> forall a b, q = (a +:+ b) -> CStr.mem_char c a = false ->
  CStr.slen a <= CStr.slen l.
Proof.
  revert l. induction q as [|d q IH]; intros l; [done|]. simpl. case_decide as Hd.
  - intros [= <- <-] a b E Ha. destruct a as [|d' a]; [simpl; lia|].
    rewrite CStr.append_cons in E. injection E as -> _. simpl in Ha. by rewrite decide_True in Ha.
  - destruct (CStr.strchr_split c q) as [[l' r']|]; [|done]. intros [= <- <-] a b E Ha.
    destruct a as [|d' a]; [pose proof (CStr.slen_nonneg l'); simpl; lia|].
    rewrite CStr.append_cons in E. injection E as <- E. simpl in Ha. rewrite decide_False in Ha by done.
    specialize (IH l' eq_refl a b E Ha). simpl. lia.
Qed.

Lemma not_mem_app c a b : CStr.mem_char c (a +:+ b) = false -> CStr.mem_char c a = false.
Proof. rewrite CStr.mem_char_app. by intros [? _]%orb_false_iff. Qed.

(** [parse_scanner_server] finds no fault before a field without a newline, and
    takes only spaces. *)
Lemma read_server_rd beyond s k p t raw rest :
  fresh beyond ->
  CStr.strstr_split (CStr.skip is_space p +:+ t) bar = Some (raw, rest) ->
  CStr.mem_char newline raw = false ->
  read_server beyond (rd s k p)
  = Ret (None, rd s (k + (CStr.slen p - CStr.slen (CStr.skip is_space p))) (CStr.skip is_space p)).
Proof.
  intros Hb H Hn. set (q := CStr.skip is_space p) in *. unfold read_server, parse_scanner_server, rd.
  unfold mbind, M_bind. simpl. fold q.
  destruct (CStr.strchr_split newline q) as [[l r]|] eqn:El; [|done].
  rewrite find_bar_strstr by done. destruct (bar_cut _ _ _ _ H) as [(q' & -> & _)|(-> & _ & x & _ & Hx)].
  - pose proof H as H'. apply CStr.strstr_split_app in H'.
    assert (CStr.slen raw <= CStr.slen l); [|by destruct (_ <? _) eqn:E; [lia|]].
    apply (mem_char_first newline (q +:+ t) l (r +:+ t)) with (b := bar +:+ rest); [|done|done].
    by apply strchr_more.
  - exfalso. apply CStr.strchr_split_app in El as [El _].
    assert (CStr.mem_char newline (raw +:+ bar) = false) as Hm
      by by rewrite CStr.mem_char_app, Hn.
    rewrite Hx, El, CStr.append_assoc, !CStr.mem_char_app in Hm. simpl in Hm. by rewrite orb_true_r in Hm.
Qed.

Lemma read_done_rd s k p :
  read_done no_case_0 (rd s k p)
  = let q := CStr.skip is_blank_or_newline p in
    let k' := k + (CStr.slen p - CStr.slen q) in
    if CStr.slen q <? 6 then more (rd s k' q)
    else if negb (case_prefix "SERVER" q) then Ret (Some (-1), rd s k' q)
    else Ret (None, rd (upd_state SCANNER_TOP s) (k' + (CStr.slen q - CStr.slen (CStr.drop_str 6 q)))
                       (CStr.drop_str 6 q)).
Proof.
  unfold read_done, parse_scanner_done, rd. unfold mbind, M_bind. simpl.
  destruct (_ <? 6); [done|]. destruct (negb _); done.
Qed.

(** The six letters of "SERVER". *)
Lemma case_prefix_server q :
  case_prefix "SERVER" q = true ->
  6 <= CStr.slen q /\ harmless (CStr.take_str 6 q).
Proof.
  unfold case_prefix, CStr.strcaseeq. simpl String.length. intros H. case_decide as E; [|done].
  assert (CStr.slen (CStr.take_str 6 q) = 6) as Hl.
  { assert (forall s, CStr.slen (CStr.map_str CStr.tolower s) = CStr.slen s) as Hm
      by (induction s; simpl; lia).
    rewrite <- Hm, <- E. done. }
  rewrite CStr.slen_take in Hl. split; [lia|].
  apply (harmless_all (fun c => CStr.islower (CStr.tolower c))); [done|].
  assert (forall s, CStr.all_str CStr.islower (CStr.map_str CStr.tolower s)
                    = CStr.all_str (fun c => CStr.islower (CStr.tolower c)) s) as Hm
    by (induction s as [|c s IH]; simpl; [done|by rewrite IH]).
  by rewrite <- Hm, <- E.
Qed.

Lemma take_str_app_le n a b : Z.of_nat n <= CStr.slen a -> CStr.take_str n (a +:+ b) = CStr.take_str n a.
Proof.
  revert a. induction n as [|n IH]; intros [|c a] H; [by destruct b|done|simpl in H; lia|].
  rewrite CStr.append_cons. simpl. f_equal. apply IH. simpl in H. lia.
Qed.

Lemma case_prefix_app q t :
  6 <= CStr.slen q -> case_prefix "SERVER" (q +:+ t) = case_prefix "SERVER" q.
Proof. intros H. unfold case_prefix. by rewrite take_str_app_le by (simpl; lia). Qed.

(** *** Any prefix of the text *)

Definition keeps (p : string) (f : string -> string) (g : string -> nat) : Prop :=
  forall taken left, p = (taken +:+ left) -> harmless taken ->
    harmless (f left) /\ (String.length left < g left)%nat.

(** A reading of a part of the text: the call asks for more, in a state from which
    the rest is read as before; at the end of the text that is the last state. *)
Definition reads (o : outcome (Z * reader)) (t : string) (sf : otp) : Prop :=
  exists s' p', o = Ret (0, rd s' 0 p') /\ runs s' (p' +:+ t) sf /\ (t = EmptyString -> s' = sf).

Definition resumes (s : otp) (T : string) (sf : otp) : Prop :=
  forall u p t k beyond f g, T = (u +:+ (p +:+ t)) -> dropped (scanner_state s) u ->
    fresh beyond -> 0 <= k -> keeps p f g ->
    reads (resume beyond f g (rd s k p)) t sf.

Lemma append_length (a b : string) :
  String.length (a +:+ b) = (String.length a + String.length b)%nat.
Proof. induction a as [|c a IH]; [done|]. rewrite CStr.append_cons. simpl. by rewrite IH. Qed.

Lemma keeps_rest n q : (String.length q < n)%nat ->
  keeps q (fun left => CStr.take_str (String.length q - String.length left) q) (fun _ => n).
Proof.
  intros Hn taken left -> Ht. rewrite append_length in *. split; [|lia].
  replace (_ - _)%nat with (String.length taken) by lia. by rewrite CStr.take_app.
Qed.

Lemma keeps_self p f g : keeps p f g -> harmless (f p) /\ (String.length p < g p)%nat.
Proof. intros H. by apply (H EmptyString p); [|apply harmless_nil]. Qed.

Lemma keeps_skip fn p f g :
  fn "<"%char = false -> keeps p f g ->
  harmless (f (CStr.skip fn p)) /\ (String.length (CStr.skip fn p) < g (CStr.skip fn p))%nat.
Proof.
  intros Hfn H. destruct (skip_split fn p) as (u & E & Hu).
  apply (H u); [exact E|]. by apply (harmless_all fn).
Qed.

Lemma loop_field s p t k n behind beyond raw rest a s1 s2 sf :
  CStr.strstr_split (p +:+ t) bar = Some (raw, rest) -> CStr.slen raw + 3 <= B ->
  process_field (scanner_state s) (field_of raw) s = Ret (a, s1) -> settles a s1 s2 ->
  resumes s2 rest sf -> runs s (p +:+ t) sf ->
  fresh beyond -> 0 <= k -> harmless behind -> (String.length p < n)%nat ->
  reads (read_fields n beyond behind (rd s k p)) t sf.
Proof.
  intros Hs Hl Hf Ha IH Hr Hb Hk Hh Hn.
  destruct (bar_cut _ _ _ _ Hs) as [(q' & Hq & ->)|(Hq & Ht & x & Hx & E)].
  - destruct n as [|n]; [lia|]. rewrite (read_fields_some n _ _ _ _ _ _ _ _ _ _ Hb Hh Hq Hf Ha).
    apply (IH EmptyString); [done|apply dropped_nil|done|pose proof (CStr.slen_nonneg raw); lia|].
    apply keeps_rest. apply CStr.strstr_split_length in Hq. simpl in Hq. lia.
  - assert (CStr.slen p < from_buffer_size) as Hp.
    { apply (f_equal CStr.slen) in E. rewrite !CStr.slen_app in E. simpl in E.
      destruct x as [|c x]; [done|]. simpl in E. pose proof (CStr.slen_nonneg x). lia. }
    exists s, p. rewrite read_fields_none by first [done|lia]. by repeat split.
Qed.

Lemma read_state_other beyond s k p :
  scanner_state s = SCANNER_TOP \/ inner (scanner_state s) = true ->
  read_state beyond (rd s k p) = Ret (None, rd s k p).
Proof. unfold read_state. simpl. intros [->|H]; [done|]. by destruct (scanner_state s). Qed.

Lemma read_state_server beyond s k p :
  scanner_state s = SCANNER_SERVER -> read_state beyond (rd s k p) = read_server beyond (rd s k p).
Proof. unfold read_state. simpl. by intros ->. Qed.

Lemma resumes_field s T raw rest a s1 s2 sf :
  runs s T sf ->
  plain (scanner_state s) = true ->
  CStr.strstr_split T bar = Some (raw, rest) -> CStr.slen raw + 3 <= B ->
  ends_blank raw = true ->
  (scanner_state s = SCANNER_SERVER -> CStr.mem_char newline raw = false) ->
  process_field (scanner_state s) (field_of raw) s = Ret (a, s1) ->
  settles a s1 s2 -> resumes s2 rest sf -> resumes s T sf.
Proof.
  intros Hr Hp Hs Hl He Hn Hf Ha IH u p t k beyond f g -> Hd Hb Hk Hg.
  pose proof (dropped_blank _ _ Hd) as Hu. apply runs_drop in Hr; [|done].
  destruct (field_after_drop _ _ _ _ Hu Hs He) as (raw' & -> & Hs' & He' & Hf').
  rewrite Hf' in Hf. rewrite CStr.slen_app in Hl. pose proof (CStr.slen_nonneg u).
  destruct (top_or_server _ Hp) as [[E|E]|E].
  - rewrite (resume_loop _ _ _ _ _ _ _ _ _ (read_state_other _ _ _ _ (or_introl E))).
    destruct (keeps_self _ _ _ Hg). eapply loop_field; try done. lia.
  - (* the spaces that are read first *)
    destruct (keeps_skip is_space _ _ _ eq_refl Hg) as [Hh Hg'].
    specialize (Hn E). rewrite CStr.mem_char_app in Hn. apply orb_false_iff in Hn as [_ Hn].
    set (q := CStr.skip is_space p) in *.
    destruct (skip_split is_space p) as (v & Ev & Hv). fold q in Ev.
    assert (Hs2 := Hs'). rewrite Ev, CStr.append_assoc in Hs2.
    destruct (field_after_drop v (q +:+ t) raw' rest (all_space_blank v Hv) Hs2 He')
      as (raw2 & -> & Hs3 & He3 & Hf3).
    rewrite Hf3 in Hf. rewrite CStr.slen_app in Hl. pose proof (CStr.slen_nonneg v).
    assert (read_state beyond (rd s k p) = Ret (None, rd s (k + (CStr.slen p - CStr.slen q)) q)) as Hrd.
    { rewrite read_state_server by done. apply (read_server_rd _ _ _ _ t raw2 rest); [done|done|].
      rewrite CStr.mem_char_app in Hn. by apply orb_false_iff in Hn as [_ ?]. }
    rewrite (resume_loop _ _ _ _ _ _ _ _ _ Hrd).
    eapply loop_field; try done; [lia| |pose proof (slen_skip is_space p) as Hq; change (CStr.skip is_space p) with q in Hq; lia].
    apply (runs_drop s v); [by rewrite <- CStr.append_assoc, <- Ev|by rewrite E].
  - rewrite (resume_loop _ _ _ _ _ _ _ _ _ (read_state_other _ _ _ _ (or_intror E))).
    destruct (keeps_self _ _ _ Hg). eapply loop_field; try done. lia.
Qed.

Lemma resumes_stop s T :
  runs s T s -> ready s -> plain (scanner_state s) = true \/ scanner_state s = SCANNER_DONE ->
  T = EmptyString
  \/ (scanner_state s = SCANNER_TOP \/ inner (scanner_state s) = true)
     /\ all_blank T = true /\ CStr.slen T < B ->
  resumes s T s.
Proof.
  intros Hr Hy Hp HT u p t k beyond f g -> Hd Hb Hk Hg. apply runs_drop in Hr; [|done].
  destruct HT as [HT|(Etop & Hbl & Hl)].
  - destruct u; [|done]. destruct p; [|done].
    change (EmptyString +:+ (EmptyString +:+ t)) with t in *. subst t.
    exists s, EmptyString. split; [|by split]. destruct (keeps_self _ _ _ Hg).
    destruct (decide (scanner_state s = SCANNER_DONE)) as [E|E].
    + apply (resume_more _ _ _ _ _ _ s (k + 0) EmptyString); [|lia|done].
      unfold read_state. simpl. rewrite E. by rewrite read_done_rd.
    + assert (read_state beyond (rd s k EmptyString) = Ret (None, rd s (k + 0) EmptyString)
              \/ read_state beyond (rd s k EmptyString) = Ret (None, rd s k EmptyString)) as [Hrd|Hrd].
      { destruct Hp as [Hp|Hp]; [|done]. destruct (top_or_server _ Hp) as [[Hi|Hi]|Hi].
        - right. apply read_state_other. by left.
        - left. by rewrite read_state_server.
        - right. apply read_state_other. by right. }
      * rewrite (resume_loop _ _ _ _ _ _ _ _ _ Hrd). apply read_fields_none; [done|done|done|lia|lia|done].
      * rewrite (resume_loop _ _ _ _ _ _ _ _ _ Hrd). apply read_fields_none; [done|done|done|lia|lia|done].
  - exists s, p. unfold all_blank in Hbl. rewrite !CStr.all_str_app in Hbl.
    apply andb_true_iff in Hbl as [_ Hbl]. apply andb_true_iff in Hbl as [Hbl _].
    rewrite !CStr.slen_app in Hl. pose proof (CStr.slen_nonneg u). pose proof (CStr.slen_nonneg t).
    split; [|by split]. destruct (keeps_self _ _ _ Hg).
    rewrite (resume_loop _ _ _ _ _ _ _ _ _ (read_state_other _ _ _ _ Etop)).
    apply read_fields_none; [done|done| |lia|lia|lia].
    pose proof (harmless_blank p Hbl EmptyString) as Hh. rewrite CStr.append_nil_r in Hh. exact Hh.
Qed.

Lemma resumes_done s T sf :
  runs s T sf -> scanner_state s = SCANNER_DONE ->
  case_prefix "SERVER" (CStr.skip is_blank_or_newline T) = true ->
  resumes (upd_state SCANNER_TOP s) (CStr.drop_str 6 (CStr.skip is_blank_or_newline T)) sf ->
  resumes s T sf.
Proof.
  intros Hr Hs HT IH u p t k beyond f g -> Hd Hb Hk Hg. apply runs_drop in Hr; [|done].
  rewrite Hs in Hd. simpl in Hd. rewrite skip_all in HT, IH by done.
  pose proof (read_done_rd s k p) as H. cbv zeta in H.
  destruct (skip_split is_blank_or_newline p) as (v & Ev & Hv).
  set (q := CStr.skip is_blank_or_newline p) in *.
  assert (CStr.slen q <= CStr.slen p) as Hq by (rewrite Ev, CStr.slen_app; pose proof (CStr.slen_nonneg v); lia).
  assert (Hrs : read_state beyond (rd s k p) = read_done no_case_0 (rd s k p))
    by (unfold read_state; simpl; by rewrite Hs).
  rewrite <- Hrs in H. clear Hrs.
  destruct (CStr.slen q <? 6) eqn:E6.
  - exists s, q. split; [|split].
    + eapply resume_more; [exact H|lia|unfold from_buffer_size; lia].
    + apply (runs_drop s v); [by rewrite <- CStr.append_assoc, <- Ev|]. by rewrite Hs.
    + intros ->. exfalso. rewrite CStr.append_nil_r in HT. apply case_prefix_server in HT as [HT _]. subst q. lia.
  - assert (q <> EmptyString) as Hne by (intros E; rewrite E in E6; done).
    assert (CStr.skip is_blank_or_newline (p +:+ t) = (q +:+ t)) as Eqt by by apply skip_more.
    rewrite Eqt in HT, IH. rewrite case_prefix_app in HT by lia. rewrite HT in H. simpl negb in H. cbv iota in H.
    rewrite (resume_loop _ _ _ _ _ _ _ _ _ H).
    rewrite drop_str_app_le in IH by (simpl; lia).
    destruct (case_prefix_server _ HT) as [H6 Hh].
    destruct (Hg (v +:+ CStr.take_str 6 q) (CStr.drop_str 6 q)) as [Hf Hgl].
    { by rewrite CStr.append_assoc, CStr.take_drop. }
    { apply harmless_app; [|done]. by apply (harmless_all is_blank_or_newline). }
    specialize (IH EmptyString (CStr.drop_str 6 q) t
      (k + (CStr.slen p - CStr.slen q) + (CStr.slen q - CStr.slen (CStr.drop_str 6 q))) beyond
      (fun _ => f (CStr.drop_str 6 q)) (fun _ => g (CStr.drop_str 6 q)) eq_refl (dropped_nil _) Hb).
    rewrite (resume_loop _ _ _ _ _ _ _ _ _
      (read_state_other beyond (upd_state SCANNER_TOP s) _ _ (or_introl eq_refl))) in IH.
    apply IH.
    + rewrite CStr.slen_drop in *. lia.
    + intros taken left E _. split; [done|].
      apply (f_equal String.length) in E. rewrite append_length in E. lia.
Qed.

(** Lines: [m] is what reads the line, [s2] the state after it. *)
Lemma resumes_line s T sf l rest s2 (m : M reader (option Z)) :
  runs s T sf -> dropped (scanner_state s) = (fun u => all_space u = true) ->
  line_of T = Some (l, rest) -> CStr.strstr_split l bar = None -> CStr.slen T - CStr.slen rest <= B ->
  (forall beyond k p, read_state beyond (rd s k p) = m (rd s k p)) ->
  (forall k p k' q, take_line (rd s k p) = Ret (None, rd s k' q) -> m (rd s k p) = more (rd s k' q)) ->
  (forall k p k' q, take_line (rd s k p) = Ret (Some (line_value l), rd s k' q) ->
     m (rd s k p) = Ret (None, rd s2 k' q)) ->
  scanner_state s2 = SCANNER_TOP \/ inner (scanner_state s2) = true ->
  resumes s2 rest sf -> resumes s T sf.
Proof.
  intros Hr Hdr HT Hl HB' Hm Hnone Hsome H2 IH u p t k beyond f g -> Hd Hb Hk Hg.
  apply runs_drop in Hr; [|done]. rewrite Hdr in Hd. rewrite line_of_drop in HT by done.
  rewrite CStr.slen_app in HB'. pose proof (CStr.slen_nonneg u).
  pose proof (take_line_rd s k p) as Ht. cbv zeta in Ht.
  destruct (skip_split is_space p) as (v & Ev & Hv). pose proof (slen_skip is_space p) as Hsk.
  set (q := CStr.skip is_space p) in *.
  destruct (line_cut _ _ _ _ HT) as [(p' & El & ->)|(El & Hlen & Hne)]; fold q in El; rewrite El in Ht.
  - pose proof (CStr.strchr_split_app _ _ _ _ El) as [Eq _].
    assert (p = ((v +:+ (l +:+ String newline EmptyString)) +:+ p')) as Ep
      by (rewrite Ev, Eq, !CStr.append_assoc; done).
    rewrite (resume_loop _ _ _ _ _ _ s2 (k + (CStr.slen p - CStr.slen p')) p')
      by (rewrite Hm; by apply Hsome).
    destruct (Hg _ _ Ep) as [Hf Hgl].
    { apply harmless_app; [by apply (harmless_all is_space)|by apply harmless_line]. }
    specialize (IH EmptyString p' t (k + (CStr.slen p - CStr.slen p')) beyond
      (fun _ => f p') (fun _ => g p') eq_refl (dropped_nil _) Hb).
    rewrite (resume_loop _ _ _ _ _ _ _ _ _ (read_state_other beyond s2 _ _ H2)) in IH.
    apply IH.
    + rewrite Ep, !CStr.slen_app. pose proof (CStr.slen_nonneg v). pose proof (CStr.slen_nonneg l).
      simpl. lia.
    + intros taken left E _. split; [done|].
      apply (f_equal String.length) in E. rewrite append_length in E. lia.
  - exists s, q. split; [|split; [|done]].
    + apply (resume_more _ _ _ _ _ _ s (k + (CStr.slen p - CStr.slen q)) q);
        [rewrite Hm; by apply Hnone|lia|lia].
    + apply (runs_drop s v); [by rewrite <- CStr.append_assoc, <- Ev|]. by rewrite Hdr.
Qed.

Lemma plugin_assert s k p :
  current_plugin s <> None ->
  lift (assert (fun s => match current_plugin s with Some _ => true | None => false end)) (rd s k p)
  = Ret (tt, rd s k p).
Proof. intros Hc. unfold lift, assert. simpl. by destruct (current_plugin s). Qed.

Lemma read_tags_none s k p k' q :
  current_plugin s <> None ->
  take_line (rd s k p) = Ret (None, rd s k' q) -> read_tags (rd s k p) = more (rd s k' q).
Proof.
  intros Hc H. unfold read_tags, parse_scanner_plugin_list_tags, mbind, M_bind.
  by rewrite (plugin_assert _ _ _ Hc), H.
Qed.

Lemma read_tags_some s k p k' q v s1 :
  current_plugin s <> None ->
  take_line (rd s k p) = Ret (Some v, rd s k' q) -> add_plugin v s = Ret (tt, s1) ->
  read_tags (rd s k p) = Ret (None, rd (upd_state SCANNER_PLUGIN_LIST_OID s1) k' q).
Proof.
  intros Hc H Ha. unfold read_tags, parse_scanner_plugin_list_tags, mbind, M_bind.
  rewrite (plugin_assert _ _ _ Hc), H. unfold lift. cbn [vars rd]. by rewrite Ha.
Qed.

Lemma read_value_none s k p k' q :
  take_line (rd s k p) = Ret (None, rd s k' q) -> read_value (rd s k p) = more (rd s k' q).
Proof.
  intros H. unfold read_value, parse_scanner_preference_value, mbind, M_bind. by rewrite H.
Qed.

Lemma read_value_some s k p k' q v s1 :
  take_line (rd s k p) = Ret (Some v, rd s k' q) -> add_preference v s = Ret (tt, s1) ->
  read_value (rd s k p)
  = Ret (None, rd (upd_preference None (upd_state SCANNER_PREFERENCE_NAME s1)) k' q).
Proof.
  intros H Ha. unfold read_value, parse_scanner_preference_value, mbind, M_bind.
  rewrite H. unfold lift. cbn [vars rd]. by rewrite Ha.
Qed.

Lemma runs_resumes s T sf : runs s T sf -> resumes s T sf.
Proof.
  intros H. induction H as
    [s T Hr Hp Hs | s T raw rest a s1 s2 sf Hr Hp Hs Hl He Hb Hn Hf Ha Hk IH | s T sf Hr Hp Hs Hk IH
    | s T l rest s1 sf Hr Hp Hc Hl Hb Hz Ha Hk IH | s T l rest s1 sf Hr Hp Hl Hb Hz Ha Hk IH].
  - apply resumes_stop; [by apply runs_stop|done..].
  - eapply resumes_field; try done. by eapply runs_field.
  - apply resumes_done; [by apply runs_done|done..].
  - eapply (resumes_line s T sf l rest _ read_tags); try done.
    + by eapply runs_tags.
    + by rewrite Hp.
    + intros. unfold read_state. simpl. by rewrite Hp.
    + intros. by apply read_tags_none.
    + intros. by apply (read_tags_some _ _ _ _ _ _ _ Hc H).
    + by right.
  - eapply (resumes_line s T sf l rest _ read_value); try done.
    + by eapply runs_value.
    + by rewrite Hp.
    + intros. unfold read_state. simpl. by rewrite Hp.
    + intros. by apply read_value_none.
    + intros. by apply (read_value_some _ _ _ _ _ _ _ H).
    + by right.
Qed.

(** *** The whole function *)

Lemma runs_ready s T sf : runs s T sf -> ready s.
Proof. by destruct 1. Qed.

Lemma check_quiet s : quiet s -> exists s', manage_check_current_task s = Ret (0, s') /\ s ≡ s'.
Proof.
  intros Hq. unfold manage_check_current_task, mbind, M_bind. simpl.
  destruct (current_scanner_task s =? 0) eqn:E; [by exists s|].
  destruct Hq as [Hq|Hq]; [lia|].
  set (d := manage_transaction_stop false (the_db s)).
  assert (the_db s ≡ d) as Hd by (symmetry; apply transaction_stop_equiv).
  exists (upd_db d s). split; [|by apply otp_equiv_intro].
  replace (the_db (upd_db d s)) with d by by destruct s.
  rewrite <- (run_status_proper _ _ _ Hd). unfold is_one_of in Hq. simpl in Hq.
  repeat (apply orb_false_iff in Hq as [?Hq Hq]).
  repeat match goal with H : (_ =? _) = false |- _ => rewrite H; clear H end. done.
Qed.

Lemma bad_login_rd s k p t :
  starts_b (p +:+ t) = false ->
  parse_scanner_bad_login (rd s k p)
  = let q := CStr.skip is_space p in Ret (1, rd s (k + (CStr.slen p - CStr.slen q)) q).
Proof.
  intros Hb. unfold parse_scanner_bad_login, rd, mbind, M_bind. simpl.
  destruct (CStr.strchr_split _ _) as [[l r]|]; [|done].
  replace (case_prefix "Bad login attempt !" (CStr.skip is_space p)) with false; [done|].
  unfold starts_b in Hb. destruct (CStr.skip is_space p) as [|c q] eqn:E; [done|].
  rewrite skip_more in Hb by by rewrite E. rewrite E, CStr.append_cons in Hb. simpl in Hb.
  unfold case_prefix, CStr.strcaseeq. rewrite decide_False; [done|].
  simpl. intros [= Hc _]. rewrite <- Hc in Hb. done.
Qed.

Lemma read_input_rd beyond s k p :
  read_input beyond (rd s k p) = read_fields (S (String.length p)) beyond EmptyString (rd s k p).
Proof. done. Qed.

(** The function after its checks. *)
Definition process_fields (beyond : string) : M reader Z := fun s =>
  (r ← read_before beyond (scanner_state (vars s));
   match r with Some r => mret r | None => read_input beyond end) s.

Lemma process_live beyond s s' p :
  live s' = true -> manage_check_current_task s = Ret (0, s') ->
  process_otp_scanner_input beyond (rd s 0 p) = process_fields beyond (rd s' 0 p).
Proof.
  intros Hl Hc. unfold process_otp_scanner_input, mbind, M_bind, lift. cbn [vars rd].
  rewrite Hc. unfold live in Hl. simpl. by destruct (scanner_init_state s').
Qed.

Lemma process_fields_reads s T sf p t beyond :
  runs s T sf -> T = (p +:+ t) -> fresh beyond -> reads (process_fields beyond (rd s 0 p)) t sf.
Proof.
  intros Hr -> Hb. pose proof (runs_resumes _ _ _ Hr) as H.
  destruct (decide (scanner_state s = SCANNER_TOP)) as [E|E].
  - assert (starts_b (p +:+ t) = false) as Hsb.
    { destruct Hr as [s T _ _ Hs | s T raw rest a s1 s2 sf _ _ _ _ _ Hb' | | |]; try congruence; [|auto].
      destruct Hs as [->|(_ & Hs & _)]; [done|]. unfold starts_b.
      destruct (CStr.skip is_space T) as [|c q] eqn:Eq; [done|]. simpl.
      destruct (skip_split is_space T) as (u & Eu & _). rewrite Eq in Eu. rewrite Eu in Hs.
      unfold all_blank in Hs. rewrite CStr.all_str_app in Hs. apply andb_true_iff in Hs as [_ Hs].
      simpl in Hs. apply andb_true_iff in Hs as [Hs _]. unfold is_blank_or_newline in Hs.
      apply orb_true_iff in Hs as [Hs|Hs]; apply bool_decide_eq_true in Hs; by subst. }
    pose proof (bad_login_rd s 0 p t Hsb) as Hbl. cbv zeta in Hbl.
    destruct (skip_split is_space p) as (u & Eu & Hu). set (q := CStr.skip is_space p) in *.
    pose proof (slen_skip is_space p) as Hq. change (CStr.skip is_space p) with q in Hq.
    unfold process_fields. simpl vars. rewrite E. unfold read_before, mbind, M_bind. rewrite Hbl.
    simpl. rewrite read_input_rd.
    specialize (H u q t (0 + (CStr.slen p - CStr.slen q)) beyond
      (fun _ => EmptyString) (fun left => S (String.length left))).
    rewrite (resume_loop _ _ _ _ _ _ _ _ _ (read_state_other beyond s _ _ (or_introl E))) in H.
    apply H; [by rewrite <- CStr.append_assoc, <- Eu|by rewrite E|done|lia|].
    intros taken left _ _. split; [apply harmless_nil|lia].
  - assert (process_fields beyond (rd s 0 p)
      = resume beyond (fun _ => EmptyString) (fun left => S (String.length left)) (rd s 0 p)) as ->.
    { unfold process_fields, resume. simpl vars.
      assert (read_before beyond (scanner_state s) (rd s 0 p) = read_state beyond (rd s 0 p)) as Eq.
      { unfold read_state. simpl. by destruct (scanner_state s). }
      unfold mbind, M_bind. rewrite Eq. destruct (read_state beyond (rd s 0 p)) as [[[r|] s1]| |]; try done.
      unfold input. destruct (overrun (from_scanner s1) =? 0) eqn:Eo; [done|].
      unfold read_input, fields_fuel. simpl. unfold mbind, M_bind, input. by rewrite Eo. }
    apply (H EmptyString); [done|apply dropped_nil|done|lia|].
    intros taken left _ _. split; [apply harmless_nil|lia].
Qed.

Lemma process_reads s T sf p t beyond :
  runs s T sf -> T = (p +:+ t) -> fresh beyond ->
  exists sf', sf ≡ sf' /\ reads (process_otp_scanner_input beyond (rd s 0 p)) t sf'.
Proof.
  intros Hr -> Hb. destruct (runs_ready _ _ _ Hr) as [Hq _].
  destruct (check_quiet s Hq) as (s' & Hc & E).
  destruct (runs_equiv _ _ _ _ Hr E) as (sf' & Esf & Hr').
  exists sf'. split; [done|]. destruct (runs_ready _ _ _ Hr') as [_ Hl].
  rewrite (process_live _ _ _ _ Hl Hc). by eapply process_fields_reads.
Qed.

Lemma receive_rd s p c : on_buffer (receive c) (rd s 0 p) = Ret (tt, rd s 0 (p +:+ c)).
Proof.
  unfold on_buffer, receive, rd. simpl. change (CStr.drop_str (Z.to_nat 0) c) with c.
  pose proof (CStr.slen_nonneg c). by rewrite Z.max_l by lia.
Qed.

(** However the text is cut, the state at the end is the one the text leads to. *)
Lemma runs_deliver pieces s T sf p :
  runs s T sf -> T = (p +:+ String.concat EmptyString (fst <$> pieces)) -> pieces <> [] ->
  Forall (fun x => fresh (snd x)) pieces ->
  exists s' p', deliver pieces (rd s 0 p) = Ret (0, rd s' 0 p') /\ sf ≡ s'.
Proof.
  revert s T sf p. induction pieces as [|[c beyond] pieces IH]; intros s T sf p Hr HT Hne Hb; [done|].
  apply Forall_cons in Hb as [Hb Hbs]. simpl in Hb.
  assert (String.concat EmptyString (fst <$> (c, beyond) :: pieces)
          = (c +:+ String.concat EmptyString (fst <$> pieces))) as Ec.
  { simpl. destruct pieces; simpl; [by rewrite CStr.append_nil_r|done]. }
  rewrite Ec, <- CStr.append_assoc in HT.
  destruct (process_reads s T sf (p +:+ c) _ beyond Hr HT Hb) as (sf' & Esf & s1 & p1 & Hp & Hr1 & Hend).
  assert (deliver ((c, beyond) :: pieces) (rd s 0 p) = deliver pieces (rd s1 0 p1)) as ->.
  { cbn [deliver]. rewrite (bind_step _ _ _ _ _ (receive_rd s p c)). by rewrite (bind_step _ _ _ _ _ Hp). }
  destruct pieces as [|x pieces].
  - exists s1, p1. split; [done|]. by rewrite (Hend eq_refl).
  - destruct (IH s1 _ sf' p1 Hr1 eq_refl) as (s' & p' & Hd & E'); [done|done|].
    exists s', p'. split; [done|]. by etrans.
Qed.

End Runs.
