(* ===== verification/OtpSpec.v ===== *)
(** * What the manager makes of a scan

    The abstract view of the manager during a scan: the current task, the current
    report and the database; a message of the scanner is a step on it
    ([msg_effect]).  [messages_recorded] says that [process_otp_scanner_input]
    implements this, whatever pieces the stream arrives in. *)

From stdpp Require Import base list strings.
From Stdlib Require Import Ascii ZArith Lia.
From S2P Require Import Prelude ServerBuffer Otp OtpSend OtpDb OtpRuns.
Local Open Scope Z_scope.

Section Spec.
Context `{G : Glib} `{Mg : Manager} {Laws : ManagerLaws}.

(** ** Messages *)

Inductive result_kind := KError | KAlarm | KLog.

(** The messages of a scan, with the texts between the bars, without the blanks
    next to these. *)
Inductive msg :=
| Result (k : result_kind) (host port description oid : string)
| Status (host state progress : string)
| HostStart (host time : string)
| HostEnd (host time : string)
| ScanStart (time : string)
| ScanEnd (time : string).

Definition kind_name (k : result_kind) : string :=
  match k with KError => "ERRMSG" | KAlarm => "ALARM" | KLog => "LOG" end.
Definition kind_type (k : result_kind) : string :=
  match k with KError => "Error Message" | KAlarm => "Alarm" | KLog => "Log Message" end.

Definition msg_fields (m : msg) : list string :=
  match m with
  | Result k host port description oid => [kind_name k; host; port; description; oid]
  | Status host state progress => ["STATUS"%string; host; state; progress]
  | HostStart host time => ["TIME"; "HOST_START"; host; time]%string
  | HostEnd host time => ["TIME"; "HOST_END"; host; time]%string
  | ScanStart time => ["TIME"; "SCAN_START"; time]%string
  | ScanEnd time => ["TIME"; "SCAN_END"; time]%string
  end.

(** The stream of messages. *)
Definition stream (ms : list msg) : string :=
  foldr (fun m t => otp_line (msg_fields m) +:+ t) EmptyString ms.

(** ** The abstract step *)

Record view := mk_view { v_task : Z; v_report : Z; v_db : db }.

#[export] Instance view_equiv : Equiv view := fun v v' =>
  v_task v = v_task v' /\ v_report v = v_report v' /\ v_db v ≡ v_db v'.

(** A field as it is received: blanks at both ends dropped, control characters
    made spaces. *)
Definition received (f : string) : string := field_of (" " +:+ f +:+ " ").

Definition port_number (f : string) : Z :=
  match scan_port f with Some (n, _) => n | None => CStr.atoi f end.
Definition port_protocol (f : string) : port_protocol_t :=
  protocol_of (match scan_port f with Some (_, p) => p | None => EmptyString end).

Definition result_message (host port description oid : string) : message_t :=
  mk_message host (Some description) (Some oid) (port_number port) (port_protocol port)
    (Some (port_name_formatted port)).

(** A result is entered in the report; a log message for the port
    "general/Host_Details" is a detail of the host. *)
Definition record_result (k : result_kind) (task report : Z) (m : message_t) (d : db) : db :=
  match k with
  | KLog =>
      if decide (msg_port_string m = Some "general/Host_Details"%string)
      then manage_report_host_detail report (msg_host m)
             (strip_newline_escape (default EmptyString (msg_description m))) d
      else write_result task report m (kind_type k) d
  | _ => write_result task report m (kind_type k) d
  end.

Definition msg_effect (v : view) (m : msg) : view :=
  let '(mk_view task report d) := v in
  match m with
  | Result k host port description oid =>
      mk_view task report (record_result k task report
        (result_message (received host) (received port) (received description) (received oid)) d)
  | Status host state progress =>
      mk_view task report
        match scan_progress (received progress) with
        | Some (current, max) => set_scan_ports report (received host) current max d
        | None => d
        end
  | HostStart host time =>
      mk_view task report (set_scan_host_start_time_otp report (received host) (received time) d)
  | HostEnd host time =>
      mk_view task report (set_scan_host_end_time_otp report (received host) (received time) d)
  | ScanStart time => mk_view task report (start_task task report (received time) d)
  | ScanEnd time => mk_view 0 0 (end_scan task report (received time) d)
  end.

(** ** Streams the theorems are about *)

Definition view_of (s : otp) : view :=
  mk_view (current_scanner_task s) (current_report s) (the_db s).

(** The texts hold no bar and fit in the buffer. *)
Definition text_ok (f : string) : bool :=
  match CStr.strstr_split f bar with None => true | Some _ => false end
  && (CStr.slen f <=? 1048000).

Definition msg_ok (m : msg) (v : view) : Prop :=
  Forall (fun f => text_ok f = true) (msg_fields m)
  /\ v_task v <> 0 /\ v_report v <> 0
  /\ match m with
     | Result _ _ port _ _ => received port <> EmptyString
     | Status _ state _ => received state <> "portscan"%string /\ received state <> "pause"%string
         /\ received state <> "resume"%string
     | _ => True
     end.

Definition no_request (v : view) : Prop :=
  v_task v = 0
  \/ is_one_of (task_run_status (v_task v) (v_db v))
       [TASK_STATUS_PAUSE_REQUESTED; TASK_STATUS_RESUME_REQUESTED; TASK_STATUS_STOP_REQUESTED_GIVEUP;
        TASK_STATUS_STOP_REQUESTED; TASK_STATUS_DELETE_REQUESTED;
        TASK_STATUS_DELETE_ULTIMATE_REQUESTED] = false.

(** Every message finds a task and a report, and no request waits on the way. *)
Fixpoint scan_ok (v : view) (ms : list msg) : Prop :=
  no_request v
  /\ match ms with [] => True | m :: ms' => msg_ok m v /\ scan_ok (msg_effect v m) ms' end.

(** Between two messages. *)
Definition idle (s : otp) : Prop :=
  scanner_state s = SCANNER_TOP /\ current_message s = None /\ current_host s = None
  /\ live s = true.

(** ** Walking through the fields of a message *)

(** [raws] are the texts between the bars. *)
Definition fields_text (raws : list string) (rest : string) : string :=
  foldr (fun raw t => raw +:+ (bar +:+ t)) rest raws.

Inductive walk : otp -> list string -> otp -> Prop :=
| walk_nil s : walk s [] s
| walk_cons s raw raws a s1 s2 sf :
    ready s -> plain (scanner_state s) = true -> CStr.slen raw + 3 <= from_buffer_size ->
    ends_blank raw = true -> harmless raw ->
    (scanner_state s = SCANNER_TOP -> starts_b raw = false /\ CStr.skip is_space raw <> EmptyString) ->
    (scanner_state s = SCANNER_SERVER -> CStr.mem_char newline raw = false) ->
    process_field (scanner_state s) (field_of raw) s = Ret (a, s1) ->
    settles a s1 s2 -> walk s2 raws sf -> walk s (raw :: raws) sf.

Lemma runs_walk s raws s1 rest sf :
  walk s raws s1 -> runs from_buffer_size s1 rest sf -> runs from_buffer_size s (fields_text raws rest) sf.
Proof.
  induction 1 as [|s raw raws a s1 s2 sf' Hr Hp Hl He Hh Hb Hn Hf Ha Hw IH]; [done|].
  intros H. simpl. eapply runs_field; try done; [| |by apply IH].
  - rewrite Hh. change (bar +:+ fields_text raws rest) with ("<|>" +:+ fields_text raws rest).
    assert (CStr.strstr_split ("<|>" +:+ fields_text raws rest) bar
            = Some (EmptyString, fields_text raws rest)) as -> by done.
    by rewrite CStr.append_nil_r.
  - intros E. destruct (Hb E) as [Hb1 Hb2]. unfold starts_b in *. rewrite skip_more by done.
    by destruct (CStr.skip is_space raw).
Qed.

(** A text without a bar between two spaces. *)
Lemma harmless_end l c :
  CStr.strstr_split l bar = None -> c <> "<"%char -> c <> "|"%char -> c <> ">"%char ->
  harmless (l +:+ String c EmptyString).
Proof.
  intros H H1 H2 H3. induction l as [|e l IH].
  - apply harmless_cons; [done|apply harmless_nil].
  - rewrite CStr.append_cons. cbn [CStr.strstr_split] in H.
    destruct (CStr.drop_prefix bar (String e l)) as [r|] eqn:E; [done|].
    destruct (CStr.strstr_split l bar) as [[??]|] eqn:E'; [done|]. specialize (IH eq_refl).
    destruct (decide (e = "<"%char)) as [->|He]; [|by apply harmless_cons]. intros x.
    specialize (IH x). rewrite CStr.append_cons. cbn [CStr.strstr_split].
    assert (CStr.drop_prefix bar (String "<" ((l +:+ String c EmptyString) +:+ x)) = None) as ->.
    { simpl in E |- *. destruct l as [|d l]; [by simpl; rewrite decide_False by congruence|].
      simpl in E |- *. case_decide; [|done].
      destruct l as [|e l]; [by simpl; rewrite decide_False by congruence|].
      simpl in E |- *. by case_decide. }
    rewrite IH. by destruct (CStr.strstr_split x bar) as [[??]|].
Qed.

Definition padded (f : string) : string := " " +:+ f +:+ " ".

Lemma ends_blank_app a : ends_blank (a +:+ " ") = true.
Proof. unfold ends_blank. by rewrite CStr.rev_str_app. Qed.

Lemma padded_ok f :
  text_ok f = true ->
  CStr.slen (padded f) + 3 <= from_buffer_size /\ ends_blank (padded f) = true
  /\ harmless (padded f).
Proof.
  unfold text_ok, padded. intros H. destruct (CStr.strstr_split f bar) eqn:E; [done|].
  simpl in H. split; [|split].
  - change (" " +:+ f +:+ " ") with (String " " (f +:+ " ")). simpl. rewrite CStr.slen_app.
    unfold from_buffer_size. simpl. lia.
  - change (" " +:+ f +:+ " ") with (String " " f +:+ " "). apply ends_blank_app.
  - change (" " +:+ f +:+ " ") with (String " " (f +:+ " ")).
    apply harmless_cons; [done|]. by apply harmless_end.
Qed.

Lemma walk_inner s f raws a s1 s2 sf :
  ready s -> inner (scanner_state s) = true -> text_ok f = true ->
  process_field (scanner_state s) (received f) s = Ret (a, s1) -> settles a s1 s2 ->
  walk s2 raws sf -> walk s (padded f :: raws) sf.
Proof.
  intros Hr Hi Hf Hp Ha Hw. destruct (padded_ok f Hf) as (H1 & H2 & H3).
  apply (walk_cons _ _ _ a s1 s2); try done.
  - by destruct (scanner_state s).
  - intros E. by rewrite E in Hi.
  - intros E. by rewrite E in Hi.
Qed.

(** "SERVER", after a newline or not, and the name of a message. *)
Definition lead (w : string) : Prop := w = EmptyString \/ w = String newline EmptyString.

Lemma walk_begin s w name raws s2 sf :
  lead w -> ready s -> scanner_state s = SCANNER_TOP ->
  text_ok name = true -> CStr.mem_char newline name = false ->
  process_field SCANNER_SERVER (received name) (upd_state SCANNER_SERVER s) = Ret (Break, s2) ->
  inner (scanner_state s2) = true ->
  walk s2 raws sf -> walk s ((w +:+ "SERVER ") :: padded name :: raws) sf.
Proof.
  intros Hw Hr Hs Hn Hnl Hp Hi Hk.
  apply (walk_cons _ _ _ Await_server (upd_state SCANNER_SERVER s) (upd_state SCANNER_SERVER s));
    rewrite ?Hs; try done.
  - by destruct Hw as [->| ->].
  - by destruct Hw as [->| ->].
  - destruct Hw as [->| ->]; by apply (harmless_all (fun c => negb (bool_decide (c = "<"%char)))).
  - intros _. by destruct Hw as [->| ->].
  - by destruct Hw as [->| ->].
  - constructor. by destruct s.
  - destruct (padded_ok name Hn) as (H1 & H2 & H3).
    assert (scanner_state (upd_state SCANNER_SERVER s) = SCANNER_SERVER) as E by by destruct s.
    apply (walk_cons _ _ _ Break s2 s2); rewrite ?E; try done.
    + intros _. unfold padded. rewrite !CStr.mem_char_app. by rewrite Hnl.
    + by constructor.
Qed.

(** The state after a message. *)
Definition after (m : msg) (s : otp) : otp :=
  let v := msg_effect (view_of s) m in
  upd_task (v_task v) (upd_report (v_report v) (upd_db (v_db v) s)).

Lemma number_field field v m s :
  current_message s = Some m -> field <> EmptyString ->
  message_number_field field v s
  = Ret (Break, upd_state v (upd_message (Some (mk_message (msg_host m) (msg_description m)
      (msg_oid m) (port_number field) (port_protocol field) (Some (port_name_formatted field)))) s)).
Proof.
  intros Hm Hf. unfold message_number_field, mbind, M_bind, gets. rewrite Hm.
  unfold port_number, port_protocol. destruct (scan_port field) as [[n p]|]; [done|].
  by destruct field.
Qed.

Lemma write_message_ret task m type s :
  current_report s <> 0 ->
  write_message task m type s
  = Ret (tt, upd_db (write_result task (current_report s) m type (the_db s)) s).
Proof.
  intros H. unfold write_message, mbind, M_bind, assert. destruct (_ =? _) eqn:E; [lia|done].
Qed.

Lemma append_ret k task m s :
  current_report s <> 0 -> msg_description m <> None ->
  match k with KError => append_error_message | KAlarm => append_alarm_message
          | KLog => append_log_message end task m s
  = Ret (tt, upd_db (record_result k task (current_report s) m (the_db s)) s).
Proof.
  intros H Hd. destruct k; try by apply write_message_ret.
  unfold append_log_message, mbind, M_bind, assert. destruct (_ =? _) eqn:E; [lia|]. simpl.
  unfold record_result. case_decide.
  - by destruct (msg_description m).
  - by apply write_message_ret.
Qed.

Ltac compute_received :=
  match goal with |- context [received ?n] =>
    let r := eval vm_compute in (received n) in change (received n) with r end.

(** The name of a message leads to its first field. *)
Ltac begin_message s1 :=
  apply (walk_begin _ _ _ _ s1); [done|done|done|done|done|reflexivity|done|].

Lemma ready_vars s s' :
  current_scanner_task s' = current_scanner_task s -> the_db s' = the_db s ->
  scanner_init_state s' = scanner_init_state s -> ready s -> ready s'.
Proof. unfold ready, quiet, live. by intros -> -> ->. Qed.

(** The four fields of a result, whatever its kind. *)
Lemma walk_result_fields host port description oid h n ds o append rd s :
  (forall f, process_field h f = message_host_field f n) ->
  (forall f, process_field n f = message_number_field f ds) ->
  (forall f, process_field ds f = message_description_field f o) ->
  (forall f, process_field o f = message_oid_field f append) ->
  inner h = true -> inner n = true -> inner ds = true -> inner o = true ->
  (forall m s', current_report s' = current_report s -> the_db s' = the_db s ->
     msg_description m <> None ->
     append (current_scanner_task s) m s' = Ret (tt, upd_db (rd m) s')) ->
  Forall (fun f => text_ok f = true) [host; port; description; oid] ->
  scanner_state s = h -> current_message s = None -> ready s -> current_scanner_task s <> 0 ->
  received port <> EmptyString ->
  walk s (map padded [host; port; description; oid])
    (upd_state SCANNER_DONE (upd_db (rd (result_message (received host) (received port)
       (received description) (received oid))) s)).
Proof.
  intros Hh Hn Hd Ho Ih In Id Io Happ Ht Hs Hm Hr Htask Hport. simpl map.
  repeat match goal with H : Forall _ (_ :: _) |- _ => apply Forall_cons in H as [? H] end.
  destruct s as [st init msg hst feed pref plug plugs cl tl task rep act out d].
  simpl in *. subst st msg.
  set (mk st msg := mk_otp st init msg hst feed pref plug plugs cl tl task rep act out d).
  set (m0 := make_message (received host)).
  set (m1 := mk_message (received host) None None (port_number (received port))
    (port_protocol (received port)) (Some (port_name_formatted (received port)))).
  set (m2 := set_message_description (received description) m1).
  assert (forall st msg, ready (mk st msg)) as Hready by (intros; by eapply ready_vars; [..|exact Hr]).
  eapply (walk_inner _ _ _ Break (mk n (Some m0)));
    [done|done|done|simpl; by rewrite Hh|by constructor|].
  eapply (walk_inner _ _ _ Break (mk ds (Some m1)));
    [done|done|done|simpl; by rewrite Hn, (number_field _ _ m0)|by constructor|].
  eapply (walk_inner _ _ _ Break (mk o (Some m2)));
    [done|done|done|simpl; by rewrite Hd|by constructor|].
  eapply (walk_inner _ _ _ (Await_done no_case_0) (upd_db (rd (result_message (received host)
    (received port) (received description) (received oid))) (mk o None)));
    [done|done|done| |by constructor|apply walk_nil].
  simpl. rewrite Ho. unfold message_oid_field, mbind, M_bind, gets. simpl.
  destruct (task =? 0) eqn:E; [lia|]. rewrite Happ; [done|done|done|done].
Qed.

(** *** The messages *)

(** A field that leads from a ready state to the given one. *)
Ltac next_field Hr s1 tac :=
  eapply (walk_inner _ _ _ Break s1);
    [by eapply ready_vars; [..|exact Hr]|done|done|tac; reflexivity|by constructor|].

(** The last field of a message. *)
Ltac last_field Hr s1 tac :=
  eapply (walk_inner _ _ _ (Await_done no_case_0) s1);
    [by eapply ready_vars; [..|exact Hr]|done|done|tac; reflexivity|by constructor|apply walk_nil].

Lemma fields_ok m v :
  msg_ok m v -> Forall (fun f => text_ok f = true) (msg_fields m).
Proof. by intros [? _]. Qed.

Lemma walk_result k host port description oid s w :
  lead w -> idle s -> ready s -> msg_ok (Result k host port description oid) (view_of s) ->
  walk s ((w +:+ "SERVER ") :: map padded (msg_fields (Result k host port description oid)))
    (upd_state SCANNER_DONE (after (Result k host port description oid) s)).
Proof.
  intros Hw (Hs & Hm & Hh & _) Hr (Ht & Htask & Hrep & Hx).
  destruct s as [st init msg hst feed pref plug plugs cl tl task rep act out d].
  simpl in Hs, Hm, Hh, Htask, Hrep. subst st msg hst.
  simpl msg_fields in *. apply Forall_cons in Ht as [Hname Ht].
  set (s1 := mk_otp (match k with KError => SCANNER_ERRMSG_HOST
      | KAlarm => SCANNER_ALARM_HOST | KLog => SCANNER_LOG_HOST end) init None None feed pref plug
      plugs cl tl task rep act out d).
  apply (walk_begin _ _ _ _ s1); try done; try by destruct k.
  assert (forall m s', current_report s' = rep -> the_db s' = d -> msg_description m <> None ->
    match k with KError => append_error_message | KAlarm => append_alarm_message
          | KLog => append_log_message end task m s'
    = Ret (tt, upd_db (record_result k task rep m d) s')) as Happ.
  { intros m s' H1 H2 H3. rewrite append_ret by congruence. by rewrite H1, H2. }
  assert (ready s1) as Hr1 by (by eapply ready_vars; [..|exact Hr]).
  pose proof (fun n ds o ap => walk_result_fields host port description oid (scanner_state s1) n ds o ap
    (fun m => record_result k task rep m d) s1) as H.
  destruct k.
  - exact (H _ _ _ _ (fun _ => eq_refl) (fun _ => eq_refl) (fun _ => eq_refl) (fun _ => eq_refl)
      eq_refl eq_refl eq_refl eq_refl Happ Ht eq_refl eq_refl Hr1 Htask Hx).
  - exact (H _ _ _ _ (fun _ => eq_refl) (fun _ => eq_refl) (fun _ => eq_refl) (fun _ => eq_refl)
      eq_refl eq_refl eq_refl eq_refl Happ Ht eq_refl eq_refl Hr1 Htask Hx).
  - exact (H _ _ _ _ (fun _ => eq_refl) (fun _ => eq_refl) (fun _ => eq_refl) (fun _ => eq_refl)
      eq_refl eq_refl eq_refl eq_refl Happ Ht eq_refl eq_refl Hr1 Htask Hx).
Qed.

Lemma walk_message m s w :
  lead w -> idle s -> ready s -> msg_ok m (view_of s) ->
  walk s ((w +:+ "SERVER ") :: map padded (msg_fields m)) (upd_state SCANNER_DONE (after m s)).
Proof.
  destruct m as [k host port description oid|host state progress|host time|host time|time|time];
    [by apply walk_result|..]; intros Hw (Hs & Hm & Hh & _) Hr (Ht & Htask & Hrep & Hx);
  destruct s as [st init msg hst feed pref plug plugs cl tl task rep act out d];
  simpl in Hs, Hm, Hh, Htask, Hrep; subst st msg hst;
  assert ((task =? 0) = false) as Et by lia; assert ((rep =? 0) = false) as Er by lia;
    simpl msg_fields in *;
  repeat match goal with H : Forall _ (_ :: _) |- _ => apply Forall_cons in H as [? H] end;
  simpl map;
  set (mk st hst := mk_otp st init None hst feed pref plug plugs cl tl task rep act out).
  - destruct Hx as (Hx1 & Hx2 & Hx3).
    apply (walk_begin _ _ _ _ (mk SCANNER_STATUS_HOST None d)); try done.
    next_field Hr (mk SCANNER_STATUS_ATTACK_STATE (Some (received host)) d) idtac.
    next_field Hr (mk SCANNER_STATUS_PROGRESS (Some (received host)) d)
      ltac:(simpl; unfold status_attack_state_field, mbind, M_bind; simpl; rewrite Et, Er; simpl;
            rewrite !decide_False by done).
    last_field Hr (mk SCANNER_STATUS_PROGRESS None
        match scan_progress (received progress) with
        | Some (current, max) => set_scan_ports rep (received host) current max d
        | None => d
        end)
      ltac:(simpl; unfold status_progress_field, mbind, M_bind, assert; simpl; rewrite Er; simpl;
            destruct (scan_progress (received progress)) as [[]|]).
  - apply (walk_begin _ _ _ _ (mk SCANNER_TIME None d)); try done.
    next_field Hr (mk SCANNER_TIME_HOST_START_HOST None d) idtac.
    next_field Hr (mk SCANNER_TIME_HOST_START_TIME (Some (received host)) d) idtac.
    last_field Hr (mk SCANNER_TIME_HOST_START_TIME None
        (set_scan_host_start_time_otp rep (received host) (received time) d))
      ltac:(simpl; unfold time_host_field, mbind, M_bind; simpl; rewrite Et).
  - apply (walk_begin _ _ _ _ (mk SCANNER_TIME None d)); try done.
    next_field Hr (mk SCANNER_TIME_HOST_END_HOST None d) idtac.
    next_field Hr (mk SCANNER_TIME_HOST_END_TIME (Some (received host)) d) idtac.
    last_field Hr (mk SCANNER_TIME_HOST_END_TIME None
        (set_scan_host_end_time_otp rep (received host) (received time) d))
      ltac:(simpl; unfold time_host_field, mbind, M_bind; simpl; rewrite Et).
  - apply (walk_begin _ _ _ _ (mk SCANNER_TIME None d)); try done.
    next_field Hr (mk SCANNER_TIME_SCAN_START None d) idtac.
    last_field Hr (mk SCANNER_TIME_SCAN_START None (start_task task rep (received time) d))
      ltac:(simpl; unfold time_scan_start_field, mbind, M_bind; simpl; rewrite Et).
  - apply (walk_begin _ _ _ _ (mk SCANNER_TIME None d)); try done.
    next_field Hr (mk SCANNER_TIME_SCAN_END None d) idtac.
    last_field Hr (mk_otp SCANNER_TIME_SCAN_END init None None feed pref plug plugs cl tl 0 0 act out
        (end_scan task rep (received time) d))
      ltac:(simpl; unfold time_scan_end_field, mbind, M_bind; simpl; rewrite Et).
Qed.

(** ** The stream *)

Lemma fields_text_line a fs x :
  fields_text ((a +:+ " ") :: map padded fs) (" SERVER" +:+ x)
  = (String.concat sep (a :: fs ++ ["SERVER"%string]) +:+ x).
Proof.
  revert a. induction fs as [|f fs IH]; intros a.
  - simpl. rewrite !CStr.append_assoc. done.
  - change (String.concat sep (a :: (f :: fs) ++ ["SERVER"%string]))
      with (a +:+ (sep +:+ String.concat sep (f :: fs ++ ["SERVER"%string]))).
    change (fields_text ((a +:+ " ") :: map padded (f :: fs)) (" SERVER" +:+ x))
      with ((a +:+ " ") +:+ (bar +:+ (padded f +:+ (bar +:+
              fields_text (map padded fs) (" SERVER" +:+ x))))).
    rewrite !CStr.append_assoc, <- IH. unfold padded. simpl. by rewrite !CStr.append_assoc.
Qed.

Lemma stream_cons w m ms :
  (w +:+ stream (m :: ms))
  = fields_text ((w +:+ "SERVER ") :: map padded (msg_fields m))
      (" SERVER" +:+ (String newline EmptyString +:+ stream ms)).
Proof.
  change (stream (m :: ms)) with (otp_line (msg_fields m) +:+ stream ms).
  replace (w +:+ "SERVER ") with ((w +:+ "SERVER") +:+ " ") by by rewrite CStr.append_assoc.
  rewrite fields_text_line. unfold otp_line, line.
  rewrite <- !CStr.append_assoc. f_equal. f_equal.
  destruct (msg_fields m ++ ["SERVER"%string]) as [|f l] eqn:E; [by destruct (msg_fields m)|].
  change (String.concat sep ("SERVER"%string :: f :: l)) with ("SERVER" +:+ (sep +:+ String.concat sep (f :: l))).
  change (String.concat sep ((w +:+ "SERVER") :: f :: l))
    with ((w +:+ "SERVER") +:+ (sep +:+ String.concat sep (f :: l))).
  by rewrite !CStr.append_assoc.
Qed.

Lemma idle_after m s : idle s -> idle (after m s).
Proof. by destruct s. Qed.

Lemma view_after m s : view_of (after m s) = msg_effect (view_of s) m.
Proof. unfold after. destruct s. simpl. by destruct m. Qed.

Lemma ready_idle s st : idle s -> no_request (view_of s) -> ready (upd_state st s).
Proof. destruct s. intros (_ & _ & _ & ?) ?. by split. Qed.

Lemma scan_ok_first v ms : scan_ok v ms -> no_request v.
Proof. by destruct ms as [|m ms]; intros [? _]. Qed.

Lemma upd_state_idle s : idle s -> upd_state SCANNER_TOP s = s.
Proof. destruct s. intros (Hs & _). simpl in *. by subst. Qed.

Lemma runs_stream ms s w :
  idle s -> scan_ok (view_of s) ms -> lead w ->
  runs from_buffer_size s (w +:+ stream ms) (foldl (fun s m => after m s) s ms).
Proof.
  revert s w. induction ms as [|m ms IH]; intros s w Hi Hok Hw.
  - pose proof (scan_ok_first _ _ Hok) as Hn. simpl. rewrite CStr.append_nil_r.
    pose proof (ready_idle s SCANNER_TOP Hi Hn) as Hr. rewrite upd_state_idle in Hr by done.
    destruct Hi as (Hs & _). apply runs_stop; [done|left; by rewrite Hs|].
    right. split; [by left|]. by destruct Hw as [->| ->].
  - pose proof (scan_ok_first _ _ Hok) as Hn. destruct Hok as (_ & Hm & Hok).
    pose proof (ready_idle s SCANNER_TOP Hi Hn) as Hr. rewrite upd_state_idle in Hr by done.
    rewrite stream_cons. eapply runs_walk; [by apply walk_message|].
    assert (CStr.skip is_blank_or_newline (" SERVER" +:+ (String newline EmptyString +:+ stream ms))
            = ("SERVER" +:+ (String newline EmptyString +:+ stream ms))) as E by done.
    apply runs_done; rewrite ?E.
    + apply ready_idle; [by apply idle_after|]. rewrite view_after. by eapply scan_ok_first.
    + by destruct (after m s).
    + done.
    + change (CStr.drop_str 6 ("SERVER" +:+ (String newline EmptyString +:+ stream ms)))
        with (String newline EmptyString +:+ stream ms).
      assert (upd_state SCANNER_TOP (upd_state SCANNER_DONE (after m s)) = after m s) as ->.
      { rewrite <- (upd_state_idle (after m s)) at 2 by by apply idle_after. by destruct (after m s). }
      apply (IH (after m s)); [by apply idle_after|by rewrite view_after|by right].
Qed.

Lemma view_foldl ms s : view_of (foldl (fun s m => after m s) s ms) = foldl msg_effect (view_of s) ms.
Proof. revert s. induction ms as [|m ms IH]; intros s; [done|]. simpl. by rewrite IH, view_after. Qed.

Lemma idle_foldl ms s : idle s -> idle (foldl (fun s m => after m s) s ms).
Proof. revert s. induction ms as [|m ms IH]; intros s Hi; [done|]. by apply IH, idle_after. Qed.

Lemma idle_equiv s s' : s ≡ s' -> idle s -> idle s' /\ view_of s ≡ view_of s'.
Proof. intros (d & Hd & ->)%otp_equiv_inv Hi. by destruct s. Qed.

(** C5: what a scan reports is entered in the database exactly: the messages of a
    scan (results, status, times of hosts and of the scan), printed as the scanner
    prints them and read in any pieces, leave the manager between two messages with
    the task, the report and the database to which the abstract steps lead, up to
    the commits in between.  A result is so recorded once, with its texts, in the
    order of the stream. *)
Theorem messages_recorded (ms : list msg) (pieces : list (string * string)) (s : otp) :
  idle s -> scan_ok (view_of s) ms ->
  String.concat EmptyString (fst <$> pieces) = stream ms -> pieces <> [] ->
  Forall (fun x => fresh (snd x)) pieces ->
  exists s' p', deliver pieces (rd s 0 EmptyString) = Ret (0, rd s' 0 p')
    /\ idle s' /\ view_of s' ≡ foldl msg_effect (view_of s) ms.
Proof.
  intros Hi Hok HT Hne Hf.
  pose proof (runs_stream ms s EmptyString Hi Hok (or_introl eq_refl)) as Hr.
  destruct (runs_deliver from_buffer_size (Z.le_refl _) pieces s _ _ EmptyString Hr) as (s' & p' & Hd & E);
    [by rewrite HT|done|done|].
  exists s', p'. split; [done|]. apply idle_equiv in E as [Hi' Hv]; [|by apply idle_foldl].
  split; [done|]. rewrite view_foldl in Hv. destruct Hv as (? & ? & ?). by repeat split.
Qed.

(** ** Texts that arrive as they are *)

(** Printable characters and newlines, no blank at an end. *)
Definition plain_char (c : ascii) : bool :=
  (32 <=? CStr.code c) && (CStr.code c <=? 126) || bool_decide (c = newline).
Definition not_blank (o : option ascii) : bool :=
  match o with Some c => negb (is_blank_or_newline c) | None => true end.
Definition plain_text (f : string) : bool :=
  CStr.all_str plain_char f && not_blank (CStr.peek f)
  && not_blank (CStr.peek (CStr.rev_str EmptyString f)).

Lemma skip_not_blank s : not_blank (CStr.peek s) = true -> CStr.skip is_blank_or_newline s = s.
Proof. intros H. apply CStr.skip_none. unfold not_blank in H. by destruct (CStr.peek s); [apply negb_true_iff|]. Qed.

Lemma strip_trailing_blanks f w :
  all_blank w = true -> not_blank (CStr.peek (CStr.rev_str EmptyString f)) = true ->
  strip_trailing (f +:+ w) = f.
Proof.
  intros Hw Hf. unfold strip_trailing. rewrite CStr.rev_str_app, skip_all, skip_not_blank;
    [apply CStr.rev_str_invol|done|by rewrite CStr.all_str_rev].
Qed.

Lemma plain_unchanged f :
  CStr.all_str plain_char f = true -> blank_control_chars (cstr f) = f.
Proof.
  induction f as [|c f IH]; [done|]. simpl. rewrite andb_true_iff. intros [Hc Hf].
  assert (c <> NUL) as Hn by (by intros ->).
  rewrite decide_False by done. unfold blank_control_chars in *. simpl. rewrite (IH Hf). f_equal.
  unfold plain_char in Hc. unfold iscntrl. destruct (bool_decide (c = newline)) eqn:E; simpl.
  - by rewrite andb_false_r.
  - rewrite orb_false_r in Hc. destruct (_ || _) eqn:E2; [lia|done].
Qed.

Lemma received_plain f w :
  plain_text f = true -> all_blank w = true -> received (f +:+ w) = f.
Proof.
  unfold plain_text. rewrite !andb_true_iff. intros [[H1 H2] H3] Hw.
  unfold received. rewrite CStr.append_assoc.
  assert (all_blank (w +:+ " ") = true) as Hw' by (unfold all_blank in *; by rewrite CStr.all_str_app, Hw).
  destruct (field_of_drop " " (f +:+ (w +:+ " "))) as [He Hf]; [done| |].
  { rewrite <- !CStr.append_assoc. apply ends_blank_app. }
  rewrite Hf. unfold field_of, openvas_strip_space.
  rewrite strip_leading_ends_blank by done.
  destruct f as [|c f].
  - change (EmptyString +:+ (w +:+ " ")) with (w +:+ " ") in *.
    pose proof (skip_all _ _ EmptyString Hw') as E. rewrite CStr.append_nil_r in E. by rewrite E.
  - rewrite skip_not_blank by done. rewrite strip_trailing_blanks by done. by apply plain_unchanged.
Qed.

(** ** A result from the plugin to the database *)

Lemma all_str_concat f sep l :
  CStr.all_str f sep = true -> Forall (fun s => CStr.all_str f s = true) l ->
  CStr.all_str f (String.concat sep l) = true.
Proof.
  intros Hs. induction 1 as [|x [|y l] Hx Hl IH]; [done|done|].
  change (String.concat sep (x :: y :: l)) with (x +:+ (sep +:+ String.concat sep (y :: l))).
  by rewrite !CStr.all_str_app, Hx, Hs, IH.
Qed.

Definition is_ascii (c : ascii) : bool := CStr.code c <? 128.

Lemma otp_line_ascii fs :
  Forall (fun f => CStr.all_str is_ascii f = true) fs -> CStr.all_str is_ascii (otp_line fs) = true.
Proof.
  intros H. unfold otp_line, line. rewrite CStr.all_str_app. rewrite all_str_concat; [done|done|].
  constructor; [done|]. apply Forall_app. split; [done|]. by repeat constructor.
Qed.

Lemma plain_ascii f : plain_text f = true -> CStr.all_str is_ascii f = true.
Proof.
  unfold plain_text. rewrite !andb_true_iff. intros [[H _] _]. revert H. apply CStr.all_str_impl.
  intros c Hc. unfold plain_char in Hc. unfold is_ascii. apply orb_true_iff in Hc as [Hc|Hc]; [lia|].
  apply bool_decide_eq_true in Hc. by subst.
Qed.

Lemma snprintf_all size s : CStr.slen s < size -> snprintf size s = s.
Proof.
  intros H. unfold snprintf. apply CStr.take_str_all. rewrite CStr.slen_length in H. lia.
Qed.

(** The message of a result is the line of its fields, where nothing is cut off. *)
Lemma post_line (Cv : Conversion) n oid_arg oid host port proto action k :
  (forall s, CStr.all_str is_ascii s = true -> g_convert s = s) ->
  nvti_oid n = Some oid -> CStr.slen oid <= 99 ->
  CStr.slen host + CStr.slen (post_port port proto) <= 800 ->
  Forall (fun f => plain_text f = true) [host; post_port port proto; action; oid] ->
  exists p, proto_post_wrapped (Some n) oid_arg host None None port proto (Some action) (kind_name k)
              = Some p
    /\ posted_text p = otp_line [kind_name k; host; post_port port proto; line action; oid].
Proof.
  intros Hc Hn Ho Hl Hp. eexists. split; [reflexivity|]. unfold posted_text.
  repeat match goal with H : Forall _ (_ :: _) |- _ => apply Forall_cons in H as [? H] end.
  assert (result_text (nvti_tag n) None None (Some action) = line action) as ->
    by (unfold result_text; by destruct (nvti_tag n)).
  unfold post_id. rewrite Hn.
  rewrite (snprintf_all 105 _) by (rewrite !CStr.slen_app; simpl; lia).
  set (text := otp_line _).
  set (buffer := "SERVER <|> " +:+ _).
  assert (buffer = text) as ->.
  { unfold buffer, text, otp_line, line, sep. simpl. repeat (rewrite !CStr.append_assoc; simpl). done. }
  rewrite snprintf_all.
  - apply Hc. apply otp_line_ascii. repeat constructor; try (by apply plain_ascii).
    + by destruct k.
    + unfold line. rewrite CStr.all_str_app. by rewrite (plain_ascii action) by done.
  - unfold text, otp_line, line, sep. repeat (progress (simpl; rewrite ?CStr.slen_app)).
    assert (CStr.slen (kind_name k) <= 6) by by destruct k. lia.
Qed.

Lemma post_port_not_empty port proto : post_port port proto <> EmptyString.
Proof.
  intros E. apply (f_equal CStr.slen) in E. unfold post_port in E.
  destruct (0 <? port); repeat (progress (simpl in E; rewrite ?CStr.slen_app in E));
    pose proof (CStr.slen_nonneg proto); pose proof (CStr.slen_nonneg (CStr.dec port)); lia.
Qed.

Lemma record_result_status k t task report m d :
  task_run_status t (record_result k task report m d) = task_run_status t d.
Proof.
  assert (forall type, task_run_status t (write_result task report m type d) = task_run_status t d) as H.
  { intros type. unfold write_result.
    pose proof (make_result_status t task (msg_host m) (msg_port_string m) (msg_oid m) type
      (msg_description m) (manage_transaction_start d)) as E.
    destruct (make_result _ _ _ _ _ _ _) as [r d']. simpl in E. rewrite add_result_status, E.
    apply run_status_proper, transaction_start_equiv. }
  destruct k; simpl; try apply H. case_decide; [apply host_detail_status|apply H].
Qed.

(** C6: a result goes from the plugin to the database unchanged: what
    [proto_post_wrapped] prints for a result, read by the manager in any pieces,
    makes the entry with the same host, the same text and the same OID, and the port
    as [port_name_formatted] shows it; nothing else changes. *)
Theorem plugin_result_recorded (Cv : Conversion) k n oid_arg oid host port proto action s pieces :
  (forall s, CStr.all_str is_ascii s = true -> g_convert s = s) ->
  nvti_oid n = Some oid -> CStr.slen oid <= 99 ->
  CStr.slen host + CStr.slen (post_port port proto) <= 800 ->
  Forall (fun f => plain_text f = true) [host; post_port port proto; action; oid] ->
  Forall (fun f => text_ok f = true) [host; post_port port proto; line action; oid] ->
  idle s -> no_request (view_of s) -> current_scanner_task s <> 0 -> current_report s <> 0 ->
  Some (String.concat EmptyString (fst <$> pieces))
    = posted_text <$> proto_post_wrapped (Some n) oid_arg host None None port proto (Some action)
                        (kind_name k) ->
  Forall (fun x => fresh (snd x)) pieces ->
  exists s' p', deliver pieces (rd s 0 EmptyString) = Ret (0, rd s' 0 p')
    /\ idle s' /\ current_scanner_task s' = current_scanner_task s
    /\ current_report s' = current_report s
    /\ the_db s' ≡ record_result k (current_scanner_task s) (current_report s)
                     (result_message host (post_port port proto) action oid) (the_db s).
Proof.
  intros Hc Hn Ho Hl Hp Ht Hi Hq Htask Hrep HT Hf.
  destruct (post_line Cv n oid_arg oid host port proto action k Hc Hn Ho Hl Hp) as (p & Ep & Etext).
  rewrite Ep in HT. simpl in HT. injection HT as HT. rewrite Etext in HT.
  set (m := Result k host (post_port port proto) (line action) oid).
  assert (received host = host /\ received (post_port port proto) = post_port port proto
    /\ received (line action) = action /\ received oid = oid) as (R1 & R2 & R3 & R4).
  { repeat match goal with H : Forall _ (_ :: _) |- _ => apply Forall_cons in H as [? H] end.
    repeat split; try (by apply received_plain);
      match goal with |- received ?f = _ =>
        rewrite <- (CStr.append_nil_r f) at 1; by apply received_plain end. }
  assert (scan_ok (view_of s) [m]) as Hok.
  { split; [done|]. split; [|split; [|done]].
    - split; [simpl; constructor; [by destruct k|done]|]. split; [done|]. split; [done|].
      unfold m. rewrite R2. apply post_port_not_empty.
    - destruct Hq as [Hq|Hq]; [by left|right]. simpl in *. by rewrite record_result_status. }
  pose proof (runs_stream [m] s EmptyString Hi Hok (or_introl eq_refl)) as Hr.
  destruct (runs_deliver from_buffer_size (Z.le_refl _) pieces s _ _ EmptyString Hr) as (s' & p' & Hd & E);
    [|intros ->|done|].
  - rewrite HT. simpl. by rewrite CStr.append_nil_r.
  - discriminate HT.
  - exists s', p'. split; [done|]. apply idle_equiv in E as [Hi' Hv]; [|by apply idle_foldl].
    split; [done|]. rewrite view_foldl in Hv. destruct Hv as (V1 & V2 & V3). simpl in V1, V2, V3.
    rewrite R1, R2, R3, R4 in V3. by repeat split.
Qed.

End Spec.

(** ** A scan read in pieces *)

Section Witness.
#[local] Existing Instance log_manager.

Definition idle_state : otp :=
  mk_otp SCANNER_TOP SCANNER_INIT_DONE None None None None None [] 0 0 7 9 1 to_server_empty
    (mk_log [] TASK_STATUS_REQUESTED false).

Definition small_scan : list msg :=
  [ScanStart "Tue May  5 10:00:00 2015"; HostStart "10.0.0.1" "Tue May  5 10:00:01 2015";
   Result KAlarm "10.0.0.1" "80/tcp" "Old server." "1.3.6.1.4.1.25623.1.0.1";
   Status "10.0.0.1" "attack" "7/9";
   Result KLog "10.0.0.1" "general/Host_Details" "<host/>" "1.2";
   HostEnd "10.0.0.1" "Tue May  5 10:00:09 2015"; ScanEnd "Tue May  5 10:00:10 2015"]%string.

Definition cut (n : nat) (s : string) : list (string * string) :=
  [(CStr.take_str n s, EmptyString); (CStr.drop_str n s, EmptyString)].

Lemma messages_recorded_witness :
  scan_ok (view_of idle_state) small_scan
  /\ exists s' p', deliver (cut 150 (stream small_scan)) (rd idle_state 0 EmptyString) = Ret (0, rd s' 0 p')
       /\ idle s' /\ view_of s' ≡ foldl msg_effect (view_of idle_state) small_scan.
Proof.
  assert (scan_ok (view_of idle_state) small_scan) as Hok.
  { repeat split; try (by right); try (by left); try discriminate;
      try (repeat constructor; fail); try (by vm_compute). }
  split; [exact Hok|].
  apply (messages_recorded small_scan (cut 150 (stream small_scan)) idle_state).
  - repeat split.
  - exact Hok.
  - vm_compute. reflexivity.
  - discriminate.
  - repeat constructor; discriminate.
Defined.

Definition same_bytes : Conversion :=
  {| g_convert s := s; ctime _ := line "Tue May  5 10:00:00 2015" |}.

Definition old_server : nvti :=
  mk_nvti (Some "1.3.6.1.4.1.25623.1.0.1") None 0 None None None None None None None None None.

Lemma plugin_result_recorded_witness :
  exists p, posted_text <$> proto_post_wrapped (Cv := same_bytes) (Some old_server) "1" "10.0.0.1"
              None None 80 "tcp" (Some "Old server.") "ALARM" = Some p
    /\ exists s' p', deliver (cut 40 p) (rd idle_state 0 EmptyString) = Ret (0, rd s' 0 p')
       /\ the_db s' ≡ record_result KAlarm 7 9
           (result_message "10.0.0.1" "80/tcp" "Old server." "1.3.6.1.4.1.25623.1.0.1")
           (the_db idle_state).
Proof.
  eexists. split; [vm_compute; reflexivity|].
  match goal with |- context [cut 40 ?p] =>
    destruct (plugin_result_recorded same_bytes KAlarm old_server "1" "1.3.6.1.4.1.25623.1.0.1"
      "10.0.0.1" 80 "tcp" "Old server." idle_state (cut 40 p)) as (s' & p' & Hd & _ & _ & _ & Hdb) end.
  - done.
  - reflexivity.
  - vm_compute. discriminate.
  - vm_compute. discriminate.
  - repeat constructor; vm_compute; reflexivity.
  - repeat constructor; vm_compute; reflexivity.
  - repeat split.
  - by right.
  - discriminate.
  - discriminate.
  - vm_compute. reflexivity.
  - repeat constructor; discriminate.
  - exists s', p'. split; [exact Hd|exact Hdb].
Defined.

(** The state of that scan at the end. *)
Example small_scan_recorded :
  match deliver (cut 150 (stream small_scan)) (rd idle_state 0 EmptyString) with
  | Ret (0, s) =>
      entries (the_db (vars s)) =
        [ETaskStart 7 "Tue May  5 10:00:00 2015"; EScanStart 9 "Tue May  5 10:00:00 2015";
         EHostStart 9 "10.0.0.1" "Tue May  5 10:00:01 2015";
         EResult 7 "10.0.0.1" (Some "80/tcp (IANA: http)") (Some "1.3.6.1.4.1.25623.1.0.1") "Alarm"
           (Some "Old server."); EAdd 9 4;
         EPorts 9 "10.0.0.1" 7 9; EDetail 9 "10.0.0.1" "<host/>";
         EHostEnd 9 "10.0.0.1" "Tue May  5 10:00:09 2015";
         EScanEnd 9 "Tue May  5 10:00:10 2015"; ETaskEnd 7 "Tue May  5 10:00:10 2015"]%string
      /\ status (the_db (vars s)) = TASK_STATUS_DONE
  | _ => False
  end.
Proof. vm_compute. by split. Qed.

End Witness.
