(* ===== verification/OtpPlugins.v ===== *)
(** * The list of plugins, from the scanner to the manager

    [comm_send_pluginlist] prints a line for each plugin; the manager collects the
    plugins in [scanner_plugins_list].  The lists agree, whatever pieces the text
    arrives in, as long as a line is not cut off ([send_plug_info] allows 49 bytes
    for the OID and the category); ';' and newline in the tags are not told apart. *)

From stdpp Require Import base list strings.
From Stdlib Require Import Ascii ZArith Lia.
From S2P Require Import Prelude ServerBuffer Otp OtpSend OtpDb OtpRuns OtpSpec.
Local Open Scope Z_scope.

Section Plugins.
Context `{G : Glib} `{Mg : Manager} {Laws : ManagerLaws}.

(** The plugin the manager makes of a line. *)
Definition received_plugin (i : plug_info) : nvti :=
  let '(tags, cvss_base, _) := parse_tags (semicolons_to_newlines (pi_tag i)) in
  mk_nvti (Some (pi_oid i)) (Some (pi_name i)) (category_number (pi_category i))
    (Some (pi_copyright i)) (Some (pi_summary i)) (Some (pi_family i)) (Some (pi_version i))
    (Some (pi_cve_id i)) (Some (pi_bid i)) (non_empty (Some (pi_xref i)))
    (non_empty (Some tags)) (non_empty cvss_base).

(** What a line can carry: printable texts without bars, tags on one line, an OID,
    and a category that leave room for the separators. *)
Definition plug_ok (i : plug_info) : Prop :=
  Forall (fun f => plain_text f = true /\ text_ok f = true) (plug_fields i)
  /\ pi_oid i <> EmptyString
  /\ no_newline (pi_tag i) = true
  /\ CStr.slen (pi_oid i) + CStr.slen (pi_category i) <= 49.

Definition plug_line (i : plug_info) : string := line (String.concat sep (plug_fields i)).

(** ** The line is not cut off *)

Lemma slen_concat l :
  CStr.slen (String.concat sep l)
  = foldr (fun s n => CStr.slen s + n) 0 l + 5 * Z.of_nat (length l - 1).
Proof.
  induction l as [|x [|y l] IH]; [done|simpl; lia|].
  change (String.concat sep (x :: y :: l)) with (x +:+ (sep +:+ String.concat sep (y :: l))).
  rewrite !CStr.slen_app, IH. simpl. lia.
Qed.

Lemma plug_fields_length i :
  CStr.slen (String.concat sep (plug_fields i))
  = plug_mem_size i - 50 + CStr.slen (pi_oid i) + CStr.slen (pi_category i).
Proof. rewrite slen_concat. unfold plug_fields, plug_mem_size. simpl. lia. Qed.

(** The line is sent whole exactly when the OID and the category have room. *)
Lemma plug_line_whole i :
  0 <= plug_mem_size i < 2 ^ 32 ->
  snprintf (MInt.uwrap32 (plug_mem_size i)) (String.concat sep (plug_fields i))
    = String.concat sep (plug_fields i)
  <-> CStr.slen (pi_oid i) + CStr.slen (pi_category i) <= 49.
Proof.
  intros Hm. rewrite MInt.uwrap32_id by done. pose proof (plug_fields_length i) as Hl. split.
  - intros H. apply (f_equal CStr.slen) in H. unfold snprintf in H. rewrite CStr.slen_take in H.
    assert (100 <= plug_mem_size i) as H100
      by (unfold plug_mem_size; repeat match goal with |- context [CStr.slen ?f] =>
            pose proof (CStr.slen_nonneg f); generalize dependent (CStr.slen f); intros end; lia).
    clear Hm. lia.
  - intros H. apply snprintf_all. lia.
Qed.

Lemma text_ok_slen f : text_ok f = true -> CStr.slen f <= 1048000.
Proof. unfold text_ok. intros H. apply andb_true_iff in H as [_ H]. lia. Qed.

Ltac split_fields :=
  repeat match goal with H : Forall _ (_ :: _) |- _ => apply Forall_cons in H as [[? ?] H] end.

Lemma send_plug_info_line (Cv : Conversion) n i :
  (forall s, CStr.all_str is_ascii s = true -> g_convert s = s) ->
  plug_info_of n = Some i -> plug_ok i -> send_plug_info (Some n) = Some (plug_line i).
Proof.
  intros Hc Hi (Hf & _ & _ & Hl). unfold send_plug_info. cbn [mbind option_bind]. rewrite Hi. f_equal.
  unfold plug_fields in Hf. split_fields.
  pose proof (plug_fields_length i) as Hsum.
  repeat match goal with H : text_ok ?f = true |- _ =>
    apply text_ok_slen in H; pose proof (CStr.slen_nonneg f) end.
  rewrite snprintf_all.
  - unfold plug_line. apply Hc. unfold line. rewrite CStr.all_str_app, all_str_concat; [done|done|].
    repeat constructor; by apply plain_ascii.
  - rewrite MInt.uwrap32_id; [lia|]. unfold plug_mem_size. lia.
Qed.

(** ** Reading a line *)

Lemma received_at_start w f :
  lead w -> plain_text f = true -> field_of (w +:+ f +:+ " ") = f.
Proof.
  intros Hw Hf. pose proof (received_plain f EmptyString Hf eq_refl) as H.
  rewrite CStr.append_nil_r in H. unfold received in H.
  assert (ends_blank (" " +:+ f +:+ " ") = true) as He
    by (rewrite <- CStr.append_assoc; apply ends_blank_app).
  destruct (field_of_drop " " (f +:+ " ") eq_refl He) as [_ E1].
  assert (ends_blank (w +:+ f +:+ " ") = true) as He2
    by (rewrite <- CStr.append_assoc; apply ends_blank_app).
  destruct (field_of_drop w (f +:+ " ")) as [_ E2]; [by destruct Hw as [->| ->]|done|].
  by rewrite E2, <- E1.
Qed.

Lemma first_field_ok w f :
  lead w -> text_ok f = true ->
  CStr.slen (w +:+ f +:+ " ") + 3 <= from_buffer_size /\ ends_blank (w +:+ f +:+ " ") = true
  /\ harmless (w +:+ f +:+ " ").
Proof.
  intros Hw Hf. pose proof (text_ok_slen _ Hf) as Hl. split; [|split].
  - rewrite !CStr.slen_app. unfold from_buffer_size. destruct Hw as [->| ->]; simpl; lia.
  - rewrite <- CStr.append_assoc. apply ends_blank_app.
  - unfold text_ok in Hf. destruct (CStr.strstr_split f bar) eqn:E; [done|].
    apply harmless_app; [|by apply harmless_end].
    destruct Hw as [->| ->]; [apply harmless_nil|]. by apply harmless_cons; [|apply harmless_nil].
Qed.

(** The state before a line, and the state that a line leads to. *)
Definition listing (s : otp) : Prop :=
  scanner_state s = SCANNER_PLUGIN_LIST_OID /\ current_plugin s = None.

Definition listed (i : plug_info) (s : otp) : otp :=
  upd_plugins (received_plugin i :: scanner_plugins_list s) s.

Lemma plain_received f : plain_text f = true -> received f = f.
Proof. intros H. rewrite <- (CStr.append_nil_r f) at 1. by apply received_plain. Qed.

Lemma walk_plugin i s w :
  lead w -> listing s -> ready s -> plug_ok i ->
  exists n, walk s ((w +:+ pi_oid i +:+ " ") :: map padded
      [pi_name i; pi_category i; pi_copyright i; pi_summary i; pi_family i; pi_version i;
       pi_cve_id i; pi_bid i; pi_xref i])
    (upd_state SCANNER_PLUGIN_LIST_TAGS (upd_plugin (Some n) s))
  /\ n = mk_nvti (Some (pi_oid i)) (Some (pi_name i)) (category_number (pi_category i))
      (Some (pi_copyright i)) (Some (pi_summary i)) (Some (pi_family i)) (Some (pi_version i))
      (Some (pi_cve_id i)) (Some (pi_bid i)) (non_empty (Some (pi_xref i))) None None.
Proof.
  intros Hw (Hs & Hp) Hr (Hf & Hoid & _). unfold plug_fields in Hf. split_fields.
  eexists. split; [|reflexivity].
  destruct s as [st init msg hst feed pref plug plugs cl tl task rep act out d].
  simpl in Hs, Hp. subst st plug.
  set (mk st n := mk_otp st init msg hst feed pref n plugs cl tl task rep act out d).
  destruct i as [oid name cat copyright summary family version cve bid xref tag]. simpl in *.
  destruct (first_field_ok w oid Hw) as (F1 & F2 & F3); [done|].
  apply (walk_cons _ _ _ Break (mk SCANNER_PLUGIN_LIST_NAME (Some (nvti_set_oid oid nvti_new)))
    (mk SCANNER_PLUGIN_LIST_NAME (Some (nvti_set_oid oid nvti_new)))); try done.
  { simpl. rewrite received_at_start by done. unfold plugin_list_oid_field.
    by rewrite decide_False by done. }
  { by constructor. }
  assert (forall st n, ready (mk st n)) as Hready by (intros; by eapply ready_vars; [..|exact Hr]).
  set (n1 := nvti_set_name name (nvti_set_oid oid nvti_new)).
  set (n2 := nvti_set_category (category_number cat) n1).
  set (n3 := nvti_set_copyright copyright n2). set (n4 := nvti_set_summary summary n3).
  set (n5 := nvti_set_family family n4). set (n6 := nvti_set_version version n5).
  set (n7 := nvti_set_cve cve n6). set (n8 := nvti_set_bid bid n7).
  set (n9 := nvti_set_xref (Some xref) n8).
  assert (forall f raws st n st' n' sf, inner st = true -> inner st' = true ->
    plain_text f = true -> text_ok f = true ->
    process_field st f (mk st (Some n)) = Ret (Break, mk st' (Some n')) ->
    walk (mk st' (Some n')) raws sf -> walk (mk st (Some n)) (padded f :: raws) sf) as Hstep.
  { intros f raws st n st' n' sf I1 I2 P1 P2 Hpf Hk.
    eapply (walk_inner _ _ _ Break (mk st' (Some n'))); try done; [|by constructor].
    by rewrite (plain_received f P1). }
  apply (Hstep _ _ _ _ SCANNER_PLUGIN_LIST_CATEGORY n1); try done.
  apply (Hstep _ _ _ _ SCANNER_PLUGIN_LIST_COPYRIGHT n2); try done.
  apply (Hstep _ _ _ _ SCANNER_PLUGIN_LIST_SUMMARY n3); try done.
  apply (Hstep _ _ _ _ SCANNER_PLUGIN_LIST_FAMILY n4); try done.
  apply (Hstep _ _ _ _ SCANNER_PLUGIN_LIST_PLUGIN_VERSION n5); try done.
  apply (Hstep _ _ _ _ SCANNER_PLUGIN_LIST_CVE_ID n6); try done.
  apply (Hstep _ _ _ _ SCANNER_PLUGIN_LIST_BUGTRAQ_ID n7); try done.
  apply (Hstep _ _ _ _ SCANNER_PLUGIN_LIST_XREFS n8); try done.
  eapply (walk_inner _ _ _ Await_tags (mk SCANNER_PLUGIN_LIST_TAGS (Some n9))); try done.
  - simpl. by rewrite (plain_received xref).
  - by constructor.
  - apply walk_nil.
Qed.

Lemma line_of_tag tag rest :
  plain_text tag = true -> no_newline tag = true ->
  line_of (" " +:+ (line tag +:+ rest)) = Some (tag, rest) /\ line_value tag = tag.
Proof.
  intros Hp Hn. unfold no_newline in Hn. apply negb_true_iff in Hn.
  unfold plain_text in Hp. rewrite !andb_true_iff in Hp. destruct Hp as [[H1 H2] _].
  split; [|by apply plain_unchanged]. unfold line_of.
  rewrite (skip_all is_space " ") by done.
  assert (CStr.skip is_space (line tag +:+ rest) = (tag +:+ String newline rest)) as ->.
  { unfold line. rewrite CStr.append_assoc. destruct tag as [|c tag]; [done|].
    rewrite CStr.append_cons. simpl. simpl in H2. unfold is_blank_or_newline in H2.
    apply negb_true_iff, orb_false_iff in H2 as [H2 _]. unfold is_space. by rewrite H2. }
  by apply CStr.strchr_split_intro.
Qed.

Lemma append_cancel_r (a b c : string) : (a +:+ c) = (b +:+ c) -> a = b.
Proof.
  revert b. induction a as [|x a IH]; intros [|y b] H; [done| | |].
  - exfalso. apply (f_equal CStr.slen) in H. rewrite !CStr.slen_app in H. simpl in H.
    pose proof (CStr.slen_nonneg b). lia.
  - exfalso. apply (f_equal CStr.slen) in H. rewrite !CStr.slen_app in H. simpl in H.
    pose proof (CStr.slen_nonneg a). lia.
  - rewrite !CStr.append_cons in H. injection H as -> H. f_equal. by apply IH.
Qed.

Lemma plug_line_text w i rest :
  (w +:+ (plug_line i +:+ rest))
  = fields_text ((w +:+ pi_oid i +:+ " ") :: map padded
      [pi_name i; pi_category i; pi_copyright i; pi_summary i; pi_family i; pi_version i;
       pi_cve_id i; pi_bid i; pi_xref i]) (" " +:+ (line (pi_tag i) +:+ rest)).
Proof.
  unfold plug_line, line, plug_fields, padded. simpl. repeat (rewrite !CStr.append_assoc; simpl). done.
Qed.

Lemma runs_plugin w i s rest sf :
  lead w -> listing s -> ready s -> plug_ok i ->
  runs from_buffer_size (listed i s) rest sf ->
  runs from_buffer_size s (w +:+ (plug_line i +:+ rest)) sf.
Proof.
  intros Hw Hs Hr Hi Hk. pose proof Hi as (Hf & _ & Hn & _).
  destruct (walk_plugin i s w Hw Hs Hr Hi) as (n & Hwalk & Hnv).
  rewrite plug_line_text. eapply runs_walk; [exact Hwalk|].
  unfold plug_fields in Hf. split_fields.
  assert (plain_text (pi_tag i) = true /\ text_ok (pi_tag i) = true) as [Ht1 Ht2] by done.
  destruct (line_of_tag (pi_tag i) rest Ht1 Hn) as [Hl Hv].
  pose proof (text_ok_slen _ Ht2) as Hlen.
  set (s0 := upd_state SCANNER_PLUGIN_LIST_TAGS (upd_plugin (Some n) s)).
  set (s1 := upd_plugin None (upd_plugins (received_plugin i :: scanner_plugins_list s) s0)).
  eapply (runs_tags _ s0 _ (pi_tag i) rest s1); [| | |exact Hl| | | |].
  - eapply ready_vars; [..|exact Hr]; by destruct s.
  - by destruct s.
  - by destruct s.
  - unfold text_ok in Ht2. by destruct (CStr.strstr_split (pi_tag i) bar).
  - unfold line. rewrite !CStr.slen_app. unfold from_buffer_size. simpl. clear - Hlen. lia.
  - rewrite Hv. unfold add_plugin, mbind, M_bind, gets, s1, s0, received_plugin.
    destruct (parse_tags (semicolons_to_newlines (pi_tag i))) as [[tags cvss] risk].
    subst n. by destruct s.
  - assert (upd_state SCANNER_PLUGIN_LIST_OID s1 = listed i s) as ->; [|done].
    destruct Hs as [Hs1 Hs2]. unfold listed, s1, s0. destruct s. simpl in *. by subst.
Qed.

Definition plugin_lines (l : list plug_info) : string :=
  foldr (fun i t => plug_line i +:+ t) EmptyString l.

Lemma listing_listed i s : listing s -> listing (listed i s).
Proof. by destruct s. Qed.

Lemma runs_plugins l w s :
  lead w -> listing s -> ready s -> Forall plug_ok l ->
  runs from_buffer_size s (w +:+ plugin_lines l) (foldl (fun s i => listed i s) s l).
Proof.
  revert w s. induction l as [|i l IH]; intros w s Hw Hs Hr Hl.
  - simpl. rewrite CStr.append_nil_r. destruct Hs as [Hs _].
    apply runs_stop; [done|left; by rewrite Hs|]. right. rewrite Hs.
    split; [by right|]. by destruct Hw as [->| ->].
  - apply Forall_cons in Hl as [Hi Hl]. simpl. apply runs_plugin; [done..|].
    apply (IH EmptyString); [by left|by apply listing_listed| |done].
    eapply ready_vars; [..|exact Hr]; by destruct s.
Qed.

Lemma foldl_listed l s :
  foldl (fun s i => listed i s) s l
  = upd_plugins (rev (map received_plugin l) ++ scanner_plugins_list s) s.
Proof.
  revert s. induction l as [|i l IH]; intros s; [by destruct s|]. simpl. rewrite IH.
  unfold listed. destruct s. simpl. by rewrite <- app_assoc.
Qed.

Definition plugin_list_head : string := line "SERVER <|> PLUGIN_LIST <|>".

Lemma runs_plugin_list l s :
  idle s -> current_plugin s = None -> ready s -> Forall plug_ok l ->
  runs from_buffer_size s (plugin_list_head +:+ plugin_lines l)
    (foldl (fun s i => listed i s) (upd_state SCANNER_PLUGIN_LIST_OID s) l).
Proof.
  intros (Hs & _) Hp Hr Hl.
  assert ((plugin_list_head +:+ plugin_lines l)
          = fields_text ((EmptyString +:+ "SERVER ") :: padded "PLUGIN_LIST" :: [])
              (String newline EmptyString +:+ plugin_lines l)) as -> by done.
  eapply (runs_walk _ _ (upd_state SCANNER_PLUGIN_LIST_OID s)).
  - eapply walk_begin; [by left|done|done|done|done|by destruct s|by destruct s|apply walk_nil].
  - apply runs_plugins; [by right|by destruct s| |done].
    eapply ready_vars; [..|exact Hr]; by destruct s.
Qed.

(** C16: the manager learns the plugins that the scanner lists: the head and the
    lines of [comm_send_pluginlist], read in any pieces, put the plugins with the
    printed texts before those of [scanner_plugins_list], the last line first; the
    database stays as it is and the reader waits for the next plugin or the end. *)
Theorem plugin_list_received (Cv : Conversion) (ns : list nvti) (l : list plug_info)
    (pieces : list (string * string)) (s : otp) :
  (forall s, CStr.all_str is_ascii s = true -> g_convert s = s) ->
  map plug_info_of ns = map Some l -> Forall plug_ok l ->
  idle s -> no_request (view_of s) -> current_plugin s = None ->
  (String.concat EmptyString (fst <$> pieces) +:+ line "<|> SERVER")
    = foldr String.append EmptyString (comm_send_pluginlist (map Some ns)) ->
  Forall (fun x => fresh (snd x)) pieces ->
  exists s' p', deliver pieces (rd s 0 EmptyString) = Ret (0, rd s' 0 p')
    /\ scanner_state s' = SCANNER_PLUGIN_LIST_OID /\ current_plugin s' = None
    /\ scanner_plugins_list s' = rev (map received_plugin l) ++ scanner_plugins_list s
    /\ scanner_init_state s' = scanner_init_state s /\ the_db s ≡ the_db s'.
Proof.
  intros Hc Hns Hl Hi Hq Hp HT Hf.
  assert (foldr String.append EmptyString (comm_send_pluginlist (map Some ns))
          = ((plugin_list_head +:+ plugin_lines l) +:+ line "<|> SERVER")) as E.
  { unfold comm_send_pluginlist. rewrite !Hc by done. rewrite CStr.append_assoc.
    change (foldr String.append EmptyString ([line "SERVER <|> PLUGIN_LIST <|>"]
      ++ omap send_plug_info (map Some ns) ++ [line "<|> SERVER"]))
      with (plugin_list_head +:+ foldr String.append EmptyString
        (omap send_plug_info (map Some ns) ++ [line "<|> SERVER"])).
    f_equal. clear HT. revert l Hl Hns. induction ns as [|n ns IH]; intros [|i l] Hl Hns; try done.
    simpl in Hns. injection Hns as Hn Hns. apply Forall_cons in Hl as [Hi' Hl].
    cbn [map omap list_omap]. rewrite (send_plug_info_line Cv n i Hc Hn Hi').
    change (foldr String.append EmptyString ((plug_line i :: omap send_plug_info (map Some ns)) ++ [line "<|> SERVER"]))
      with (plug_line i +:+ foldr String.append EmptyString (omap send_plug_info (map Some ns) ++ [line "<|> SERVER"])).
    rewrite (IH l Hl Hns). simpl. by rewrite CStr.append_assoc. }
  rewrite E in HT. apply append_cancel_r in HT.
  pose proof (ready_idle s SCANNER_TOP Hi Hq) as Hr. rewrite upd_state_idle in Hr by done.
  pose proof (runs_plugin_list l s Hi Hp Hr Hl) as Hruns.
  destruct (runs_deliver from_buffer_size (Z.le_refl _) pieces s _ _ EmptyString Hruns) as (s' & p' & Hd & Es);
    [by rewrite HT|by intros ->|done|].
  exists s', p'. split; [done|]. apply otp_equiv_inv in Es as (d & Hdb & ->).
  rewrite foldl_listed in *. destruct s. simpl in *. by repeat split.
Qed.

End Plugins.

(** ** A list read in pieces *)

Section Witness.
#[local] Existing Instance log_manager.

Definition ping : nvti :=
  mk_nvti (Some "1.3.6.1.4.1.25623.1.0.100315") (Some "Ping Host") 1 (Some "(C) 2009") (Some "Pings")
    (Some "Port scanners") (Some "$Revision: 1 $") None None None
    (Some (line "cvss_base=0.0|summary=Pings the target," +:+ "with care|risk_factor=None")) None.

Definition ping_info : plug_info :=
  mk_plug_info "1.3.6.1.4.1.25623.1.0.100315" "Ping Host" "scanner" "(C) 2009" "NOSUMMARY"
    "Port scanners" "$Revision: 1 $" "NOCVE" "NOBID" "NOXREF"
    "cvss_base=0.0|summary=Pings the target,;with care|risk_factor=None".

Definition list_text : string := plugin_list_head +:+ plug_line ping_info.

Lemma plugin_list_received_witness :
  exists s' p', deliver (cut 100 list_text) (rd idle_state 0 EmptyString) = Ret (0, rd s' 0 p')
    /\ scanner_plugins_list s' = [received_plugin ping_info]
    /\ nvti_tag (received_plugin ping_info)
       = Some (line "summary=Pings the target," +:+ "with care")
    /\ nvti_cvss_base (received_plugin ping_info) = Some "0.0"%string.
Proof.
  destruct (plugin_list_received same_bytes [ping] [ping_info] (cut 100 list_text) idle_state)
    as (s' & p' & Hd & _ & _ & Hl & _).
  - done.
  - vm_compute. reflexivity.
  - constructor; [|constructor].
    split; [repeat constructor; vm_compute; reflexivity|].
    split; [discriminate|]. split; [vm_compute; reflexivity|]. vm_compute. discriminate.
  - repeat split.
  - by right.
  - reflexivity.
  - vm_compute. reflexivity.
  - repeat constructor; discriminate.
  - exists s', p'. split; [exact Hd|]. split; [exact Hl|].
    split; vm_compute; reflexivity.
Defined.

End Witness.
