(* ===== verification/OtpReader.v ===== *)
(** * The reader on any input

    [reader_returns]: [process_otp_scanner_input] returns, whatever it reads.  Then
    the cases in which it does not do what it is for: the end of a message that
    arrives late ([completion_lost]), and messages of the scanner that stop the
    manager ([scanner_stops_manager]). *)

From stdpp Require Import base list strings.
From Stdlib Require Import Ascii ZArith Lia.
From S2P Require Import Prelude ServerBuffer Otp OtpSend OtpDb OtpRuns OtpSpec.
Local Open Scope Z_scope.

Section Returns.
Context `{G : Glib} `{Mg : Manager}.

(** ** Every call returns *)

Definition returns {S A} (m : M S A) : Prop := forall s, m s <> NoReturn.

Lemma returns_ret {S A} (a : A) : returns (mret a : M S A).
Proof. done. Qed.
Lemma returns_undef {S A} : returns (undef : M S A).
Proof. done. Qed.
Lemma returns_gets {A} (f : otp -> A) : returns (gets f).
Proof. done. Qed.
Lemma returns_modify f : returns (modify f).
Proof. done. Qed.
Lemma returns_assert b : returns (assert b).
Proof. intros s. unfold assert. by destruct (b s). Qed.
Lemma returns_on_db f : returns (on_db f).
Proof. done. Qed.
Lemma returns_send msg : returns (send msg).
Proof. intros s. unfold send. by destruct (send_to_server _ _). Qed.

Lemma returns_bind {S A B} (m : M S A) (k : A -> M S B) :
  returns m -> (forall a, returns (k a)) -> returns (m ≫= k).
Proof.
  intros Hm Hk s. unfold mbind, M_bind. specialize (Hm s).
  destruct (m s) as [[a t]| |]; [apply Hk|done|done].
Qed.

Ltac returning :=
  repeat first
    [ apply returns_bind; [|intros ?]
    | apply returns_ret | apply returns_undef | apply returns_gets | apply returns_modify
    | apply returns_assert | apply returns_on_db | apply returns_send
    | match goal with
      | |- returns (match ?x with _ => _ end) => destruct x
      | |- returns (if ?b then _ else _) => destruct b
      end ].

Lemma process_field_returns state field : returns (process_field state field).
Proof.
  destruct state; simpl;
    unfold bye_field, message_description_field, message_host_field, message_number_field,
    message_oid_field, append_error_message, append_alarm_message, append_log_message, write_message,
    nvt_info_field, plugin_field, plugin_list_oid_field, plugin_xrefs_field, preference_name_field,
    server_field, host_field, status_attack_state_field, status_ports_field, status_progress_field,
    time_field, time_host_field, time_scan_start_field, time_scan_end_field, top_field,
    next, set_scanner_state; returning.
Qed.

Lemma check_returns : returns manage_check_current_task.
Proof. unfold manage_check_current_task, request; returning. Qed.

(** Functions of the reader: they return, and the input gets no longer. *)
Definition shrinks {A} (m : M reader A) : Prop := forall s,
  match m s with
  | Ret (_, s') =>
      (String.length (pending (from_scanner s')) <= String.length (pending (from_scanner s)))%nat
  | NoReturn => False
  | Undef => True
  end.

Lemma shrinks_ret {A} (a : A) : shrinks (mret a).
Proof. intros s. simpl. lia. Qed.
Lemma shrinks_undef {A} : shrinks (undef : M reader A).
Proof. done. Qed.
Lemma shrinks_lift {A} (m : M otp A) : returns m -> shrinks (lift m).
Proof. intros Hm s. unfold lift. specialize (Hm (vars s)). by destruct (m (vars s)) as [[a v]| |]. Qed.
Lemma shrinks_bind {A B} (m : M reader A) (k : A -> M reader B) :
  shrinks m -> (forall a, shrinks (k a)) -> shrinks (m ≫= k).
Proof.
  intros Hm Hk s. unfold mbind, M_bind. specialize (Hm s).
  destruct (m s) as [[a t]| |]; [|done|done]. specialize (Hk a t).
  destruct (k a t) as [[b u]| |]; [lia|done|done].
Qed.
Lemma shrinks_sync : shrinks sync_buffer.
Proof.
  intros s. unfold sync_buffer.
  repeat match goal with |- context [if ?b then _ else _] => destruct b end; simpl; lia || done.
Qed.

(** [input] followed by something that leaves a part of it. *)
Lemma shrinks_input {A} (k : string -> M reader A) :
  (forall s, match k (pending (from_scanner s)) s with
   | Ret (_, s') =>
      (String.length (pending (from_scanner s')) <= String.length (pending (from_scanner s)))%nat
   | NoReturn => False | Undef => True end) ->
  shrinks (input ≫= k).
Proof.
  intros Hk s. unfold mbind, M_bind, input. destruct (_ =? 0); [|done]. apply Hk.
Qed.

Lemma skip_length f s : (String.length (CStr.skip f s) <= String.length s)%nat.
Proof. pose proof (slen_skip f s). rewrite !CStr.slen_length in *. lia. Qed.

Lemma drop_length n s : (String.length (CStr.drop_str n s) <= String.length s)%nat.
Proof. pose proof (CStr.slen_drop n s). rewrite !CStr.slen_length in *. lia. Qed.

Lemma strchr_length c s a b :
  CStr.strchr_split c s = Some (a, b) -> (String.length b <= String.length s)%nat.
Proof. intros [-> _]%CStr.strchr_split_app. rewrite append_length. simpl. lia. Qed.

Lemma shrinks_need_more : shrinks need_more.
Proof. apply shrinks_bind; [apply shrinks_sync|intros; apply shrinks_ret]. Qed.

Lemma shrinks_more : shrinks more.
Proof. apply shrinks_bind; [apply shrinks_need_more|intros; apply shrinks_ret]. Qed.

Lemma shrinks_done : shrinks parse_scanner_done.
Proof.
  apply shrinks_input. intros s. unfold mbind, M_bind.
  pose proof (skip_length is_blank_or_newline (pending (from_scanner s))).
  set (q := CStr.skip _ _) in *. pose proof (drop_length 6 q). set (r := CStr.drop_str 6 q) in *.
  simpl. destruct (_ <? 6); [simpl; lia|]. destruct (negb _); simpl; lia.
Qed.

Lemma shrinks_bad_login : shrinks parse_scanner_bad_login.
Proof.
  apply shrinks_input. intros s. unfold mbind, M_bind. simpl.
  pose proof (skip_length is_space (pending (from_scanner s))).
  destruct (CStr.strchr_split _ _) as [[l r]|] eqn:E; [|simpl; lia].
  apply strchr_length in E. destruct (case_prefix _ _); simpl; lia.
Qed.

Lemma shrinks_take_line : shrinks take_line.
Proof.
  apply shrinks_input. intros s. unfold mbind, M_bind. simpl.
  pose proof (skip_length is_space (pending (from_scanner s))).
  destruct (CStr.strchr_split _ _) as [[l r]|] eqn:E; [|simpl; lia].
  apply strchr_length in E. simpl. lia.
Qed.

Lemma shrinks_parse_server beyond : shrinks (parse_scanner_server beyond).
Proof.
  apply shrinks_input. intros s. unfold mbind, M_bind. simpl.
  pose proof (skip_length is_space (pending (from_scanner s))).
  destruct (CStr.strchr_split _ _) as [[l r]|]; [|simpl; lia].
  by destruct (find_bar _ _) as [[[a b] o]|].
Qed.

Ltac shrinking :=
  repeat first
    [ apply shrinks_ret | apply shrinks_undef | apply shrinks_sync | apply shrinks_more
    | apply shrinks_need_more
    | apply shrinks_done | apply shrinks_take_line | apply shrinks_parse_server
    | apply shrinks_bad_login
    | apply shrinks_lift; solve [returning]
    | apply shrinks_bind; [|intros ?]
    | match goal with
      | |- shrinks (match ?x with _ => _ end) => destruct x
      | |- shrinks (if ?b then _ else _) => destruct b
      end ].

Lemma shrinks_read_tags : shrinks read_tags.
Proof.
  unfold read_tags, parse_scanner_plugin_list_tags, add_plugin, set_scanner_state. shrinking.
Qed.

Lemma shrinks_read_value : shrinks read_value.
Proof.
  unfold read_value, parse_scanner_preference_value, add_preference, set_scanner_state. shrinking.
Qed.

Lemma shrinks_read_server beyond : shrinks (read_server beyond).
Proof. unfold read_server. shrinking. Qed.

Lemma shrinks_read_done case_0 : shrinks case_0 -> shrinks (read_done case_0).
Proof. intros H. unfold read_done. shrinking. exact H. Qed.

Lemma shrinks_read_before beyond state : shrinks (read_before beyond state).
Proof.
  destruct state; simpl; first
    [apply shrinks_read_tags | apply shrinks_read_value | apply shrinks_read_server
    | apply shrinks_read_done, shrinks_ret | shrinking].
Qed.

(** What the fields leave to be done at their end. *)
Definition case_ok (a : awaits) : Prop :=
  match a with Await_done case_0 => shrinks case_0 | _ => True end.

Lemma shrinks_no_case : shrinks no_case_0.
Proof. apply shrinks_ret. Qed.

Lemma shrinks_completes :
  shrinks (lift plugin_list_complete) /\ shrinks (lift nvt_info_complete) /\ shrinks bye_complete
  /\ shrinks (lift preferences_complete).
Proof.
  unfold plugin_list_complete, nvt_info_complete, bye_complete, preferences_complete,
    acknowledge_feed_version_info, acknowledge_bye, set_scanner_init_state.
  repeat split; shrinking.
Qed.

Definition gives_ok (m : M otp awaits) : Prop := forall s,
  match m s with Ret (a, _) => case_ok a | _ => True end.

Lemma gives_bind {A} (m : M otp A) (k : A -> M otp awaits) :
  (forall a, gives_ok (k a)) -> gives_ok (m ≫= k).
Proof. intros Hk s. unfold mbind, M_bind. destruct (m s) as [[a t]| |]; [apply Hk|done|done]. Qed.

Lemma gives_ret a : case_ok a -> gives_ok (mret a).
Proof. by intros H s. Qed.

Lemma process_field_case_ok state field : gives_ok (process_field state field).
Proof.
  destruct shrinks_completes as (H1 & H2 & H3 & H4). pose proof shrinks_no_case.
  destruct state; simpl;
    unfold bye_field, message_description_field, message_host_field, message_number_field,
    message_oid_field, nvt_info_field, plugin_field, plugin_list_oid_field, plugin_xrefs_field,
    preference_name_field, server_field, host_field, status_attack_state_field, status_ports_field,
    status_progress_field, time_field, time_host_field, time_scan_start_field, time_scan_end_field,
    top_field, next;
    repeat first
      [ apply gives_bind; intros ?
      | apply gives_ret; done
      | match goal with
        | |- gives_ok (match ?x with _ => _ end) => destruct x
        | |- gives_ok undef => intros ?; exact I
        | |- gives_ok (if ?b then _ else _) => destruct b
        end ].
Qed.

Lemma shrinks_after_field beyond a : case_ok a -> shrinks (after_field beyond a).
Proof.
  destruct a; simpl; intros Ha; first
    [apply shrinks_read_server | apply shrinks_read_tags | apply shrinks_read_value
    | apply shrinks_ret
    | apply shrinks_bind; [by apply shrinks_lift|intros _; by apply shrinks_read_done]].
Qed.

Lemma find_bar_length s beyond before rest over :
  find_bar s beyond = Some (before, rest, over) ->
  (String.length before + String.length rest < String.length s)%nat.
Proof.
  revert before. induction s as [|c s IH]; intros before; [done|]. cbn [find_bar].
  destruct (bar_at (String c s) beyond) as [[r o]|] eqn:E.
  - intros [= <- <- <-]. simpl. unfold bar_at in E.
    repeat match goal with
      | H : match ?x with _ => _ end = Some _ |- _ => destruct x; try done
      end; injection E as <- <-; simpl; lia.
  - destruct (find_bar s beyond) as [[[a b] o]|]; [|done]. intros [= <- <- <-].
    specialize (IH a eq_refl). simpl. lia.
Qed.

Lemma take_length n s : (String.length (CStr.take_str n s) <= n)%nat.
Proof. pose proof (CStr.slen_take n s). rewrite !CStr.slen_length in *. lia. Qed.

Lemma read_fields_returns n beyond behind s :
  (String.length (pending (from_scanner s)) < n)%nat -> read_fields n beyond behind s <> NoReturn.
Proof.
  revert behind s. induction n as [|n IH]; intros behind s Hn; [lia|]. cbn [read_fields].
  unfold mbind at 1, M_bind at 1, input at 1. destruct (_ =? 0); [|done].
  destruct (find_bar _ _) as [[[before rest] over]|] eqn:E.
  - destruct (_ <? _) eqn:Eb; [done|]. apply find_bar_length in E.
    rewrite append_length in E. rewrite !CStr.slen_length in Eb.
    unfold mbind at 1, M_bind at 1, on_buffer. cbv beta iota.
    unfold mbind at 1, M_bind at 1, lift at 1, gets. cbn [vars].
    set (st := scanner_state _). set (f := field_of _).
    set (s1 := mk_reader (vars s) _).
    pose proof (shrinks_lift _ (process_field_returns st f) s1) as H1.
    pose proof (process_field_case_ok st f (vars s1)) as H2.
    unfold mbind at 1, M_bind at 1.
    assert (forall a s2, lift (process_field st f) s1 = Ret (a, s2) -> case_ok a) as H3.
    { unfold lift. intros a s2. destruct (process_field st f (vars s1)) as [[a' v]| |]; [|done|done].
      by intros [= <- <-]. }
    destruct (lift (process_field st f) s1) as [[a s2]| |]; [|done|done].
    specialize (H3 a s2 eq_refl).
    pose proof (shrinks_after_field beyond a H3 s2) as H4.
    unfold mbind at 1, M_bind at 1.
    destruct (after_field beyond a s2) as [[[r|] s3]| |]; [done| |done|done].
    unfold mbind, M_bind, input. destruct (_ =? 0); [|done].
    apply IH. change (pending (from_scanner s1)) with rest in H1. lia.
  - pose proof (shrinks_need_more s) as H. by destruct (need_more s) as [[??]| |].
Qed.

Lemma process_returns beyond : returns (process_otp_scanner_input beyond).
Proof.
  unfold process_otp_scanner_input. apply returns_bind.
  { intros s. unfold lift. pose proof (check_returns (vars s)).
    by destruct (manage_check_current_task (vars s)) as [[??]| |]. }
  intros r. destruct (r =? -1); [done|]. apply returns_bind; [done|]. intros init.
  destruct init; try done.
  all: try (apply returns_bind; [done|]; intros st; apply returns_bind;
    [intros s; pose proof (shrinks_read_before beyond st s); by destruct (read_before beyond st s) as [[??]| |]|];
    intros [r'|]; [done|]; intros s; unfold read_input, fields_fuel;
    apply read_fields_returns; lia).
  intros s. unfold read_version. unfold mbind, M_bind, input. destruct (_ =? 0); [|done]. simpl.
  destruct (scanner_is_loading _ _).
  - unfold parse_scanner_loading, mbind, M_bind, input. simpl.
    destruct (CStr.strstr_split _ _) as [[? ?]|]; [|done]. simpl.
    destruct (_ =? 0); [done|]. destruct (CStr.strstr_split _ _) as [[? ?]|]; [|done].
    by destruct (CStr.strchr_split _ _) as [[? ?]|].
  - destruct (_ <? _); [|by destruct (negb _)].
    match goal with |- need_more ?s <> _ => pose proof (shrinks_need_more s) as H;
      by destruct (need_more s) as [[??]| |] end.
Qed.

End Returns.

Section Faults.
Context `{G : Glib} `{Mg : Manager} {Laws : ManagerLaws}.

(** C17: the reader always returns: on any input, in any state of the reader and with
    any memory after the buffer, [process_otp_scanner_input] ends in a result or at
    a fault ([Undef]), and so does reading in pieces; the fuel of the loop, one more
    than the length of the input, is enough because a round takes at least two
    characters of it. *)
Theorem reader_returns (beyond : string) (s : reader) (pieces : list (string * string)) :
  process_otp_scanner_input beyond s <> NoReturn /\ deliver pieces s <> NoReturn.
Proof.
  split; [apply process_returns|]. revert s. induction pieces as [|[data b] pieces IH]; intros s; [done|].
  simpl. apply (returns_bind (S := reader)); [done|]. intros _. apply returns_bind; [apply process_returns|].
  intros r. by destruct (r =? 0).
Qed.

Definition server_end : string := line " SERVER".

Definition with_state (st : scanner_state_t) (init : scanner_init_state_t) (s : otp) : otp :=
  upd_state st (upd_init init s).

(** What a reading leaves: its result, the state and the vars that matter here. *)
Definition outcome_of (o : outcome (Z * reader))
  : option (Z * scanner_state_t * scanner_init_state_t * Z * string) :=
  match o with
  | Ret (r, s) => Some (r, scanner_state (vars s), scanner_init_state (vars s),
                        scanner_active (vars s), to_server (to_scanner (vars s)))
  | _ => None
  end.

(** C30: the work at the end of a message is lost when the final "SERVER" comes in a
    later read than the last field: in one read BYE is acknowledged and ends the
    session, NVT_INFO and the end of PLUGIN_LIST take the connection to its next
    initialisation state; cut before "SERVER", the same text leaves the reader
    waiting for a message with nothing of this done. *)
Theorem completion_lost (s : otp) (b b' : string) :
  current_scanner_task s = 0 -> to_scanner s = to_server_empty ->
  let read st init pieces := outcome_of (deliver pieces (rd (with_state st init s) 0 EmptyString)) in
  let active := scanner_active s in
  read SCANNER_BYE SCANNER_INIT_DONE [(" BYE <|>" +:+ server_end, b)]
    = Some (1, SCANNER_TOP, SCANNER_INIT_DONE, 0, line "CLIENT <|> BYE <|> ACK")
  /\ read SCANNER_BYE SCANNER_INIT_DONE [(" BYE <|>"%string, b); (server_end, b')]
    = Some (0, SCANNER_TOP, SCANNER_INIT_DONE, active, EmptyString)
  /\ read SCANNER_NVT_INFO SCANNER_INIT_DONE [(" 201505050000 <|>" +:+ server_end, b)]
    = Some (0, SCANNER_TOP, SCANNER_INIT_GOT_FEED_VERSION, active, EmptyString)
  /\ read SCANNER_NVT_INFO SCANNER_INIT_DONE [(" 201505050000 <|>"%string, b); (server_end, b')]
    = Some (0, SCANNER_TOP, SCANNER_INIT_DONE, active, EmptyString)
  /\ read SCANNER_PLUGIN_LIST_OID SCANNER_INIT_SENT_COMPLETE_LIST [("<|>" +:+ server_end, b)]
    = Some (0, SCANNER_TOP, SCANNER_INIT_GOT_PLUGINS, active, EmptyString)
  /\ read SCANNER_PLUGIN_LIST_OID SCANNER_INIT_SENT_COMPLETE_LIST [("<|>"%string, b); (server_end, b')]
    = Some (0, SCANNER_TOP, SCANNER_INIT_SENT_COMPLETE_LIST, active, EmptyString).
Proof.
  intros Ht Ho. destruct s as [st init msg hst feed pref plug plugs cl tl task rep act out d].
  simpl in Ht, Ho. subst task out. repeat split; vm_compute; reflexivity.
Qed.

(** Texts that stop the manager at a fault, in every state between two messages in
    which no request waits: an error message for a host, as the scanner sends it for
    one that is not to be scanned, which has an empty port (the reader writes past
    an array of the length of the field).  Without a current task the second of two
    results does: the message of the first is still there.  So does a '>' after
    the input in memory when the input ends in "<|". *)
Theorem scanner_stops_manager (Cv : Conversion) (s : otp) (b b' : string) :
  (forall s, CStr.all_str is_ascii s = true -> g_convert s = s) ->
  idle s -> no_request (view_of s) ->
  process_otp_scanner_input b (rd s 0
     (error_message_to_client (Some "Host access denied.") (Some "10.0.0.1") None))%string = Undef
  /\ (current_scanner_task s = 0 ->
      process_otp_scanner_input b (rd s 0 (stream
        [Result KLog "10.0.0.1" "80/tcp" "x" "1.2"; Result KLog "10.0.0.1" "80/tcp" "y" "1.2"]))
      = Undef)
  /\ process_otp_scanner_input (String ">" b') (rd s 0 "SERVER <|> LOG <|") = Undef.
Proof.
  intros Hc Hi Hq.
  assert (forall b p, (forall s', idle s' -> current_scanner_task s' = current_scanner_task s ->
            process_fields b (rd s' 0 p) = Undef) ->
          process_otp_scanner_input b (rd s 0 p) = Undef) as H.
  { intros b0 p Hp. destruct (check_quiet s Hq) as (s' & Hck & E).
    pose proof E as (d & _ & ->)%otp_equiv_inv. destruct (idle_equiv _ _ E Hi) as [Hi' _].
    rewrite (process_live b0 s (upd_db d s) p); [|apply Hi'|done].
    apply Hp; [done|by destruct s]. }
  unfold error_message_to_client. rewrite Hc by done.
  repeat split; [|intros Htask|]; apply H; intros s' (I1 & I2 & I3 & _) I4;
    destruct s' as [st init msg hst feed pref plug plugs cl tl task rep act out d];
    simpl in I1, I2, I3, I4; subst st msg hst; try (rewrite Htask in I4; subst task);
    vm_compute; reflexivity.
Qed.

End Faults.

(** ** At a state *)

Section Witness.
#[local] Existing Instance log_manager.

Definition free_state : otp := upd_task 0 idle_state.

Lemma completion_lost_witness :
  outcome_of (deliver [(" BYE <|>"%string, EmptyString); (server_end, EmptyString)]
    (rd (with_state SCANNER_BYE SCANNER_INIT_DONE free_state) 0 EmptyString))
  = Some (0, SCANNER_TOP, SCANNER_INIT_DONE, 1, EmptyString).
Proof.
  destruct (completion_lost free_state EmptyString EmptyString) as (_ & H & _);
    [reflexivity|reflexivity|exact H].
Defined.

Lemma scanner_stops_manager_witness :
  process_otp_scanner_input EmptyString (rd idle_state 0
    (error_message_to_client (Cv := same_bytes) (Some "Host access denied.") (Some "10.0.0.1") None))%string
  = Undef.
Proof.
  destruct (scanner_stops_manager same_bytes idle_state EmptyString EmptyString) as (H & _);
    [done|repeat split|by right|exact H].
Defined.

End Witness.
