(* ===== verification/OtpLink.v ===== *)
(** * The connection to the scanner: [write_to_scanner] and [read_from_server] of [ompd.c]

    [read_from_server] fills [from_scanner]; [write_to_scanner] brings the
    connection up (version, NVT information, list of plugins) and then empties the
    output buffer.  The results of GnuTLS and of [openvas_server_connect] and
    [openvas_server_verify] are arguments. *)

From stdpp Require Import base list strings.
From Stdlib Require Import Ascii ZArith Lia.
From S2P Require Import Prelude ServerBuffer Otp.
Local Open Scope Z_scope.

(** ** Reading *)

(** A call of [gnutls_record_recv]: bytes (none at the end of file) or its error. *)
Inductive recv_result :=
| Received (data : string)
| RecvAgain
| RecvInterrupted
| RecvRehandshake
| RecvOther.

(** 0: read everything, -1: error, -2: the buffer is full, -3: end of file. *)
Fixpoint read_from_server (rs : list recv_result) (b : buffer) : outcome (Z * buffer) :=
  if from_scanner_end b <? from_buffer_size then
    match rs with
    | [] => NoReturn
    | RecvAgain :: _ => Ret (0, b)
    | RecvInterrupted :: rs' | RecvRehandshake :: rs' => read_from_server rs' b
    | RecvOther :: _ => Ret (-1, b)
    | Received EmptyString :: _ => Ret (-3, b)
    | Received data :: rs' =>
        if from_buffer_size - from_scanner_end b <? CStr.slen data then Undef
        else read_from_server rs' (receive data b)
    end
  else Ret (-2, b).

(** ** Writing *)

(** [scanner_init_state], [scanner_init_offset], the output buffer and the session. *)
Record link := mk_link {
  l_init : scanner_init_state_t; l_offset : Z; l_out : to_server_t; l_session : session_t }.

Definition set_init (v : scanner_init_state_t) : M link unit := fun s =>
  Ret (tt, mk_link v (l_offset s) (l_out s) (l_session s)).
Definition set_offset (v : Z) : M link unit := fun s =>
  Ret (tt, mk_link (l_init s) v (l_out s) (l_session s)).

(** [scanner_init_offset = write_string_to_server (session, string +
    scanner_init_offset)], with the new value as the result. *)
Definition write_at_offset (string : string) : M link Z := fun s =>
  if (l_offset s <? 0) || (CStr.slen string <? l_offset s) then Undef else
  match write_string_to_server (CStr.drop_str (Z.to_nat (l_offset s)) string) (l_session s) with
  | Ret (r, t) => Ret (r, mk_link (l_init s) r (l_out s) t)
  | NoReturn => NoReturn
  | Undef => Undef
  end.

(** [while (1) switch (write_to_server_buffer (...))]; a round that is interrupted
    has used up a result of GnuTLS. *)
Fixpoint flush (fuel : nat) : M link Z := fun s =>
  match fuel with
  | O => NoReturn
  | S n =>
      match write_to_server_buffer (l_out s) (l_session s) with
      | Ret (r, b, t) =>
          let s' := mk_link (l_init s) (l_offset s) b t in
          if r =? -3 then flush n s' else Ret (r, s')
      | NoReturn => NoReturn
      | Undef => Undef
      end
  end.
Definition write_out : M link Z := fun s => flush (S (length (sends (l_session s)))) s.

Definition version_string : string := line "< OTP/2.0 >".
Definition nvt_info_string : string := line "CLIENT <|> NVT_INFO <|> CLIENT".
Definition complete_list_string : string := line "CLIENT <|> COMPLETE_LIST <|> CLIENT".
Definition go_on_string : string :=
  line "CLIENT <|> GO ON <|> CLIENT" +:+ line "CLIENT <|> CERTIFICATES <|> CLIENT".

(** [case SCANNER_INIT_CONNECTED] *)
Definition write_version (ompd_nvt_cache_mode : Z) : M link Z :=
  r ← write_at_offset version_string;
  (if r =? 0 then set_init SCANNER_INIT_SENT_VERSION else mret tt) ;;
  if r =? -1 then set_offset 0 ;; mret (-1) else
  if ompd_nvt_cache_mode =? 0 then mret (-3) else
  r ← write_at_offset nvt_info_string;
  if r =? -1 then set_offset 0 ;; mret (-1) else mret (-3).

(** [case SCANNER_INIT_GOT_PLUGINS] *)
Definition write_go_on (ompd_nvt_cache_mode : Z) : M link Z :=
  r ← write_at_offset go_on_string;
  if r =? 0 then
    set_init (if ompd_nvt_cache_mode =? -1 then SCANNER_INIT_DONE_CACHE_MODE_UPDATE
              else if ompd_nvt_cache_mode =? -2 then SCANNER_INIT_DONE_CACHE_MODE
              else SCANNER_INIT_DONE) ;;
    write_out
  else if r =? -1 then set_offset 0 ;; mret (-1)
  else mret (-3).

(** [case SCANNER_INIT_GOT_FEED_VERSION] *)
Definition write_complete_list (ompd_nvt_cache_mode : Z) : M link Z :=
  if ompd_nvt_cache_mode =? 0 then write_go_on ompd_nvt_cache_mode else
  r ← write_at_offset complete_list_string;
  if r =? 0 then
    set_init (if ompd_nvt_cache_mode =? -1 then SCANNER_INIT_SENT_COMPLETE_LIST_UPDATE
              else SCANNER_INIT_SENT_COMPLETE_LIST) ;;
    mret (-3)
  else if r =? -1 then set_offset 0 ;; mret (-1)
  else mret (-3).

(** 0: wrote everything, -1: error, -2: wrote what the scanner accepted, -3: did a
    step of the initialisation.  [connect] and [verify] are the results of
    [openvas_server_connect] and [openvas_server_verify]. *)
Definition write_to_scanner (connect verify ompd_nvt_cache_mode : Z) : M link Z := fun s =>
  match l_init s with
  | SCANNER_INIT_CONNECT_INTR | SCANNER_INIT_TOP =>
      if connect =? 0 then
        if negb (verify =? 0) then Ret (-1, s)
        else (set_init SCANNER_INIT_CONNECTED ;; write_version ompd_nvt_cache_mode) s
      else if connect =? -2 then (set_init SCANNER_INIT_CONNECT_INTR ;; mret (-3)) s
      else Ret (-1, s)
  | SCANNER_INIT_CONNECTED => write_version ompd_nvt_cache_mode s
  | SCANNER_INIT_SENT_VERSION | SCANNER_INIT_SENT_COMPLETE_LIST
  | SCANNER_INIT_SENT_COMPLETE_LIST_UPDATE => Undef
  | SCANNER_INIT_GOT_FEED_VERSION => write_complete_list ompd_nvt_cache_mode s
  | SCANNER_INIT_GOT_PLUGINS => write_go_on ompd_nvt_cache_mode s
  | SCANNER_INIT_DONE | SCANNER_INIT_DONE_CACHE_MODE | SCANNER_INIT_DONE_CACHE_MODE_UPDATE =>
      write_out s
  end.

(** ** Lemmas *)

Lemma receive_append data b :
  overrun b = 0 ->
  receive data b = mk_buffer (from_scanner_start b) (pending b +:+ data) 0.
Proof.
  intros H. unfold receive. rewrite H. pose proof (CStr.slen_nonneg data).
  by rewrite Z.max_l by lia.
Qed.

(** The bytes of the calls in the order they came. *)
Definition received_bytes (rs : list recv_result) : string :=
  foldr (fun r s => match r with Received data => data +:+ s | _ => s end) EmptyString rs.

Lemma read_from_server_appends rs b r b' :
  overrun b = 0 -> from_scanner_end b <= from_buffer_size ->
  read_from_server rs b = Ret (r, b') ->
  overrun b' = 0 /\ from_scanner_end b' <= from_buffer_size
  /\ from_scanner_start b' = from_scanner_start b
  /\ (exists n, pending b' = (pending b +:+ received_bytes (take n rs)))
  /\ (r = -2 <-> from_scanner_end b' = from_buffer_size).
Proof.
  revert b. induction rs as [|x rs IH]; intros b Ho He; cbn [read_from_server].
  - destruct (_ <? _) eqn:E; [done|]. intros [= <- <-]. repeat split; try done; try lia.
    exists O. by rewrite CStr.append_nil_r.
  - destruct (_ <? _) eqn:E.
    2: { intros [= <- <-]. repeat split; try done; try lia. exists O. by rewrite CStr.append_nil_r. }
    assert (forall r0 : Z, r0 <> -2 -> Ret (r0, b) = Ret (r, b') ->
      overrun b' = 0 /\ from_scanner_end b' <= from_buffer_size
      /\ from_scanner_start b' = from_scanner_start b
      /\ (exists n, pending b' = (pending b +:+ received_bytes (take n (x :: rs))))
      /\ (r = -2 <-> from_scanner_end b' = from_buffer_size)) as Hstop.
    { intros r0 Hr [= <- <-]. repeat split; try done; try lia. exists O. by rewrite CStr.append_nil_r. }
    assert (forall b1 d, pending b1 = (pending b +:+ d) -> overrun b1 = 0 ->
      from_scanner_start b1 = from_scanner_start b -> from_scanner_end b1 <= from_buffer_size ->
      received_bytes [x] = d -> read_from_server rs b1 = Ret (r, b') ->
      overrun b' = 0 /\ from_scanner_end b' <= from_buffer_size
      /\ from_scanner_start b' = from_scanner_start b
      /\ (exists n, pending b' = (pending b +:+ received_bytes (take n (x :: rs))))
      /\ (r = -2 <-> from_scanner_end b' = from_buffer_size)) as Hgo.
    { intros b1 d Hp Ho1 Hs He1 Hd H. apply IH in H as (H1 & H2 & H3 & (n & H4) & H5); [|done|done].
      repeat split; [done|done|congruence| |by apply H5|by apply H5].
      exists (S n). rewrite H4, Hp. simpl in *. subst d. rewrite CStr.append_assoc. f_equal.
      destruct x; simpl; try done. by rewrite CStr.append_nil_r. }
    destruct x as [data| | | |].
    + destruct data as [|c data]; [by apply Hstop|]. destruct (_ <? CStr.slen _) eqn:E2; [done|].
      apply (Hgo _ (String c data)); rewrite ?receive_append by done; try done.
      * unfold from_scanner_end in *. simpl from_scanner_start. simpl pending. simpl overrun.
        rewrite CStr.slen_app. lia.
      * simpl. by rewrite CStr.append_nil_r.
    + by apply Hstop.
    + apply (Hgo b EmptyString); try done. by rewrite CStr.append_nil_r.
    + apply (Hgo b EmptyString); try done. by rewrite CStr.append_nil_r.
    + by apply Hstop.
Qed.

(** ** The start of a session *)

(** The calls of [write_to_scanner] in the state [SCANNER_INIT_CONNECTED], each with
    the results GnuTLS gives. *)
Fixpoint connect_rounds (mode : Z) (rounds : list (list send_result)) (s : link)
  : outcome (list Z * link) :=
  match rounds with
  | [] => Ret ([], s)
  | rs :: rounds' =>
      match write_to_scanner 0 0 mode
              (mk_link (l_init s) (l_offset s) (l_out s) (mk_session rs (wire (l_session s)))) with
      | Ret (r, s') =>
          match connect_rounds mode rounds' s' with
          | Ret (l, s'') => Ret (r :: l, s'')
          | NoReturn => NoReturn
          | Undef => Undef
          end
      | NoReturn => NoReturn
      | Undef => Undef
      end
  end.

Definition connected (out : to_server_t) : link :=
  mk_link SCANNER_INIT_CONNECTED 0 out (mk_session [] EmptyString).

Definition wire_of (o : outcome (list Z * link)) : option (list Z * scanner_init_state_t * string) :=
  match o with Ret (l, s) => Some (l, l_init s, wire (l_session s)) | _ => None end.

(** The version goes out whole when GnuTLS takes it in one call of
    [write_to_scanner] or in two.  When GnuTLS takes nothing at first, the result of
    [write_string_to_server] is 0, which is also that of a complete write, and the
    session goes on as if the version had been sent.  The offset kept for the next
    call counts from the last one, so a third call, of which there is one example,
    starts too early; and with an NVT cache to update the next string is written from
    the middle after an incomplete version. *)
Theorem version_sent (out : to_server_t) (mode : Z) (k : nat) :
  (0 < k < 12)%nat -> mode <> 0 ->
  let run mode rounds := wire_of (connect_rounds mode rounds (connected out)) in
  run 0 [[Accepted 12]] = Some ([-3], SCANNER_INIT_SENT_VERSION, version_string)
  /\ run 0 [[Accepted k; GNUTLS_E_AGAIN]; [Accepted (12 - k)]]
     = Some ([-3; -3], SCANNER_INIT_SENT_VERSION, version_string)
  /\ run 0 [[GNUTLS_E_AGAIN]] = Some ([-3], SCANNER_INIT_SENT_VERSION, EmptyString)
  /\ run 0 [[Accepted 5; GNUTLS_E_AGAIN]; [Accepted 3; GNUTLS_E_AGAIN]; [Accepted 9]]
     = Some ([-3; -3; -3], SCANNER_INIT_SENT_VERSION, "< OTP/2." +:+ line "TP/2.0 >")
  /\ run mode [[Accepted 12; Accepted 31]]
     = Some ([-3], SCANNER_INIT_SENT_VERSION, version_string +:+ nvt_info_string)
  /\ run mode [[Accepted 5; GNUTLS_E_AGAIN; Accepted 26]]
     = Some ([-3], SCANNER_INIT_CONNECTED, "< OTP" +:+ line "T <|> NVT_INFO <|> CLIENT").
Proof.
  intros Hk Hm run. unfold run. assert ((mode =? 0) = false) as Em by lia.
  split; [reflexivity|]. split.
  { assert (k ∈ seq 1 11) as Hin by (apply elem_of_seq; lia).
    repeat (apply elem_of_cons in Hin as [->|Hin]; [vm_compute; reflexivity|]).
    by apply elem_of_nil in Hin. }
  split; [reflexivity|]. split; [vm_compute; reflexivity|].
  unfold wire_of, connect_rounds, write_to_scanner, write_version, connected, mbind, M_bind. simpl l_init.
  rewrite Em. split; vm_compute; reflexivity.
Qed.

Lemma version_sent_witness :
  wire_of (connect_rounds (-1) [[Accepted 5; GNUTLS_E_AGAIN; Accepted 26]] (connected to_server_empty))
  = Some ([-3], SCANNER_INIT_CONNECTED, "< OTP" +:+ line "T <|> NVT_INFO <|> CLIENT").
Proof.
  assert (0 < 4 < 12)%nat as Hk by lia. assert (-1 <> 0) as Hm by lia.
  apply (version_sent to_server_empty (-1) 4 Hk Hm).
Defined.
